(* ===== verification/_CoqProject ===== *)
-Q . S2P
Prelude.v
Tables.v
Bufio.v
Bytesconv.v
BytesconvFacts.v
Args.v
ArgsFacts.v
Uri.v
PathFacts.v
Cookie.v
GoTimeUTC.v
CookieFacts.v
Headers.v
HeaderScan.v
Body.v
BodyFacts.v
StreamFacts.v
ReqHeader.v
RespHeader.v
Http.v
HttpResp.v
HeaderFacts.v
ReqFacts.v
ReqRoundtrip.v
HttpFacts.v
HttpStreamFacts.v
HeaderLaws.v
Cleaner.v
CleanerFacts.v
HostClient.v
HostClientFacts.v
Client.v
ClientFacts.v
UserData.v
PerIP.v
WorkerPool.v
WorkerPoolFacts.v
LbClient.v
RequestCtx.v
Server.v
ServerFacts.v
ServerClose.v
ServerPipeline.v
Serving.v
ServingFacts.v
Pipeline.v
PipelineFacts.v
PipelineOrder.v
Fs.v
FsHandler.v
FsFacts.v
FsAccount.v
FsServe.v
FsConfine.v
Theorems.v
HttpTheorems.v
ClientTheorems.v
ServerTheorems.v
FsTheorems.v
PipelineTheorems.v
