(* ===== verification/Prelude.v ===== *)
(** * fasthttp: messages, connections, clients and servers

    fasthttp is an HTTP/1.1 server and client. Its lowest layer is a set of parsers and
    printers over byte slices that are recycled between messages: query arguments
    (args.go), URIs (uri.go), cookies (cookie.go) and the two message headers
    (header.go), all on the conversions of bytesconv.go. http.go adds bodies to the
    headers, in memory or as streams (streaming.go). On this stand the two sides of a
    connection: server.go reads requests in a loop and hands them to a handler, under
    limits kept by peripconn.go and on goroutines kept by workerpool.go; client.go
    sends requests over pooled connections, retries and redirects them, and has idle
    ones cleaned by the timer heap of client_cleaner.go; lbclient.go spreads requests
    over clients. fs_v3.go answers requests from files.

    ** The files

    Bytes and headers:
    - [Prelude]: bytes and Go integers at their width, the functions of Go's [bytes]
      package, a record-update notation, tactics, hint databases and shared lemmas on
      lists and on the reachable states of a step relation.
    - [Tables]: the 256-entry tables of bytesconv_table_gen.go, as functions.
    - [Bufio]: Go's buffered reader over an input that arrives in arbitrary chunks:
      the standard-library object that the read loops and [readHexInt] work on.
    - [Bytesconv], [BytesconvFacts]: bytesconv.go and the percent decoders of args.go.
    - [Args], [ArgsFacts]: args.go. A slice of [argsKV] is its live elements and the
      released ones behind them that the next allocation reuses.
    - [Uri], [PathFacts]: uri.go for Unix. When parsing the host fails, the buffer of
      the host keeps what was given.
    - [Cookie], [GoTimeUTC], [CookieFacts]: cookie.go. Go's time package is the class
      [GoTime]; [GoTimeUTC] is an instance, in which the witnesses compute.
    - [Headers], [HeaderScan]: the constants, status lines, header names and values,
      and [headerScanner], whose edits of the buffer it scans are part of the model:
      the scanned part, the rest, and the stale bytes the edits leave behind.
    - [ReqHeader], [RespHeader]: every operation of [RequestHeader] and
      [ResponseHeader], with Modules of these names: fields, the header map, cookies,
      trailers, reset and copy, printing ([AppendBytes]), parsing ([parse]) and the
      loops that refill the reader ([Read], [ReadTrailer]).
    - [HeaderFacts], [ReqFacts], [ReqRoundtrip]: the scanner, what the parser accepts,
      and the round trip of a request head.
    - [HeaderLaws]: the class [HeaderStore], the map a header offers to its users, its
      consequences, and the two instances.

    Messages with their bodies:
    - [Body], [BodyFacts], [StreamFacts]: the readers and writers of fixed-size,
      chunked and identity bodies, and the streams of streaming.go; [delivers] is what
      a copying loop needs of a stream, and every stream provides it.
    - [Http], [HttpResp]: [Request] and [Response] of http.go, with reading, writing,
      streaming, copying and resetting.
    - [HttpFacts], [HttpStreamFacts]: their laws.

    Clients:
    - [Cleaner], [CleanerFacts]: the timer heap of client_cleaner.go.
    - [HostClient], [HostClientFacts]: the connection pool of client.go: its operations,
      and the steps of callers, dialers, timeouts and the cleaner, in any interleaving.
    - [Client], [ClientFacts]: attempts, retries, redirects, the exchange of one request
      over one connection, and the hosts of a [Client].
    - [LbClient]: lbclient.go.
    - [Pipeline], [PipelineFacts], [PipelineOrder]: the pipelining client of client.go:
      its calls, its queues and the goroutines of its connections as a function from a
      state and an action to the next state, so that an interleaving is a list of
      actions; where every work is, and the order of requests and responses.

    Servers:
    - [UserData], [PerIP]: userdata.go and peripconn.go.
    - [WorkerPool], [WorkerPoolFacts]: workerpool.go, its operations and the steps of
      its goroutines.
    - [RequestCtx]: the methods of [RequestCtx] in server.go.
    - [Server]: [serveConn] of server.go, the loop over the requests of a connection.
    - [ServerFacts], [ServerClose], [ServerPipeline]: the protocol that the events of
      the loop follow, when it stops, and what it does with well-formed requests.
    - [Serving], [ServingFacts]: the limits and tables around [serveConn]: [ServeConn],
      the tracking of connection states, hijacking, [ShutdownWithContext].

    Files:
    - [Fs]: the paths, byte ranges, open files and readers of fs_v3.go. An open file
      stands for what can be read from it; several responses share one [fsFile].
    - [FsHandler]: the handler of fs_v3.go and fs_errors_v3.go: the pools and the cache
      of open files with its cleaner, compression to disk and in memory, index pages,
      [openFSFile], [handleRequest] and [ServeFile]. The state is the file system, all
      [fsFile] objects with what was left in them, the pools, the caches and the list
      of the cleaner; a program on it gives a value, an error or a panic.
    - [FsFacts], [FsAccount]: rules for such programs, the invariant of the open files
      and that requests and ticks of the cleaner keep it.
    - [FsServe]: what a request for a file is answered; [FsConfine]: runs on two file
      systems that agree inside of the root.

    The properties, with their witnesses, are in [Theorems] (bytes and headers),
    [HttpTheorems] (messages), [ClientTheorems], [ServerTheorems], [FsTheorems] and
    [PipelineTheorems].

    ** Conventions

    A [[]byte] and a string are both a [list byte]. A method that changes its receiver
    returns it; a method that can fail returns its error as an [option] or a sum, with
    the receiver as the failing path leaves it; a panic is [None]. Indices are
    [option nat] where Go has -1. Machine integers are [Z] with [wrapS] and [wrapU]
    written where the code can overflow. Loops that are not structural take fuel: the
    parsers pass the length of the buffer plus one, since every round takes a byte of
    it, and the size of the reader's buffer plus two for the read loops, since every
    round needs more bytes buffered than the one before; [request_parse_terminates]
    and [request_read_terminates] show that this fuel is never used up. The connection
    loop runs for a number of [rounds] and says when it is [stillOpen] after them, as a
    connection that is kept alive is: its safety theorems hold for any number of
    rounds, and [pipeline_served] gives the number that suffices.

    Code outside the repository is an argument: the handler, the retry and redirect
    callbacks, the transport of a host, the outcome of every dial, mime/multipart, the
    compressors, the file system and the clock. The network is in the input: the chunks
    and the final error of a reader, and for the server the record [serve_env] of what
    the calls of the connection answer. Concurrent parts are step relations over a
    shared state; a step is what the code does under one hold of its lock or one atomic
    operation, and the theorems are about every reachable state.

    ** The theorems

    Messages: a request, with its body in memory or as a stream, is read back as it was
    sent through any chunking; what is accepted has unambiguous framing and valid names
    and values; the chunked reader accepts the grammar of chunks and nothing else; a
    body read as a stream is the body read into a buffer; parsing ends and stays inside
    its buffer. Paths: [normalizePath] equals the resolution of segments on a stack and
    cannot leave the root. Arguments and cookies: printing and parsing are inverse,
    parsing equals a reference parser, and the recycled slices refine lists. Headers:
    set, delete and lookup obey the laws of a map.

    Clients: the counters of the pool are exact in every interleaving and none of its
    operations panics; connections go to the oldest waiter; an exchange gives its
    connection exactly one fate; attempts and redirects are bounded; the timer cleans
    what is due. The pipelining client matches responses with requests in order, has
    every work in one place in every interleaving, and its signals never block.

    Servers: the events of a connection follow the server's side of HTTP/1.1; requests
    that arrive together are all handled and answered in order; nothing is handled
    after a request that asked to close; the counters of the server, of the addresses
    and of the worker pool are exact in every interleaving, and its workers make
    progress; user values refine a map.

    Files: a request sees nothing outside of the root; every open file is in one place
    and counts its readers exactly, so that none is released while it is read; a file
    or a range of it is answered with exactly its bytes; ranges written by a client
    are parsed to what they mean; the readers deliver their range and end.

    Some theorems, and the findings recorded with them, are about inputs and
    interleavings on which the code does not do what it means to: a starved waiter, a
    connection closed twice, a stream that consumes a byte of the next message, a range
    of a small file, an idle pipelining client that never answers again, and one that
    mixes up its responses.

    ** Not modelled

    Of the file server: fs.go and fs_errors.go, which a build tag excludes; the cache
    managers that are never created; the locks of concurrent requests, since a request
    is one step of its model; the directories made for compressed files; errors of
    [Seek].
    Compression (compress.go, brotli.go, zstd.go call libraries); the linked buffers of
    nocopy_linkbuffer.go, which no other part uses; dialing and TLS; object pools, so that a recycled object is a fresh one except
    where the source reads what was left in it; the Windows passes of [normalizePath];
    [Hostname] and [Port], which call net/url; logging, adaptors to net/http and the
    other sub-packages. [ParseUfloat] returns the mantissa and the decimal exponent, not
    a float. The current date of a response is an argument of [AppendBytes]. Object
    identity is not tracked: where the code lets two slices share bytes (the trailers
    after [CopyTo]) the model copies. *)

From Stdlib Require Import ZArith Strings.Byte.
From Stdlib Require Strings.String.
From stdpp Require Import prelude strings list countable.

Declare Scope go_scope.
Delimit Scope go_scope with go.

(** * Bytes *)

Abbreviation bytes := (list byte).

(** A string literal of the source as the bytes it stands for. *)
Definition bs (s : string) : bytes := String.list_byte_of_string s.

(** The unsigned value of a byte, and the truncating conversion [byte(z)]. *)
Definition bz (b : byte) : Z := Z.of_N (Byte.to_N b).

Definition zb (z : Z) : byte :=
  match Byte.of_N (Z.to_N (z mod 256)) with
  | Some b => b
  | None => x00
  end.

#[global] Instance byte_eq_decision : EqDecision byte.
Proof.
  intros x y. destruct (Byte.eqb x y) eqn:E.
  - left. by apply Byte.byte_dec_bl.
  - right. intros ->. by rewrite Byte.byte_dec_lb in E.
Defined.

#[global] Instance byte_countable : Countable byte :=
  inj_countable' Byte.to_N (λ n, default x00 (Byte.of_N n)) (λ b, ltac:(by destruct b)).

Definition all_bytes : bytes := zb <$> (Z.of_nat <$> seq 0 256).

Lemma zb_bz b : zb (bz b) = b.
Proof. by destruct b. Qed.

Lemma bz_range b : (0 ≤ bz b < 256)%Z.
Proof. pose proof (Byte.to_N_bounded b). unfold bz. lia. Qed.

Lemma all_bytes_complete b : b ∈ all_bytes.
Proof.
  pose proof (bz_range b). unfold all_bytes. rewrite <- (zb_bz b).
  apply list_elem_of_fmap_2. replace (bz b) with (Z.of_nat (Z.to_nat (bz b))) by lia.
  apply list_elem_of_fmap_2, elem_of_seq. lia.
Qed.

(** A decidable property of a byte holds of every byte when the 256 instances
    compute to true. *)
Lemma byte_exhaust (P : byte → bool) :
  forallb P all_bytes = true → ∀ b, P b = true.
Proof.
  intros H b. apply forallb_forall with (x := b) in H; [done|].
  apply list_elem_of_In, all_bytes_complete.
Qed.

Lemma byte_exhaust_dec (P : byte → Prop) `{∀ b, Decision (P b)} :
  forallb (λ b, bool_decide (P b)) all_bytes = true → ∀ b, P b.
Proof. intros Hall b. exact (bool_decide_unpack _ (Is_true_true_2 _ (byte_exhaust _ Hall b))). Qed.

Ltac byte_exhaust :=
  match goal with
  | |- ∀ b : byte, @?P b => apply (byte_exhaust_dec P); vm_compute; reflexivity
  end.

Lemma bz_inj b1 b2 : bz b1 = bz b2 → b1 = b2.
Proof. intros H. by rewrite <- (zb_bz b1), <- (zb_bz b2), H. Qed.

Lemma bz_zb z : bz (zb z) = (z mod 256)%Z.
Proof.
  unfold zb, bz. pose proof (Z.mod_pos_bound z 256 eq_refl) as Hm.
  destruct (Byte.of_N (Z.to_N (z mod 256))) as [b|] eqn:E.
  - apply Byte.to_of_N in E. rewrite E. lia.
  - apply Byte.of_N_None_iff in E. lia.
Qed.

(** * Go integers *)

Definition wrapU (w z : Z) : Z := (z mod 2 ^ w)%Z.
Definition wrapS (w z : Z) : Z := ((z + 2 ^ (w - 1)) mod 2 ^ w - 2 ^ (w - 1))%Z.

Abbreviation int64 := (wrapS 64).
Abbreviation uint64 := (wrapU 64).
Abbreviation int32 := (wrapS 32).
Abbreviation uint32 := (wrapU 32).

Definition maxInt64 : Z := 9223372036854775807.

Lemma int64_small z : (- 2 ^ 63 ≤ z < 2 ^ 63)%Z → int64 z = z.
Proof. intros ?. unfold wrapS. rewrite Z.mod_small; lia. Qed.

Lemma int64_range z : (- 2 ^ 63 ≤ int64 z < 2 ^ 63)%Z.
Proof.
  unfold wrapS. pose proof (Z.mod_pos_bound (z + 2 ^ (64 - 1)) (2 ^ 64) eq_refl). lia.
Qed.

Lemma int64_mod z : (int64 z mod 2 ^ 64 = z mod 2 ^ 64)%Z.
Proof.
  unfold wrapS. change (64 - 1)%Z with 63%Z.
  pose proof (Z.div_mod (z + 2 ^ 63) (2 ^ 64) ltac:(lia)) as E.
  replace ((z + 2 ^ 63) mod 2 ^ 64 - 2 ^ 63)%Z
    with (z + - ((z + 2 ^ 63) / 2 ^ 64) * 2 ^ 64)%Z by lia.
  apply Z.mod_add. lia.
Qed.

(** [x << w | k] for [k] below [1 << w]. *)
Lemma lor_shiftl_add n k w :
  (0 ≤ w)%Z → (0 ≤ k < 2 ^ w)%Z → Z.lor (Z.shiftl n w) k = (n * 2 ^ w + k)%Z.
Proof.
  intros Hw Hk. rewrite <- Z.shiftl_mul_pow2 by done.
  enough (Z.land (Z.shiftl n w) k = 0)%Z as E.
  { pose proof (Z.add_lor_land (Z.shiftl n w) k). lia. }
  apply Z.bits_inj'. intros i Hi. rewrite Z.land_spec, Z.bits_0.
  destruct (decide (i < w)%Z).
  - by rewrite Z.shiftl_spec_low by lia.
  - rewrite andb_false_iff. right.
    apply Z.testbit_false; [lia|]. rewrite Z.div_small; [done|].
    split; [lia|]. eapply Z.lt_le_trans; [apply Hk|]. apply Z.pow_le_mono_r; lia.
Qed.

(** * Record update

    [Etable R] exposes the record constructor applied to every projection, from
    which [r <| f := v |>] builds the record that differs from [r] in [f]. *)

Class Etable (R : Type) := etable : R → R.

Ltac with_field f :=
  lazymatch type of f with
  | ?R → ?T =>
      let e := constr:(_ : Etable R) in
      let e := eval hnf in e in
      let t := constr:(λ (r : R) (v : T),
        ltac:(let b := eval cbv beta in (e r) in
              let b := eval pattern (f r) in b in
              lazymatch b with
              | ?g _ => let u := eval cbv beta in (g v) in exact u
              end)) in
      exact t
  end.

Class Setter {R T : Type} (f : R → T) := setter : R → T → R.
#[global] Hint Extern 0 (Setter ?f) => with_field f : typeclass_instances.

Definition upd {R T} (f : R → T) {s : Setter f} (r : R) (v : T) : R := s r v.
Arguments upd {_ _} _ {_} _ _ /.

Notation "r <| f := v |>" := (upd f r v)
  (at level 1, left associativity, only parsing).

(** * Tactics and hint databases *)

Create HintDb go discriminated.

(** Case analysis on the scrutinee of a [match] or [if]. *)
Ltac case_step :=
  match goal with
  | |- context [match ?x with _ => _ end] =>
      lazymatch x with context [match _ with _ => _ end] => fail | _ => destruct x eqn:? end
  | H : context [match ?x with _ => _ end] |- _ =>
      lazymatch x with context [match _ with _ => _ end] => fail | _ => destruct x eqn:? end
  end.

Ltac case_all := repeat (case_step; simplify_eq/=).

(** * Go's [bytes] package

    An index result is an [option nat]; [None] stands for -1. *)

Fixpoint IndexByte (b : bytes) (c : byte) : option nat :=
  match b with
  | [] => None
  | x :: b => if bool_decide (x = c) then Some 0 else S <$> IndexByte b c
  end.

Fixpoint LastIndexByte (b : bytes) (c : byte) : option nat :=
  match b with
  | [] => None
  | x :: b =>
      match LastIndexByte b c with
      | Some n => Some (S n)
      | None => if bool_decide (x = c) then Some 0 else None
      end
  end.

Fixpoint HasPrefix (b p : bytes) {struct p} : bool :=
  match p, b with
  | [], _ => true
  | y :: p, x :: b => bool_decide (x = y) && HasPrefix b p
  | _ :: _, [] => false
  end.

Fixpoint Index (b sep : bytes) : option nat :=
  if HasPrefix b sep then Some 0
  else match b with
       | [] => None
       | _ :: b => S <$> Index b sep
       end.

Fixpoint LastIndex (b sep : bytes) : option nat :=
  match b with
  | [] => if HasPrefix b sep then Some 0 else None
  | _ :: b' =>
      match LastIndex b' sep with
      | Some n => Some (S n)
      | None => if HasPrefix b sep then Some 0 else None
      end
  end.

Definition Contains (b sep : bytes) : bool :=
  match Index b sep with Some _ => true | None => false end.

Definition Equal (a b : bytes) : bool := bool_decide (a = b).

(** The loops [for len(b) > 0 && b[0] == c { b = b[1:] }] and
    [for len(b) > 0 && b[len(b)-1] == c { b = b[:len(b)-1] }]. *)
Fixpoint trimLeft (c : byte) (b : bytes) : bytes :=
  match b with
  | x :: b' => if bool_decide (x = c) then trimLeft c b' else b
  | [] => []
  end.

Fixpoint trimRight (c : byte) (b : bytes) : bytes :=
  match b with
  | x :: b' =>
      match trimRight c b' with
      | [] => if bool_decide (x = c) then [] else [x]
      | t => x :: t
      end
  | [] => []
  end.

(** [s] occurs in [b]. *)
Definition infix_of (s b : bytes) : Prop := ∃ l r, b = l ++ s ++ r.

Section bytes_lemmas.
Implicit Types (b l r s : bytes) (c : byte).

Lemma IndexByte_Some b c n :
  IndexByte b c = Some n ↔ ∃ l r, b = l ++ c :: r ∧ c ∉ l ∧ n = length l.
Proof.
  revert n. induction b as [|x b IH]; intros n; simpl.
  - split; [done|]. intros ([|??]&?&?&?); done.
  - case_bool_decide as E.
    + subst. split.
      * intros [= <-]. exists [], b. set_solver.
      * intros ([|y l]&r&?&?&?); simplify_eq/=; [done|]. set_solver.
    + rewrite fmap_Some. setoid_rewrite IH. split.
      * intros (?&(l&r&->&?&->)&->). exists (x :: l), r. set_solver.
      * intros ([|y l]&r&?&?&?); simplify_eq/=. exists (length l).
        split; [|done]. exists l, r. set_solver.
Qed.

Lemma IndexByte_None b c : IndexByte b c = None ↔ c ∉ b.
Proof.
  induction b as [|x b IH]; simpl; [set_solver|].
  case_bool_decide; [set_solver|]. rewrite fmap_None, IH. set_solver.
Qed.

Lemma IndexByte_app l r c : c ∉ l → IndexByte (l ++ c :: r) c = Some (length l).
Proof. intros. apply IndexByte_Some. eauto. Qed.

Lemma LastIndexByte_None b c : LastIndexByte b c = None ↔ c ∉ b.
Proof.
  induction b as [|x b IH]; simpl; [set_solver|].
  destruct (LastIndexByte b c) eqn:E.
  - split; [done|]. intros Hn. enough (Some n = None) by done. apply IH. set_solver.
  - case_bool_decide; set_solver.
Qed.

Lemma LastIndexByte_Some b c n :
  LastIndexByte b c = Some n ↔ ∃ l r, b = l ++ c :: r ∧ c ∉ r ∧ n = length l.
Proof.
  revert n. induction b as [|x b IH]; intros n; simpl.
  - split; [done|]. intros ([|??]&?&?&?); done.
  - destruct (LastIndexByte b c) as [m|] eqn:E.
    + destruct (proj1 (IH m) eq_refl) as (l&r&->&?&->). split.
      * intros [= <-]. exists (x :: l), r. done.
      * intros ([|y l']&r'&?&Hn&->); simplify_eq/=; [set_solver|].
        assert (Some (length l) = Some (length l')) as [= ->]; [|done].
        apply IH. eauto.
    + apply LastIndexByte_None in E. case_bool_decide; subst.
      * split; [intros [= <-]; exists [], b; done|].
        intros ([|y l']&r'&?&Hn&->); simplify_eq/=; [done|set_solver].
      * split; [done|]. intros ([|y l']&r'&?&Hn&->); simplify_eq/=. set_solver.
Qed.

Lemma HasPrefix_spec b s : HasPrefix b s = true ↔ ∃ r, b = s ++ r.
Proof.
  revert b. induction s as [|y s IH]; intros b; simpl; [by split; eauto|].
  destruct b as [|x b]; simpl; [by split; [|intros [? ?]]|].
  rewrite andb_true_iff, bool_decide_eq_true, IH.
  split; [intros [-> [r ->]]|intros [r ?]; simplify_eq/=]; eauto.
Qed.

Lemma HasPrefix_app s r : HasPrefix (s ++ r) s = true.
Proof. apply HasPrefix_spec. eauto. Qed.

Lemma Index_Some b s n :
  Index b s = Some n →
  ∃ l r, b = l ++ s ++ r ∧ n = length l ∧
    ∀ l' r', b = l' ++ s ++ r' → length l ≤ length l'.
Proof.
  revert n. induction b as [|x b IH]; intros n; cbn [Index].
  - destruct (HasPrefix [] s) eqn:E; [|done]. apply HasPrefix_spec in E as [r E].
    intros [= <-]. exists [], r. split; [done|]. simpl. split; [done|lia].
  - destruct (HasPrefix (x :: b) s) eqn:E.
    + apply HasPrefix_spec in E as [r E]. intros [= <-]. exists [], r.
      split; [done|]. simpl. split; [done|lia].
    + rewrite fmap_Some. intros (m&Hm&->).
      destruct (IH _ Hm) as (l&r&->&->&Hmin). exists (x :: l), r.
      split_and!; [done..|]. intros [|y l'] r' Heq; simplify_eq/=.
      * rewrite Heq, HasPrefix_app in E. done.
      * apply le_n_S. eauto.
Qed.

Lemma Index_None b s : Index b s = None ↔ ¬ infix_of s b.
Proof.
  unfold infix_of. induction b as [|x b IH]; cbn [Index].
  - destruct (HasPrefix [] s) eqn:E.
    + split; [done|]. apply HasPrefix_spec in E as [r E]. intros []. by exists [], r.
    + split; [|done]. intros _ ([|??]&r&?); [|done]. simpl in *.
      by rewrite H, HasPrefix_app in E.
  - destruct (HasPrefix (x :: b) s) eqn:E.
    + split; [done|]. apply HasPrefix_spec in E as [r E]. intros []. by exists [], r.
    + rewrite fmap_None, IH. split; intros Hn.
      * intros ([|y l]&r&?); simplify_eq/=; [by rewrite H, HasPrefix_app in E|].
        destruct Hn. by exists l, r.
      * intros (l&r&->). destruct Hn. by exists (x :: l), r.
Qed.

Lemma LastIndex_Some b s n :
  LastIndex b s = Some n →
  ∃ l r, b = l ++ s ++ r ∧ n = length l ∧
    ∀ l' r', b = l' ++ s ++ r' → length l' ≤ length l.
Proof.
  revert n. induction b as [|x b IH]; intros n; cbn [LastIndex].
  - destruct (HasPrefix [] s) eqn:E; [|done]. apply HasPrefix_spec in E as [r E].
    intros [= <-]. exists [], r. split_and!; [done..|].
    intros [|??] r' ?; simpl; [lia|done].
  - destruct (LastIndex b s) as [m|] eqn:El.
    + intros [= <-]. destruct (IH _ eq_refl) as (l&r&->&->&Hmax).
      exists (x :: l), r. split_and!; [done..|].
      intros [|y l'] r' Heq; simplify_eq/=; [lia|]. apply le_n_S. eauto.
    + destruct (HasPrefix (x :: b) s) eqn:E; [|done].
      apply HasPrefix_spec in E as [r E]. intros [= <-]. exists [], r.
      split_and!; [done..|]. intros [|y l'] r' Heq; simplify_eq/=; [lia|].
      exfalso. clear -El. induction l' as [|z l' IHl]; cbn [LastIndex app] in El.
      * destruct (s ++ r') eqn:Es; cbn [LastIndex] in El.
        -- apply app_nil in Es as [-> ->]. done.
        -- rewrite <- Es, HasPrefix_app in El. by destruct LastIndex.
      * destruct (LastIndex (l' ++ s ++ r') s); [done|]. auto.
Qed.

Lemma LastIndex_None b s : LastIndex b s = None → ¬ infix_of s b.
Proof.
  intros Hn (l&r&->). induction l as [|z l IHl]; cbn [LastIndex app] in Hn.
  - destruct (s ++ r) eqn:Es; cbn [LastIndex] in Hn.
    + apply app_nil in Es as [-> ->]. done.
    + rewrite <- Es, HasPrefix_app in Hn. by destruct LastIndex.
  - destruct (LastIndex (l ++ s ++ r) s); [done|]. auto.
Qed.
End bytes_lemmas.

(** A loop that appends [f c] for each element is one concatenation. *)
Lemma foldl_append {A B} (f : A → list B) (dst : list B) (l : list A) :
  foldl (λ d c, d ++ f c) dst l = dst ++ (l ≫= f).
Proof.
  revert dst. induction l as [|x l IH]; intros dst; simpl; [by rewrite app_nil_r|].
  by rewrite IH, <- app_assoc.
Qed.

Lemma not_elem_of_bind {A B} (x : B) (f : A → list B) (l : list A) :
  (∀ y, x ∉ f y) → x ∉ l ≫= f.
Proof. intros Hf. rewrite list_elem_of_bind. intros (y&?&?). by eapply Hf. Qed.

(** Induction on the length of a list. *)
Lemma list_length_ind {A} (P : list A → Prop) :
  (∀ l, (∀ l', length l' < length l → P l') → P l) → ∀ l, P l.
Proof. intros H l. apply (induction_ltof1 _ (@length A)). auto. Qed.

(** What holds at first and is kept by every step holds in every state reached. *)
Lemma rtc_invariant {A} (R : relation A) (P : A → Prop) x y :
  P x → (∀ x y, P x → R x y → P y) → rtc R x y → P y.
Proof. intros Hx Hstep Hr. induction Hr; eauto. Qed.

(** * Sums over lists *)

Section sums.
Context {A : Type} (f : A → nat).

Fixpoint total (l : list A) : nat :=
  match l with
  | [] => 0
  | x :: l => f x + total l
  end.

Lemma total_app l1 l2 : total (l1 ++ l2) = total l1 + total l2.
Proof. induction l1 as [|x l1 IH]; cbn; lia. Qed.

Lemma total_cons x l : total (x :: l) = f x + total l.
Proof. done. Qed.

Lemma total_nil : total [] = 0.
Proof. done. Qed.

Lemma total_0 l : (∀ x, x ∈ l → f x = 0) → total l = 0.
Proof.
  intros H. induction l as [|x l IH]; cbn; [done|]. rewrite H by set_solver. apply IH. set_solver.
Qed.

Lemma total_ge l x : x ∈ l → f x ≤ total l.
Proof. intros (l1&l2&->)%list_elem_of_split. rewrite total_app, total_cons. lia. Qed.
End sums.

Lemma total_length {A} (l : list A) : total (λ _, 1) l = length l.
Proof. induction l as [|x l IH]; cbn; lia. Qed.

Lemma total_fmap {A B} (f : B → nat) (g : A → B) l : total f (g <$> l) = total (λ x, f (g x)) l.
Proof. induction l as [|x l IH]; cbn; lia. Qed.

Create Rewrite HintDb totals.
#[export] Hint Rewrite @total_app @total_cons @total_nil @total_fmap : totals.

(** The change of one element. *)
Lemma total_insert {A} (f : A → nat) l i x y :
  l !! i = Some x → total f (<[i := y]> l) + f x = total f l + f y.
Proof.
  intros Hi. rewrite <- (take_drop_middle l i x Hi) at 2.
  rewrite insert_take_drop by by eapply lookup_lt_Some. rewrite !total_app, !total_cons. lia.
Qed.

Lemma total_elem {A} (f : A → nat) l i x : l !! i = Some x → f x ≤ total f l.
Proof. intros Hi. apply total_ge. by eapply list_elem_of_lookup_2. Qed.

Definition is_id (id id' : nat) : nat := if decide (id = id') then 1 else 0.

(** * Splitting at a separator *)

Definition before (c : byte) (b : bytes) : bytes :=
  match IndexByte b c with Some n => take n b | None => b end.

Definition after (c : byte) (b : bytes) : bytes :=
  match IndexByte b c with Some n => drop (S n) b | None => [] end.

Fixpoint split_on (c : byte) (b : bytes) : list bytes :=
  match b with
  | [] => [[]]
  | x :: b =>
      if bool_decide (x = c) then [] :: split_on c b
      else match split_on c b with
           | p :: ps => (x :: p) :: ps
           | [] => [[x]]
           end
  end.

Section split.
Context (c : byte).
Implicit Types b l : bytes.

Lemma split_on_plain l : c ∉ l → split_on c l = [l].
Proof.
  induction l as [|x l IH]; intros H; simpl; [done|].
  rewrite bool_decide_false by set_solver. rewrite IH by set_solver. done.
Qed.

Lemma split_on_app l b : c ∉ l → split_on c (l ++ c :: b) = l :: split_on c b.
Proof.
  induction l as [|x l IH]; intros H; simpl.
  - by rewrite bool_decide_true.
  - rewrite bool_decide_false by set_solver. by rewrite IH by set_solver.
Qed.

Lemma before_cons_ne x b : x ≠ c → before c (x :: b) = x :: before c b.
Proof.
  intros Hx. unfold before. simpl. rewrite bool_decide_false by done.
  by destruct (IndexByte b c).
Qed.

Lemma after_cons_ne x b : x ≠ c → after c (x :: b) = after c b.
Proof.
  intros Hx. unfold after. simpl. rewrite bool_decide_false by done.
  by destruct (IndexByte b c).
Qed.

Lemma before_eq b : before c (c :: b) = [] ∧ after c (c :: b) = b.
Proof. unfold before, after. simpl. by rewrite bool_decide_true. Qed.

Lemma length_after b : b ≠ [] → length (after c b) < length b.
Proof.
  intros Hb. unfold after. destruct (IndexByte b c) as [n|].
  - rewrite length_drop. destruct b; [done|]. simpl. lia.
  - destruct b; [done|]. simpl. lia.
Qed.

(** Removing empty-handed pieces, a split is its first piece and the split of
    what follows. *)
Lemma split_on_unfold {A} (f : bytes → list A) b :
  f [] = [] →
  (split_on c b ≫= f) = f (before c b) ++ (split_on c (after c b) ≫= f).
Proof.
  intros Hf. destruct (IndexByte b c) as [n|] eqn:E; unfold before, after; rewrite E.
  - apply IndexByte_Some in E as (l&r&->&Hl&->).
    rewrite split_on_app by done. cbn [mbind list_bind].
    rewrite take_app_length. f_equal. f_equal. rewrite (cons_middle c), app_assoc.
    by rewrite drop_app_length' by (rewrite length_app; simpl; lia).
  - apply IndexByte_None in E. rewrite split_on_plain by done. simpl.
    by rewrite Hf.
Qed.
End split.
