(* ===== verification/Tables.v ===== *)
(** The byte tables that bytesconv_table_gen.go computes (and writes to
    bytesconv_table.go). A [256]byte table is modelled as the function from its
    index to the entry the generator stores there. *)

From Stdlib Require Import ZArith Strings.Byte.
From stdpp Require Import prelude strings list.
From S2P Require Import Prelude.
Local Open Scope Z_scope.

Definition isLower (i : Z) : bool := (bz "a" <=? i) && (i <=? bz "z").
Definition isUpper (i : Z) : bool := (bz "A" <=? i) && (i <=? bz "Z").
Definition isDigit (i : Z) : bool := (bz "0" <=? i) && (i <=? bz "9").

Definition toLower : Z := bz "a" - bz "A".

Definition hex2intTable (b : byte) : Z :=
  let i := bz b in
  if isDigit i then i - bz "0"
  else if (bz "a" <=? i) && (i <=? bz "f") then i - bz "a" + 10
  else if (bz "A" <=? i) && (i <=? bz "F") then i - bz "A" + 10
  else 16.

Definition toLowerTable (b : byte) : byte :=
  if isUpper (bz b) then zb (bz b + toLower) else b.

Definition toUpperTable (b : byte) : byte :=
  if isLower (bz b) then zb (bz b - toLower) else b.

Definition quotedArgShouldEscapeTable (b : byte) : Z :=
  let i := bz b in
  if isLower i || isUpper i || isDigit i then 0
  else if bool_decide (b ∈ bs "-_.~") then 0
  else 1.

Definition quotedPathShouldEscapeTable (b : byte) : Z :=
  if bool_decide (b ∈ bs "$&+,/:;=@") then 0
  else quotedArgShouldEscapeTable b.

(** A [128]byte table: the entry is read only for [c < 128]. *)
Definition validHeaderFieldByteTable (b : byte) : Z :=
  let c := bz b in
  if isDigit c || isLower c || isUpper c
     || bool_decide (b ∈ bs "!#$%&'*+-.^_`|~")
  then 1 else 0.

Definition validHeaderValueByteTable (b : byte) : Z :=
  let c := bz b in
  if ((0x21 <=? c) && (c <=? 0x7E)) || (c =? 0x20) || (c =? 0x09) || (0x80 <=? c)
  then 1 else 0.

Definition validMethodValueByteTable (b : byte) : Z :=
  if bool_decide (b ∈ bs "!#$%&'*+-.0123456789ABCDEFGHIJKLMNOPQRSTUWVXYZ^_`abcdefghijklmnopqrstuvwxyz|~")
  then 1 else 0.

(** Facts of single bytes, checked over all 256 values. *)

Lemma hex2int_range b : 0 ≤ hex2intTable b ≤ 16.
Proof. revert b. byte_exhaust. Qed.

Lemma toLower_idemp b : toLowerTable (toLowerTable b) = toLowerTable b.
Proof. revert b. byte_exhaust. Qed.

Lemma toUpper_idemp b : toUpperTable (toUpperTable b) = toUpperTable b.
Proof. revert b. byte_exhaust. Qed.

Lemma toLower_not_upper b : isUpper (bz (toLowerTable b)) = false.
Proof. revert b. byte_exhaust. Qed.

(** The method table accepts the header field characters and nothing else. *)
Lemma method_table_is_field_table b :
  validMethodValueByteTable b = validHeaderFieldByteTable b.
Proof. revert b. byte_exhaust. Qed.

(** A valid header value byte is neither CR nor LF. *)
Lemma validHeaderValue_no_newline b :
  validHeaderValueByteTable b = 1 → b ≠ x0d ∧ b ≠ x0a.
Proof. revert b. byte_exhaust. Qed.

#[export] Hint Resolve toLower_idemp toUpper_idemp toLower_not_upper : go.
