(* ===== verification/Bufio.v ===== *)
(** Go's [bufio.Reader] as the sources use it: a bounded buffer filled from an
    underlying reader. The underlying reader is the list of chunks its successive
    [Read] calls can deliver, followed by a sticky error. *)

From Stdlib Require Import ZArith Strings.Byte.
From stdpp Require Import prelude strings list.
From S2P Require Import Prelude.

Inductive ioerror :=
  | EOF
  | ErrUnexpectedEOF
  | ErrBufferFull
  | ErrInvalidUnreadByte
  | ErrOther (msg : bytes).

#[global] Instance ioerror_eq_decision : EqDecision ioerror.
Proof. solve_decision. Defined.

Record Reader := mkReader {
  r_buf : bytes;          (* buffered, not yet consumed *)
  r_chunks : list bytes;  (* what later reads deliver *)
  r_err : ioerror;        (* what reads return afterwards *)
  r_size : nat;           (* capacity of the buffer *)
  r_last : option byte    (* the byte UnreadByte may restore *)
}.

#[global] Instance Reader_etable : Etable Reader :=
  λ r, mkReader (r_buf r) (r_chunks r) (r_err r) (r_size r) (r_last r).

(** Everything the reader will still deliver. *)
Definition r_data (r : Reader) : bytes := r_buf r ++ concat (r_chunks r).

(** The [fill] loop of [Peek]: read until [n] bytes are buffered, the buffer is
    full, or the input is exhausted. *)
Fixpoint fill_until (n size : nat) (buf : bytes) (chunks : list bytes) : bytes * list bytes :=
  if (n <=? length buf) || (size <=? length buf) then (buf, chunks)
  else match chunks with
       | [] => (buf, [])
       | c :: cs =>
           let free := size - length buf in
           if length c <=? free then fill_until n size (buf ++ c) cs
           else (buf ++ take free c, drop free c :: cs)
       end.

Definition Peek (r : Reader) (n : nat) : bytes * option ioerror * Reader :=
  let '(buf, chunks) := fill_until n (r_size r) (r_buf r) (r_chunks r) in
  let r' := r <| r_buf := buf |> <| r_chunks := chunks |> <| r_last := None |> in
  if r_size r <? n then (buf, Some ErrBufferFull, r')
  else if length buf <? n then (buf, Some (r_err r), r')
  else (take n buf, None, r').

Definition Buffered (r : Reader) : nat := length (r_buf r).

(** [Discard] of at most the buffered bytes, the only use in the sources. *)
Definition Discard (r : Reader) (n : nat) : Reader :=
  r <| r_buf := drop n (r_buf r) |> <| r_last := None |>.

Definition ReadByte (r : Reader) : (byte + ioerror) * Reader :=
  let '(buf, chunks) := fill_until 1 (r_size r) (r_buf r) (r_chunks r) in
  match buf with
  | c :: buf' =>
      (inl c, r <| r_buf := buf' |> <| r_chunks := chunks |> <| r_last := Some c |>)
  | [] => (inr (r_err r), r <| r_chunks := chunks |>)
  end.

Definition UnreadByte (r : Reader) : option ioerror * Reader :=
  match r_last r with
  | Some c => (None, r <| r_buf := c :: r_buf r |> <| r_last := None |>)
  | None => (Some ErrInvalidUnreadByte, r)
  end.

(** [Read] into [n] free bytes: what is buffered, or else the result of one [Read] of
    the underlying reader, straight into the destination when that is no smaller than
    the buffer. *)
Definition Read (r : Reader) (n : nat) : bytes * option ioerror * Reader :=
  if bool_decide (n = 0) then ([], None, r)
  else
    let copy buf chunks :=
      (take n buf, None,
       r <| r_buf := drop n buf |> <| r_chunks := chunks |> <| r_last := last (take n buf) |>) in
    match r_buf r, r_chunks r with
    | [], [] => ([], Some (r_err r), r)
    | [], [] :: cs => ([], None, r <| r_chunks := cs |>)
    | [], c :: cs =>
        if r_size r <=? n then
          (take n c, None,
           r <| r_chunks := if length c <=? n then cs else drop n c :: cs |>
             <| r_last := last (take n c) |>)
        else if length c <=? r_size r then copy c cs
        else copy (take (r_size r) c) (drop (r_size r) c :: cs)
    | buf, cs => copy buf cs
    end.

(** A reader whose buffer can hold at least one byte. *)
Definition reader_ok (r : Reader) : Prop := 1 ≤ r_size r.

Section fill.
Lemma fill_until_data n size buf chunks :
  (fill_until n size buf chunks).1 ++ concat (fill_until n size buf chunks).2
  = buf ++ concat chunks.
Proof.
  revert buf. induction chunks as [|c cs IH]; intros buf; simpl; case_all; simpl; try done.
  - rewrite IH. simpl. by rewrite <- app_assoc.
  - rewrite <- app_assoc, (app_assoc (take _ c)), take_drop. done.
Qed.

(** A byte is available after filling unless the input is exhausted. *)
Lemma fill_until_empty size buf chunks :
  1 ≤ size → (fill_until 1 size buf chunks).1 = [] → buf ++ concat chunks = [].
Proof.
  intros Hs He. rewrite <- (fill_until_data 1 size). rewrite He. simpl.
  revert buf He. induction chunks as [|c cs IH]; intros buf; simpl.
  - by case_all.
  - destruct buf as [|x buf].
    + cbn [length Nat.leb orb]. destruct (size <=? 0) eqn:Hz.
      { apply Nat.leb_le in Hz. lia. }
      destruct (length c <=? size - 0) eqn:Hc; [apply IH|]. apply Nat.leb_gt in Hc.
      intros E%(f_equal length). simpl in E. rewrite length_take in E. lia.
    + simpl. done.
Qed.

(** Filling reaches [n] bytes when the input has them and the buffer can hold them. *)
Lemma fill_until_ge n size buf chunks :
  n ≤ size → n ≤ length (buf ++ concat chunks) →
  n ≤ length (fill_until n size buf chunks).1.
Proof.
  intros Hs. revert buf. induction chunks as [|c cs IH]; intros buf Hn; cbn [fill_until concat] in *.
  - rewrite app_nil_r in Hn. by case_match.
  - destruct (Nat.leb_spec n (length buf)); [done|]. destruct (Nat.leb_spec size (length buf)); [simpl; lia|].
    cbn [orb]. destruct (Nat.leb_spec (length c) (size - length buf)).
    + apply IH. by rewrite <- app_assoc.
    + cbn [fst]. rewrite length_app, length_take. lia.
Qed.

Lemma fill_until_prefix n size buf chunks :
  ∃ z, (fill_until n size buf chunks).1 = buf ++ z.
Proof.
  revert buf. induction chunks as [|c cs IH]; intros buf; cbn [fill_until];
    (destruct (_ || _); [exists []; by rewrite app_nil_r|]).
  - exists []. by rewrite app_nil_r.
  - destruct (_ <=? _); [|by eexists]. destruct (IH (buf ++ c)) as (z&->).
    exists (c ++ z). by rewrite <- app_assoc.
Qed.

(** The buffer never grows past its size. *)
Lemma fill_until_le n size buf chunks :
  length buf ≤ size → length (fill_until n size buf chunks).1 ≤ size.
Proof.
  revert buf. induction chunks as [|c cs IH]; intros buf Hb; cbn [fill_until];
    (destruct (_ || _); [done|]); [done|].
  destruct (Nat.leb_spec (length c) (size - length buf)).
  - apply IH. rewrite length_app. lia.
  - cbn [fst]. rewrite length_app, length_take. lia.
Qed.
End fill.

(** [Peek] of what is available returns it and loses nothing. *)
Lemma Peek_ok r n :
  n ≤ r_size r → n ≤ length (r_data r) →
  ∃ r', Peek r n = (take n (r_buf r'), None, r') ∧ n ≤ length (r_buf r') ∧
        r_data r' = r_data r ∧ r_size r' = r_size r ∧ r_err r' = r_err r ∧
        ∃ z, r_buf r' = r_buf r ++ z.
Proof.
  intros Hs Hn. unfold Peek.
  pose proof (fill_until_prefix n (r_size r) (r_buf r) (r_chunks r)) as Hz.
  pose proof (fill_until_data n (r_size r) (r_buf r) (r_chunks r)) as Hd.
  pose proof (fill_until_ge n (r_size r) (r_buf r) (r_chunks r) Hs Hn) as Hl.
  destruct (fill_until _ _ _ _) as [buf chunks]. cbn [fst snd] in *.
  destruct (Nat.ltb_spec (r_size r) n); [lia|]. destruct (Nat.ltb_spec (length buf) n); [lia|].
  exists (r <| r_buf := buf |> <| r_chunks := chunks |> <| r_last := None |>).
  split_and!; [done|done|exact Hd|done|done|exact Hz].
Qed.

(** The reader after some operations: the same buffer size and final error, and still
    no read that delivers nothing if there was none. *)
Definition lively (r : Reader) : Prop := Forall (λ c, c ≠ []) (r_chunks r).

Definition later (r r' : Reader) : Prop :=
  r_size r' = r_size r ∧ r_err r' = r_err r ∧ (lively r → lively r').

#[global] Instance later_preorder : PreOrder later.
Proof.
  split.
  - done.
  - intros r1 r2 r3 (E1&E2&H1) (E3&E4&H2). split_and!; [congruence..|tauto].
Qed.

Lemma later_ok r r' : later r r' → reader_ok r → reader_ok r'.
Proof. unfold reader_ok. intros (->&_). done. Qed.

Lemma later_lively r r' : later r r' → lively r → lively r'.
Proof. intros (_&_&H). done. Qed.

Lemma fill_until_lively n size buf chunks :
  Forall (λ c, c ≠ []) chunks → Forall (λ c, c ≠ []) (fill_until n size buf chunks).2.
Proof.
  revert buf. induction chunks as [|c cs IH]; intros buf Hc; cbn [fill_until];
    (destruct (_ || _); [done|]); [done|].
  apply Forall_cons in Hc as [Hc Hcs].
  destruct (Nat.leb_spec (length c) (size - length buf)); [by apply IH|].
  constructor; [|done]. intros E%(f_equal length). rewrite length_drop in E. simpl in E. lia.
Qed.

Lemma ReadByte_cons r c d :
  reader_ok r → r_data r = c :: d →
  ∃ r', ReadByte r = (inl c, r') ∧ r_data r' = d ∧ r_last r' = Some c ∧ later r r'.
Proof.
  intros Hok Hd. unfold ReadByte.
  pose proof (fill_until_data 1 (r_size r) (r_buf r) (r_chunks r)) as Hf.
  pose proof (fill_until_empty (r_size r) (r_buf r) (r_chunks r) Hok) as Hne.
  pose proof (fill_until_lively 1 (r_size r) (r_buf r) (r_chunks r)) as Hl.
  destruct (fill_until _ _ _ _) as [buf chunks]; simpl in *. unfold r_data in Hd.
  rewrite Hd in *. destruct buf as [|x buf]; [by specialize (Hne eq_refl)|].
  simplify_eq/=. eexists. split; [done|]. unfold r_data. by split_and!.
Qed.

Lemma ReadByte_nil r :
  r_data r = [] →
  ∃ r', ReadByte r = (inr (r_err r), r') ∧ r_data r' = [] ∧ later r r'.
Proof.
  intros Hd. unfold ReadByte.
  pose proof (fill_until_data 1 (r_size r) (r_buf r) (r_chunks r)) as Hf.
  pose proof (fill_until_lively 1 (r_size r) (r_buf r) (r_chunks r)) as Hl.
  destruct (fill_until _ _ _ _) as [buf chunks]; simpl in *. unfold r_data in Hd.
  rewrite Hd in Hf. apply app_nil in Hf as [-> Hc]. eexists. split; [done|].
  unfold r_data in *. simpl. apply app_nil in Hd as [-> _]. by split_and!.
Qed.

Lemma UnreadByte_last r c :
  r_last r = Some c →
  ∃ r', UnreadByte r = (None, r') ∧ r_data r' = c :: r_data r ∧ later r r'.
Proof. intros H. unfold UnreadByte. rewrite H. eexists. split; [done|]. done. Qed.

(** A [Read] delivers a non-empty piece of the data, until there is none. *)
Lemma Read_some r n :
  reader_ok r → lively r → 0 < n → r_data r ≠ [] →
  ∃ b r', Read r n = (b, None, r') ∧ b ≠ [] ∧ length b ≤ n ∧
          r_data r = b ++ r_data r' ∧ later r r'.
Proof.
  intros Hok Hl Hn Hd. unfold Read. rewrite bool_decide_false by lia.
  assert (∀ (l : bytes) k, l ≠ [] → 0 < k → take k l ≠ []) as Hne.
  { intros [|x l] [|k] ??; by try lia. }
  unfold reader_ok, lively, later, r_data in *.
  destruct (r_buf r) as [|x buf] eqn:Eb; [destruct (r_chunks r) as [|[|y c] cs] eqn:Ec|].
  - done.
  - by apply Forall_cons in Hl as [? _].
  - apply Forall_cons in Hl as [Hdn Hcs]. remember (y :: c) as d eqn:Ed. clear Ed.
    assert (∀ k, 0 < k →
      Forall (λ c, c ≠ []) (if length d <=? k then cs else drop k d :: cs)) as Hcs'.
    { intros k Hk. destruct (Nat.leb_spec (length d) k); [done|]. constructor; [|done].
      intros E%(f_equal length). rewrite length_drop in E. simpl in E. lia. }
    destruct (Nat.leb_spec (r_size r) n) as [Hs|Hs];
      [|destruct (Nat.leb_spec (length d) (r_size r)) as [Hs'|Hs']]; eexists _, _;
      (split; [done|]); rewrite !length_take; cbn.
    + rewrite Eb. split_and!; [by apply Hne|lia| |done|done|intros _; apply Hcs'; lia].
      simpl. destruct (Nat.leb_spec (length d) n).
      * by rewrite take_ge by lia.
      * simpl. by rewrite app_assoc, take_drop.
    + split_and!; [by apply Hne|lia| |done|done|done]. by rewrite app_assoc, take_drop.
    + split_and!; [apply Hne; [by apply Hne|lia]|lia| |done|done|].
      * by rewrite (app_assoc (take n _)), take_drop, app_assoc, take_drop.
      * intros _. pose proof (Hcs' (r_size r)) as H.
        destruct (Nat.leb_spec (length d) (r_size r)); [lia|]. by apply H.
  - remember (x :: buf) as d eqn:Ed. assert (d ≠ []) by by rewrite Ed. clear Ed.
    eexists _, _. split; [done|]. rewrite length_take. cbn.
    split_and!; [by apply Hne|lia| |done|done|done]. by rewrite app_assoc, take_drop.
Qed.

Lemma Read_end r n :
  r_data r = [] → lively r → 0 < n → Read r n = ([], Some (r_err r), r).
Proof.
  intros Hd Hl Hn. unfold Read, r_data, lively in *. rewrite bool_decide_false by lia.
  apply app_nil in Hd as [-> Hc]. destruct (r_chunks r) as [|[|y c] cs]; [done| |done].
  by apply Forall_cons in Hl as [? _].
Qed.

Lemma ReadByte_inv r c r' :
  ReadByte r = (inl c, r') → r_data r = c :: r_data r' ∧ r_last r' = Some c ∧ later r r'.
Proof.
  unfold ReadByte.
  pose proof (fill_until_data 1 (r_size r) (r_buf r) (r_chunks r)) as Hf.
  pose proof (fill_until_lively 1 (r_size r) (r_buf r) (r_chunks r)) as Hl.
  destruct (fill_until _ _ _ _) as [[|x buf] chunks]; [done|]. simpl in *. intros [= <- <-].
  unfold r_data. rewrite <- Hf. by split_and!.
Qed.

Lemma UnreadByte_inv r r' :
  UnreadByte r = (None, r') → ∃ c, r_last r = Some c ∧ r_data r' = c :: r_data r ∧ later r r'.
Proof.
  destruct (r_last r) as [c|] eqn:E; [|unfold UnreadByte; by rewrite E].
  destruct (UnreadByte_last r c E) as (r1&->&?&?). intros [= ->]. by eauto.
Qed.

Lemma Peek_later r n : later r (Peek r n).2.
Proof.
  unfold Peek. pose proof (fill_until_lively n (r_size r) (r_buf r) (r_chunks r)) as Hl.
  destruct (fill_until _ _ _ _) as [buf chunks]. cbn [snd] in Hl.
  by repeat case_match.
Qed.

Lemma Discard_later r n : later r (Discard r n).
Proof. done. Qed.

Lemma Discard_data r n d rest :
  r_data r = d ++ rest → length d = n → n ≤ length (r_buf r) → r_data (Discard r n) = rest.
Proof.
  intros Hd Hl Hn. unfold r_data, Discard in *. cbn.
  rewrite <- drop_app_le, Hd, drop_app_length' by done. done.
Qed.

#[export] Hint Resolve Discard_later : go.
