(* ===== verification/Bytesconv.v ===== *)
(** bytesconv.go, supplement_utils.go, and the percent decoders of args.go:
    conversions between bytes and integers, IPv4 addresses, HTML and URLs. *)

From Stdlib Require Import ZArith Strings.Byte.
From stdpp Require Import prelude strings list.
From S2P Require Import Prelude Tables Bufio.

(** * Errors *)

Inductive conv_error :=
  | errEmptyIPStr
  | errNoDot (ipStr : bytes)
  | errIPPart (ipStr : bytes) (cause : conv_error)
  | errIPPartTooLarge (ipStr : bytes) (v : Z)
  | errEmptyInt
  | errUnexpectedFirstChar
  | errUnexpectedTrailingChar
  | errTooLongInt
  | errEmptyFloat
  | errDuplicateFloatPoint
  | errUnexpectedFloatEnd
  | errInvalidFloatExponent
  | errUnexpectedFloatChar
  | errEmptyHexNum
  | errTooLargeHexNum
  | errIO (e : ioerror).

#[global] Instance conv_error_eq_decision : EqDecision conv_error.
Proof. solve_decision. Defined.

(** * HTML escaping *)

(** The [switch] of [AppendHTMLEscape]; [] is the empty [sub]. *)
Definition htmlSub (c : byte) : bytes :=
  if bool_decide (c = "&"%byte) then bs "&amp;"
  else if bool_decide (c = "<"%byte) then bs "&lt;"
  else if bool_decide (c = ">"%byte) then bs "&gt;"
  else if bool_decide (c = x22) then bs "&#34;"
  else if bool_decide (c = "'"%byte) then bs "&#39;"
  else [].

(** [seg] is [s[prev:i]], the part seen since the last substitution. *)
Fixpoint AppendHTMLEscape_loop (dst seg s : bytes) : bytes :=
  match s with
  | [] => dst ++ seg
  | c :: s =>
      match htmlSub c with
      | [] => AppendHTMLEscape_loop dst (seg ++ [c]) s
      | sub => AppendHTMLEscape_loop (dst ++ seg ++ sub) [] s
      end
  end.

Definition AppendHTMLEscape (dst s : bytes) : bytes := AppendHTMLEscape_loop dst [] s.
Definition AppendHTMLEscapeBytes (dst s : bytes) : bytes := AppendHTMLEscape dst s.

(** * Decimal integers *)

(** The digit loop of [AppendUint]: [acc] is [buf[i:]], [room] is [i]. Running
    out of room is the index-out-of-range panic, [None]. *)
Fixpoint AppendUint_loop (room : nat) (n : Z) (acc : bytes) : option bytes :=
  match room with
  | O => None
  | S room =>
      if (n >=? 10)%Z then
        let q := (n / 10)%Z in
        AppendUint_loop room q (zb (bz "0" + (n - q * 10)) :: acc)
      else Some (zb (bz "0" + n) :: acc)
  end.

(** [None] is a panic. *)
Definition AppendUint (dst : bytes) (n : Z) : option bytes :=
  if (n <? 0)%Z then None
  else buf ← AppendUint_loop 20 n []; Some (dst ++ buf).

(** Writes the digits at the end of [dst] and returns that suffix of [dst]. *)
Definition AppendUintInto (dst : bytes) (n : Z) : option bytes :=
  if (n <? 0)%Z then None else AppendUint_loop (length dst) n [].

(** [i] counts the digits read so far. *)
Fixpoint parseUintBuf_loop (b : bytes) (i : nat) (v : Z) : Z * nat * option conv_error :=
  match b with
  | [] => (v, i, None)
  | c :: b =>
      let k := wrapU 8 (bz c - bz "0") in
      if (k >? 9)%Z then
        if bool_decide (i = 0) then ((-1)%Z, i, Some errUnexpectedFirstChar) else (v, i, None)
      else
        let vNew := int64 (10 * v + k) in
        if (vNew <? v)%Z then ((-1)%Z, i, Some errTooLongInt)
        else parseUintBuf_loop b (S i) vNew
  end.

Definition parseUintBuf (b : bytes) : Z * nat * option conv_error :=
  if bool_decide (length b = 0) then ((-1)%Z, 0, Some errEmptyInt)
  else parseUintBuf_loop b 0 0.

Definition ParseUint (buf : bytes) : Z * option conv_error :=
  let '(v, n, err) := parseUintBuf buf in
  if bool_decide (n ≠ length buf) then ((-1)%Z, Some errUnexpectedTrailingChar) else (v, err).

(** * Unsigned floats

    The value returned is [float64(uf_mant) * math.Pow10(uf_exp)]; the rounding
    of that product is not modelled. *)
Record ufloat := Ufloat { uf_mant : Z; uf_exp : Z }.

Fixpoint ParseUfloat_loop (b : bytes) (v offset : Z) (pointFound : bool)
    : ufloat + conv_error :=
  match b with
  | [] => inl (Ufloat v offset)
  | c :: b =>
      if (bz c <? bz "0")%Z || (bz c >? bz "9")%Z then
        if bool_decide (c = "."%byte) then
          if pointFound then inr errDuplicateFloatPoint else ParseUfloat_loop b v offset true
        else if bool_decide (c = "e"%byte) || bool_decide (c = "E"%byte) then
          match b with
          | [] => inr errUnexpectedFloatEnd
          | s :: b' =>
              let '(b, minus) :=
                if bool_decide (s = "+"%byte) then (b', 1%Z)
                else if bool_decide (s = "-"%byte) then (b', (-1)%Z)
                else (b, 1%Z) in
              match ParseUint b with
              | (_, Some _) => inr errInvalidFloatExponent
              | (vv, None) => inl (Ufloat v (int64 (minus * vv + offset)))
              end
          end
        else inr errUnexpectedFloatChar
      else
        ParseUfloat_loop b (uint64 (10 * v + (bz c - bz "0")))
          (if pointFound then offset - 1 else offset) pointFound
  end.

Definition ParseUfloat (buf : bytes) : ufloat + conv_error :=
  if bool_decide (length buf = 0) then inr errEmptyFloat
  else ParseUfloat_loop buf 0 0 false.

(** * Hexadecimal integers *)

Definition maxHexIntChars : nat := 15.

Definition upperhex : bytes := bs "0123456789ABCDEF".
Definition lowerhex : bytes := bs "0123456789abcdef".

(** [tbl[n]], for [n] below the table's length of 16. *)
Definition hexdigit (tbl : bytes) (n : Z) : byte := nth (Z.to_nat n) tbl x00.

(** One iteration per byte the reader can still deliver, and one for its end. *)
Fixpoint readHexInt_loop (fuel : nat) (r : Reader) (i : nat) (n : Z)
    : (Z * option conv_error) * Reader :=
  match fuel with
  | O => (((-1)%Z, None), r)
  | S fuel =>
      match ReadByte r with
      | (inr err, r) =>
          if bool_decide (err = EOF) && (0 <? i) then ((n, None), r)
          else (((-1)%Z, Some (errIO err)), r)
      | (inl c, r) =>
          let k := hex2intTable c in
          if (k =? 16)%Z then
            if bool_decide (i = 0) then (((-1)%Z, Some errEmptyHexNum), r)
            else match UnreadByte r with
                 | (Some err, r) => (((-1)%Z, Some (errIO err)), r)
                 | (None, r) => ((n, None), r)
                 end
          else if maxHexIntChars <=? i then (((-1)%Z, Some errTooLargeHexNum), r)
          else readHexInt_loop fuel r (S i) (Z.lor (int64 (Z.shiftl n 4)) k)
      end
  end.

Definition readHexInt (r : Reader) : (Z * option conv_error) * Reader :=
  readHexInt_loop (S (length (r_data r))) r 0 0.

(** [room] is the index [i] plus one; [None] is a panic. *)
Fixpoint writeHexInt_loop (room : nat) (n : Z) (acc : bytes) : option bytes :=
  match room with
  | O => None
  | S room =>
      let acc := hexdigit lowerhex (Z.land n 15) :: acc in
      let n := Z.shiftr n 4 in
      if (n =? 0)%Z then Some acc else writeHexInt_loop room n acc
  end.

(** The bytes handed to [w.Write]. *)
Definition writeHexInt (n : Z) : option bytes :=
  if (n <? 0)%Z then None else writeHexInt_loop 16 n [].

(** * Letters *)

Definition lowercaseBytes (b : bytes) : bytes := toLowerTable <$> b.

(** * URL quoting *)

Definition quoteArgByte (c : byte) : bytes :=
  if bool_decide (c = " "%byte) then ["+"%byte]
  else if bool_decide (quotedArgShouldEscapeTable c ≠ 0%Z) then
    ["%"%byte; hexdigit upperhex (Z.shiftr (bz c) 4); hexdigit upperhex (Z.land (bz c) 15)]
  else [c].

Definition AppendQuotedArg (dst src : bytes) : bytes :=
  foldl (λ dst c, dst ++ quoteArgByte c) dst src.

Definition quotePathByte (c : byte) : bytes :=
  if bool_decide (quotedPathShouldEscapeTable c ≠ 0%Z) then
    ["%"%byte; hexdigit upperhex (Z.shiftr (bz c) 4); hexdigit upperhex (Z.land (bz c) 15)]
  else [c].

Definition appendQuotedPath (dst src : bytes) : bytes :=
  if bool_decide (src = ["*"%byte]) then dst ++ ["*"%byte]
  else foldl (λ dst c, dst ++ quotePathByte c) dst src.

(** * URL unquoting (args.go) *)

(** The slow path from [i], on [src[i:]]. [plus] says whether '+' becomes ' '. *)
Fixpoint decode_slow (plus : bool) (dst src : bytes) : bytes :=
  match src with
  | [] => dst
  | c :: rest =>
      if bool_decide (c = "%"%byte) then
        match rest with
        | h1 :: h2 :: rest' =>
            let x2 := hex2intTable h2 in
            let x1 := hex2intTable h1 in
            if (x1 =? 16)%Z || (x2 =? 16)%Z then decode_slow plus (dst ++ ["%"%byte]) rest
            else decode_slow plus (dst ++ [zb (Z.lor (Z.shiftl x1 4) x2)]) rest'
        | _ => dst ++ src
        end
      else if plus && bool_decide (c = "+"%byte) then decode_slow plus (dst ++ [" "%byte]) rest
      else decode_slow plus (dst ++ [c]) rest
  end.

Definition decodeArgAppend (dst src : bytes) : bytes :=
  let go idx := decode_slow true (dst ++ take idx src) (drop idx src) in
  match IndexByte src "%", IndexByte src "+" with
  | None, None => dst ++ src
  | None, Some idxPlus => go idxPlus
  | Some idxPercent, None => go idxPercent
  | Some idxPercent, Some idxPlus => if idxPlus <? idxPercent then go idxPlus else go idxPercent
  end.

Definition decodeArgAppendNoPlus (dst src : bytes) : bytes :=
  match IndexByte src "%" with
  | None => dst ++ src
  | Some idx => decode_slow false (dst ++ take idx src) (drop idx src)
  end.

Definition AppendUnquotedArg (dst src : bytes) : bytes := decodeArgAppend dst src.

(** * IPv4 addresses *)

(** [net.IP.To4] of the standard library. *)
Definition To4 (ip : bytes) : option bytes :=
  if length ip =? 4 then Some ip
  else if (length ip =? 16) && bool_decide (take 12 ip = replicate 10 x00 ++ [xff; xff])
  then Some (drop 12 ip) else None.

(** [None] is a panic, which [AppendUint] raises only on negative numbers. *)
Definition AppendIPv4 (dst ip : bytes) : option bytes :=
  match To4 ip with
  | None => Some (dst ++ bs "non-v4 ip passed to AppendIPv4")
  | Some ip =>
      dst ← AppendUint dst (bz (nth 0 ip x00));
      foldl (λ d x, dst ← d; AppendUint (dst ++ ["."%byte]) (bz x)) (Some dst) (drop 1 ip)
  end.

(** The loop over the first three parts, [i] counting up to 3; the address under
    construction is returned with an error. *)
Fixpoint ParseIPv4_loop (parts i : nat) (ipStr b dst : bytes) : bytes * option conv_error :=
  match parts with
  | O =>
      match ParseUint b with
      | (_, Some err) => (dst, Some (errIPPart ipStr err))
      | (v, None) =>
          if (v >? 255)%Z then (dst, Some (errIPPartTooLarge ipStr v))
          else (<[3 := zb v]> dst, None)
      end
  | S parts =>
      match IndexByte b "." with
      | None => (dst, Some (errNoDot ipStr))
      | Some n =>
          match ParseUint (take n b) with
          | (_, Some err) => (dst, Some (errIPPart ipStr err))
          | (v, None) =>
              if (v >? 255)%Z then (dst, Some (errIPPartTooLarge ipStr v))
              else ParseIPv4_loop parts (S i) ipStr (drop (S n) b) (<[i := zb v]> dst)
          end
      end
  end.

Definition ParseIPv4 (dst ipStr : bytes) : bytes * option conv_error :=
  if bool_decide (length ipStr = 0) then (dst, Some errEmptyIPStr)
  else ParseIPv4_loop 3 0 ipStr ipStr (replicate 4 x00).
