(* ===== verification/BytesconvFacts.v ===== *)
(** Theorems about Bytesconv: exact values and round trips of the decimal and
    hexadecimal conversions, the percent codec, HTML escaping and IPv4. *)

From Stdlib Require Import ZArith Strings.Byte.
From stdpp Require Import prelude strings list.
From S2P Require Import Prelude Tables Bufio Bytesconv.

(** * Positional numerals *)

Definition is_digit (c : byte) : Prop := isDigit (bz c) = true.
#[global] Instance is_digit_dec c : Decision (is_digit c) := decide (_ = true).

(** The value of [ds] read after a prefix of value [v]. *)
Definition decval (v : Z) (ds : bytes) : Z :=
  foldl (λ v c, 10 * v + (bz c - 48))%Z v ds.

Lemma is_digit_range c : is_digit c ↔ (48 ≤ bz c ≤ 57)%Z.
Proof. unfold is_digit, isDigit. rewrite andb_true_iff, !Z.leb_le. done. Qed.

Lemma decval_app v ds es : decval v (ds ++ es) = decval (decval v ds) es.
Proof. apply foldl_app. Qed.

Lemma decval_le v ds : (0 ≤ v)%Z → Forall is_digit ds → (v ≤ decval v ds)%Z.
Proof.
  intros Hv Hd. revert v Hv. induction Hd as [|c ds Hc _ IH]; intros v Hv; simpl; [lia|].
  apply is_digit_range in Hc.
  specialize (IH (10 * v + (bz c - 48))%Z). lia.
Qed.

Section uint.
Local Open Scope Z_scope.

Lemma digit_byte n : 0 ≤ n < 10 →
  is_digit (zb (bz "0" + n)) ∧ bz (zb (bz "0" + n)) - 48 = n.
Proof.
  intros Hn. change (bz "0") with 48.
  assert (bz (zb (48 + n)) = 48 + n) as E by (rewrite bz_zb, Z.mod_small; lia).
  split; [apply is_digit_range|]; lia.
Qed.

Lemma AppendUint_loop_spec room n acc :
  0 ≤ n < 10 ^ Z.of_nat room → (0 < room)%nat →
  ∃ ds, AppendUint_loop room n acc = Some (ds ++ acc) ∧
        Forall is_digit ds ∧ ds ≠ [] ∧ decval 0 ds = n.
Proof.
  revert n acc. induction room as [|room IH]; intros n acc Hn Hr; [lia|]. cbn [AppendUint_loop].
  rewrite Z.geb_leb. destruct (Z.leb_spec 10 n) as [H10|H10].
  - assert (0 < Z.of_nat room) as Hroom.
    { destruct room; [|lia]. change (10 ^ Z.of_nat 1) with 10 in Hn. lia. }
    rewrite Nat2Z.inj_succ, Z.pow_succ_r in Hn by lia.
    pose proof (Z.div_mod n 10 ltac:(lia)). pose proof (Z.mod_pos_bound n 10 eq_refl).
    destruct (IH (n / 10) (zb (bz "0" + (n - n / 10 * 10)) :: acc)) as (ds&->&Hds&Hne&Hv);
      [split; [apply Z.div_pos|apply Z.div_lt_upper_bound]; lia|lia|].
    destruct (digit_byte (n - n / 10 * 10)) as [Hd Hdv]; [lia|].
    eexists (ds ++ [_]). rewrite <- app_assoc. split; [done|]. split_and!.
    + apply Forall_app; auto.
    + by destruct ds.
    + rewrite decval_app, Hv. cbn [decval foldl]. rewrite Hdv. lia.
  - destruct (digit_byte n) as [Hd Hdv]; [lia|].
    exists [zb (bz "0" + n)]. split_and!; [done|auto|done|]. cbn [decval foldl]. lia.
Qed.

Lemma AppendUint_spec dst n :
  0 ≤ n < 2 ^ 63 →
  ∃ ds, AppendUint dst n = Some (dst ++ ds) ∧
        Forall is_digit ds ∧ ds ≠ [] ∧ decval 0 ds = n.
Proof.
  intros Hn. unfold AppendUint. destruct (Z.ltb_spec n 0); [lia|].
  destruct (AppendUint_loop_spec 20 n []) as (ds&->&?&?&?); [lia|lia|].
  exists ds. simpl. by rewrite app_nil_r.
Qed.

Lemma digit_k c : is_digit c →
  wrapU 8 (bz c - bz "0") = bz c - 48 ∧ (wrapU 8 (bz c - bz "0") >? 9) = false.
Proof.
  intros ?%is_digit_range. change (bz "0") with 48. unfold wrapU.
  rewrite Z.mod_small by lia. split; [done|]. rewrite Z.gtb_ltb, Z.ltb_ge. lia.
Qed.

Lemma nondigit_k c : ¬ is_digit c → (wrapU 8 (bz c - bz "0") >? 9) = true.
Proof. revert c. byte_exhaust. Qed.

Lemma parseUintBuf_loop_digits ds rest i v :
  Forall is_digit ds → 0 ≤ v → decval v ds < 2 ^ 63 →
  parseUintBuf_loop (ds ++ rest) i v = parseUintBuf_loop rest (length ds + i) (decval v ds).
Proof.
  intros Hds. revert i v. induction Hds as [|c ds Hc Hds IH]; intros i v Hv Hlt; [done|].
  cbn [app parseUintBuf_loop decval foldl] in *. destruct (digit_k c Hc) as [Hk ->].
  rewrite Hk. pose proof Hc as ?%is_digit_range.
  pose proof (decval_le (10 * v + (bz c - 48)) ds ltac:(lia) Hds) as Hle. unfold decval in *.
  rewrite int64_small by lia. destruct (Z.ltb_spec (10 * v + (bz c - 48)) v); [lia|].
  rewrite IH by lia. f_equal. simpl. lia.
Qed.

(** Where the digits end: at the end of the input or at another byte. *)
Definition stops (rest : bytes) : Prop :=
  match rest with [] => True | c :: _ => ¬ is_digit c end.

Lemma parseUintBuf_loop_stop rest i v :
  stops rest → (0 < i)%nat → parseUintBuf_loop rest i v = (v, i, None).
Proof.
  intros Hs Hi. destruct rest as [|c rest]; [done|]. cbn.
  rewrite nondigit_k by done. by case_bool_decide; [lia|].
Qed.

(** The exact value of a decimal prefix that fits an [int64]. *)
Lemma parseUintBuf_digits ds rest :
  Forall is_digit ds → ds ≠ [] → decval 0 ds < 2 ^ 63 → stops rest →
  parseUintBuf (ds ++ rest) = (decval 0 ds, length ds, None).
Proof.
  intros Hds Hne Hlt Hs. unfold parseUintBuf. destruct ds as [|c ds]; [done|].
  case_bool_decide; [done|].
  rewrite parseUintBuf_loop_digits by (done || lia). rewrite Nat.add_0_r.
  apply parseUintBuf_loop_stop; [done|]. simpl. lia.
Qed.
End uint.

Lemma ParseUint_digits ds :
  Forall is_digit ds → ds ≠ [] → (decval 0 ds < 2 ^ 63)%Z →
  ParseUint ds = (decval 0 ds, None).
Proof.
  intros Hds Hne Hlt. unfold ParseUint. rewrite <- (app_nil_r ds) at 1.
  rewrite parseUintBuf_digits by done. by rewrite bool_decide_false by naive_solver.
Qed.

Lemma ParseUint_AppendUint n :
  (0 ≤ n < 2 ^ 63)%Z → ∃ b, AppendUint [] n = Some b ∧ ParseUint b = (n, None).
Proof.
  intros Hn. destruct (AppendUint_spec [] n Hn) as (ds&Ha&Hds&Hne&Hv).
  exists ds. split; [done|]. rewrite ParseUint_digits; [by rewrite Hv|done..|lia].
Qed.

Lemma decval_int64 x ds : int64 (decval (int64 x) ds) = int64 (decval x ds).
Proof.
  assert (∀ x y, (x mod 2 ^ 64 = y mod 2 ^ 64)%Z →
    (decval x ds mod 2 ^ 64 = decval y ds mod 2 ^ 64)%Z) as Hcong.
  { induction ds as [|c ds IH]; intros y z E; [done|]. cbn. apply IH.
    rewrite Z.add_mod, Z.mul_mod, E, <- Z.mul_mod, <- Z.add_mod by lia. done. }
  unfold wrapS at 1 3. f_equal. rewrite <- Z.add_mod_idemp_l by lia.
  rewrite (Hcong _ x), Z.add_mod_idemp_l by (apply int64_mod || lia). done.
Qed.

(** What a successful scan accepted: a non-empty run of digits, maximal in the
    input, whose value is reduced modulo 2^64. *)
Lemma parseUintBuf_loop_inv b i v v' n :
  (0 ≤ v < 2 ^ 63)%Z → parseUintBuf_loop b i v = (v', n, None) →
  ∃ ds rest, b = ds ++ rest ∧ n = length ds + i ∧ Forall is_digit ds ∧ stops rest ∧
    (i = 0 → b ≠ [] → ds ≠ []) ∧ v' = int64 (decval v ds) ∧ (0 ≤ v' < 2 ^ 63)%Z.
Proof.
  revert i v. induction b as [|c b IH]; intros i v Hv; cbn [parseUintBuf_loop].
  - intros [= <- <-]. exists [], []. cbn. rewrite int64_small by lia. naive_solver.
  - destruct (decide (is_digit c)) as [Hc|Hc].
    + destruct (digit_k c Hc) as [Hk ->]. rewrite Hk.
      destruct (Z.ltb_spec (int64 (10 * v + (bz c - 48))) v) as [|Hge]; [done|].
      pose proof (int64_range (10 * v + (bz c - 48))).
      intros (ds&rest&->&->&Hds&Hst&_&->&?)%IH; [|lia].
      exists (c :: ds), rest. split_and!; try done || lia; [simpl; lia|by constructor|].
      exact (decval_int64 (10 * v + (bz c - 48)) ds).
    + rewrite nondigit_k by done. case_bool_decide; [done|]. intros [= <- <-].
      exists [], (c :: b). cbn. rewrite int64_small by lia. naive_solver.
Qed.

Lemma parseUintBuf_inv b v n :
  parseUintBuf b = (v, n, None) →
  ∃ ds rest, b = ds ++ rest ∧ n = length ds ∧ Forall is_digit ds ∧ ds ≠ [] ∧ stops rest ∧
    v = int64 (decval 0 ds) ∧ (0 ≤ v < 2 ^ 63)%Z.
Proof.
  unfold parseUintBuf. case_bool_decide as Hb; [done|].
  intros (ds&rest&->&->&?&?&Hne&?&?)%parseUintBuf_loop_inv; [|lia].
  exists ds, rest. rewrite Nat.add_0_r. split_and!; try (done || lia).
  apply Hne; [done|]. intros E. by rewrite E in Hb.
Qed.

(** * Hexadecimal *)

Definition is_hex (c : byte) : Prop := (hex2intTable c ≠ 16)%Z.
#[global] Instance is_hex_dec c : Decision (is_hex c) := decide (_ ≠ _).

Definition hexval (v : Z) (ds : bytes) : Z :=
  foldl (λ v c, 16 * v + hex2intTable c)%Z v ds.

Lemma is_hex_range c : is_hex c → (0 ≤ hex2intTable c < 16)%Z.
Proof. unfold is_hex. pose proof (hex2int_range c). lia. Qed.

Lemma lowerhex_digit n : (0 ≤ n < 16)%Z →
  is_hex (hexdigit lowerhex n) ∧ hex2intTable (hexdigit lowerhex n) = n.
Proof.
  intros Hn. assert (∃ k, n = Z.of_nat k ∧ k < 16) as (k&->&Hk) by (exists (Z.to_nat n); lia).
  do 16 (destruct k as [|k]; [by split; vm_compute|]). lia.
Qed.

Lemma writeHexInt_loop_spec room n acc :
  (0 ≤ n < 16 ^ Z.of_nat room)%Z → 0 < room →
  ∃ ds, writeHexInt_loop room n acc = Some (ds ++ acc) ∧
        Forall is_hex ds ∧ ds ≠ [] ∧ length ds ≤ room ∧ hexval 0 ds = n.
Proof.
  revert n acc. induction room as [|room IH]; intros n acc Hn Hr; [lia|].
  cbn [writeHexInt_loop]. rewrite Z.shiftr_div_pow2 by lia.
  change 15%Z with (Z.ones 4). rewrite Z.land_ones by lia. change (2 ^ 4)%Z with 16%Z.
  pose proof (Z.div_mod n 16 ltac:(lia)). pose proof (Z.mod_pos_bound n 16 eq_refl).
  destruct (lowerhex_digit (n mod 16)) as [Hx Hv]; [lia|].
  destruct (Z.eqb_spec (n / 16) 0) as [E|E].
  - eexists [_]. cbn [app hexval foldl length]. rewrite Hv.
    split_and!; [done|auto|done|lia|lia].
  - rewrite Nat2Z.inj_succ, Z.pow_succ_r in Hn by lia.
    assert (0 < room).
    { destruct room; [|lia]. change (16 * 16 ^ Z.of_nat 0)%Z with 16%Z in Hn.
      rewrite Z.div_small in E by lia. done. }
    destruct (IH (n / 16)%Z (hexdigit lowerhex (n mod 16) :: acc)) as (ds&->&Hds&Hne&Hl&Hdv);
      [split; [apply Z.div_pos|apply Z.div_lt_upper_bound]; lia|lia|].
    eexists (ds ++ [_]). rewrite <- app_assoc. split; [done|]. rewrite length_app. cbn [length].
    split_and!; [apply Forall_app; auto|by destruct ds|lia|].
    unfold hexval in *. rewrite foldl_app, Hdv. cbn [foldl]. rewrite Hv. lia.
Qed.

(** The digits of a number below 16^k are at most [k] many. *)
Lemma writeHexInt_spec n (k : nat) :
  (0 ≤ n < 16 ^ Z.of_nat k)%Z → 0 < k ≤ 16 →
  ∃ ds, writeHexInt n = Some ds ∧ Forall is_hex ds ∧ ds ≠ [] ∧ length ds ≤ k ∧
        hexval 0 ds = n.
Proof.
  intros Hn Hk. destruct (writeHexInt_loop_spec k n [] Hn) as (ds&Hw&H); [lia|].
  exists ds. rewrite app_nil_r in Hw. split; [|done]. unfold writeHexInt.
  destruct (Z.ltb_spec n 0); [lia|]. clear H Hn. destruct Hk as [_ Hk].
  revert Hw Hk. generalize 16 as m, (@nil byte) as acc. revert n H0.
  induction k as [|k IH]; intros n Hn m acc Hw Hk; [done|]. destruct m as [|m]; [lia|].
  cbn [writeHexInt_loop] in *. destruct (_ =? 0)%Z; [done|]. apply IH; [apply Z.shiftr_nonneg; lia|done|lia].
Qed.

Lemma hexval_shift n k :
  (0 ≤ n < 16 ^ 14)%Z → (0 ≤ k < 16)%Z → Z.lor (int64 (Z.shiftl n 4)) k = (16 * n + k)%Z.
Proof.
  intros Hn Hk. rewrite int64_small by (rewrite Z.shiftl_mul_pow2; lia).
  rewrite lor_shiftl_add by lia. lia.
Qed.

Lemma readHexInt_loop_digits ds fuel r i n rest :
  Forall is_hex ds → reader_ok r → r_data r = ds ++ rest → length ds + i ≤ 15 →
  (0 ≤ n < 16 ^ Z.of_nat i)%Z → length ds ≤ fuel →
  ∃ r', readHexInt_loop fuel r i n
        = readHexInt_loop (fuel - length ds) r' (length ds + i) (hexval n ds) ∧
        r_data r' = rest ∧ later r r'.
Proof.
  intros Hds. revert fuel r i n. induction Hds as [|c ds Hc Hds IH]; intros fuel r i n Hok Hd Hi Hn Hf.
  { exists r. by rewrite Nat.sub_0_r. }
  destruct fuel as [|fuel]; simpl in Hf; [lia|]. cbn [readHexInt_loop].
  destruct (ReadByte_cons r c (ds ++ rest) Hok Hd) as (r1&->&Hd1&_&Hl1). pose proof (later_ok _ _ Hl1 Hok) as Hok1.
  pose proof (is_hex_range c Hc).
  destruct (Z.eqb_spec (hex2intTable c) 16); [lia|]. cbn [length] in Hi.
  unfold maxHexIntChars. destruct (Nat.leb_spec 15 i); [lia|].
  assert (16 ^ Z.of_nat i ≤ 16 ^ 14)%Z by (apply Z.pow_le_mono_r; lia).
  rewrite hexval_shift by lia.
  destruct (IH fuel r1 (S i) (16 * n + hex2intTable c)%Z) as (r'&->&?&?);
    [done|done|lia|rewrite Nat2Z.inj_succ, Z.pow_succ_r; lia|lia|].
  exists r'. split_and!; [|done|by trans r1].
  cbn [length hexval foldl Nat.sub]. f_equal. lia.
Qed.

(** What the reader holds after the digits: another byte, or a clean end. *)
Definition hex_stops (r : Reader) (rest : bytes) : Prop :=
  match rest with [] => r_err r = EOF | c :: _ => ¬ is_hex c end.

Lemma readHexInt_digits r ds rest :
  reader_ok r → r_data r = ds ++ rest → Forall is_hex ds → ds ≠ [] → length ds ≤ 15 →
  hex_stops r rest →
  ∃ r', readHexInt r = ((hexval 0 ds, None), r') ∧ r_data r' = rest ∧ later r r'.
Proof.
  intros Hok Hd Hds Hne Hl Hs. unfold readHexInt. rewrite Hd, length_app.
  destruct (readHexInt_loop_digits ds (S (length ds + length rest)) r 0 0 rest)
    as (r1&->&Hd1&Hl1); [done..|lia|lia|lia|]. pose proof (later_ok _ _ Hl1 Hok) as Hok1.
  replace (S (length ds + length rest) - length ds) with (S (length rest)) by lia.
  assert (0 < length ds) by (destruct ds; [done|simpl; lia]).
  cbn [readHexInt_loop]. destruct rest as [|c rest].
  - destruct (ReadByte_nil r1 Hd1) as (r2&->&Hd2&Hl2). simpl in Hs. pose proof Hl1 as (_&He1&_). rewrite He1, Hs.
    rewrite Nat.add_0_r, bool_decide_true by done. cbn [andb].
    destruct (Nat.ltb_spec 0 (length ds)); [|lia]. exists r2. split_and!; [done..|by trans r1].
  - destruct (ReadByte_cons r1 c rest Hok1 Hd1) as (r2&->&Hd2&Hlast&Hl2).
    simpl in Hs. unfold is_hex in Hs. destruct (Z.eqb_spec (hex2intTable c) 16); [|done].
    rewrite bool_decide_false by lia.
    destruct (UnreadByte_last r2 c Hlast) as (r3&->&Hd3&Hl3). rewrite Hd2 in Hd3.
    exists r3. split_and!; [done..|by trans r1; [|trans r2]].
Qed.

Lemma readHexInt_loop_inv fuel r i n m r' :
  readHexInt_loop fuel r i n = ((m, None), r') → reader_ok r → length (r_data r) < fuel →
  i ≤ 15 → (0 ≤ n < 16 ^ Z.of_nat i)%Z →
  ∃ ds, r_data r = ds ++ r_data r' ∧ Forall is_hex ds ∧ 0 < length ds + i ≤ 15 ∧
        m = hexval n ds ∧ (r_data r' = [] ∨ ∃ c d, r_data r' = c :: d ∧ ¬ is_hex c) ∧ later r r'.
Proof.
  revert r i n. induction fuel as [|fuel IH]; intros r i n H Hok Hf Hi Hn; [lia|].
  cbn [readHexInt_loop] in H. destruct (r_data r) as [|c d] eqn:E.
  - destruct (ReadByte_nil r E) as (r1&Hr&Hd1&Hl1). rewrite Hr in H.
    destruct (bool_decide (r_err r = EOF)); [|done]. cbn [andb] in H.
    destruct (Nat.ltb_spec 0 i); [|done]. simplify_eq. exists []. rewrite Hd1.
    split_and!; [done|done|simpl; lia|simpl; lia|done|by left|done].
  - destruct (ReadByte_cons r c d Hok E) as (r1&Hr&Hd1&Hlast&Hl1). rewrite Hr in H.
    cbn [length] in Hf.
    destruct (Z.eqb_spec (hex2intTable c) 16) as [Hx|Hx].
    + case_bool_decide; [done|]. destruct (UnreadByte r1) as [[?|] r2] eqn:Hu; [done|].
      simplify_eq. apply UnreadByte_inv in Hu as (c'&Hc'&Hd2&Hl2). simplify_eq.
      exists []. rewrite Hd2. split_and!; [done|done|simpl; lia|simpl; lia|done| |by trans r1].
      right. eexists c', _. split; [done|]. intros Hh. by apply Hh.
    + unfold maxHexIntChars in H. destruct (Nat.leb_spec 15 i); [done|].
      pose proof (is_hex_range c Hx).
      assert (16 ^ Z.of_nat i ≤ 16 ^ 14)%Z by (apply Z.pow_le_mono_r; lia).
      rewrite hexval_shift in H by lia.
      apply IH in H as (ds&Hd2&Hds&Hlen&->&Hstop&Hl2);
        [|by eapply later_ok|rewrite Hd1; lia|lia|rewrite Nat2Z.inj_succ, Z.pow_succ_r; lia].
      exists (c :: ds). rewrite <- Hd1, Hd2.
      split_and!; [done|by constructor|simpl; lia|simpl; lia|done|done|by trans r1].
Qed.

(** A number that was read is what its digits say. *)
Lemma readHexInt_inv r m r' :
  readHexInt r = ((m, None), r') → reader_ok r →
  ∃ ds, r_data r = ds ++ r_data r' ∧ Forall is_hex ds ∧ ds ≠ [] ∧ length ds ≤ 15 ∧
        m = hexval 0 ds ∧ (r_data r' = [] ∨ ∃ c d, r_data r' = c :: d ∧ ¬ is_hex c) ∧ later r r'.
Proof.
  intros H Hok. apply readHexInt_loop_inv in H as (ds&?&?&?&?&?&?); [|done|lia|lia|simpl; lia].
  exists ds. split_and!; try done; [|lia]. intros ->. simpl in *. lia.
Qed.

(** * The percent codec *)

(** The reference decoder, by the value of hexadecimal digits: "%XY" stands for the
    byte 16 X + Y, '+' for a blank when [plus] is set, and every other byte for
    itself; a '%' in the last two positions ends the decoding. *)
Definition hex_value (c : byte) : option Z :=
  let z := bz c in
  if isDigit z then Some (z - 48)%Z
  else if ((97 <=? z) && (z <=? 102))%Z then Some (z - 87)%Z
  else if ((65 <=? z) && (z <=? 70))%Z then Some (z - 55)%Z
  else None.

Fixpoint percent_decode (plus : bool) (src : bytes) : bytes :=
  match src with
  | [] => []
  | c :: rest =>
      if bool_decide (c = "%"%byte) then
        match rest with
        | h1 :: h2 :: rest' =>
            match hex_value h1, hex_value h2 with
            | Some x, Some y => zb (16 * x + y) :: percent_decode plus rest'
            | _, _ => c :: percent_decode plus rest
            end
        | _ => src
        end
      else (if plus && bool_decide (c = "+"%byte) then " "%byte else c) :: percent_decode plus rest
  end.

Lemma hex2intTable_value c :
  hex_value c = if (hex2intTable c =? 16)%Z then None else Some (hex2intTable c).
Proof. revert c. byte_exhaust. Qed.

Lemma hex_pair x y : (0 ≤ y < 16)%Z → Z.lor (Z.shiftl x 4) y = (16 * x + y)%Z.
Proof. intros H. rewrite lor_shiftl_add by lia. lia. Qed.

Lemma hex2intTable_range c : (hex2intTable c =? 16)%Z = false → (0 ≤ hex2intTable c < 16)%Z.
Proof.
  assert (∀ c, hex2intTable c = 16%Z ∨ (0 ≤ hex2intTable c < 16)%Z) as H by byte_exhaust.
  rewrite Z.eqb_neq. destruct (H c); tauto.
Qed.

Lemma decode_slow_acc plus dst src :
  decode_slow plus dst src = dst ++ percent_decode plus src.
Proof.
  revert dst. induction src as [src IH] using list_length_ind; intros dst.
  destruct src as [|c rest]; cbn [decode_slow percent_decode]; [by rewrite app_nil_r|].
  case_bool_decide as Hc.
  - destruct rest as [|h1 [|h2 rest']]; [done..|]. rewrite !hex2intTable_value.
    destruct (hex2intTable h1 =? 16)%Z eqn:E1, (hex2intTable h2 =? 16)%Z eqn:E2; cbn [orb];
      rewrite IH by (simpl; lia); rewrite <- app_assoc, ?Hc; try done.
    by rewrite hex_pair by (by apply hex2intTable_range).
  - destruct (plus && _); rewrite IH by (simpl; lia); by rewrite <- app_assoc.
Qed.

(** The bytes the decoder treats specially. *)
Definition encoded (plus : bool) (c : byte) : Prop :=
  c = "%"%byte ∨ (plus = true ∧ c = "+"%byte).

Lemma percent_decode_cons plus c src :
  ¬ encoded plus c → percent_decode plus (c :: src) = c :: percent_decode plus src.
Proof.
  unfold encoded. intros Hc. cbn [percent_decode].
  rewrite bool_decide_false by tauto. replace (plus && _) with false; [done|].
  destruct plus; [|done]. simpl. symmetry. apply bool_decide_eq_false. tauto.
Qed.

Lemma percent_decode_plain plus l src :
  Forall (λ c, ¬ encoded plus c) l →
  percent_decode plus (l ++ src) = l ++ percent_decode plus src.
Proof.
  induction 1 as [|c l Hc _ IH]; [done|]. cbn [app]. by rewrite percent_decode_cons, IH.
Qed.

Lemma not_in_Forall (c : byte) l : c ∉ l → Forall (λ x, x ≠ c) l.
Proof. intros H. apply Forall_forall. by intros x Hx ->. Qed.

(** The fast paths and the start index change nothing. *)
Lemma decodeArgAppend_ref dst src :
  decodeArgAppend dst src = dst ++ percent_decode true src.
Proof.
  assert (∀ l r, "%"%byte ∉ l → "+"%byte ∉ l →
    decode_slow true (dst ++ take (length l) (l ++ r)) (drop (length l) (l ++ r))
    = dst ++ percent_decode true (l ++ r)) as Hgo.
  { intros l r H1 H2. rewrite take_app_length, drop_app_length, decode_slow_acc, <- app_assoc.
    rewrite percent_decode_plain; [done|]. apply Forall_forall. unfold encoded. naive_solver. }
  unfold decodeArgAppend.
  destruct (IndexByte src "%") as [i|] eqn:Ei, (IndexByte src "+") as [j|] eqn:Ej.
  - apply IndexByte_Some in Ei as (l1&r1&->&H1&->).
    apply IndexByte_Some in Ej as (l2&r2&E&H2&->).
    destruct (Nat.ltb_spec (length l2) (length l1)) as [Hlt|Hge].
    + rewrite E. apply Hgo; [|done]. intros Hin. apply H1.
      apply (f_equal (take (length l2))) in E.
      rewrite take_app_length, take_app_le in E by lia. rewrite <- E in Hin.
      rewrite <- (take_drop (length l2)). set_solver.
    + apply Hgo; [done|]. intros Hin. apply H2. apply (f_equal (take (length l1))) in E.
      rewrite take_app_length, take_app_le in E by lia. rewrite E in Hin.
      rewrite <- (take_drop (length l1) l2). set_solver.
  - apply IndexByte_Some in Ei as (l&r&->&H1&->). apply IndexByte_None in Ej. set_solver.
  - apply IndexByte_Some in Ej as (l&r&->&H1&->). apply IndexByte_None in Ei. set_solver.
  - apply IndexByte_None in Ei, Ej.
    rewrite <- (app_nil_r src) at 2. rewrite percent_decode_plain; [by rewrite app_nil_r|].
    apply Forall_forall. unfold encoded. naive_solver.
Qed.

Lemma decodeArgAppendNoPlus_ref dst src :
  decodeArgAppendNoPlus dst src = dst ++ percent_decode false src.
Proof.
  unfold decodeArgAppendNoPlus. destruct (IndexByte src "%") as [i|] eqn:Ei.
  - apply IndexByte_Some in Ei as (l&r&->&Hl&->).
    rewrite take_app_length, drop_app_length, decode_slow_acc, <- app_assoc.
    rewrite percent_decode_plain; [done|]. apply Forall_forall. unfold encoded. naive_solver.
  - apply IndexByte_None in Ei. rewrite <- (app_nil_r src) at 2.
    rewrite percent_decode_plain; [by rewrite app_nil_r|].
    apply Forall_forall. unfold encoded. naive_solver.
Qed.

(** An escape triple decodes to its byte. *)
Lemma percent_decode_escape plus c rest :
  percent_decode plus ("%"%byte :: hexdigit upperhex (Z.shiftr (bz c) 4)
                       :: hexdigit upperhex (Z.land (bz c) 15) :: rest)
  = c :: percent_decode plus rest.
Proof.
  cbn [percent_decode]. rewrite bool_decide_true by done.
  assert (∀ c, match hex_value (hexdigit upperhex (Z.shiftr (bz c) 4)),
                     hex_value (hexdigit upperhex (Z.land (bz c) 15)) with
               | Some x, Some y => zb (16 * x + y) = c
               | _, _ => False
               end) as E.
  { assert (∀ c, (if hex_value (hexdigit upperhex (Z.shiftr (bz c) 4)) is Some x then
                    if hex_value (hexdigit upperhex (Z.land (bz c) 15)) is Some y
                    then bool_decide (zb (16 * x + y) = c) else false else false) = true) as E
      by byte_exhaust.
    intros c0. specialize (E c0). repeat case_match; try done. by apply bool_decide_eq_true in E. }
  specialize (E c). repeat case_match; try done. by rewrite E.
Qed.

Lemma percent_decode_quoteArg c rest :
  percent_decode true (quoteArgByte c ++ rest) = c :: percent_decode true rest.
Proof.
  unfold quoteArgByte. case_bool_decide as Hs; [subst; cbn [app]|].
  { cbn [percent_decode]. by rewrite bool_decide_false by done. }
  case_bool_decide as Hq; cbn [app]; [apply percent_decode_escape|].
  apply percent_decode_cons. revert c Hs Hq. unfold encoded.
  assert (∀ c, c = "%"%byte ∨ c = "+"%byte → quotedArgShouldEscapeTable c ≠ 0%Z) by byte_exhaust.
  naive_solver.
Qed.

Lemma percent_decode_quotePath c rest :
  percent_decode false (quotePathByte c ++ rest) = c :: percent_decode false rest.
Proof.
  unfold quotePathByte. case_bool_decide as Hq; cbn [app]; [apply percent_decode_escape|].
  apply percent_decode_cons. unfold encoded.
  assert (∀ c, c = "%"%byte → quotedPathShouldEscapeTable c ≠ 0%Z) by byte_exhaust.
  naive_solver.
Qed.

Lemma percent_decode_quoteArgs s rest :
  percent_decode true ((s ≫= quoteArgByte) ++ rest) = s ++ percent_decode true rest.
Proof.
  induction s as [|c s IH]; [done|]. cbn [mbind list_bind]. rewrite <- app_assoc.
  by rewrite percent_decode_quoteArg, IH.
Qed.

Lemma AppendQuotedArg_bind dst s : AppendQuotedArg dst s = dst ++ (s ≫= quoteArgByte).
Proof. apply foldl_append. Qed.

(** Decoding undoes argument quoting. *)
Lemma decode_quoted_arg dst s : decodeArgAppend dst (AppendQuotedArg [] s) = dst ++ s.
Proof.
  rewrite decodeArgAppend_ref, AppendQuotedArg_bind. f_equal. cbn [app].
  rewrite <- (app_nil_r (s ≫= _)), percent_decode_quoteArgs. apply app_nil_r.
Qed.

(** Decoding undoes path quoting. *)
Lemma decode_quoted_path dst s : decodeArgAppendNoPlus dst (appendQuotedPath [] s) = dst ++ s.
Proof.
  rewrite decodeArgAppendNoPlus_ref. f_equal. unfold appendQuotedPath.
  case_bool_decide; [by subst|]. rewrite foldl_append. cbn [app].
  clear. induction s as [|c s IH]; [done|]. cbn [mbind list_bind].
  by rewrite percent_decode_quotePath, IH.
Qed.

(** A quoted argument contains no separator of a query string. *)
Lemma quoteArg_clean s : "&"%byte ∉ s ≫= quoteArgByte ∧ "="%byte ∉ s ≫= quoteArgByte.
Proof.
  assert (∀ y, "&"%byte ∉ quoteArgByte y ∧ "="%byte ∉ quoteArgByte y) as H by byte_exhaust.
  split; apply not_elem_of_bind; intros y; apply H.
Qed.

(** * HTML escaping *)

(** The reference: every byte replaced on its own. *)
Definition html_escape (c : byte) : bytes := match htmlSub c with [] => [c] | sub => sub end.

Lemma AppendHTMLEscape_ref dst s : AppendHTMLEscape dst s = dst ++ (s ≫= html_escape).
Proof.
  unfold AppendHTMLEscape. enough (∀ seg, AppendHTMLEscape_loop dst seg s
    = dst ++ seg ++ (s ≫= html_escape)) as -> by done. revert dst.
  induction s as [|c s IH]; intros dst seg; cbn [AppendHTMLEscape_loop mbind list_bind].
  { by rewrite app_nil_r. }
  unfold html_escape at 1. destruct (htmlSub c); by rewrite IH, <- !app_assoc.
Qed.

Lemma html_escape_safe s c :
  c ∈ ["<"%byte; ">"%byte; x22; "'"%byte] → c ∉ s ≫= html_escape.
Proof.
  assert (∀ y, Forall (λ c, c ∉ html_escape y) ["<"%byte; ">"%byte; x22; "'"%byte]) as H
    by byte_exhaust.
  intros Hc. apply not_elem_of_bind. intros y. by apply (proj1 (Forall_forall _ _) (H y)).
Qed.

(** * IPv4 *)

Lemma dot_not_digits ds : Forall is_digit ds → "."%byte ∉ ds.
Proof. intros Hd Hin. by apply (proj1 (Forall_forall _ _) Hd) in Hin. Qed.

Lemma ParseIPv4_part parts i ipStr ds b dst x :
  Forall is_digit ds → ds ≠ [] → decval 0 ds = bz x →
  ParseIPv4_loop (S parts) i ipStr (ds ++ "."%byte :: b) dst
  = ParseIPv4_loop parts (S i) ipStr b (<[i := x]> dst).
Proof.
  intros Hds Hne Hv. pose proof (bz_range x). cbn [ParseIPv4_loop].
  rewrite IndexByte_app by (by apply dot_not_digits).
  rewrite take_app_length, ParseUint_digits by (done || lia). rewrite Hv, Z.gtb_ltb.
  destruct (Z.ltb_spec 255 (bz x)); [lia|]. rewrite zb_bz. do 2 f_equal.
  by rewrite (cons_middle "."%byte ds), app_assoc, drop_app_length' by (rewrite length_app; simpl; lia).
Qed.

Lemma ParseIPv4_last i ipStr ds dst x :
  Forall is_digit ds → ds ≠ [] → decval 0 ds = bz x →
  ParseIPv4_loop 0 i ipStr ds dst = (<[3 := x]> dst, None).
Proof.
  intros Hds Hne Hv. pose proof (bz_range x). cbn [ParseIPv4_loop].
  rewrite ParseUint_digits by (done || lia). rewrite Hv, Z.gtb_ltb.
  destruct (Z.ltb_spec 255 (bz x)); [lia|]. by rewrite zb_bz.
Qed.

Lemma ParseIPv4_AppendIPv4 dst a b c d :
  ∃ s, AppendIPv4 [] [a; b; c; d] = Some s ∧ ParseIPv4 dst s = ([a; b; c; d], None).
Proof.
  assert (∀ dst x, ∃ ds, AppendUint dst (bz x) = Some (dst ++ ds) ∧ Forall is_digit ds ∧
    ds ≠ [] ∧ decval 0 ds = bz x) as Hx.
  { intros ? x. apply AppendUint_spec. pose proof (bz_range x). lia. }
  unfold AppendIPv4, To4. cbn [length Nat.eqb nth drop foldl].
  destruct (Hx [] a) as (da&->&Ha1&Ha2&Ha3). cbn [mbind option_bind app].
  destruct (Hx (da ++ ["."%byte]) b) as (db&->&Hb1&Hb2&Hb3). cbn [mbind option_bind].
  destruct (Hx (((da ++ ["."%byte]) ++ db) ++ ["."%byte]) c) as (dc&->&Hc1&Hc2&Hc3).
  cbn [mbind option_bind]. 
  match goal with |- context [AppendUint ?e (bz d)] =>
    destruct (Hx e d) as (dd&->&Hd1&Hd2&Hd3) end.
  eexists. split; [done|]. rewrite <- !app_assoc. cbn [app]. unfold ParseIPv4.
  rewrite bool_decide_false by (by destruct da).
  erewrite !ParseIPv4_part by done. by erewrite ParseIPv4_last by done.
Qed.
