(* ===== verification/Args.v ===== *)
(** args.go: the key/value slices shared by query arguments, cookies, headers and
    trailers, and the [Args] type with its parser and printer.

    A Go slice of [argsKV] is modelled with the elements that lie between its
    length and its capacity: [allocArg] hands such a stale element out again. *)

From Stdlib Require Import ZArith Strings.Byte.
From stdpp Require Import prelude strings list.
From S2P Require Import Prelude Tables Bufio Bytesconv.

(** * Key/value slices *)

Record argsKV := mkKV { key : bytes; value : bytes; noValue : bool }.

#[global] Instance argsKV_eq_decision : EqDecision argsKV.
Proof. solve_decision. Defined.

(** [live] is [h[:len(h)]], [spare] is [h[len(h):cap(h)]]. *)
Record kvs := mkKvs { live : list argsKV; spare : list argsKV }.

Definition argsNoValue : bool := true.
Definition argsHasValue : bool := false.

(** The slice value [h[:0]]. *)
Definition kvs_reset (h : kvs) : kvs := mkKvs [] (live h ++ spare h).

(** The slice before the new slot, and what the slot holds: a stale element when
    the capacity allows it. Writes through the returned pointer end in [commit].
    The zero elements that a growing [append] leaves in the new capacity equal the
    fresh element, so growth is modelled as exact. *)
Definition allocArg (h : kvs) : kvs * argsKV :=
  match spare h with
  | kv :: sp => (mkKvs (live h) sp, kv)
  | [] => (h, mkKV [] [] false)
  end.

Definition commit (h : kvs) (kv : argsKV) : kvs := mkKvs (live h ++ [kv]) (spare h).

(** [releaseArg] applied to the slice that ends in the slot holding [kv]. *)
Definition releaseArg (h : kvs) (kv : argsKV) : kvs := mkKvs (live h) (kv :: spare h).

Definition storeValue (v : bytes) (nv : bool) : bytes := if nv then [] else v.

Definition appendArg (h : kvs) (k v : bytes) (nv : bool) : kvs :=
  let '(h, kv) := allocArg h in
  commit h (mkKV k (storeValue v nv) nv).

Definition appendArgBytes := appendArg.

(** The loop of [setArg]: [None] when no element has the key. *)
Fixpoint setArg_loop (l : list argsKV) (k v : bytes) (nv : bool) : option (list argsKV) :=
  match l with
  | [] => None
  | kv :: l =>
      if bool_decide (k = key kv) then Some (mkKV (key kv) (storeValue v nv) nv :: l)
      else cons kv <$> setArg_loop l k v nv
  end.

Definition setArg (h : kvs) (k v : bytes) (nv : bool) : kvs :=
  match setArg_loop (live h) k v nv with
  | Some l => mkKvs l (spare h)
  | None => appendArg h k v nv
  end.

Definition setArgBytes := setArg.

(** A deleted element is moved behind the slice's new end. *)
Fixpoint delAllArgs_loop (done rest sp : list argsKV) (k : bytes) : kvs :=
  match rest with
  | [] => mkKvs done sp
  | kv :: rest =>
      if bool_decide (k = key kv) then delAllArgs_loop done rest (kv :: sp) k
      else delAllArgs_loop (done ++ [kv]) rest sp k
  end.

Definition delAllArgs (h : kvs) (k : bytes) : kvs := delAllArgs_loop [] (live h) (spare h) k.
Definition delAllArgsBytes := delAllArgs.

Definition copyKV (kv : argsKV) : argsKV :=
  mkKV (key kv) (storeValue (value kv) (noValue kv)) (noValue kv).

Definition copyArgs (dst src : kvs) : kvs :=
  let mem := live dst ++ spare dst in
  let n := length (live src) in
  if length mem <? n then mkKvs (copyKV <$> live src) []
  else mkKvs (copyKV <$> live src) (drop n mem).

(** The calls of [f], in order. *)
Definition visitArgs (h : kvs) : list (bytes * bytes) := (λ kv, (key kv, value kv)) <$> live h.
Definition visitArgsKey (h : kvs) : list bytes := key <$> live h.

Fixpoint hasArg_loop (l : list argsKV) (k : bytes) : bool :=
  match l with
  | [] => false
  | kv :: l => if bool_decide (k = key kv) then true else hasArg_loop l k
  end.

Definition hasArg (h : kvs) (k : bytes) : bool := hasArg_loop (live h) k.

(** [None] is the nil slice. *)
Fixpoint peekArg_loop (l : list argsKV) (k : bytes) : option bytes :=
  match l with
  | [] => None
  | kv :: l => if bool_decide (key kv = k) then Some (value kv) else peekArg_loop l k
  end.

Definition peekArgStr (h : kvs) (k : bytes) : option bytes := peekArg_loop (live h) k.
Definition peekArgBytes (h : kvs) (k : bytes) : option bytes := peekArg_loop (live h) k.

Definition peekAllArgBytesToDst (dst : list bytes) (h : kvs) (k : bytes) : list bytes :=
  foldl (λ dst kv, if bool_decide (key kv = k) then dst ++ [value kv] else dst) dst (live h).

Definition peekArgsKeys (dst : list bytes) (h : kvs) : list bytes :=
  foldl (λ dst kv, dst ++ [key kv]) dst (live h).

(** Reading a possibly nil slice. *)
Definition bytes_of (o : option bytes) : bytes := default [] o.

(** * The query string scanner *)

(** The loop of [argsScanner.next] over the rest of [s.b]; [seg] is the part read
    since the last separator, i.e. [s.b[:i]] or [s.b[k:i]]. Returns the new [s.b]
    and the contents of [kv]. *)
Fixpoint argsScanner_loop (isKey : bool) (seg rest : bytes) (kv : argsKV) : bytes * argsKV :=
  match rest with
  | [] =>
      if isKey then ([], mkKV (decodeArgAppend [] seg) [] argsNoValue)
      else ([], mkKV (key kv) (decodeArgAppend [] seg) (noValue kv))
  | c :: rest =>
      if bool_decide (c = "="%byte) && isKey then
        argsScanner_loop false [] rest (mkKV (decodeArgAppend [] seg) (value kv) (noValue kv))
      else if bool_decide (c = "&"%byte) then
        if isKey then (rest, mkKV (decodeArgAppend [] seg) [] argsNoValue)
        else (rest, mkKV (key kv) (decodeArgAppend [] seg) (noValue kv))
      else argsScanner_loop isKey (seg ++ [c]) rest kv
  end.

(** [None] is the result false. *)
Definition argsScanner_next (b : bytes) (kv : argsKV) : option (bytes * argsKV) :=
  if bool_decide (length b = 0) then None
  else Some (argsScanner_loop true [] b (mkKV (key kv) (value kv) argsHasValue)).

(** The loop of [ParseBytes]; [h] and [kv] are the slice before the current slot
    and the slot. Every step consumes input, so [length b] bounds the steps. *)
Fixpoint ParseBytes_loop (fuel : nat) (b : bytes) (h : kvs) (kv : argsKV) : kvs :=
  match fuel with
  | O => releaseArg h kv
  | S fuel =>
      match argsScanner_next b kv with
      | None => releaseArg h kv
      | Some (b, kv) =>
          if (0 <? length (key kv)) || (0 <? length (value kv)) then
            let '(h, kv) := allocArg (commit h kv) in ParseBytes_loop fuel b h kv
          else ParseBytes_loop fuel b h kv
      end
  end.

Definition parseArgs (h : kvs) (b : bytes) : kvs :=
  let '(h, kv) := allocArg (kvs_reset h) in
  ParseBytes_loop (S (length b)) b h kv.

(** * Args *)

Record Args := mkArgs { args : kvs; buf : bytes }.
#[global] Instance Args_etable : Etable Args := λ a, mkArgs (args a) (buf a).

Module Args.
Definition Reset (a : Args) : Args := a <| args := kvs_reset (args a) |>.
Definition CopyTo (a dst : Args) : Args := dst <| args := copyArgs (args dst) (args a) |>.
Definition VisitAll (a : Args) : list (bytes * bytes) := visitArgs (args a).
Definition Len (a : Args) : nat := length (live (args a)).

Definition ParseBytes (a : Args) (b : bytes) : Args :=
  a <| args := parseArgs (args a) b |>.

Definition Parse (a : Args) (s : bytes) : Args :=
  ParseBytes (a <| buf := s |>) s.

Definition appendKV (dst : bytes) (kv : argsKV) : bytes :=
  let dst := AppendQuotedArg dst (key kv) in
  if noValue kv then dst
  else
    let dst := dst ++ ["="%byte] in
    if 0 <? length (value kv) then AppendQuotedArg dst (value kv) else dst.

(** The loop of [AppendBytes]: a '&' follows every element but the last. *)
Fixpoint AppendBytes_loop (dst : bytes) (l : list argsKV) : bytes :=
  match l with
  | [] => dst
  | [kv] => appendKV dst kv
  | kv :: l => AppendBytes_loop (appendKV dst kv ++ ["&"%byte]) l
  end.

Definition AppendBytes (a : Args) (dst : bytes) : bytes :=
  AppendBytes_loop dst (live (args a)).

Definition QueryString (a : Args) : bytes * Args :=
  let b := AppendBytes a [] in (b, a <| buf := b |>).

Definition String (a : Args) : bytes * Args := QueryString a.

(** The [less] function passed to [sort.SliceStable]. *)
Definition less (f : bytes → bytes → Z) (x y : argsKV) : bool :=
  let n := f (key x) (key y) in
  if (n =? 0)%Z then (f (value x) (value y) =? -1)%Z else (n =? -1)%Z.

(** Stable sorting: an element is inserted before the first later one that is
    less. *)
Fixpoint insertStable (less : argsKV → argsKV → bool) (x : argsKV) (l : list argsKV) :=
  match l with
  | [] => [x]
  | y :: l => if less y x then y :: insertStable less x l else x :: y :: l
  end.

Definition SliceStable (less : argsKV → argsKV → bool) (l : list argsKV) : list argsKV :=
  foldr (insertStable less) [] l.

Definition Sort (f : bytes → bytes → Z) (a : Args) : Args :=
  a <| args := mkKvs (SliceStable (less f) (live (args a))) (spare (args a)) |>.

Definition Del (a : Args) (k : bytes) : Args := a <| args := delAllArgs (args a) k |>.
Definition DelBytes := Del.
Definition Add (a : Args) (k v : bytes) : Args :=
  a <| args := appendArg (args a) k v argsHasValue |>.
Definition AddBytesK := Add.
Definition AddBytesV := Add.
Definition AddBytesKV := Add.
Definition AddNoValue (a : Args) (k : bytes) : Args :=
  a <| args := appendArg (args a) k [] argsNoValue |>.
Definition AddBytesKNoValue := AddNoValue.
Definition Set_ (a : Args) (k v : bytes) : Args :=
  a <| args := setArg (args a) k v argsHasValue |>.
Definition SetBytesK := Set_.
Definition SetBytesV := Set_.
Definition SetBytesKV (a : Args) (k v : bytes) : Args :=
  a <| args := setArgBytes (args a) k v argsHasValue |>.
Definition SetNoValue (a : Args) (k : bytes) : Args :=
  a <| args := setArg (args a) k [] argsNoValue |>.
Definition SetBytesKNoValue := SetNoValue.

Definition Peek (a : Args) (k : bytes) : option bytes := peekArgStr (args a) k.
Definition PeekBytes (a : Args) (k : bytes) : option bytes := peekArgBytes (args a) k.
Definition PeekMulti (a : Args) (k : bytes) : list bytes :=
  foldl (λ vs '(k', v), if bool_decide (k' = k) then vs ++ [v] else vs) [] (VisitAll a).
Definition PeekMultiBytes := PeekMulti.
Definition Has (a : Args) (k : bytes) : bool := hasArg (args a) k.
Definition HasBytes := Has.

Inductive error := ErrNoArgValue | ErrConv (e : conv_error).

Definition GetUint (a : Args) (k : bytes) : Z * option error :=
  let v := bytes_of (Peek a k) in
  if bool_decide (length v = 0) then ((-1)%Z, Some ErrNoArgValue)
  else let '(n, e) := ParseUint v in (n, ErrConv <$> e).

(** [None] is the panic of [AppendUintInto]. *)
Definition SetUint (a : Args) (k : bytes) (v : Z) : option Args :=
  dst ← AppendUintInto (replicate 20 x00) v; Some (SetBytesV a k dst).
Definition SetUintBytes := SetUint.

Definition GetUintOrZero (a : Args) (k : bytes) : Z :=
  let '(n, err) := GetUint a k in match err with Some _ => 0%Z | None => n end.

Definition GetUfloat (a : Args) (k : bytes) : ufloat + error :=
  let v := bytes_of (Peek a k) in
  if bool_decide (length v = 0) then inr ErrNoArgValue
  else match ParseUfloat v with inl f => inl f | inr e => inr (ErrConv e) end.

Definition GetUfloatOrZero (a : Args) (k : bytes) : ufloat :=
  match GetUfloat a k with inl f => f | inr _ => Ufloat 0 0 end.

Definition GetBool (a : Args) (k : bytes) : bool :=
  bool_decide (bytes_of (Peek a k) ∈
    (bs <$> ["1"; "t"; "T"; "true"; "TRUE"; "True"; "y"; "yes"; "Y"; "YES"; "Yes"])).
End Args.
