(* ===== verification/ArgsFacts.v ===== *)
(** Theorems about Args: the slices refine plain association lists whatever stale
    elements they carry, the parser equals its reference, and printing then
    parsing returns the arguments. *)

From Stdlib Require Import ZArith Strings.Byte.
From stdpp Require Import prelude strings list sorting.
From S2P Require Import Prelude Tables Bufio Bytesconv BytesconvFacts Args.

Create Rewrite HintDb args.

(** * Slices as association lists *)

(** The abstract operations, on lists without capacity. *)
Definition assoc_add (l : list argsKV) (k v : bytes) (nv : bool) : list argsKV :=
  l ++ [mkKV k (storeValue v nv) nv].

Fixpoint assoc_set (l : list argsKV) (k v : bytes) (nv : bool) : list argsKV :=
  match l with
  | [] => [mkKV k (storeValue v nv) nv]
  | kv :: l =>
      if decide (key kv = k) then mkKV k (storeValue v nv) nv :: l
      else kv :: assoc_set l k v nv
  end.

Definition assoc_del (l : list argsKV) (k : bytes) : list argsKV :=
  filter (λ kv, key kv ≠ k) l.

Lemma live_reset h : live (kvs_reset h) = [].
Proof. done. Qed.

Lemma live_allocArg h : live (allocArg h).1 = live h.
Proof. unfold allocArg. by destruct (spare h). Qed.

Lemma live_appendArg h k v nv : live (appendArg h k v nv) = assoc_add (live h) k v nv.
Proof. unfold appendArg, allocArg. by destruct (spare h). Qed.

Lemma live_setArg h k v nv : live (setArg h k v nv) = assoc_set (live h) k v nv.
Proof.
  unfold setArg. enough (match setArg_loop (live h) k v nv with
    | Some l => l | None => assoc_add (live h) k v nv end = assoc_set (live h) k v nv) as <-.
  { case_match; [done|]. apply live_appendArg. }
  induction (live h) as [|kv l IH]; simpl; [done|].
  case_bool_decide as E; case_decide as E'; subst; try done.
  rewrite <- IH. by destruct (setArg_loop l k v nv).
Qed.

Lemma live_delAllArgs h k : live (delAllArgs h k) = assoc_del (live h) k.
Proof.
  unfold delAllArgs, assoc_del.
  enough (∀ d r s, live (delAllArgs_loop d r s k) = d ++ filter (λ kv, key kv ≠ k) r) as ->
    by done.
  intros d r. revert d. induction r as [|kv r IH]; intros d s; simpl; [by rewrite app_nil_r|].
  case_bool_decide as E; rewrite IH, filter_cons; case_decide; subst; try done.
  by rewrite <- app_assoc.
Qed.

Lemma live_copyArgs dst src : live (copyArgs dst src) = copyKV <$> live src.
Proof. unfold copyArgs. by case_match. Qed.

#[export] Hint Rewrite live_reset live_allocArg live_appendArg live_setArg live_delAllArgs
  live_copyArgs : args.

(** A well-formed element has no value when it is marked so. *)
Definition kv_wf (kv : argsKV) : Prop := noValue kv = true → value kv = [].
Definition kvs_wf (h : kvs) : Prop := Forall kv_wf (live h).

Lemma kv_wf_store k v nv : kv_wf (mkKV k (storeValue v nv) nv).
Proof. unfold kv_wf, storeValue. simpl. by intros ->. Qed.

Lemma assoc_set_wf l k v nv : Forall kv_wf l → Forall kv_wf (assoc_set l k v nv).
Proof.
  induction 1 as [|kv l Hkv Hl IH]; simpl.
  - constructor; [apply kv_wf_store|done].
  - case_decide; constructor; auto using kv_wf_store.
Qed.

Lemma assoc_del_Forall (P : argsKV → Prop) l k : Forall P l → Forall P (assoc_del l k).
Proof.
  rewrite !Forall_forall. unfold assoc_del. intros H x [_ Hx]%list_elem_of_filter. auto.
Qed.

Lemma copyKV_id kv : kv_wf kv → copyKV kv = kv.
Proof. destruct kv as [k v []]; unfold kv_wf, copyKV; simpl; [|done]. by intros ->. Qed.

(** Copying a well-formed slice copies its contents. *)
Lemma copyArgs_live dst src : kvs_wf src → live (copyArgs dst src) = live src.
Proof.
  intros Hwf. rewrite live_copyArgs. unfold kvs_wf in Hwf.
  induction Hwf as [|kv l Hkv _ IH]; [done|]. by rewrite fmap_cons, copyKV_id, IH.
Qed.

(** * Lookups *)

Lemma peek_set_eq l k v nv : peekArg_loop (assoc_set l k v nv) k = Some (storeValue v nv).
Proof.
  induction l as [|kv l IH]; simpl; [by rewrite bool_decide_true|].
  case_decide; simpl; [by rewrite bool_decide_true|]. by rewrite bool_decide_false.
Qed.

Lemma peek_set_ne l k k' v nv :
  k ≠ k' → peekArg_loop (assoc_set l k v nv) k' = peekArg_loop l k'.
Proof.
  intros Hk. induction l as [|kv l IH]; simpl; [by rewrite bool_decide_false|].
  case_decide as E; simpl; [by rewrite E, !bool_decide_false|]. by rewrite IH.
Qed.

Lemma peek_del_eq l k : peekArg_loop (assoc_del l k) k = None.
Proof.
  unfold assoc_del. induction l as [|kv l IH]; [done|]. rewrite filter_cons.
  case_decide; simpl; [|done]. by rewrite bool_decide_false.
Qed.

Lemma peek_del_ne l k k' : k ≠ k' → peekArg_loop (assoc_del l k) k' = peekArg_loop l k'.
Proof.
  intros Hk. unfold assoc_del. induction l as [|kv l IH]; [done|]. rewrite filter_cons.
  case_decide as E; simpl; [by rewrite IH|].
  by rewrite (bool_decide_false (key kv = k')) by congruence.
Qed.

Lemma peek_add l k k' v nv :
  peekArg_loop (assoc_add l k v nv) k' =
  match peekArg_loop l k' with
  | Some x => Some x
  | None => if bool_decide (k = k') then Some (storeValue v nv) else None
  end.
Proof. induction l as [|kv l IH]; simpl; [done|]. destruct (bool_decide (key kv = k')); [done|apply IH]. Qed.

Lemma hasArg_peek h k : hasArg h k = bool_decide (is_Some (peekArgStr h k)).
Proof.
  unfold hasArg, peekArgStr. induction (live h) as [|kv l IH]; simpl; [done|].
  rewrite (bool_decide_ext (k = key kv) (key kv = k)) by done.
  destruct (bool_decide (key kv = k)); [|done]. by rewrite bool_decide_true by eauto.
Qed.

Lemma peekAll_filter dst h k :
  peekAllArgBytesToDst dst h k = dst ++ (value <$> filter (λ kv, key kv = k) (live h)).
Proof.
  unfold peekAllArgBytesToDst. revert dst.
  induction (live h) as [|kv l IH]; intros dst; simpl; [by rewrite app_nil_r|].
  rewrite filter_cons. rewrite IH. case_bool_decide; case_decide; try done.
  simpl. by rewrite <- app_assoc.
Qed.

#[export] Hint Rewrite peek_set_eq peek_del_eq : args.

(** * The parser and its reference *)

(** One '&'-separated piece. *)
Definition parse_pair (p : bytes) : argsKV :=
  match IndexByte p "=" with
  | None => mkKV (percent_decode true p) [] true
  | Some i => mkKV (percent_decode true (take i p)) (percent_decode true (drop (S i) p)) false
  end.

Definition kv_nonempty (kv : argsKV) : bool := (0 <? length (key kv)) || (0 <? length (value kv)).

(** The pieces of a query string that are not empty, decoded. *)
Definition query_parse (b : bytes) : list argsKV :=
  split_on "&" b ≫= λ p, let kv := parse_pair p in if kv_nonempty kv then [kv] else [].

Lemma argsScanner_value seg rest kv :
  argsScanner_loop false seg rest kv
  = (after "&" rest, mkKV (key kv) (percent_decode true (seg ++ before "&" rest)) (noValue kv)).
Proof.
  revert seg. induction rest as [|c rest IH]; intros seg; cbn [argsScanner_loop].
  { by rewrite decodeArgAppend_ref, app_nil_r. }
  rewrite andb_false_r. case_bool_decide as E.
  - subst c. destruct (before_eq "&" rest) as [-> ->]. by rewrite decodeArgAppend_ref, app_nil_r.
  - rewrite IH, before_cons_ne, after_cons_ne by done. by rewrite <- app_assoc.
Qed.

Lemma parse_pair_plain p : "="%byte ∉ p → parse_pair p = mkKV (percent_decode true p) [] true.
Proof. intros H. unfold parse_pair. by rewrite (proj2 (IndexByte_None _ _) H). Qed.

Lemma parse_pair_value k v : "="%byte ∉ k →
  parse_pair (k ++ "="%byte :: v) = mkKV (percent_decode true k) (percent_decode true v) false.
Proof.
  intros H. unfold parse_pair. rewrite IndexByte_app, take_app_length by done.
  rewrite (cons_middle "="%byte), app_assoc.
  by rewrite drop_app_length' by (rewrite length_app; simpl; lia).
Qed.

Lemma argsScanner_key seg rest kv :
  "="%byte ∉ seg → noValue kv = false →
  argsScanner_loop true seg rest kv = (after "&" rest, parse_pair (seg ++ before "&" rest)).
Proof.
  revert seg. induction rest as [|c rest IH]; intros seg Hseg Hkv; cbn [argsScanner_loop].
  { change (before "&" []) with (@nil byte).
    by rewrite app_nil_r, decodeArgAppend_ref, parse_pair_plain. }
  rewrite andb_true_r. case_bool_decide as E; [subst c|case_bool_decide as E'; [subst c|]].
  - rewrite argsScanner_value, before_cons_ne, after_cons_ne by done.
    by rewrite parse_pair_value, decodeArgAppend_ref, Hkv by done.
  - destruct (before_eq "&" rest) as [-> ->].
    by rewrite app_nil_r, decodeArgAppend_ref, parse_pair_plain.
  - rewrite before_cons_ne, after_cons_ne by done. rewrite IH; [|set_solver|done].
    by rewrite <- app_assoc.
Qed.

Lemma argsScanner_next_spec b kv :
  argsScanner_next b kv =
  if bool_decide (b = []) then None else Some (after "&" b, parse_pair (before "&" b)).
Proof.
  unfold argsScanner_next. rewrite (bool_decide_ext (length b = 0) (b = []))
    by apply length_zero_iff_nil.
  case_bool_decide; [done|]. by rewrite argsScanner_key by (done || set_solver).
Qed.

Lemma query_parse_unfold b : query_parse b =
  (let kv := parse_pair (before "&" b) in if kv_nonempty kv then [kv] else [])
  ++ query_parse (after "&" b).
Proof. unfold query_parse. by rewrite split_on_unfold by done. Qed.

Lemma ParseBytes_loop_live fuel b h kv :
  length b < fuel → live (ParseBytes_loop fuel b h kv) = live h ++ query_parse b.
Proof.
  revert b h kv. induction fuel as [|fuel IH]; intros b h kv Hf; [lia|].
  cbn [ParseBytes_loop]. rewrite argsScanner_next_spec. case_bool_decide as Hb.
  { subst b. by rewrite app_nil_r. }
  pose proof (length_after "&" b Hb). rewrite query_parse_unfold. cbn zeta.
  fold (kv_nonempty (parse_pair (before "&" b))). destruct (kv_nonempty _).
  - destruct (allocArg _) as [h' kv'] eqn:Ea.
    pose proof (live_allocArg (commit h (parse_pair (before "&" b)))) as Hl.
    rewrite Ea in Hl. simpl in Hl. rewrite IH by lia. by rewrite Hl, <- app_assoc.
  - by rewrite IH by lia.
Qed.

Lemma live_parseArgs h b : live (parseArgs h b) = query_parse b.
Proof.
  unfold parseArgs. destruct (allocArg _) as [h' kv'] eqn:Ea.
  pose proof (live_allocArg (kvs_reset h)) as Hl. rewrite Ea in Hl. simpl in Hl.
  rewrite ParseBytes_loop_live by lia. by rewrite Hl.
Qed.

#[export] Hint Rewrite live_parseArgs : args.

Lemma parse_pair_wf p : kv_wf (parse_pair p).
Proof. unfold parse_pair. by case_match. Qed.

Lemma query_parse_wf b : Forall (λ kv, kv_wf kv ∧ kv_nonempty kv = true) (query_parse b).
Proof.
  apply Forall_forall. unfold query_parse. intros kv (p&Hin&_)%list_elem_of_bind.
  cbn zeta in Hin. destruct (kv_nonempty (parse_pair p)) eqn:E; [|set_solver].
  apply list_elem_of_singleton in Hin as ->. split; [apply parse_pair_wf|done].
Qed.

(** * Printing and parsing back *)

(** The printed form of one element. *)
Definition enc_kv (kv : argsKV) : bytes :=
  (key kv ≫= quoteArgByte) ++ if noValue kv then [] else "="%byte :: (value kv ≫= quoteArgByte).

Lemma appendKV_enc dst kv : Args.appendKV dst kv = dst ++ enc_kv kv.
Proof.
  unfold Args.appendKV, enc_kv. rewrite !AppendQuotedArg_bind.
  destruct (noValue kv); [by rewrite app_nil_r|]. destruct (value kv) as [|x v] eqn:E; simpl.
  - by rewrite <- app_assoc.
  - by rewrite <- !app_assoc.
Qed.

Lemma percent_decode_quoted s : percent_decode true (s ≫= quoteArgByte) = s.
Proof. rewrite <- (app_nil_r (_ ≫= _)), percent_decode_quoteArgs. apply app_nil_r. Qed.

Lemma parse_pair_enc kv : kv_wf kv → parse_pair (enc_kv kv) = kv.
Proof.
  destruct kv as [k v nv]. unfold kv_wf, enc_kv. simpl. intros Hwf.
  destruct (quoteArg_clean k) as [_ Hk]. destruct nv.
  - rewrite Hwf by done. rewrite app_nil_r, parse_pair_plain by done.
    by rewrite percent_decode_quoted.
  - by rewrite parse_pair_value, !percent_decode_quoted.
Qed.

Lemma enc_kv_no_amp kv : "&"%byte ∉ enc_kv kv.
Proof.
  unfold enc_kv. destruct (quoteArg_clean (key kv)) as [Hk _].
  destruct (quoteArg_clean (value kv)) as [Hv _]. destruct (noValue kv); set_solver.
Qed.

Lemma AppendBytes_loop_parse dst l :
  Forall (λ kv, kv_wf kv ∧ kv_nonempty kv = true) l →
  ∃ s, Args.AppendBytes_loop dst l = dst ++ s ∧ query_parse s = l.
Proof.
  intros Hl. revert dst. induction Hl as [|kv l [Hwf Hne] Hl IH]; intros dst.
  { exists []. by rewrite app_nil_r. }
  destruct l as [|kv' l].
  - exists (enc_kv kv). cbn [Args.AppendBytes_loop]. rewrite appendKV_enc. split; [done|].
    unfold query_parse. rewrite split_on_plain by apply enc_kv_no_amp. simpl.
    by rewrite parse_pair_enc, Hne.
  - destruct (IH (Args.appendKV dst kv ++ ["&"%byte])) as (s&Hs&Hp).
    exists (enc_kv kv ++ "&"%byte :: s). cbn [Args.AppendBytes_loop] in *. rewrite Hs.
    rewrite appendKV_enc, <- !app_assoc. split; [done|].
    unfold query_parse in *. rewrite split_on_app by apply enc_kv_no_amp.
    cbn [mbind list_bind]. rewrite Hp, parse_pair_enc by done. cbn zeta. by rewrite Hne.
Qed.
