(* ===== verification/Uri.v ===== *)
(** uri.go and uri_unix.go: the [URI] type, its parser, path normalization and
    the resolution of relative references.

    The Windows-only branches (uri_windows.go and the [filepath.Separator == '\\']
    part of [normalizePath]) are not built on the modelled platform. *)

From Stdlib Require Import ZArith Strings.Byte.
From stdpp Require Import prelude strings list.
From S2P Require Import Prelude Tables Bufio Bytesconv Args.

(** * strings.go *)

Definition strSlash : bytes := bs "/".
Definition strSlashSlash : bytes := bs "//".
Definition strSlashDotDot : bytes := bs "/..".
Definition strSlashDotSlash : bytes := bs "/./".
Definition strSlashDotDotSlash : bytes := bs "/../".
Definition strHTTP : bytes := bs "http".
Definition strHTTPS : bytes := bs "https".
Definition strColonSlashSlash : bytes := bs "://".

(** * Path normalization *)

Definition addLeadingSlash (dst src : bytes) : bytes :=
  match src with
  | c :: _ => if bool_decide (c ≠ "/"%byte) then dst ++ ["/"%byte] else dst
  | [] => dst ++ ["/"%byte]
  end.

(** Remove duplicate slashes. The loop narrows [b] to the part from the slash pair
    found and deletes its first byte in place; [done] is the part of [dst] before
    [b]. Every step shortens [b], so [length b] steps suffice. *)
Fixpoint removeSlashSlash (fuel : nat) (done b : bytes) : bytes :=
  match fuel with
  | O => done ++ b
  | S fuel =>
      match Index b strSlashSlash with
      | None => done ++ b
      | Some n => removeSlashSlash fuel (done ++ take n b) (drop 1 (drop n b))
      end
  end.

(** Remove "/./" parts: [copy(b[n:], b[nn:])] with [nn = n + 2]. *)
Fixpoint removeSlashDotSlash (fuel : nat) (b : bytes) : bytes :=
  match fuel with
  | O => b
  | S fuel =>
      match Index b strSlashDotSlash with
      | None => b
      | Some n =>
          let nn := n + length strSlashDotSlash - 1 in
          removeSlashDotSlash fuel (take n b ++ drop nn b)
      end
  end.

(** Remove "/foo/../" parts: [copy(b[nn:], b[n:])]. *)
Fixpoint removeDotDot (fuel : nat) (b : bytes) : bytes :=
  match fuel with
  | O => b
  | S fuel =>
      match Index b strSlashDotDotSlash with
      | None => b
      | Some n =>
          let nn := default 0 (LastIndexByte (take n b) "/") in
          let n := n + length strSlashDotDotSlash - 1 in
          removeDotDot fuel (take nn b ++ drop n b)
      end
  end.

(** Remove a trailing "/foo/..". *)
Definition removeTrailingDotDot (b : bytes) : bytes :=
  match LastIndex b strSlashDotDot with
  | Some n =>
      if n + length strSlashDotDot =? length b then
        match LastIndexByte (take n b) "/" with
        | None => strSlash
        | Some nn => take (nn + 1) b
        end
      else b
  | None => b
  end.

Definition normalizePath (src : bytes) : bytes :=
  let dst := addLeadingSlash [] src in
  let dst := decodeArgAppendNoPlus dst src in
  let b := removeSlashSlash (length dst) [] dst in
  let b := removeSlashDotSlash (length b) b in
  let b := removeDotDot (length b) b in
  removeTrailingDotDot b.

(** * Hosts *)

Inductive encoding := encodeHost | encodeZone.
#[global] Instance encoding_eq_decision : EqDecision encoding.
Proof. solve_decision. Defined.

Inductive uri_error :=
  | ErrorInvalidURI
  | errMissingBracket
  | errInvalidPort (colonPort : bytes)
  | EscapeError (s : bytes)
  | InvalidHostError (s : bytes).
#[global] Instance uri_error_eq_decision : EqDecision uri_error.
Proof. solve_decision. Defined.

Definition ishex (c : byte) : bool := (hex2intTable c <? 16)%Z.
Definition unhex (c : byte) : Z := Z.land (hex2intTable c) 15.

Definition shouldEscape (c : byte) (mode : encoding) : bool :=
  if isLower (bz c) || isUpper (bz c) || isDigit (bz c) then false
  else if bool_decide (c ∈ bs "!$&'()*+,;=:[]<>" ++ [x22]) then false
  else if bool_decide (c ∈ bs "-_.~") then false
  else true.

Definition validOptionalPort (port : bytes) : bool :=
  match port with
  | [] => true
  | c :: port =>
      bool_decide (c = ":"%byte)
      && forallb (λ b, negb ((bz b <? bz "0")%Z || (bz b >? bz "9")%Z)) port
  end.

(** The checking loop of [unescape], which also counts the escapes. *)
Fixpoint unescape_check (mode : encoding) (n : nat) (s : bytes) : nat + uri_error :=
  match s with
  | [] => inl n
  | c :: rest =>
      if bool_decide (c = "%"%byte) then
        match rest with
        | h1 :: h2 :: rest' =>
            if negb (ishex h1) || negb (ishex h2) then inr (EscapeError [c; h1; h2])
            else if bool_decide (mode = encodeHost) && (unhex h1 <? 8)%Z
                    && negb (Equal [c; h1; h2] (bs "%25"))
            then inr (EscapeError [c; h1; h2])
            else
              let v := zb (Z.lor (Z.shiftl (unhex h1) 4) (unhex h2)) in
              if bool_decide (mode = encodeZone) && negb (Equal [c; h1; h2] (bs "%25"))
                 && bool_decide (v ≠ " "%byte) && shouldEscape v encodeHost
              then inr (EscapeError [c; h1; h2])
              else unescape_check mode (S n) rest'
        | _ => inr (EscapeError (take 3 s))
        end
      else if (bz c <? 0x80)%Z && shouldEscape c mode then inr (InvalidHostError [c])
      else unescape_check mode n rest
  end.

(** The unescaping loop, run on checked input; a truncated escape would be an
    index-out-of-range panic and cannot occur then. *)
Fixpoint unescape_loop (s : bytes) : bytes :=
  match s with
  | c :: rest =>
      if bool_decide (c = "%"%byte) then
        match rest with
        | h1 :: h2 :: rest' =>
            zb (Z.lor (Z.shiftl (unhex h1) 4) (unhex h2)) :: unescape_loop rest'
        | _ => s
        end
      else c :: unescape_loop rest
  | [] => []
  end.

Definition unescape (s : bytes) (mode : encoding) : bytes + uri_error :=
  match unescape_check mode 0 s with
  | inr e => inr e
  | inl n => if bool_decide (n = 0) then inl s else inl (unescape_loop s)
  end.

(** [host] is unescaped whole unless it is an IP literal with a zone. *)
Definition parseHost (host : bytes) : bytes + uri_error :=
  let whole := unescape host encodeHost in
  if HasPrefix host (bs "[") then
    match LastIndexByte host "]" with
    | None => inr errMissingBracket
    | Some i =>
        let colonPort := drop (i + 1) host in
        if negb (validOptionalPort colonPort) then inr (errInvalidPort colonPort)
        else match Index (take i host) (bs "%25") with
             | None => whole
             | Some zone =>
                 match unescape (take zone host) encodeHost with
                 | inr e => inr e
                 | inl host1 =>
                     match unescape (drop zone (take i host)) encodeZone with
                     | inr e => inr e
                     | inl host2 =>
                         match unescape (drop i host) encodeHost with
                         | inr e => inr e
                         | inl host3 => inl (host1 ++ host2 ++ host3)
                         end
                     end
                 end
             end
    end
  else match LastIndexByte host ":" with
       | Some i =>
           let colonPort := drop i host in
           if negb (validOptionalPort colonPort) then inr (errInvalidPort colonPort) else whole
       | None => whole
       end.

(** * URI *)

Record URI := mkURI {
  pathOriginal : bytes;
  scheme : bytes;
  path : bytes;
  queryString : bytes;
  hash : bytes;
  host : bytes;
  queryArgs : Args;
  parsedQueryArgs : bool;
  DisablePathNormalizing : bool;
  fullURI : bytes;
  requestURI : bytes;
  username : bytes;
  password : bytes
}.

#[global] Instance URI_etable : Etable URI := λ u,
  mkURI (pathOriginal u) (scheme u) (path u) (queryString u) (hash u) (host u) (queryArgs u)
    (parsedQueryArgs u) (DisablePathNormalizing u) (fullURI u) (requestURI u) (username u)
    (password u).

(** [uriPool.New]. *)
Definition URI_zero : URI :=
  mkURI [] [] [] [] [] [] (mkArgs (mkKvs [] []) []) false false [] [] [] [].

Definition stringContainsCTLByte (s : bytes) : bool :=
  existsb (λ b, (bz b <? bz " ")%Z || bool_decide (b = x7f)) s.

Definition splitHostURI (host uri : bytes) : bytes * bytes * bytes :=
  match Index uri strSlashSlash with
  | None => (strHTTP, host, uri)
  | Some n =>
      let scheme := take n uri in
      match IndexByte scheme "/" with
      | Some _ => (strHTTP, host, uri)
      | None =>
          let scheme := if bool_decide (last scheme = Some ":"%byte)
                        then take (length scheme - 1) scheme else scheme in
          let uri := drop (n + length strSlashSlash) uri in
          match IndexByte uri "/", IndexByte uri "?" with
          | Some n, Some nq =>
              let n := if nq <? n then nq else n in (scheme, take n uri, drop n uri)
          | Some n, None => (scheme, take n uri, drop n uri)
          | None, Some nq => (scheme, take nq uri, drop nq uri)
          | None, None => (scheme, uri, strSlash)
          end
      end
  end.

Module URI.
Definition Reset (u : URI) : URI :=
  u <| pathOriginal := [] |> <| scheme := [] |> <| path := [] |> <| queryString := [] |>
    <| hash := [] |> <| username := [] |> <| password := [] |> <| host := [] |>
    <| queryArgs := Args.Reset (queryArgs u) |> <| parsedQueryArgs := false |>
    <| DisablePathNormalizing := false |>.

Definition CopyTo (u dst : URI) : URI :=
  let dst := Reset dst in
  dst <| pathOriginal := pathOriginal u |> <| scheme := scheme u |> <| path := path u |>
    <| queryString := queryString u |> <| hash := hash u |> <| host := host u |>
    <| username := username u |> <| password := password u |>
    <| queryArgs := Args.CopyTo (queryArgs u) (queryArgs dst) |>
    <| parsedQueryArgs := parsedQueryArgs u |>
    <| DisablePathNormalizing := DisablePathNormalizing u |>.

Definition Hash (u : URI) : bytes := hash u.
Definition SetHash (u : URI) (h : bytes) : URI := u <| hash := h |>.
Definition SetHashBytes := SetHash.
Definition Username (u : URI) : bytes := username u.
Definition SetUsername (u : URI) (s : bytes) : URI := u <| username := s |>.
Definition SetUsernameBytes := SetUsername.
Definition Password (u : URI) : bytes := password u.
Definition SetPassword (u : URI) (s : bytes) : URI := u <| password := s |>.
Definition SetPasswordBytes := SetPassword.
Definition QueryString (u : URI) : bytes := queryString u.
Definition SetQueryString (u : URI) (s : bytes) : URI :=
  u <| queryString := s |> <| parsedQueryArgs := false |>.
Definition SetQueryStringBytes := SetQueryString.

Definition Path (u : URI) : bytes := match path u with [] => strSlash | p => p end.
Definition SetPath (u : URI) (p : bytes) : URI :=
  u <| pathOriginal := p |> <| path := normalizePath p |>.
Definition SetPathBytes := SetPath.
Definition PathOriginal (u : URI) : bytes := pathOriginal u.
Definition Scheme (u : URI) : bytes := match scheme u with [] => strHTTP | s => s end.
Definition SetScheme (u : URI) (s : bytes) : URI := u <| scheme := lowercaseBytes s |>.
Definition SetSchemeBytes := SetScheme.
Definition isHTTPS (u : URI) : bool := Equal (scheme u) strHTTPS.
Definition isHTTP (u : URI) : bool :=
  bool_decide (length (scheme u) = 0) || Equal (scheme u) strHTTP.
Definition Host (u : URI) : bytes := host u.
Definition SetHost (u : URI) (h : bytes) : URI := u <| host := lowercaseBytes h |>.
Definition SetHostBytes := SetHost.

(** The user information before '@' in [host]. *)
Definition parseAuth (u : URI) (h : bytes) : URI * bytes :=
  match IndexByte h "@" with
  | None => (u, h)
  | Some n =>
      let auth := take n h in
      let h := drop (n + 1) h in
      match IndexByte auth ":" with
      | Some n => (u <| username := take n auth |> <| password := drop (n + 1) auth |>, h)
      | None => (u <| username := auth |> <| password := [] |>, h)
      end
  end.

(** Path, query and fragment of [b], into the fields emptied by [Reset]. *)
Definition parsePath (u : URI) (b : bytes) : URI :=
  let fragmentIndex := IndexByte b "#" in
  let queryIndex :=
    match IndexByte b "?", fragmentIndex with
    | Some q, Some f => if f <? q then None else Some q
    | q, _ => q
    end in
  let setPath p := u <| pathOriginal := p |> <| path := normalizePath p |> in
  match queryIndex, fragmentIndex with
  | None, None => setPath b
  | Some q, None => (setPath (take q b)) <| queryString := drop (q + 1) b |>
  | Some q, Some f =>
      (setPath (take q b)) <| queryString := drop (q + 1) (take f b) |> <| hash := drop (f + 1) b |>
  | None, Some f => (setPath (take f b)) <| hash := drop (f + 1) b |>
  end.

(** The URI is left partly filled when an error is returned. *)
Definition parse (u : URI) (h uri : bytes) (isTLS : bool) : URI * option uri_error :=
  let u := Reset u in
  if stringContainsCTLByte uri then (u, Some ErrorInvalidURI)
  else
    let '(u, h, uri) :=
      if bool_decide (length h = 0) || Contains uri strColonSlashSlash then
        let '(sch, newHost, newURI) := splitHostURI h uri in
        (SetSchemeBytes u sch, newHost, newURI)
      else (u, h, uri) in
    let u := if isTLS then SetSchemeBytes u strHTTPS else u in
    let '(u, h) := parseAuth u h in
    let u := u <| host := h |> in
    match parseHost h with
    | inr err => (u, Some err)
    | inl parsedHost => (parsePath (u <| host := lowercaseBytes parsedHost |>) uri, None)
    end.

Definition Parse (u : URI) (h uri : bytes) : URI * option uri_error := parse u h uri false.

Definition parseQueryArgs (u : URI) : URI :=
  if parsedQueryArgs u then u
  else u <| queryArgs := Args.ParseBytes (queryArgs u) (queryString u) |>
         <| parsedQueryArgs := true |>.

Definition QueryArgs (u : URI) : Args * URI :=
  let u := parseQueryArgs u in (queryArgs u, u).

Definition RequestURI (u : URI) : bytes * URI :=
  let dst := if DisablePathNormalizing u then PathOriginal u
             else appendQuotedPath [] (Path u) in
  let dst :=
    if parsedQueryArgs u && (0 <? Args.Len (queryArgs u)) then
      Args.AppendBytes (queryArgs u) (dst ++ ["?"%byte])
    else if 0 <? length (queryString u) then dst ++ ["?"%byte] ++ queryString u
    else dst in
  (dst, u <| requestURI := dst |>).

Definition LastPathSegment (u : URI) : bytes :=
  let p := Path u in
  match LastIndexByte p "/" with None => p | Some n => drop (n + 1) p end.

Definition appendSchemeHost (u : URI) (dst : bytes) : bytes :=
  dst ++ Scheme u ++ strColonSlashSlash ++ Host u.

Definition AppendBytes (u : URI) (dst : bytes) : bytes * URI :=
  let dst := appendSchemeHost u dst in
  let '(r, u) := RequestURI u in
  let dst := dst ++ r in
  (if 0 <? length (hash u) then dst ++ ["#"%byte] ++ hash u else dst, u).

Definition FullURI (u : URI) : bytes * URI :=
  let '(b, u) := AppendBytes u [] in (b, u <| fullURI := b |>).

Definition String := FullURI.

(** [None] is the panic on a path without a slash; a nil buffer is []. *)
Definition updateBytes (u : URI) (newURI buf : bytes) : option (bytes * URI) :=
  match newURI with
  | [] => Some (buf, u)
  | c :: rest =>
      match Index newURI strSlashSlash with
      | Some _ =>
          let schemeOriginal := scheme u in
          let '(u, err) := Parse u [] newURI in
          match err with
          | Some _ => Some ([], u)
          | None =>
              Some (buf, if (0 <? length schemeOriginal) && bool_decide (length (scheme u) = 0)
                         then u <| scheme := schemeOriginal |> else u)
          end
      | None =>
          let reparse buf :=
            let '(u, err) := Parse u [] buf in
            Some (match err with Some _ => [] | None => buf end, u) in
          if bool_decide (c = "/"%byte) then
            reparse (appendSchemeHost u [] ++ newURI)
          else if bool_decide (c = "?"%byte) then
            Some (FullURI (SetQueryStringBytes u rest))
          else if bool_decide (c = "#"%byte) then
            Some (FullURI (SetHashBytes u rest))
          else
            let p := Path u in
            match LastIndexByte p "/" with
            | None => None
            | Some n =>
                reparse (appendQuotedPath (appendSchemeHost u []) (take (n + 1) p) ++ newURI)
            end
      end
  end.

Definition UpdateBytes (u : URI) (newURI : bytes) : option URI :=
  '(b, u) ← updateBytes u newURI (requestURI u); Some (u <| requestURI := b |>).

Definition Update := UpdateBytes.
End URI.
