(* ===== verification/PathFacts.v ===== *)
(** Path normalization: the in-place byte loops of [normalizePath] compute the
    segment-wise resolution of the path, so no ".." segment survives. *)

From Stdlib Require Import ZArith Strings.Byte.
From stdpp Require Import prelude strings list.
From S2P Require Import Prelude Tables Bufio Bytesconv BytesconvFacts Args Uri.

Local Abbreviation slash := "/"%byte.
Local Abbreviation dot := "."%byte.

(** * Paths as segment lists *)

(** A rooted path: every segment preceded by a slash. *)
Definition path_of (segs : list bytes) : bytes := segs ≫= cons slash.

Definition slash_free (segs : list bytes) : Prop := Forall (λ s, slash ∉ s) segs.

(** The reference resolution, on a stack of segments: empty and "." segments are
    skipped, ".." pops, except that an empty or "." last segment stays. *)
Definition pop (st : list bytes) : list bytes := removelast st.

Definition seg_step (st : list bytes) (s : bytes) : list bytes :=
  if decide (s = [] ∨ s = [dot]) then st
  else if decide (s = [dot; dot]) then pop st
  else st ++ [s].

Definition resolve (segs : list bytes) : list bytes :=
  let st := foldl seg_step [] (removelast segs) in
  match last segs with
  | None => []
  | Some s => if decide (s = [dot; dot]) then pop st ++ [[]] else st ++ [s]
  end.

Definition path_resolve (src : bytes) : bytes :=
  let p := percent_decode false src in
  path_of (resolve (split_on slash (if HasPrefix src strSlash then tail p else p))).

Lemma path_of_app a b : path_of (a ++ b) = path_of a ++ path_of b.
Proof. apply bind_app. Qed.

Lemma path_of_cons s segs : path_of (s :: segs) = slash :: s ++ path_of segs.
Proof. done. Qed.

Lemma split_on_nonempty c b : split_on c b ≠ [].
Proof. destruct b as [|x b]; simpl; [done|]. case_bool_decide; [done|]. by case_match. Qed.

Lemma split_on_free b : slash_free (split_on slash b).
Proof.
  unfold slash_free. induction b as [|x b IH]; simpl; [repeat constructor; set_solver|].
  case_bool_decide; [constructor; [set_solver|done]|].
  destruct (split_on slash b) as [|p ps]; inversion IH; subst; repeat constructor; set_solver.
Qed.

Lemma path_of_split b : path_of (split_on slash b) = slash :: b.
Proof.
  induction b as [|x b IH]; [done|]. simpl. case_bool_decide as E; [subst|].
  - rewrite path_of_cons, IH. done.
  - pose proof (split_on_nonempty slash b). destruct (split_on slash b) as [|p ps]; [done|].
    rewrite !path_of_cons in *. by simplify_eq/=.
Qed.

Lemma split_path_of segs :
  slash_free segs → segs ≠ [] → split_on slash (tail (path_of segs)) = segs.
Proof.
  intros Hf. induction Hf as [|s segs Hs Hf IH]; [done|]. intros _. cbn [path_of mbind list_bind tail app].
  destruct segs as [|t segs].
  - cbn. by rewrite app_nil_r, split_on_plain.
  - cbn [app mbind list_bind]. rewrite split_on_app by done. f_equal. by apply IH.
Qed.

(** * Searching a segment *)

Definition sep (s : bytes) : bytes := slash :: s ++ [slash].

Lemma Index_skip t b p : slash ∉ t → Index (t ++ b) (slash :: p) = (λ n, length t + n) <$> Index b (slash :: p).
Proof.
  induction t as [|x t IH]; intros Ht; cbn [app length].
  - by destruct (Index b _).
  - cbn [Index HasPrefix]. rewrite bool_decide_false by set_solver. cbn [andb].
    rewrite IH by set_solver. by destruct (Index b _).
Qed.

Lemma HasPrefix_seg s t segs : slash ∉ s → slash ∉ t → slash_free segs →
  HasPrefix (path_of (t :: segs)) (sep s) = bool_decide (t = s ∧ segs ≠ []).
Proof.
  intros Hs Ht Hf. apply Bool.eq_iff_eq_true. rewrite HasPrefix_spec, bool_decide_eq_true.
  rewrite path_of_cons. unfold sep. split.
  - intros [r [= E]]. rewrite <- app_assoc in E. cbn in E.
    assert (IndexByte (t ++ path_of segs) slash = Some (length s)) as Hi
      by (rewrite E; by apply IndexByte_app).
    destruct segs as [|u segs].
    { cbn in Hi. rewrite app_nil_r in Hi. by rewrite (proj2 (IndexByte_None _ _) Ht) in Hi. }
    rewrite path_of_cons in Hi, E. rewrite IndexByte_app in Hi by done.
    split; [|done]. apply app_inj_1 in E as [-> _]; [done|]. by simplify_eq.
  - intros [-> Hne]. destruct segs as [|u segs]; [done|]. rewrite path_of_cons.
    exists (u ++ path_of segs). cbn. by rewrite <- app_assoc.
Qed.

(** The first occurrence of [s] as a segment other than the last. *)
Lemma Index_seg_Some s A B :
  slash ∉ s → slash_free (A ++ s :: B) → B ≠ [] → s ∉ A →
  Index (path_of (A ++ s :: B)) (sep s) = Some (length (path_of A)).
Proof.
  intros Hs Hf HB HA. induction A as [|t A IH]; cbn [app] in *.
  - inversion Hf; subst. rewrite path_of_cons. cbn [Index]. rewrite <- path_of_cons.
    by rewrite HasPrefix_seg, bool_decide_true by done.
  - inversion Hf; subst. rewrite path_of_cons. cbn [Index]. rewrite <- path_of_cons.
    rewrite HasPrefix_seg, bool_decide_false by (done || set_solver).
    unfold sep. rewrite Index_skip by done. fold (sep s). rewrite IH by (done || set_solver).
    rewrite path_of_cons. cbn. by rewrite length_app.
Qed.

Lemma Index_seg_None s A t :
  slash ∉ s → slash_free (A ++ [t]) → s ∉ A → Index (path_of (A ++ [t])) (sep s) = None.
Proof.
  intros Hs Hf HA. induction A as [|u A IH]; cbn [app] in *.
  - inversion Hf; subst. rewrite path_of_cons. cbn [Index]. rewrite <- path_of_cons.
    rewrite HasPrefix_seg, bool_decide_false by (done || naive_solver).
    unfold sep. by rewrite Index_skip by done.
  - inversion Hf; subst. rewrite path_of_cons. cbn [Index]. rewrite <- path_of_cons.
    rewrite HasPrefix_seg, bool_decide_false by (done || set_solver).
    unfold sep. rewrite Index_skip by done. fold (sep s). by rewrite IH by (done || set_solver).
Qed.

Lemma slash_free_app a b : slash_free (a ++ b) ↔ slash_free a ∧ slash_free b.
Proof. apply Forall_app. Qed.

(** The segments other than [s]. *)
Definition without (s : bytes) (A : list bytes) : list bytes := filter (λ u, u ≠ s) A.

Lemma filter_ne_id (s : bytes) (A : list bytes) : s ∉ A → without s A = A.
Proof.
  unfold without. induction A as [|u A IH]; intros H; [done|].
  rewrite filter_cons_True by set_solver. f_equal. apply IH. set_solver.
Qed.

Lemma filter_ne_split (s : bytes) (A B : list bytes) : s ∉ A →
  without s (A ++ s :: B) = A ++ without s B.
Proof.
  intros H. unfold without. rewrite filter_app, filter_cons_False by naive_solver.
  f_equal. by apply filter_ne_id.
Qed.

Lemma without_app s A B : without s (A ++ B) = without s A ++ without s B.
Proof. apply filter_app. Qed.

Lemma drop_path_seg k s B : k = S (length s) → drop k (path_of (s :: B)) = path_of B.
Proof. intros ->. rewrite path_of_cons. cbn. apply drop_app_length. Qed.

(** * The loops *)

Lemma removeSlashSlash_segs fuel done I t :
  slash_free (I ++ [t]) → length I ≤ fuel →
  removeSlashSlash fuel done (path_of (I ++ [t]))
  = done ++ path_of (without [] I ++ [t]).
Proof.
  change strSlashSlash with (sep []). revert done I.
  induction fuel as [|fuel IH]; intros done I Hf Hl; cbn [removeSlashSlash].
  { destruct I; simpl in Hl; [done|lia]. }
  change strSlashSlash with (sep []).
  destruct (decide ([] ∈ I)) as [(A&I'&->&HA)%list_elem_of_split_l|Hn].
  - rewrite <- app_assoc in *. cbn [app] in *.
    rewrite Index_seg_Some by (done || set_solver || by destruct I').
    rewrite path_of_app, take_app_length, drop_app_length, drop_path_seg by done.
    apply slash_free_app in Hf as [_ Hf]. inversion Hf; subst.
    rewrite length_app in Hl. simpl in Hl. rewrite IH by (done || lia).
    rewrite filter_ne_split, <- !app_assoc, (path_of_app A) by done. done.
  - by rewrite Index_seg_None, filter_ne_id by (done || set_solver).
Qed.

Lemma removeSlashDotSlash_segs fuel I t :
  slash_free (I ++ [t]) → length I ≤ fuel →
  removeSlashDotSlash fuel (path_of (I ++ [t])) = path_of (without [dot] I ++ [t]).
Proof.
  revert I. induction fuel as [|fuel IH]; intros I Hf Hl; cbn [removeSlashDotSlash].
  { destruct I; simpl in Hl; [done|lia]. }
  change strSlashDotSlash with (sep [dot]).
  destruct (decide ([dot] ∈ I)) as [(A&I'&->&HA)%list_elem_of_split_l|Hn].
  - rewrite <- app_assoc in *. cbn [app] in *.
    rewrite Index_seg_Some by (done || set_solver || by destruct I').
    rewrite path_of_app, take_app_length. cbn [length sep app].
    replace (length (path_of A) + 3 - 1) with (length (path_of A) + 2) by lia.
    rewrite drop_app_add, drop_path_seg, <- path_of_app, app_assoc by done.
    rewrite length_app in Hl. simpl in Hl. rewrite IH.
    + rewrite filter_ne_split, without_app, (filter_ne_id _ A) by done. done.
    + rewrite <- app_assoc. apply slash_free_app in Hf as [? Hf]. inversion Hf; subst.
      by apply slash_free_app.
    + rewrite length_app. lia.
  - by rewrite Index_seg_None, filter_ne_id by (done || set_solver).
Qed.

Definition dotdot_step (st : list bytes) (s : bytes) : list bytes :=
  if decide (s = [dot; dot]) then pop st else st ++ [s].

Lemma dotdot_step_plain A st : [dot; dot] ∉ A → foldl dotdot_step st A = st ++ A.
Proof.
  revert st. induction A as [|u A IH]; intros st H; cbn [foldl]; [by rewrite app_nil_r|].
  rewrite IH by set_solver. unfold dotdot_step. rewrite decide_False by set_solver.
  by rewrite <- app_assoc.
Qed.

Lemma pop_snoc A x : pop (A ++ [x]) = A.
Proof. apply removelast_last. Qed.

Lemma last_slash A : slash_free A →
  default 0 (LastIndexByte (path_of A) slash) = length (path_of (pop A)) ∧
  (LastIndexByte (path_of A) slash = None ↔ A = []).
Proof.
  intros Hf. destruct A as [|x A _] using rev_ind; [done|].
  apply slash_free_app in Hf as [_ Hf]. inversion Hf; subst.
  rewrite pop_snoc, path_of_app.
  rewrite (proj2 (LastIndexByte_Some (path_of A ++ path_of [x]) slash (length (path_of A)))).
  - split; [done|]. split; [done|]. by destruct A.
  - exists (path_of A), x. cbn. by rewrite app_nil_r.
Qed.

Lemma take_path_pop A C : take (length (path_of (pop A))) (path_of (A ++ C)) = path_of (pop A).
Proof.
  destruct A as [|x A _] using rev_ind; [done|]. rewrite pop_snoc.
  rewrite <- app_assoc, path_of_app. apply take_app_length.
Qed.

Lemma pop_Forall (P : bytes → Prop) A : Forall P A → Forall P (pop A).
Proof.
  destruct A as [|x A _] using rev_ind; [done|]. rewrite pop_snoc. by intros [? _]%Forall_app.
Qed.

Lemma removeDotDot_segs fuel I t :
  slash_free (I ++ [t]) → length I ≤ fuel →
  removeDotDot fuel (path_of (I ++ [t])) = path_of (foldl dotdot_step [] I ++ [t]).
Proof.
  revert I. induction fuel as [|fuel IH]; intros I Hf Hl; cbn [removeDotDot].
  { destruct I; simpl in Hl; [done|lia]. }
  change strSlashDotDotSlash with (sep [dot; dot]).
  destruct (decide ([dot; dot] ∈ I)) as [(A&I'&->&HA)%list_elem_of_split_l|Hn].
  - rewrite <- app_assoc in *. cbn [app] in *.
    rewrite Index_seg_Some by (done || set_solver || by destruct I').
    apply slash_free_app in Hf as [HfA Hf]. inversion Hf; subst.
    rewrite path_of_app at 1. rewrite take_app_length.
    destruct (last_slash A HfA) as [-> _]. rewrite take_path_pop, path_of_app.
    cbn [length sep app].
    replace (length (path_of A) + 4 - 1) with (length (path_of A) + 3) by lia.
    rewrite drop_app_add, drop_path_seg, <- path_of_app, app_assoc by done.
    rewrite length_app in Hl. simpl in Hl.
    assert (length (pop A) ≤ length A).
    { destruct A as [|x A _] using rev_ind; [done|]. rewrite pop_snoc, length_app. lia. }
    rewrite IH; [|rewrite <- app_assoc; apply slash_free_app; split; [by apply pop_Forall|done]
                 |rewrite length_app; lia].
    rewrite !foldl_app. cbn [foldl]. rewrite (dotdot_step_plain A) by done.
    assert ([dot; dot] ∉ pop A) as HpA.
    { intros H'. apply HA. revert H'. destruct A as [|x A _] using rev_ind; [done|].
      rewrite pop_snoc. set_solver. }
    rewrite (dotdot_step_plain (pop A)) by done. done.
  - rewrite Index_seg_None by (done || set_solver).
    by rewrite dotdot_step_plain by done.
Qed.

Lemma removeTrailingDotDot_segs I t :
  slash_free (I ++ [t]) →
  removeTrailingDotDot (path_of (I ++ [t]))
  = path_of (if decide (t = [dot; dot]) then pop I ++ [[]] else I ++ [t]).
Proof.
  intros Hf. apply slash_free_app in Hf as [HfI Hft]. inversion Hft as [|?? Ht _]; subst.
  unfold removeTrailingDotDot. case_decide as Hd.
  - subst t. rewrite path_of_app. change (path_of [[dot; dot]]) with strSlashDotDot.
    destruct (LastIndex _ _) as [n|] eqn:E; cycle 1.
    { apply LastIndex_None in E. destruct E. exists (path_of I), []. by rewrite app_nil_r. }
    apply LastIndex_Some in E as (l&r&E&->&Hmax).
    specialize (Hmax (path_of I) [] ltac:(by rewrite app_nil_r)).
    assert (length l = length (path_of I)) as Hll.
    { apply (f_equal length) in E. rewrite !length_app in E. lia. }
    rewrite Hll, length_app, Nat.eqb_refl, take_app_length.
    destruct (last_slash I HfI) as [Hd Hnone].
    destruct (LastIndexByte (path_of I) slash) as [nn|]; simpl in Hd; cycle 1.
    { rewrite (proj1 Hnone eq_refl). done. }
    subst nn. destruct I as [|x I _] using rev_ind; [by destruct Hnone as [_ Hx]; specialize (Hx eq_refl)|].
    rewrite pop_snoc, !path_of_app, <- !app_assoc, take_app_add. done.
  - destruct (LastIndex _ _) as [n|] eqn:E; [|done].
    destruct (Nat.eqb_spec (n + length strSlashDotDot) (length (path_of (I ++ [t])))) as [En|]; [|done].
    exfalso. apply LastIndex_Some in E as (l&r&E&->&_). rewrite E, !length_app in En.
    destruct r; [|simpl in En; lia]. rewrite path_of_app in E.
    assert (t = [dot; dot]); [|done].
    assert (LastIndexByte (path_of I ++ path_of [t]) slash = Some (length (path_of I))) as H1.
    { apply LastIndexByte_Some. exists (path_of I), t. cbn. by rewrite app_nil_r. }
    assert (LastIndexByte (path_of I ++ path_of [t]) slash = Some (length l)) as H2.
    { rewrite E. apply LastIndexByte_Some. exists l, [dot; dot]. split; [done|]. set_solver. }
    rewrite H1 in H2. simplify_eq. apply app_inj_1 in E as [_ E]; [|done].
    cbn in E. rewrite app_nil_r in E. by simplify_eq.
Qed.

(** * The whole function *)

Lemma length_path_of segs : length segs ≤ length (path_of segs).
Proof. induction segs; [done|]. rewrite path_of_cons. cbn. rewrite length_app. lia. Qed.

(** The three filters on the way fold into the reference step. *)
Lemma seg_step_filters I st :
  foldl dotdot_step st (without [dot] (without [] I)) = foldl seg_step st I.
Proof.
  unfold without. revert st. induction I as [|s I IH]; intros st; [done|]. cbn [foldl].
  rewrite <- IH. unfold seg_step. rewrite filter_cons. case_decide as H1; cbn [foldl].
  - rewrite filter_cons. case_decide as H2.
    + cbn [foldl]. rewrite (decide_False (P := s = [] ∨ s = [dot])) by naive_solver. done.
    + rewrite decide_True by naive_solver. done.
  - rewrite decide_True by naive_solver. done.
Qed.

Lemma without_Forall (P : bytes → Prop) s A : Forall P A → Forall P (without s A).
Proof.
  rewrite !Forall_forall. unfold without. intros H x [_ Hx]%list_elem_of_filter. auto.
Qed.

Lemma dotdot_step_Forall (P : bytes → Prop) A st :
  Forall P st → Forall P A → Forall P (foldl dotdot_step st A).
Proof.
  intros Hst HA. revert st Hst. induction HA as [|x A Hx _ IH]; intros st Hst; [done|].
  cbn [foldl]. apply IH. unfold dotdot_step. case_decide; [by apply pop_Forall|].
  apply Forall_app; auto.
Qed.

Lemma resolve_snoc I t :
  resolve (I ++ [t]) =
  let st := foldl seg_step [] I in
  if decide (t = [dot; dot]) then pop st ++ [[]] else st ++ [t].
Proof. unfold resolve. by rewrite removelast_last, last_snoc. Qed.

Lemma normalize_segs q I t : slash :: q = path_of (I ++ [t]) → slash_free (I ++ [t]) →
  (let b := removeSlashSlash (length (slash :: q)) [] (slash :: q) in
   let b := removeSlashDotSlash (length b) b in
   let b := removeDotDot (length b) b in
   removeTrailingDotDot b) = path_of (resolve (I ++ [t])).
Proof.
  intros -> Hf. cbn zeta. apply slash_free_app in Hf as [HI Ht].
  assert (∀ J, length J ≤ length (path_of (J ++ [t]))) as Hlen.
  { intros J. pose proof (length_path_of (J ++ [t])) as H. rewrite length_app in H. lia. }
  pose proof (without_Forall _ [] I HI) as H1. pose proof (without_Forall _ [dot] _ H1) as H2.
  rewrite removeSlashSlash_segs; [|by apply slash_free_app|done]. cbn [app].
  rewrite removeSlashDotSlash_segs; [|by apply slash_free_app|done].
  rewrite removeDotDot_segs; [|by apply slash_free_app|done].
  rewrite removeTrailingDotDot_segs
    by (apply slash_free_app; split; [by apply dotdot_step_Forall|done]).
  by rewrite seg_step_filters, resolve_snoc.
Qed.

Lemma snoc_inv {A} (l : list A) : l ≠ [] → ∃ I t, l = I ++ [t].
Proof. destruct l as [|x l _] using rev_ind; [done|]. eauto. Qed.

Lemma normalizePath_resolve src : normalizePath src = path_resolve src.
Proof.
  unfold normalizePath, path_resolve.
  set (q := if HasPrefix src strSlash then _ else _).
  assert (decodeArgAppendNoPlus (addLeadingSlash [] src) src = slash :: q) as ->.
  { rewrite decodeArgAppendNoPlus_ref. unfold q, addLeadingSlash.
    destruct src as [|c src]; [done|]. unfold strSlash. cbn [bs HasPrefix].
    change (HasPrefix (c :: src) (bs "/")) with (bool_decide (c = slash) && true).
    rewrite andb_true_r. destruct (decide (c = slash)) as [->|Hc].
    - rewrite bool_decide_false, bool_decide_true by auto.
      rewrite percent_decode_cons; [done|]. by intros [?|[? ?]].
    - by rewrite bool_decide_true, bool_decide_false by auto. }
  destruct (snoc_inv (split_on slash q) (split_on_nonempty _ _)) as (I&t&E).
  rewrite E. apply normalize_segs.
  - rewrite <- E. symmetry. apply path_of_split.
  - rewrite <- E. apply split_on_free.
Qed.

(** * Consequences *)

(** The stack never holds an empty, "." or ".." segment. *)
Definition clean (s : bytes) : Prop := s ≠ [] ∧ s ≠ [dot] ∧ s ≠ [dot; dot].

Lemma seg_step_clean I st : Forall clean st → Forall clean (foldl seg_step st I).
Proof.
  revert st. induction I as [|s I IH]; intros st Hst; [done|]. cbn [foldl]. apply IH.
  unfold seg_step. case_decide as H1; [done|]. case_decide; [by apply pop_Forall|].
  apply Forall_app. unfold clean. repeat constructor; naive_solver.
Qed.

Lemma resolve_inv segs : segs ≠ [] → slash_free segs →
  ∃ I t, resolve segs = I ++ [t] ∧ Forall clean I ∧ t ≠ [dot; dot] ∧ slash_free (I ++ [t]).
Proof.
  intros (I&t&->)%snoc_inv Hf. rewrite resolve_snoc. cbn zeta.
  apply slash_free_app in Hf as [HI Ht].
  assert (Forall clean (foldl seg_step [] I)) as Hc by by apply seg_step_clean.
  assert (slash_free (foldl seg_step [] I)) as Hs.
  { rewrite <- seg_step_filters. apply dotdot_step_Forall; [constructor|].
    by apply without_Forall, without_Forall. }
  case_decide.
  - eexists _, []. split_and!; [done|by apply pop_Forall|done|].
    apply slash_free_app. split; [by apply pop_Forall|]. repeat constructor. set_solver.
  - eexists _, t. split_and!; [done|done|done|]. by apply slash_free_app.
Qed.

Lemma path_resolve_inv src :
  ∃ I t, path_resolve src = path_of (I ++ [t]) ∧ Forall clean I ∧ t ≠ [dot; dot] ∧
         slash_free (I ++ [t]).
Proof.
  unfold path_resolve.
  destruct (resolve_inv (split_on slash (if HasPrefix src strSlash
    then tail (percent_decode false src) else percent_decode false src)))
    as (I&t&->&?); [apply split_on_nonempty|apply split_on_free|eauto].
Qed.

(** The segments of a normalized path. *)
Lemma normalizePath_segments src :
  ∃ I t, normalizePath src = path_of (I ++ [t]) ∧
    split_on slash (tail (normalizePath src)) = I ++ [t] ∧ Forall clean I ∧ t ≠ [dot; dot].
Proof.
  rewrite normalizePath_resolve. destruct (path_resolve_inv src) as (I&t&->&?&?&?).
  exists I, t. rewrite split_path_of; [done|done|by destruct I].
Qed.

(** A clean path is its own resolution. *)
Lemma resolve_clean I t : Forall clean I → t ≠ [dot; dot] → resolve (I ++ [t]) = I ++ [t].
Proof.
  intros HI Ht. rewrite resolve_snoc. cbn zeta. rewrite decide_False by done. f_equal.
  enough (∀ st, foldl seg_step st I = st ++ I) as -> by done.
  induction HI as [|s I [H1 [H2 H3]] _ IH]; intros st; cbn [foldl]; [by rewrite app_nil_r|].
  rewrite IH. unfold seg_step. rewrite decide_False by naive_solver.
  rewrite decide_False by done. by rewrite <- app_assoc.
Qed.

Lemma percent_decode_id p : "%"%byte ∉ p → percent_decode false p = p.
Proof.
  intros H. rewrite <- (app_nil_r p) at 1. rewrite percent_decode_plain; [by rewrite app_nil_r|].
  apply Forall_forall. intros x Hx [->|[? _]]; done.
Qed.

Lemma normalizePath_fixpoint src :
  "%"%byte ∉ normalizePath src → normalizePath (normalizePath src) = normalizePath src.
Proof.
  intros Hp. destruct (normalizePath_segments src) as (I&t&E&Hs&HI&Ht).
  rewrite (normalizePath_resolve (normalizePath src)). unfold path_resolve.
  rewrite percent_decode_id by done.
  assert (HasPrefix (normalizePath src) strSlash = true) as ->.
  { rewrite E. apply HasPrefix_spec. destruct I; eexists; done. }
  by rewrite Hs, resolve_clean, E.
Qed.
