(* ===== verification/Cookie.v ===== *)
(** cookie.go (and the cookie setters of supplement_http.go): the response cookie,
    its printer and parser, and the request cookie list. *)

From Stdlib Require Import ZArith Strings.Byte.
From stdpp Require Import prelude strings list.
From S2P Require Import Prelude Tables Bufio Bytesconv Args Uri.

(** * Time

    What cookies and headers use of Go's [time] package: formatting a time in UTC
    with the RFC1123 layout, the two parsers [ParseBytes] tries, the year, and
    [time.Date]. *)
Class GoTime := {
  Time : Type;
  zeroTime : Time;
  Year : Time → Z;
  Date : Z → Z → Z → Z → Z → Z → Time;
  FormatRFC1123 : Time → bytes;
  ParseRFC1123 : bytes → option Time;
  ParseDashed : bytes → option Time
}.

Definition strGMT : bytes := bs "GMT".

(** [copy(dst[len(dst)-3:], strGMT)] after the appended layout. *)
Definition AppendHTTPDate `{GoTime} (dst : bytes) (date : Time) : bytes :=
  let dst := dst ++ FormatRFC1123 date in
  take (length dst - 3) dst ++ strGMT.

Definition ParseHTTPDate `{GoTime} (date : bytes) : option Time := ParseRFC1123 date.

(** * The scanner *)

Definition decodeCookieArg (src : bytes) (skipQuotes : bool) : bytes :=
  let src := trimLeft " " src in
  let src := trimRight " " src in
  if skipQuotes && (1 <? length src) && HasPrefix src [x22] && bool_decide (last src = Some x22)
  then drop 1 (take (length src - 1) src)
  else src.

(** [seg] is [b[:i]] or [b[k:i]]; the result is the rest of [s.b] and the buffers. *)
Fixpoint cookieScanner_loop (isKey : bool) (seg rest bufK : bytes) : bytes * bytes * bytes :=
  match rest with
  | [] => ([], if isKey then [] else bufK, decodeCookieArg seg true)
  | c :: rest =>
      if bool_decide (c = "="%byte) && isKey then
        cookieScanner_loop false [] rest (decodeCookieArg seg false)
      else if bool_decide (c = ";"%byte) then
        (rest, if isKey then [] else bufK, decodeCookieArg seg true)
      else cookieScanner_loop isKey (seg ++ [c]) rest bufK
  end.

Definition cookieScanner_next (b bufK bufV : bytes) : option (bytes * bytes * bytes) :=
  if bool_decide (length b = 0) then None else Some (cookieScanner_loop true [] b bufK).

Definition getCookieKey (src : bytes) : bytes :=
  decodeCookieArg (match IndexByte src "=" with Some n => take n src | None => src end) false.

(** [c | 0x20] on bytes. *)
Definition or20 (c : byte) : byte := zb (Z.lor (bz c) 0x20).

Fixpoint caseInsensitiveCompare_loop (a b : bytes) : bool :=
  match a, b with
  | x :: a, y :: b => bool_decide (or20 x = or20 y) && caseInsensitiveCompare_loop a b
  | _, _ => true
  end.

Definition caseInsensitiveCompare (a b : bytes) : bool :=
  if bool_decide (length a ≠ length b) then false else caseInsensitiveCompare_loop a b.

(** * Request cookies *)

Fixpoint appendRequestCookieBytes_loop (dst : bytes) (l : list argsKV) : bytes :=
  match l with
  | [] => dst
  | kv :: l =>
      let dst := if 0 <? length (key kv) then dst ++ key kv ++ ["="%byte] else dst in
      let dst := dst ++ value kv in
      let dst := match l with [] => dst | _ => dst ++ bs "; " end in
      appendRequestCookieBytes_loop dst l
  end.

Definition appendRequestCookieBytes (dst : bytes) (cookies : kvs) : bytes :=
  appendRequestCookieBytes_loop dst (live cookies).

Fixpoint appendResponseCookieBytes_loop (dst : bytes) (l : list argsKV) : bytes :=
  match l with
  | [] => dst
  | kv :: l =>
      let dst := dst ++ value kv in
      let dst := match l with [] => dst | _ => dst ++ bs "; " end in
      appendResponseCookieBytes_loop dst l
  end.

Definition appendResponseCookieBytes (dst : bytes) (cookies : kvs) : bytes :=
  appendResponseCookieBytes_loop dst (live cookies).

(** The slot keeps its [noValue] flag. *)
Fixpoint parseRequestCookies_loop (fuel : nat) (b : bytes) (h : kvs) (kv : argsKV) : kvs :=
  match fuel with
  | O => releaseArg h kv
  | S fuel =>
      match cookieScanner_next b (key kv) (value kv) with
      | None => releaseArg h kv
      | Some (b, k, v) =>
          let kv := mkKV k v (noValue kv) in
          if (0 <? length k) || (0 <? length v) then
            let '(h, kv) := allocArg (commit h kv) in parseRequestCookies_loop fuel b h kv
          else parseRequestCookies_loop fuel b h kv
      end
  end.

Definition parseRequestCookies (cookies : kvs) (src : bytes) : kvs :=
  let '(h, kv) := allocArg cookies in
  parseRequestCookies_loop (S (length src)) src h kv.

(** * Response cookies *)

Inductive CookieSameSite :=
  | CookieSameSiteDisabled
  | CookieSameSiteDefaultMode
  | CookieSameSiteLaxMode
  | CookieSameSiteStrictMode
  | CookieSameSiteNoneMode.
#[global] Instance CookieSameSite_eq_decision : EqDecision CookieSameSite.
Proof. solve_decision. Defined.

Inductive cookie_error :=
  | errNoCookies
  | errMaxAge (e : conv_error)
  | errExpires (v : bytes).

Definition strCookieExpires : bytes := bs "Expires".
Definition strCookieDomain : bytes := bs "Domain".
Definition strCookiePath : bytes := bs "Path".
Definition strCookieHTTPOnly : bytes := bs "HttpOnly".
Definition strCookieSecure : bytes := bs "Secure".
Definition strCookiePartitioned : bytes := bs "Partitioned".
Definition strCookieMaxAge : bytes := bs "Max-Age".
Definition strCookieSameSite : bytes := bs "SameSite".
Definition strCookieSameSiteLax : bytes := bs "Lax".
Definition strCookieSameSiteStrict : bytes := bs "Strict".
Definition strCookieSameSiteNone : bytes := bs "None".

Section cookie.
Context `{GoTime}.

Record Cookie := mkCookie {
  c_key : bytes;
  c_value : bytes;
  c_expire : Time;
  c_maxAge : Z;
  c_domain : bytes;
  c_path : bytes;
  c_sameSite : CookieSameSite;
  c_bufK : bytes;
  c_bufV : bytes;
  c_httpOnly : bool;
  c_secure : bool;
  c_partitioned : bool
}.

#[global] Instance Cookie_etable : Etable Cookie := λ c,
  mkCookie (c_key c) (c_value c) (c_expire c) (c_maxAge c) (c_domain c) (c_path c)
    (c_sameSite c) (c_bufK c) (c_bufV c) (c_httpOnly c) (c_secure c) (c_partitioned c).

Definition Cookie_zero : Cookie :=
  mkCookie [] [] zeroTime 0 [] [] CookieSameSiteDisabled [] [] false false false.

Definition CookieExpireDelete : Time := Date 2009 11 10 23 0 0.
Definition CookieExpireUnlimited : Time := zeroTime.

Definition validCookieExpires (t : Time) : bool := (1601 <=? Year t)%Z.
End cookie.

Module Cookie.
Section cookie_ops.
Context `{GoTime}.

Definition Reset (c : Cookie) : Cookie :=
  c <| c_key := [] |> <| c_value := [] |> <| c_expire := zeroTime |> <| c_maxAge := 0%Z |>
    <| c_domain := [] |> <| c_path := [] |> <| c_httpOnly := false |> <| c_secure := false |>
    <| c_sameSite := CookieSameSiteDisabled |> <| c_partitioned := false |>.

(** Copies [src] into [c], whatever the name says. *)
Definition CopyTo (c src : Cookie) : Cookie :=
  (Reset c) <| c_key := c_key src |> <| c_value := c_value src |>
    <| c_expire := c_expire src |> <| c_maxAge := c_maxAge src |>
    <| c_domain := c_domain src |> <| c_path := c_path src |>
    <| c_httpOnly := c_httpOnly src |> <| c_secure := c_secure src |>
    <| c_sameSite := c_sameSite src |> <| c_partitioned := c_partitioned src |>.

Definition SetHTTPOnly (c : Cookie) (b : bool) : Cookie := c <| c_httpOnly := b |>.
Definition SetSecure (c : Cookie) (b : bool) : Cookie := c <| c_secure := b |>.
Definition SetSameSite (c : Cookie) (mode : CookieSameSite) : Cookie :=
  let c := c <| c_sameSite := mode |> in
  if bool_decide (mode = CookieSameSiteNoneMode) then SetSecure c true else c.
Definition SetPath (c : Cookie) (p : bytes) : Cookie :=
  c <| c_bufV := p |> <| c_path := normalizePath p |>.
Definition SetPathBytes := SetPath.
Definition SetPartitioned (c : Cookie) (b : bool) : Cookie :=
  let c := c <| c_partitioned := b |> in
  if b then SetPath (SetSecure c true) (bs "/") else c.
Definition SetDomain (c : Cookie) (d : bytes) : Cookie := c <| c_domain := d |>.
Definition SetDomainBytes := SetDomain.
Definition SetMaxAge (c : Cookie) (seconds : Z) : Cookie := c <| c_maxAge := seconds |>.
Definition Expire (c : Cookie) : Time := c_expire c.
Definition SetExpire (c : Cookie) (t : Time) : Cookie := c <| c_expire := t |>.
Definition SetValue (c : Cookie) (v : bytes) : Cookie := c <| c_value := v |>.
Definition SetValueBytes := SetValue.
Definition SetKey (c : Cookie) (k : bytes) : Cookie := c <| c_key := k |>.
Definition SetKeyBytes := SetKey.

(** An empty prefix appends to the value in place. *)
Definition SetPrefixValue (c : Cookie) (prefix v : bytes) : Cookie :=
  let c := if bool_decide (length prefix ≠ 0) then c <| c_value := prefix |> else c in
  c <| c_value := c_value c ++ v |>.
Definition SetPrefixValueBytes := SetPrefixValue.

(** [None] is the panic of [AppendUint], which a positive number never raises. *)
Definition AppendBytes (c : Cookie) (dst : bytes) : option (bytes * Cookie) :=
  let dst := if 0 <? length (c_key c) then dst ++ c_key c ++ ["="%byte] else dst in
  let dst := dst ++ c_value c in
  dst ← (if (0 <? c_maxAge c)%Z then AppendUint (dst ++ bs "; Max-Age=") (c_maxAge c)
         else Some (if (c_maxAge c <? 0)%Z then dst ++ bs "; Max-Age=0" else dst));
  let '(dst, c) :=
    if validCookieExpires (c_expire c) then
      let d := AppendHTTPDate [] (c_expire c) in
      (dst ++ bs "; Expires=" ++ d, c <| c_bufK := d |>)
    else (dst, c) in
  let dst := if 0 <? length (c_domain c) then dst ++ bs "; Domain=" ++ c_domain c else dst in
  let dst := if 0 <? length (c_path c) then dst ++ bs "; Path=" ++ c_path c else dst in
  let dst := if c_httpOnly c then dst ++ bs "; HttpOnly" else dst in
  let dst := if c_secure c then dst ++ bs "; Secure" else dst in
  let dst := match c_sameSite c with
             | CookieSameSiteDefaultMode => dst ++ bs "; SameSite"
             | CookieSameSiteLaxMode => dst ++ bs "; SameSite=Lax"
             | CookieSameSiteStrictMode => dst ++ bs "; SameSite=Strict"
             | CookieSameSiteNoneMode => dst ++ bs "; SameSite=None"
             | CookieSameSiteDisabled => dst
             end in
  let dst := if c_partitioned c then dst ++ bs "; Partitioned" else dst in
  Some (dst, c).

(** [Cookie()]: the representation, kept in [bufV]. *)
Definition Cookie_ (c : Cookie) : option (bytes * Cookie) :=
  '(b, c) ← AppendBytes c []; Some (b, c <| c_bufV := b |>).
Definition String := Cookie_.

(** The attribute [k=v] of [ParseBytes], [k] not empty. *)
Definition parseKeyAttr (c : Cookie) (k v : bytes) : Cookie + cookie_error :=
  let first := or20 (hd x00 k) in
  if bool_decide (first = "m"%byte) then
    if caseInsensitiveCompare strCookieMaxAge k then
      match ParseUint v with
      | (_, Some e) => inr (errMaxAge e)
      | (maxAge, None) => inl (c <| c_maxAge := maxAge |>)
      end
    else inl c
  else if bool_decide (first = "e"%byte) then
    if caseInsensitiveCompare strCookieExpires k then
      match ParseRFC1123 v with
      | Some t => inl (c <| c_expire := t |>)
      | None =>
          match ParseDashed v with
          | Some t => inl (c <| c_expire := t |>)
          | None => inr (errExpires v)
          end
      end
    else inl c
  else if bool_decide (first = "d"%byte) then
    inl (if caseInsensitiveCompare strCookieDomain k
         then c <| c_domain := c_domain c ++ v |> else c)
  else if bool_decide (first = "p"%byte) then
    inl (if caseInsensitiveCompare strCookiePath k
         then c <| c_path := c_path c ++ v |> else c)
  else if bool_decide (first = "s"%byte) then
    inl (if caseInsensitiveCompare strCookieSameSite k && (0 <? length v) then
           let vfirst := or20 (hd x00 v) in
           if bool_decide (vfirst = "l"%byte) && caseInsensitiveCompare strCookieSameSiteLax v
           then c <| c_sameSite := CookieSameSiteLaxMode |>
           else if bool_decide (vfirst = "s"%byte)
                   && caseInsensitiveCompare strCookieSameSiteStrict v
           then c <| c_sameSite := CookieSameSiteStrictMode |>
           else if bool_decide (vfirst = "n"%byte)
                   && caseInsensitiveCompare strCookieSameSiteNone v
           then c <| c_sameSite := CookieSameSiteNoneMode |>
           else c
         else c)
  else inl c.

(** The flag [v] of [ParseBytes], [v] not empty. *)
Definition parseFlagAttr (c : Cookie) (v : bytes) : Cookie :=
  let first := or20 (hd x00 v) in
  if bool_decide (first = "h"%byte) then
    if caseInsensitiveCompare strCookieHTTPOnly v then c <| c_httpOnly := true |> else c
  else if bool_decide (first = "s"%byte) then
    if caseInsensitiveCompare strCookieSecure v then c <| c_secure := true |>
    else if caseInsensitiveCompare strCookieSameSite v
    then c <| c_sameSite := CookieSameSiteDefaultMode |> else c
  else if bool_decide (first = "p"%byte) then
    if caseInsensitiveCompare strCookiePartitioned v then c <| c_partitioned := true |> else c
  else c.

Definition parseAttr (c : Cookie) : Cookie + cookie_error :=
  if bool_decide (length (c_bufK c) ≠ 0) then parseKeyAttr c (c_bufK c) (c_bufV c)
  else if bool_decide (length (c_bufV c) ≠ 0) then inl (parseFlagAttr c (c_bufV c))
  else inl c.

(** The attribute loop; [length b] bounds its steps. *)
Fixpoint ParseBytes_loop (fuel : nat) (b : bytes) (c : Cookie) : Cookie * option cookie_error :=
  match fuel with
  | O => (c, None)
  | S fuel =>
      match cookieScanner_next b (c_bufK c) (c_bufV c) with
      | None => (c, None)
      | Some (b, k, v) =>
          let c := c <| c_bufK := k |> <| c_bufV := v |> in
          match parseAttr c with
          | inr e => (c, Some e)
          | inl c => ParseBytes_loop fuel b c
          end
      end
  end.

Definition ParseBytes (c : Cookie) (src : bytes) : Cookie * option cookie_error :=
  let c := Reset c in
  match cookieScanner_next src (c_bufK c) (c_bufV c) with
  | None => (c, Some errNoCookies)
  | Some (b, k, v) =>
      let c := c <| c_bufK := k |> <| c_bufV := v |> in
      let c := c <| c_key := k |> <| c_value := v |> in
      ParseBytes_loop (S (length b)) b c
  end.

Definition Parse := ParseBytes.
End cookie_ops.
End Cookie.
