(* ===== verification/GoTimeUTC.v ===== *)
(** A concrete [GoTime]: UTC times in whole seconds since the Unix epoch, printed
    and parsed with the two layouts the cookie code uses. The parsers accept
    exactly the fixed-width form of the layout; Go's [time.Parse] accepts more. *)

From Stdlib Require Import ZArith Strings.Byte.
From stdpp Require Import prelude strings list.
From S2P Require Import Prelude Tables Bufio Bytesconv Args Uri Cookie.
Local Open Scope Z_scope.

Definition days_from_civil (y m d : Z) : Z :=
  let y := if m <=? 2 then y - 1 else y in
  let era := y / 400 in
  let yoe := y - era * 400 in
  let doy := (153 * (if 2 <? m then m - 3 else m + 9) + 2) / 5 + d - 1 in
  let doe := yoe * 365 + yoe / 4 - yoe / 100 + doy in
  era * 146097 + doe - 719468.

Definition civil_from_days (z : Z) : Z * Z * Z :=
  let z := z + 719468 in
  let era := z / 146097 in
  let doe := z - era * 146097 in
  let yoe := (doe - doe / 1460 + doe / 36524 - doe / 146096) / 365 in
  let doy := doe - (365 * yoe + yoe / 4 - yoe / 100) in
  let mp := (5 * doy + 2) / 153 in
  let d := doy - (153 * mp + 2) / 5 + 1 in
  let m := if mp <? 10 then mp + 3 else mp - 9 in
  (yoe + era * 400 + (if m <=? 2 then 1 else 0), m, d).

Definition date (y mo d h mi s : Z) : Z := days_from_civil y mo d * 86400 + h * 3600 + mi * 60 + s.

Definition weekdays : list bytes := bs <$> ["Sun"; "Mon"; "Tue"; "Wed"; "Thu"; "Fri"; "Sat"].
Definition months : list bytes :=
  bs <$> ["Jan"; "Feb"; "Mar"; "Apr"; "May"; "Jun"; "Jul"; "Aug"; "Sep"; "Oct"; "Nov"; "Dec"].

Definition dig (n : Z) : byte := zb (bz "0" + n mod 10).
Definition two (n : Z) : bytes := [dig (n / 10); dig n].
Definition four (n : Z) : bytes := two (n / 100) ++ two (n mod 100).

Definition format_rfc1123 (t : Z) : bytes :=
  let days := t / 86400 in
  let r := t mod 86400 in
  let '(y, m, d) := civil_from_days days in
  nth (Z.to_nat ((days + 4) mod 7)) weekdays [] ++ bs ", " ++ two d ++ bs " "
  ++ nth (Z.to_nat (m - 1)) months [] ++ bs " " ++ four y ++ bs " "
  ++ two (r / 3600) ++ bs ":" ++ two (r / 60 mod 60) ++ bs ":" ++ two (r mod 60) ++ bs " UTC".

Definition num (b : bytes) : option Z :=
  match ParseUint b with (n, None) => Some n | _ => None end.

Fixpoint index_of (x : bytes) (l : list bytes) : option Z :=
  match l with
  | [] => None
  | y :: l => if bool_decide (x = y) then Some 0 else (λ n, n + 1) <$> index_of x l
  end.

(** "Mon, 02 Jan 2006 15:04:05 MST", with [sep] between the parts of the date. *)
Definition parse_layout (sep : byte) (b : bytes) : option Z :=
  let sub i n := take n (drop i b) in
  if bool_decide (length b = 29%nat) && bool_decide (sub 3 2 = bs ", ")%nat
     && bool_decide (sub 7 1 = [sep])%nat && bool_decide (sub 11 1 = [sep])%nat
     && bool_decide (sub 16 1 = bs " ")%nat && bool_decide (sub 19 1 = bs ":")%nat
     && bool_decide (sub 22 1 = bs ":")%nat && bool_decide (sub 25 1 = bs " ")%nat
  then
    _ ← index_of (sub 0 3)%nat weekdays;
    d ← num (sub 5 2)%nat;
    m ← index_of (sub 8 3)%nat months;
    y ← num (sub 12 4)%nat;
    h ← num (sub 17 2)%nat;
    mi ← num (sub 20 2)%nat;
    s ← num (sub 23 2)%nat;
    Some (date y (m + 1) d h mi s)
  else None.

#[export] Instance GoTimeUTC : GoTime := {|
  Time := Z;
  zeroTime := date 1 1 1 0 0 0;
  Year := λ t, (civil_from_days (t / 86400)).1.1;
  Date := date;
  FormatRFC1123 := format_rfc1123;
  ParseRFC1123 := parse_layout " ";
  ParseDashed := parse_layout "-"
|}.

Example format_cookie_expire_delete :
  AppendHTTPDate [] CookieExpireDelete = bs "Tue, 10 Nov 2009 23:00:00 GMT".
Proof. vm_compute. reflexivity. Qed.

Example parse_cookie_expire_delete :
  ParseRFC1123 (bs "Tue, 10 Nov 2009 23:00:00 GMT") = Some CookieExpireDelete.
Proof. vm_compute. reflexivity. Qed.
