(* ===== verification/CookieFacts.v ===== *)
(** Theorems about Cookie: the scanner equals its reference on ';'-separated
    pieces, and printing then parsing returns the cookie. *)

From Stdlib Require Import ZArith Strings.Byte.
From stdpp Require Import prelude strings list.
From S2P Require Import Prelude Tables Bufio Bytesconv BytesconvFacts Args ArgsFacts Uri Cookie.

(** * Trimming *)

Lemma trimLeft_id c b : hd_error b ≠ Some c → trimLeft c b = b.
Proof. destruct b as [|x b]; simpl; [done|]. intros. by rewrite bool_decide_false by congruence. Qed.

Lemma trimRight_id c b : last b ≠ Some c → trimRight c b = b.
Proof.
  induction b as [|x b IH]; [done|]. intros Hl. cbn [trimRight].
  destruct b as [|y b]; [cbn; by rewrite bool_decide_false by (cbn in Hl; congruence)|].
  by rewrite IH by done.
Qed.

(** Text that the scanner returns as it is: no separator, no space at either end,
    no opening quote. *)
Definition plain (v : bytes) : Prop :=
  ";"%byte ∉ v ∧ hd_error v ≠ Some " "%byte ∧ last v ≠ Some " "%byte ∧ hd_error v ≠ Some x22.

Lemma decodeCookieArg_plain v q : plain v → decodeCookieArg v q = v.
Proof.
  intros (_&H1&H2&H3). unfold decodeCookieArg. rewrite trimLeft_id, trimRight_id by done.
  replace (HasPrefix v [x22]) with false; [by rewrite andb_false_r|].
  destruct v as [|x v]; [done|]. cbn in *. by rewrite bool_decide_false by congruence.
Qed.

Lemma decodeCookieArg_space v q : plain v → decodeCookieArg (" "%byte :: v) q = v.
Proof. intros Hv. trans (decodeCookieArg v q); [done|]. by apply decodeCookieArg_plain. Qed.

(** * The scanner *)

Definition cookie_pair (p : bytes) : bytes * bytes :=
  match IndexByte p "=" with
  | None => ([], decodeCookieArg p true)
  | Some i => (decodeCookieArg (take i p) false, decodeCookieArg (drop (S i) p) true)
  end.

Lemma cookie_pair_plain p : "="%byte ∉ p → cookie_pair p = ([], decodeCookieArg p true).
Proof. intros H. unfold cookie_pair. by rewrite (proj2 (IndexByte_None _ _) H). Qed.

Lemma cookie_pair_value k v : "="%byte ∉ k →
  cookie_pair (k ++ "="%byte :: v) = (decodeCookieArg k false, decodeCookieArg v true).
Proof.
  intros H. unfold cookie_pair. rewrite IndexByte_app, take_app_length by done.
  rewrite (cons_middle "="%byte), app_assoc.
  by rewrite drop_app_length' by (rewrite length_app; simpl; lia).
Qed.

Lemma cookieScanner_value seg rest k :
  cookieScanner_loop false seg rest k
  = (after ";" rest, k, decodeCookieArg (seg ++ before ";" rest) true).
Proof.
  revert seg. induction rest as [|c rest IH]; intros seg; cbn [cookieScanner_loop].
  { by rewrite app_nil_r. }
  rewrite andb_false_r. case_bool_decide as E.
  - subst c. destruct (before_eq ";" rest) as [-> ->]. by rewrite app_nil_r.
  - rewrite IH, before_cons_ne, after_cons_ne by done. by rewrite <- app_assoc.
Qed.

Lemma cookieScanner_key seg rest k : "="%byte ∉ seg →
  cookieScanner_loop true seg rest k
  = let p := cookie_pair (seg ++ before ";" rest) in (after ";" rest, p.1, p.2).
Proof.
  revert seg. induction rest as [|c rest IH]; intros seg Hs; cbn [cookieScanner_loop]; cbn zeta.
  { change (before ";" []) with (@nil byte). by rewrite app_nil_r, cookie_pair_plain. }
  rewrite andb_true_r. case_bool_decide as E; [subst c|case_bool_decide as E'; [subst c|]].
  - rewrite cookieScanner_value, before_cons_ne, after_cons_ne by done.
    by rewrite cookie_pair_value by done.
  - destruct (before_eq ";" rest) as [-> ->]. by rewrite app_nil_r, cookie_pair_plain.
  - rewrite before_cons_ne, after_cons_ne by done. rewrite IH by set_solver.
    by rewrite <- app_assoc.
Qed.

Lemma cookieScanner_next_spec b k v :
  cookieScanner_next b k v =
  if bool_decide (b = []) then None
  else let p := cookie_pair (before ";" b) in Some (after ";" b, p.1, p.2).
Proof.
  unfold cookieScanner_next. rewrite (bool_decide_ext (length b = 0) (b = []))
    by apply length_zero_iff_nil.
  case_bool_decide; [done|]. by rewrite cookieScanner_key by set_solver.
Qed.

Lemma before_after_app c p b : c ∉ p → before c (p ++ c :: b) = p ∧ after c (p ++ c :: b) = b.
Proof.
  intros H. unfold before, after. rewrite IndexByte_app, take_app_length by done.
  split; [done|]. rewrite (cons_middle c), app_assoc.
  by rewrite drop_app_length' by (rewrite length_app; simpl; lia).
Qed.

Lemma before_after_plain c p : c ∉ p → before c p = p ∧ after c p = [].
Proof. intros H. unfold before, after. by rewrite (proj2 (IndexByte_None _ _) H). Qed.

(** * Case folding *)

Lemma caseInsensitiveCompare_loop_refl a : caseInsensitiveCompare_loop a a = true.
Proof. induction a as [|x a IH]; simpl; [done|]. by rewrite bool_decide_true. Qed.

Lemma caseInsensitiveCompare_refl a : caseInsensitiveCompare a a = true.
Proof.
  unfold caseInsensitiveCompare. rewrite bool_decide_false by naive_solver.
  apply caseInsensitiveCompare_loop_refl.
Qed.

(** * Request cookies *)

(** What the cookies of a request header parse to. *)
Definition cookie_parse (b : bytes) : list (bytes * bytes) :=
  split_on ";" b ≫= λ p, let kv := cookie_pair p in
    if (0 <? length kv.1) || (0 <? length kv.2) then [kv] else [].

Lemma cookie_parse_unfold b : cookie_parse b =
  (let kv := cookie_pair (before ";" b) in
   if (0 <? length kv.1) || (0 <? length kv.2) then [kv] else []) ++ cookie_parse (after ";" b).
Proof. unfold cookie_parse. by rewrite split_on_unfold by done. Qed.

(** No slot of a cookie slice, live or stale, is marked as having no value. *)
Definition cookies_ok (h : kvs) : Prop := Forall (λ kv, noValue kv = false) (live h ++ spare h).

Definition has_value (p : bytes * bytes) : argsKV := mkKV p.1 p.2 false.

Lemma allocArg_ok h : cookies_ok h →
  cookies_ok (allocArg h).1 ∧ noValue (allocArg h).2 = false ∧ live (allocArg h).1 = live h.
Proof.
  unfold cookies_ok, allocArg. destruct h as [l [|kv sp]]; [done|].
  cbn. rewrite !Forall_app, Forall_cons. naive_solver.
Qed.

Lemma parseRequestCookies_loop_spec fuel b h kv :
  length b < fuel → cookies_ok h → noValue kv = false →
  let h' := parseRequestCookies_loop fuel b h kv in
  live h' = live h ++ (has_value <$> cookie_parse b) ∧ cookies_ok h'.
Proof.
  revert b h kv. induction fuel as [|fuel IH]; intros b h kv Hf Hh Hkv; [lia|].
  cbn [parseRequestCookies_loop]. rewrite cookieScanner_next_spec. case_bool_decide as Hb.
  { subst b. cbn. rewrite app_nil_r. split; [done|]. unfold cookies_ok in *.
    cbn. rewrite Forall_app, Forall_cons in *. naive_solver. }
  pose proof (length_after ";" b Hb). rewrite cookie_parse_unfold. cbn zeta.
  destruct (cookie_pair (before ";" b)) as [k v]; cbn [fst snd].
  destruct ((0 <? length k) || (0 <? length v)); [|by apply IH; [lia|..]].
  rewrite Hkv. assert (cookies_ok (commit h (mkKV k v false))) as Hc.
  { unfold cookies_ok in *. cbn. rewrite !Forall_app, Forall_cons in *. naive_solver. }
  destruct (allocArg_ok _ Hc) as (H1&H2&H3). destruct (allocArg _) as [h1 kv1]. cbn in H1, H2, H3.
  destruct (IH (after ";" b) h1 kv1) as [-> ?]; [lia|done|done|].
  rewrite H3, fmap_app, <- app_assoc. done.
Qed.

Lemma parseRequestCookies_spec h b : cookies_ok h →
  live (parseRequestCookies h b) = live h ++ (has_value <$> cookie_parse b) ∧
  cookies_ok (parseRequestCookies h b).
Proof.
  intros Hh. unfold parseRequestCookies. destruct (allocArg_ok h Hh) as (H1&H2&H3).
  destruct (allocArg h) as [h1 kv1]. cbn in H1, H2, H3.
  destruct (parseRequestCookies_loop_spec (S (length b)) b h1 kv1) as [-> ?]; [lia|done|done|].
  by rewrite H3.
Qed.

(** A cookie that survives printing and parsing. *)
Definition cookie_wf (p : bytes * bytes) : Prop :=
  plain p.1 ∧ plain p.2 ∧ "="%byte ∉ p.1 ∧ (p.1 = [] → p.2 ≠ [] ∧ "="%byte ∉ p.2).

Definition enc_cookie (p : bytes * bytes) : bytes :=
  if 0 <? length p.1 then p.1 ++ "="%byte :: p.2 else p.2.

Lemma enc_cookie_clean p : cookie_wf p → ";"%byte ∉ enc_cookie p.
Proof. intros ((?&_)&(?&_)&_). unfold enc_cookie. case_match; set_solver. Qed.

Lemma enc_cookie_nonempty p b : cookie_wf p → enc_cookie p ++ b ≠ [].
Proof.
  intros (_&_&_&Hn). unfold enc_cookie. destruct p as [[|x k] [|y v]]; cbn in *; naive_solver.
Qed.

Lemma cookie_pair_enc p : cookie_wf p →
  cookie_pair (enc_cookie p) = p ∧ cookie_pair (" "%byte :: enc_cookie p) = p ∧
  (0 <? length p.1) || (0 <? length p.2) = true.
Proof.
  destruct p as [[|x k] v]; intros (Hk&Hv&He&Hnil); unfold enc_cookie; cbn [fst snd length] in *.
  - destruct (Hnil eq_refl) as [Hne He']. cbn [Nat.ltb Nat.leb].
    rewrite !cookie_pair_plain by set_solver.
    rewrite decodeCookieArg_space, decodeCookieArg_plain by done. by destruct v.
  - change (0 <? S (length k)) with true. cbn [orb]. rewrite (cookie_pair_value (x :: k)) by done.
    rewrite (app_comm_cons (x :: k) _ " "%byte), cookie_pair_value by set_solver.
    by rewrite decodeCookieArg_space, !decodeCookieArg_plain by done.
Qed.

Lemma appendRequestCookie_parse l dst :
  Forall cookie_wf l →
  ∃ s, appendRequestCookieBytes_loop dst (has_value <$> l) = dst ++ s ∧
       cookie_parse s = l ∧ (l ≠ [] → cookie_parse (" "%byte :: s) = l).
Proof.
  intros Hl. revert dst. induction Hl as [|p l Hp Hl IH]; intros dst.
  { exists []. by rewrite app_nil_r. }
  destruct (cookie_pair_enc p Hp) as (E1&E2&E3). pose proof (enc_cookie_clean p Hp).
  assert (∀ d, (if 0 <? length p.1 then d ++ p.1 ++ ["="%byte] else d) ++ p.2
               = d ++ enc_cookie p) as Hd.
  { intros d. unfold enc_cookie. case_match; [|done]. by rewrite <- !app_assoc. }
  rewrite fmap_cons. cbn [appendRequestCookieBytes_loop has_value key value]. rewrite Hd.
  destruct l as [|q l].
  - exists (enc_cookie p). split; [done|]. unfold cookie_parse.
    rewrite !split_on_plain by set_solver. cbn [mbind list_bind].
    rewrite E1, E2. cbn zeta. rewrite E3. done.
  - cbn [fmap list_fmap]. rewrite <- app_assoc.
    destruct (IH (dst ++ enc_cookie p ++ bs "; ")) as (s&Hs&_&Hp'). cbn [fmap list_fmap] in Hs.
    rewrite Hs. exists (enc_cookie p ++ bs "; " ++ s). rewrite <- !app_assoc. split; [done|].
    specialize (Hp' ltac:(done)). change (bs "; " ++ s) with (";"%byte :: " "%byte :: s).
    unfold cookie_parse in *. rewrite app_comm_cons, !split_on_app by set_solver.
    cbn [mbind list_bind]. rewrite Hp', E1, E2. cbn zeta. by rewrite E3.
Qed.

(** * Response cookies *)

Fixpoint joinc (l : list bytes) : bytes :=
  match l with
  | [] => []
  | [a] => a
  | a :: l => a ++ ";"%byte :: joinc l
  end.

Lemma joinc_bind a l : joinc (a :: l) = a ++ (l ≫= cons ";"%byte).
Proof.
  revert a. induction l as [|x l IH]; intros a; [by rewrite app_nil_r|].
  change (joinc (a :: x :: l)) with (a ++ ";"%byte :: joinc (x :: l)). by rewrite IH.
Qed.

Lemma joinc_before_after a l : ";"%byte ∉ a →
  before ";" (joinc (a :: l)) = a ∧ after ";" (joinc (a :: l)) = joinc l.
Proof.
  intros Ha. destruct l as [|b l]; [by apply before_after_plain|]. by apply before_after_app.
Qed.

Section response.
Context `{GoTime}.

(** Parsing the attributes given one by one. *)
Fixpoint cookie_fold (attrs : list bytes) (c : Cookie) : Cookie * option cookie_error :=
  match attrs with
  | [] => (c, None)
  | a :: attrs =>
      let p := cookie_pair a in
      let c := c <| c_bufK := p.1 |> <| c_bufV := p.2 |> in
      match Cookie.parseAttr c with
      | inr e => (c, Some e)
      | inl c => cookie_fold attrs c
      end
  end.

Definition attr_ok (a : bytes) : Prop := ";"%byte ∉ a ∧ a ≠ [].

Lemma ParseBytes_loop_fold attrs fuel c :
  Forall attr_ok attrs → length (joinc attrs) < fuel →
  Cookie.ParseBytes_loop fuel (joinc attrs) c = cookie_fold attrs c.
Proof.
  intros Ha. revert fuel c. induction Ha as [|a attrs [Ha Hne] Hall IH]; intros fuel c Hf.
  { destruct fuel; done. }
  destruct fuel as [|fuel]; [lia|]. cbn [Cookie.ParseBytes_loop cookie_fold].
  rewrite cookieScanner_next_spec. destruct (joinc_before_after a attrs Ha) as [Eb Ea].
  assert (joinc (a :: attrs) ≠ []) as Hj by (rewrite joinc_bind; by destruct a).
  rewrite bool_decide_false by done. pose proof (length_after ";" _ Hj) as Hl.
  rewrite Eb, Ea in *. cbv beta iota zeta. destruct (Cookie.parseAttr _); [|done]. apply IH. lia.
Qed.

Lemma cookie_fold_app a b c :
  cookie_fold (a ++ b) c =
  match cookie_fold a c with (c, None) => cookie_fold b c | r => r end.
Proof.
  revert c. induction a as [|x a IH]; intros c; [done|]. cbn [app cookie_fold].
  cbn zeta. case_match; [apply IH|done].
Qed.

(** The cookie without its scratch buffers. *)
Definition public (c : Cookie) : Cookie := c <| c_bufK := [] |> <| c_bufV := [] |>.

(** One attribute changes the public part of the cookie by [f]. *)
Definition sets (attrs : list bytes) (f : Cookie → Cookie) : Prop :=
  ∀ c, ∃ c', cookie_fold attrs c = (c', None) ∧ public c' = f (public c).

Lemma sets_nil : sets [] (λ c, c).
Proof. intros c. by exists c. Qed.

Lemma sets_app a b f g : sets a f → sets b g → sets (a ++ b) (λ c, g (f c)).
Proof.
  intros Ha Hb c. destruct (Ha c) as (c1&E1&P1), (Hb c1) as (c2&E2&P2).
  exists c2. rewrite cookie_fold_app, E1. split; [done|]. by rewrite P2, P1.
Qed.

Lemma sets_opt (x : bool) a f :
  (x = true → sets [a] f) → sets (if x then [a] else []) (λ c, if x then f c else c).
Proof. destruct x; intros Hx; [by apply Hx|apply sets_nil]. Qed.

Lemma sets_flag a f :
  "="%byte ∉ a → decodeCookieArg a true ≠ [] →
  (∀ c, public (Cookie.parseFlagAttr c (decodeCookieArg a true)) = f (public c)) → sets [a] f.
Proof.
  intros He Hne Hf c. cbn [cookie_fold]. rewrite cookie_pair_plain by done. cbn zeta.
  unfold Cookie.parseAttr. cbn [upd c_bufK c_bufV fst snd length].
  rewrite bool_decide_false by naive_solver.
  rewrite bool_decide_true by (by destruct (decodeCookieArg a true)).
  eexists. split; [done|]. rewrite Hf. done.
Qed.

Lemma sets_key k v f :
  plain k → plain v → "="%byte ∉ k → k ≠ [] →
  (∀ c, ∃ c', Cookie.parseKeyAttr c k v = inl c' ∧ public c' = f (public c)) →
  sets [" "%byte :: k ++ "="%byte :: v] f.
Proof.
  intros Hk Hv He Hne Hf c. cbn [cookie_fold].
  rewrite app_comm_cons, cookie_pair_value by set_solver.
  rewrite decodeCookieArg_space, decodeCookieArg_plain by done. cbn zeta.
  unfold Cookie.parseAttr. cbn [upd c_bufK c_bufV fst snd].
  rewrite bool_decide_true by (by destruct k).
  edestruct Hf as (c'&->&Hp). exists c'. split; [done|]. by rewrite Hp.
Qed.
(** The formatted date is plain text that parses to the same time. *)
Definition date_ok (t : Time) : Prop :=
  plain (AppendHTTPDate [] t) ∧ ParseRFC1123 (AppendHTTPDate [] t) = Some t.

Definition resp_cookie_wf (c : Cookie) : Prop :=
  cookie_wf (c_key c, c_value c) ∧ (0 ≤ c_maxAge c < 2 ^ 63)%Z ∧
  plain (c_domain c) ∧ plain (c_path c) ∧
  if validCookieExpires (c_expire c) then date_ok (c_expire c) else c_expire c = zeroTime.

Definition attr (k v : bytes) : bytes := " "%byte :: k ++ "="%byte :: v.

Definition sameSite_attrs (m : CookieSameSite) : list bytes :=
  match m with
  | CookieSameSiteDisabled => []
  | CookieSameSiteDefaultMode => [bs " SameSite"]
  | CookieSameSiteLaxMode => [bs " SameSite=Lax"]
  | CookieSameSiteStrictMode => [bs " SameSite=Strict"]
  | CookieSameSiteNoneMode => [bs " SameSite=None"]
  end.

(** The attributes [AppendBytes] prints, [ds] being the digits of the age. *)
Definition cookie_attrs (ds : bytes) (c : Cookie) : list bytes :=
  (if (0 <? c_maxAge c)%Z then [attr strCookieMaxAge ds] else [])
  ++ (if validCookieExpires (c_expire c)
      then [attr strCookieExpires (AppendHTTPDate [] (c_expire c))] else [])
  ++ (if 0 <? length (c_domain c) then [attr strCookieDomain (c_domain c)] else [])
  ++ (if 0 <? length (c_path c) then [attr strCookiePath (c_path c)] else [])
  ++ (if c_httpOnly c then [bs " HttpOnly"] else [])
  ++ (if c_secure c then [bs " Secure"] else [])
  ++ sameSite_attrs (c_sameSite c)
  ++ (if c_partitioned c then [bs " Partitioned"] else []).

Lemma if_append (x : bool) (d s : bytes) :
  (if x then d ++ s else d) = d ++ (if x then s else []).
Proof. destruct x; [done|]. by rewrite app_nil_r. Qed.

Lemma if_bind (x : bool) (a : bytes) :
  ((if x then [a] else []) ≫= cons ";"%byte) = if x then ";"%byte :: a else [].
Proof. destruct x; [|done]. cbn. by rewrite app_nil_r. Qed.

Lemma AppendBytes_attrs c :
  (0 ≤ c_maxAge c < 2 ^ 63)%Z →
  ∃ ds c', Cookie.AppendBytes c []
           = Some (joinc (enc_cookie (c_key c, c_value c) :: cookie_attrs ds c), c') ∧
    public c' = public c ∧ Forall is_digit ds ∧ ds ≠ [] ∧ decval 0 ds = c_maxAge c.
Proof.
  intros Hm. destruct (AppendUint_spec [] (c_maxAge c) Hm) as (ds&Hds&Hd&Hne&Hv).
  exists ds. unfold Cookie.AppendBytes. cbn [app].
  assert ((if 0 <? length (c_key c) then c_key c ++ ["="%byte] else []) ++ c_value c
          = enc_cookie (c_key c, c_value c)) as ->.
  { unfold enc_cookie. cbn. case_match; [|done]. by rewrite <- app_assoc. }
  assert ((c_maxAge c <? 0)%Z = false) as -> by (apply Z.ltb_ge; lia).
  set (e := enc_cookie _).
  assert ((if (0 <? c_maxAge c)%Z then AppendUint (e ++ bs "; Max-Age=") (c_maxAge c) else Some e)
    = Some (e ++ if (0 <? c_maxAge c)%Z then bs "; Max-Age=" ++ ds else [])) as ->.
  { case_match; [|by rewrite app_nil_r]. revert Hds. unfold AppendUint.
    destruct (Z.ltb_spec (c_maxAge c) 0); [lia|].
    destruct (AppendUint_loop 20 (c_maxAge c) []); [|done]. intros [= ->].
    cbn [mbind option_bind]. by rewrite <- app_assoc. }
  cbn [mbind option_bind]. rewrite joinc_bind. unfold cookie_attrs.
  rewrite !bind_app, !if_bind.
  destruct (validCookieExpires (c_expire c)); cbn [upd c_domain c_path c_httpOnly c_secure
    c_sameSite c_partitioned]; rewrite !if_append; destruct (c_sameSite c) eqn:Es;
    (eexists; split; [rewrite <- !app_assoc; reflexivity|split_and!; try assumption]);
    unfold public; cbn; by rewrite ?Es.
Qed.

Lemma sets_maxAge ds n :
  Forall is_digit ds → ds ≠ [] → decval 0 ds = n → (n < 2 ^ 63)%Z →
  sets [attr strCookieMaxAge ds] (λ c, c <| c_maxAge := n |>).
Proof.
  intros Hds Hne Hv Hn. apply sets_key; [by split_and!; (done || set_solver)| |set_solver|done|].
  - assert (∀ x, x ∈ ds → is_digit x) as Hin by by apply Forall_forall.
    split_and!.
    + by intros ?%Hin.
    + destruct ds as [|x ds]; [done|]. intros [= ->]. by assert (is_digit " ") by set_solver.
    + intros Hl%last_Some_elem_of. by apply Hin in Hl.
    + destruct ds as [|x ds]; [done|]. intros [= ->]. by assert (is_digit x22) by set_solver.
  - intros c. exists (c <| c_maxAge := n |>). split; [|done]. unfold Cookie.parseKeyAttr.
    rewrite caseInsensitiveCompare_refl, ParseUint_digits by (done || lia).
    rewrite Hv. cbn. done.
Qed.

Lemma sets_expires t :
  date_ok t → sets [attr strCookieExpires (AppendHTTPDate [] t)] (λ c, c <| c_expire := t |>).
Proof.
  intros [Hp Ht]. apply sets_key; [by split_and!; (done || set_solver)|done|set_solver|done|].
  intros c. exists (c <| c_expire := t |>). split; [|done]. unfold Cookie.parseKeyAttr.
  rewrite caseInsensitiveCompare_refl, Ht. done.
Qed.

Lemma sets_domain d :
  plain d → sets [attr strCookieDomain d] (λ c, c <| c_domain := c_domain c ++ d |>).
Proof.
  intros Hp. apply sets_key; [by split_and!; (done || set_solver)|done|set_solver|done|].
  intros c. by eexists.
Qed.

Lemma sets_path d :
  plain d → sets [attr strCookiePath d] (λ c, c <| c_path := c_path c ++ d |>).
Proof.
  intros Hp. apply sets_key; [by split_and!; (done || set_solver)|done|set_solver|done|].
  intros c. by eexists.
Qed.

Lemma sets_httpOnly : sets [bs " HttpOnly"] (λ c, c <| c_httpOnly := true |>).
Proof. by apply sets_flag; [set_solver|..]. Qed.
Lemma sets_secure : sets [bs " Secure"] (λ c, c <| c_secure := true |>).
Proof. by apply sets_flag; [set_solver|..]. Qed.
Lemma sets_partitioned : sets [bs " Partitioned"] (λ c, c <| c_partitioned := true |>).
Proof. by apply sets_flag; [set_solver|..]. Qed.

Lemma sets_sameSite m :
  sets (sameSite_attrs m)
    (λ c, if bool_decide (m = CookieSameSiteDisabled) then c else c <| c_sameSite := m |>).
Proof. destruct m; [apply sets_nil|by apply sets_flag; [set_solver|..]|..]; intros c; by eexists. Qed.

(** What parsing the printed attributes does to the public part. *)
Definition set_attrs (s c : Cookie) : Cookie :=
  c <| c_maxAge := if (0 <? c_maxAge s)%Z then c_maxAge s else c_maxAge c |>
    <| c_expire := if validCookieExpires (c_expire s) then c_expire s else c_expire c |>
    <| c_domain := c_domain c ++ c_domain s |>
    <| c_path := c_path c ++ c_path s |>
    <| c_httpOnly := c_httpOnly s || c_httpOnly c |>
    <| c_secure := c_secure s || c_secure c |>
    <| c_sameSite := if bool_decide (c_sameSite s = CookieSameSiteDisabled)
                     then c_sameSite c else c_sameSite s |>
    <| c_partitioned := c_partitioned s || c_partitioned c |>.

Lemma sets_ext a f g : (∀ c, f c = g c) → sets a f → sets a g.
Proof. intros Hfg Ha c. destruct (Ha c) as (c'&?&E). exists c'. by rewrite <- Hfg. Qed.

(** [sets_opt] with the condition pushed into the field. *)
Lemma sets_field (x : bool) a f g :
  (∀ c, (if x then f c else c) = g c) → (x = true → sets [a] f) →
  sets (if x then [a] else []) g.
Proof. intros E Hf. eapply sets_ext; [exact E|]. by apply sets_opt. Qed.

Lemma sets_cookie_attrs ds s :
  resp_cookie_wf s → Forall is_digit ds → ds ≠ [] → decval 0 ds = c_maxAge s →
  sets (cookie_attrs ds s) (set_attrs s).
Proof.
  intros (_&Hm&Hd&Hp&He) Hds Hne Hv. unfold cookie_attrs.
  assert (c_maxAge s < 2 ^ 63)%Z as Hm' by lia.
  eapply sets_ext; cycle 1.
  - apply sets_app; [eapply (sets_field _ _ _ (λ c, c <| c_maxAge := if (0 <? c_maxAge s)%Z
        then c_maxAge s else c_maxAge c |>)); [|intros _; by apply (sets_maxAge ds _ Hds Hne Hv)]|].
    2: apply sets_app; [eapply (sets_field _ _ _ (λ c, c <| c_expire :=
        if validCookieExpires (c_expire s) then c_expire s else c_expire c |>));
        [|intros E; apply sets_expires; by rewrite E in He]|].
    3: apply sets_app; [eapply (sets_field _ _ _ (λ c, c <| c_domain := c_domain c ++ c_domain s |>));
        [|intros _; by apply sets_domain]|].
    4: apply sets_app; [eapply (sets_field _ _ _ (λ c, c <| c_path := c_path c ++ c_path s |>));
        [|intros _; by apply sets_path]|].
    5: apply sets_app; [eapply (sets_field _ _ _ (λ c, c <| c_httpOnly := c_httpOnly s || c_httpOnly c |>));
        [|intros _; apply sets_httpOnly]|].
    6: apply sets_app; [eapply (sets_field _ _ _ (λ c, c <| c_secure := c_secure s || c_secure c |>));
        [|intros _; apply sets_secure]|].
    7: apply sets_app; [apply sets_sameSite|].
    7: eapply (sets_field _ _ _ (λ c, c <| c_partitioned := c_partitioned s || c_partitioned c |>));
        [|intros _; apply sets_partitioned].
    3: destruct (c_domain s). 5: destruct (c_path s).
    all: intros []; cbn; repeat case_match; by rewrite ?app_nil_r.
  - intros c. unfold set_attrs. by destruct (c_sameSite s).
Qed.

Lemma attr_ok_opt (x : bool) a :
  (x = true → attr_ok a) → Forall attr_ok (if x then [a] else []).
Proof. destruct x; intros Hx; [apply Forall_singleton; auto|apply Forall_nil_2]. Qed.

Lemma attr_ok_attr k v : ";"%byte ∉ k → ";"%byte ∉ v → attr_ok (attr k v).
Proof. intros. split; [|done]. unfold attr. set_solver. Qed.

Lemma cookie_attrs_ok ds s :
  resp_cookie_wf s → Forall is_digit ds → Forall attr_ok (cookie_attrs ds s).
Proof.
  intros (_&_&[Hd _]&[Hp _]&He) Hds.
  assert (";"%byte ∉ ds) as Hsd by (intros Hin; by eapply Forall_forall in Hds; [|done]).
  unfold cookie_attrs. repeat apply Forall_app_2; try apply attr_ok_opt; intros.
  all: try (apply attr_ok_attr; [set_solver|]); try done.
  - simplify_eq. destruct (validCookieExpires _); [|done]. by destruct He as [[??] ?].
  - split; [set_solver|done].
  - split; [set_solver|done].
  - destruct (c_sameSite s); cbn [sameSite_attrs]; [apply Forall_nil_2|..];
      (apply Forall_singleton; split; [set_solver|done]).
  - split; [set_solver|done].
Qed.

Lemma Cookie_roundtrip c c0 b c' :
  resp_cookie_wf c → Cookie.AppendBytes c [] = Some (b, c') →
  ∃ c1, Cookie.ParseBytes c0 b = (c1, None) ∧ public c1 = public c.
Proof.
  intros Hwf Hb. pose proof Hwf as (Hkv&Hm&_&_&He).
  destruct (AppendBytes_attrs c Hm) as (ds&c''&E&_&Hds&Hn&Hv). rewrite E in Hb.
  revert E Hb. generalize (joinc_before_after (enc_cookie (c_key c, c_value c)) (cookie_attrs ds c)).
  assert (joinc (enc_cookie (c_key c, c_value c) :: cookie_attrs ds c) ≠ []) as Hj
    by (rewrite joinc_bind; by apply enc_cookie_nonempty). revert Hj.
  generalize (joinc (enc_cookie (c_key c, c_value c) :: cookie_attrs ds c)).
  intros j Hj Hba E Hb. simplify_eq.
  destruct (Hba (enc_cookie_clean _ Hkv)) as [Eb Ea].
  unfold Cookie.ParseBytes.
  rewrite cookieScanner_next_spec.
  destruct (cookie_pair_enc _ Hkv) as (Ep&_&_).
  rewrite bool_decide_false by done. rewrite Eb, Ea, Ep. cbv beta iota zeta.
  rewrite ParseBytes_loop_fold by (apply cookie_attrs_ok || lia; done).
  destruct (sets_cookie_attrs ds c Hwf Hds Hn Hv
    ((Cookie.Reset c0) <| c_bufK := c_key c |> <| c_bufV := c_value c |>
      <| c_key := c_key c |> <| c_value := c_value c |>)) as (c1&E1&E2).
  exists c1. split; [exact E1|]. rewrite E2. unfold set_attrs, public, Cookie.Reset.
  destruct c as [? ? ? maxAge ? ? same ? ? httpOnly secure part]; cbn in *.
  assert ((if (0 <? maxAge)%Z then maxAge else 0%Z) = maxAge) as ->
    by (destruct (Z.ltb_spec 0 maxAge); lia).
  rewrite !orb_false_r. f_equal; [by case_match|by destruct same].
Qed.
End response.
