(* ===== verification/Headers.v ===== *)
(** The constants of headers.go, methods.go and strings.go the header code uses, and
    status.go: the status codes, their messages and the status line. *)

From Stdlib Require Import ZArith Strings.Byte.
From stdpp Require Import prelude strings list.
From S2P Require Import Prelude Bytesconv Uri.

(** * Header names and values *)

Definition HeaderAuthorization : bytes := bs "Authorization".
Definition HeaderProxyAuthenticate : bytes := bs "Proxy-Authenticate".
Definition HeaderProxyAuthorization : bytes := bs "Proxy-Authorization".
Definition HeaderWWWAuthenticate : bytes := bs "WWW-Authenticate".
Definition HeaderLastModified : bytes := bs "Last-Modified".
Definition HeaderVary : bytes := bs "Vary".
Definition HeaderConnection : bytes := bs "Connection".
Definition HeaderProxyConnection : bytes := bs "Proxy-Connection".
Definition HeaderAcceptEncoding : bytes := bs "Accept-Encoding".
Definition HeaderCookie : bytes := bs "Cookie".
Definition HeaderExpect : bytes := bs "Expect".
Definition HeaderMaxForwards : bytes := bs "Max-Forwards".
Definition HeaderSetCookie : bytes := bs "Set-Cookie".
Definition HeaderContentEncoding : bytes := bs "Content-Encoding".
Definition HeaderContentLength : bytes := bs "Content-Length".
Definition HeaderContentType : bytes := bs "Content-Type".
Definition HeaderContentRange : bytes := bs "Content-Range".
Definition HeaderHost : bytes := bs "Host".
Definition HeaderReferer : bytes := bs "Referer".
Definition HeaderUserAgent : bytes := bs "User-Agent".
Definition HeaderServer : bytes := bs "Server".
Definition HeaderRange : bytes := bs "Range".
Definition HeaderTE : bytes := bs "TE".
Definition HeaderTrailer : bytes := bs "Trailer".
Definition HeaderTransferEncoding : bytes := bs "Transfer-Encoding".
Definition HeaderDate : bytes := bs "Date".

Definition strAuthorization : bytes := HeaderAuthorization.
Definition strProxyAuthenticate : bytes := HeaderProxyAuthenticate.
Definition strProxyAuthorization : bytes := HeaderProxyAuthorization.
Definition strWWWAuthenticate : bytes := HeaderWWWAuthenticate.
Definition strLastModified : bytes := HeaderLastModified.
Definition strVary : bytes := HeaderVary.
Definition strConnection : bytes := HeaderConnection.
Definition strProxyConnection : bytes := HeaderProxyConnection.
Definition strAcceptEncoding : bytes := HeaderAcceptEncoding.
Definition strCookie : bytes := HeaderCookie.
Definition strExpect : bytes := HeaderExpect.
Definition strMaxForwards : bytes := HeaderMaxForwards.
Definition strSetCookie : bytes := HeaderSetCookie.
Definition strContentEncoding : bytes := HeaderContentEncoding.
Definition strContentLength : bytes := HeaderContentLength.
Definition strContentType : bytes := HeaderContentType.
Definition strContentRange : bytes := HeaderContentRange.
Definition strHost : bytes := HeaderHost.
Definition strReferer : bytes := HeaderReferer.
Definition strUserAgent : bytes := HeaderUserAgent.
Definition strServer : bytes := HeaderServer.
Definition strRange : bytes := HeaderRange.
Definition strTE : bytes := HeaderTE.
Definition strTrailer : bytes := HeaderTrailer.
Definition strTransferEncoding : bytes := HeaderTransferEncoding.
Definition strDate : bytes := HeaderDate.

Definition rChar : byte := x0d.
Definition nChar : byte := x0a.
Definition strCRLF : bytes := [rChar; nChar].
Definition strHTTP11 : bytes := bs "HTTP/1.1".
Definition strColonSpace : bytes := bs ": ".
Definition strCommaSpace : bytes := bs ", ".
Definition strClose : bytes := bs "close".
Definition strKeepAlive : bytes := bs "keep-alive".
Definition strUpgrade : bytes := bs "Upgrade".
Definition strChunked : bytes := bs "chunked".
Definition strDefaultContentType : bytes := bs "application/octet-stream".
Definition defaultContentType : bytes := bs "text/plain; charset=utf-8".
Definition strMultipartFormData : bytes := bs "multipart/form-data".
Definition strBoundary : bytes := bs "boundary".
Definition strBytes : bytes := bs "bytes".
Definition CharsetUTF8 : bytes := bs "UTF-8".

Definition MethodGet : bytes := bs "GET".
Definition MethodHead : bytes := bs "HEAD".
Definition MethodPost : bytes := bs "POST".
Definition MethodPut : bytes := bs "PUT".
Definition MethodPatch : bytes := bs "PATCH".
Definition MethodDelete : bytes := bs "DELETE".
Definition MethodConnect : bytes := bs "CONNECT".
Definition MethodOptions : bytes := bs "OPTIONS".
Definition MethodTrace : bytes := bs "TRACE".

(** * Status codes *)

Local Open Scope Z_scope.

Definition statusMessageMin : Z := 100.
Definition statusMessageMax : Z := 511.

Definition StatusContinue : Z := 100.
Definition StatusSwitchingProtocols : Z := 101.
Definition StatusProcessing : Z := 102.
Definition StatusEarlyHints : Z := 103.
Definition StatusOK : Z := 200.
Definition StatusCreated : Z := 201.
Definition StatusAccepted : Z := 202.
Definition StatusNonAuthoritativeInfo : Z := 203.
Definition StatusNoContent : Z := 204.
Definition StatusResetContent : Z := 205.
Definition StatusPartialContent : Z := 206.
Definition StatusMultiStatus : Z := 207.
Definition StatusAlreadyReported : Z := 208.
Definition StatusIMUsed : Z := 226.
Definition StatusMultipleChoices : Z := 300.
Definition StatusMovedPermanently : Z := 301.
Definition StatusFound : Z := 302.
Definition StatusSeeOther : Z := 303.
Definition StatusNotModified : Z := 304.
Definition StatusUseProxy : Z := 305.
Definition StatusTemporaryRedirect : Z := 307.
Definition StatusPermanentRedirect : Z := 308.
Definition StatusBadRequest : Z := 400.
Definition StatusUnauthorized : Z := 401.
Definition StatusPaymentRequired : Z := 402.
Definition StatusForbidden : Z := 403.
Definition StatusNotFound : Z := 404.
Definition StatusMethodNotAllowed : Z := 405.
Definition StatusNotAcceptable : Z := 406.
Definition StatusProxyAuthRequired : Z := 407.
Definition StatusRequestTimeout : Z := 408.
Definition StatusConflict : Z := 409.
Definition StatusGone : Z := 410.
Definition StatusLengthRequired : Z := 411.
Definition StatusPreconditionFailed : Z := 412.
Definition StatusRequestEntityTooLarge : Z := 413.
Definition StatusRequestURITooLong : Z := 414.
Definition StatusUnsupportedMediaType : Z := 415.
Definition StatusRequestedRangeNotSatisfiable : Z := 416.
Definition StatusExpectationFailed : Z := 417.
Definition StatusTeapot : Z := 418.
Definition StatusMisdirectedRequest : Z := 421.
Definition StatusUnprocessableEntity : Z := 422.
Definition StatusLocked : Z := 423.
Definition StatusFailedDependency : Z := 424.
Definition StatusUpgradeRequired : Z := 426.
Definition StatusPreconditionRequired : Z := 428.
Definition StatusTooManyRequests : Z := 429.
Definition StatusRequestHeaderFieldsTooLarge : Z := 431.
Definition StatusUnavailableForLegalReasons : Z := 451.
Definition StatusInternalServerError : Z := 500.
Definition StatusNotImplemented : Z := 501.
Definition StatusBadGateway : Z := 502.
Definition StatusServiceUnavailable : Z := 503.
Definition StatusGatewayTimeout : Z := 504.
Definition StatusHTTPVersionNotSupported : Z := 505.
Definition StatusVariantAlsoNegotiates : Z := 506.
Definition StatusInsufficientStorage : Z := 507.
Definition StatusLoopDetected : Z := 508.
Definition StatusNotExtended : Z := 510.
Definition StatusNetworkAuthenticationRequired : Z := 511.

Definition unknownStatusCode : bytes := bs "Unknown Status Code".

(** The entries of the array literal; every other index holds the empty string. *)
Definition statusMessages : list (Z * bytes) := [
  (StatusContinue, bs "Continue");
  (StatusSwitchingProtocols, bs "Switching Protocols");
  (StatusProcessing, bs "Processing");
  (StatusEarlyHints, bs "Early Hints");
  (StatusOK, bs "OK");
  (StatusCreated, bs "Created");
  (StatusAccepted, bs "Accepted");
  (StatusNonAuthoritativeInfo, bs "Non-Authoritative Information");
  (StatusNoContent, bs "No Content");
  (StatusResetContent, bs "Reset Content");
  (StatusPartialContent, bs "Partial Content");
  (StatusMultiStatus, bs "Multi-Status");
  (StatusAlreadyReported, bs "Already Reported");
  (StatusIMUsed, bs "IM Used");
  (StatusMultipleChoices, bs "Multiple Choices");
  (StatusMovedPermanently, bs "Moved Permanently");
  (StatusFound, bs "Found");
  (StatusSeeOther, bs "See Other");
  (StatusNotModified, bs "Not Modified");
  (StatusUseProxy, bs "Use Proxy");
  (StatusTemporaryRedirect, bs "Temporary Redirect");
  (StatusPermanentRedirect, bs "Permanent Redirect");
  (StatusBadRequest, bs "Bad Request");
  (StatusUnauthorized, bs "Unauthorized");
  (StatusPaymentRequired, bs "Payment Required");
  (StatusForbidden, bs "Forbidden");
  (StatusNotFound, bs "Not Found");
  (StatusMethodNotAllowed, bs "Method Not Allowed");
  (StatusNotAcceptable, bs "Not Acceptable");
  (StatusProxyAuthRequired, bs "Proxy Authentication Required");
  (StatusRequestTimeout, bs "Request Timeout");
  (StatusConflict, bs "Conflict");
  (StatusGone, bs "Gone");
  (StatusLengthRequired, bs "Length Required");
  (StatusPreconditionFailed, bs "Precondition Failed");
  (StatusRequestEntityTooLarge, bs "Request Entity Too Large");
  (StatusRequestURITooLong, bs "Request URI Too Long");
  (StatusUnsupportedMediaType, bs "Unsupported Media Type");
  (StatusRequestedRangeNotSatisfiable, bs "Requested Range Not Satisfiable");
  (StatusExpectationFailed, bs "Expectation Failed");
  (StatusTeapot, bs "I'm a teapot");
  (StatusMisdirectedRequest, bs "Misdirected Request");
  (StatusUnprocessableEntity, bs "Unprocessable Entity");
  (StatusLocked, bs "Locked");
  (StatusFailedDependency, bs "Failed Dependency");
  (StatusUpgradeRequired, bs "Upgrade Required");
  (StatusPreconditionRequired, bs "Precondition Required");
  (StatusTooManyRequests, bs "Too Many Requests");
  (StatusRequestHeaderFieldsTooLarge, bs "Request Header Fields Too Large");
  (StatusUnavailableForLegalReasons, bs "Unavailable For Legal Reasons");
  (StatusInternalServerError, bs "Internal Server Error");
  (StatusNotImplemented, bs "Not Implemented");
  (StatusBadGateway, bs "Bad Gateway");
  (StatusServiceUnavailable, bs "Service Unavailable");
  (StatusGatewayTimeout, bs "Gateway Timeout");
  (StatusHTTPVersionNotSupported, bs "HTTP Version Not Supported");
  (StatusVariantAlsoNegotiates, bs "Variant Also Negotiates");
  (StatusInsufficientStorage, bs "Insufficient Storage");
  (StatusLoopDetected, bs "Loop Detected");
  (StatusNotExtended, bs "Not Extended");
  (StatusNetworkAuthenticationRequired, bs "Network Authentication Required")].

Fixpoint lookupStatus (l : list (Z * bytes)) (code : Z) : bytes :=
  match l with
  | [] => []
  | (c, m) :: l => if c =? code then m else lookupStatus l code
  end.

Definition StatusMessage (statusCode : Z) : bytes :=
  if (statusCode <? statusMessageMin) || (statusCode >? statusMessageMax) then unknownStatusCode
  else match lookupStatus statusMessages statusCode with
       | [] => unknownStatusCode
       | s => s
       end.

(** [strconv.AppendInt] in base 10; an int64 has at most 19 digits. *)
Definition AppendInt (dst : bytes) (n : Z) : bytes :=
  let digits := default [] (AppendUint_loop 20 (Z.abs n) []) in
  if n <? 0 then dst ++ "-"%byte :: digits else dst ++ digits.

Definition formatStatusLine (dst protocol : bytes) (statusCode : Z) (statusText : bytes) : bytes :=
  let dst := dst ++ protocol ++ [" "%byte] in
  let dst := AppendInt dst statusCode ++ [" "%byte] in
  let dst := if bool_decide (length statusText = 0%nat) then dst ++ StatusMessage statusCode
             else dst ++ statusText in
  dst ++ strCRLF.
