(* ===== verification/HeaderScan.v ===== *)
(** The helpers of header.go: the header line scanner with its in-place edits of
    the read buffer, key and value normalization, list values, trailers' names,
    content lengths and header parameters. *)

From Stdlib Require Import ZArith Strings.Byte.
From stdpp Require Import prelude strings list.
From S2P Require Import Prelude Tables Bufio Bytesconv Args Uri Cookie Headers.

(** The errors of header.go; [HeaderParseErr what val] is [newHeaderParseErr]. *)
Inductive header_error :=
  | errNeedMore
  | errInvalidName
  | HeaderParseErr (what val : bytes)
  | unsupportedTEError (val : bytes)
  | ErrMalformedResponse
  | ErrBadTrailer
  | trailerKeyErr (what key : bytes)
  | HeaderBufferSmallErr
  | TrailerHeaderBufferSmallErr
  | ErrUnexpectedHeaderEOF
  | ErrUnexpectedTrailerEOF
  | headerIO (e : ioerror).

#[global] Instance header_error_eq_decision : EqDecision header_error.
Proof. solve_decision. Defined.

Definition newHeaderParseErr (what val : bytes) : header_error := HeaderParseErr what val.
Definition ContentLengthNotIntErr : header_error :=
  newHeaderParseErr (bs "Content-Length not int string") [].
Definition BadTrailerInHeader : header_error :=
  newHeaderParseErr (bs "header contain forbidden trailer") [].
Definition MultipleContentLengthErr : header_error :=
  newHeaderParseErr (bs "multiple Content-Length headers") [].
Definition EmptyHeaderKeyErr : header_error := newHeaderParseErr (bs "empty header key") [].

(** * Keys and values *)

Definition validHeaderFieldByte (c : byte) : bool :=
  (bz c <? 128)%Z && bool_decide (validHeaderFieldByteTable c = 1%Z).

Definition validHeaderValueByte (c : byte) : bool :=
  bool_decide (validHeaderValueByteTable c = 1%Z).

Definition isValidMethod (method : bytes) : bool :=
  forallb (λ ch, negb (bool_decide (validMethodValueByteTable ch = 0%Z))) method.

Definition headNameCompare (a b : bytes) (disableNormalize : bool) : bool :=
  if negb disableNormalize then bool_decide (a = b) else caseInsensitiveCompare a b.

(** The loop of [normalizeHeaderKeyV2] from [i]; a '-' takes the byte after it along. *)
Fixpoint normalizeHeaderKey_loop (b : bytes) : bytes :=
  match b with
  | [] => []
  | c :: b' =>
      if bool_decide (c = "-"%byte) then
        match b' with
        | [] => [c]
        | d :: b'' => c :: toUpperTable d :: normalizeHeaderKey_loop b''
        end
      else toLowerTable c :: normalizeHeaderKey_loop b'
  end.

Definition normalizeHeaderKeyV2 (b : bytes) : bytes :=
  match b with
  | [] => []
  | c :: b => toUpperTable c :: normalizeHeaderKey_loop b
  end.

(** The key to use and the buffer [bufK] afterwards. *)
Definition initHeaderK (bufK key : bytes) (disableNormalizing : bool) : bytes * bytes :=
  if disableNormalizing then (key, bufK)
  else let k := normalizeHeaderKeyV2 key in (k, k).

Definition spaceNewLine (c : byte) : byte :=
  if bool_decide (c = rChar) || bool_decide (c = nChar) then " "%byte else c.

(** The position from which newlines are replaced: [None] when there is none. *)
Definition newLineStart (raw : bytes) : option nat :=
  match IndexByte raw rChar, IndexByte raw nChar with
  | foundR, Some foundN =>
      Some match foundR with
           | Some r => if foundN <? r then foundN else r
           | None => 0
           end
  | Some foundR, None => Some foundR
  | None, None => None
  end.

(** The value to use and the buffer [bufV] afterwards. *)
Definition initHeaderV (bufV raw : bytes) : bytes * bytes :=
  match newLineStart raw with
  | None => (raw, bufV)
  | Some start =>
      let v := take start raw ++ (spaceNewLine <$> drop start raw) in (v, v)
  end.

Definition removeNewLines (raw : bytes) : bytes :=
  match newLineStart raw with
  | None => raw
  | Some start => take start raw ++ (spaceNewLine <$> drop start raw)
  end.

(** The value returned and the element's value afterwards. *)
Definition removeNewLinesV2 (kv : argsKV) (raw : bytes) : bytes * argsKV :=
  match newLineStart raw with
  | None => (raw, kv)
  | Some start =>
      let v := take start raw ++ (spaceNewLine <$> drop start raw) in
      (v, mkKV (key kv) v (noValue kv))
  end.

Definition AppendNormalizedHeaderKey (dst key : bytes) : bytes := dst ++ normalizeHeaderKeyV2 key.
Definition AppendNormalizedHeaderKeyBytes := AppendNormalizedHeaderKey.

Definition appendHeaderLine (dst key value : bytes) : bytes :=
  dst ++ key ++ strColonSpace ++ value ++ strCRLF.

Fixpoint appendArgsKeyBytes_loop (dst : bytes) (l : list argsKV) (sep : bytes) : bytes :=
  match l with
  | [] => dst
  | kv :: l =>
      let dst := dst ++ key kv in
      let dst := match l with [] => dst | _ => dst ++ sep end in
      appendArgsKeyBytes_loop dst l sep
  end.

Definition appendArgsKeyBytes (dst : bytes) (args : kvs) (sep : bytes) : bytes :=
  appendArgsKeyBytes_loop dst (live args) sep.

Definition stripSpace (b : bytes) : bytes := trimRight " " (trimLeft " " b).

(** [headerValueScanner.next]: the value and the rest. *)
Definition headerValueScanner_next (b : bytes) : option (bytes * bytes) :=
  if bool_decide (length b = 0) then None
  else match IndexByte b "," with
       | None => Some (stripSpace b, [])
       | Some n => Some (stripSpace (take n b), drop (n + 1) b)
       end.

(** Each step consumes a byte, so [length s] bounds the steps. *)
Fixpoint hasHeaderValue_loop (fuel : nat) (b value : bytes) : bool :=
  match fuel with
  | O => false
  | S fuel =>
      match headerValueScanner_next b with
      | None => false
      | Some (v, b) => if caseInsensitiveCompare v value then true else hasHeaderValue_loop fuel b value
      end
  end.

Definition hasHeaderValue (s value : bytes) : bool := hasHeaderValue_loop (length s) s value.

Definition parseContentLength (b : bytes) : Z * option (option conv_error) :=
  let '(v, n, err) := parseUintBuf b in
  match err with
  | Some e => ((-1)%Z, Some (Some e))
  | None => if bool_decide (n ≠ length b) then ((-1)%Z, Some None) (* errNonNumericChars *)
            else (v, None)
  end.

(** * Lines *)

Definition nextLine (b : bytes) : option (bytes * bytes) :=
  match IndexByte b nChar with
  | None => None (* errNeedMore *)
  | Some nNext =>
      let n := if (0 <? nNext) && bool_decide (b !! (nNext - 1) = Some rChar)
               then nNext - 1 else nNext in
      Some (take n b, drop (nNext + 1) b)
  end.

Fixpoint numLeadingCRorLF (v : bytes) : nat :=
  match v with
  | b :: v => if bool_decide (b = rChar) || bool_decide (b = nChar)
              then S (numLeadingCRorLF v) else 0
  | [] => 0
  end.

(** The loop of [readRawHeaders]: [n] bytes lie before [b]; [None] is errNeedMore. *)
Fixpoint readRawHeaders_loop (fuel : nat) (b : bytes) (n : nat) : option nat :=
  match fuel with
  | O => None
  | S fuel =>
      match IndexByte b nChar with
      | None => None
      | Some m =>
          let m := m + 1 in
          let n := n + m in
          if (bool_decide (m = 2) && bool_decide (b !! 0 = Some rChar)) || bool_decide (m = 1)
          then Some n
          else readRawHeaders_loop fuel (drop m b) n
      end
  end.

(** The new [dst] and the length, or errNeedMore. *)
Definition readRawHeaders (dst buf : bytes) : bytes * nat * option header_error :=
  match IndexByte buf nChar with
  | None => ([], 0, Some errNeedMore)
  | Some n =>
      if (bool_decide (n = 1) && bool_decide (buf !! 0 = Some rChar)) || bool_decide (n = 0)
      then (dst, n + 1, None)
      else match readRawHeaders_loop (length buf) (drop (n + 1) buf) (n + 1) with
           | None => (dst, 0, Some errNeedMore)
           | Some n => (dst ++ take n buf, n, None)
           end
  end.

Definition isOnlyCRLF (b : bytes) : bool :=
  forallb (λ ch, bool_decide (ch = rChar) || bool_decide (ch = nChar)) b.

(** The two quoted parts of [bufferSnippet]; [None] when the whole buffer is shown. *)
Definition bufferSnippet (b : bytes) : bytes * option bytes :=
  let n := Z.of_nat (length b) in
  let '(start, end_) := if (200 >=? n - 200)%Z then (n, n) else (200, n - 200)%Z in
  let bEnd := drop (Z.to_nat end_) b in
  match bEnd with
  | [] => (b, None)
  | _ => (take (Z.to_nat start) b, Some bEnd)
  end.

(** * The header scanner

    The scanner works on a slice of the read buffer and edits it: keys are
    normalized in place and a folded value is joined in place, the bytes behind it
    moving forward. The backing buffer is [s_done ++ s_b ++ s_tail]: the part
    already scanned, the slice [s.b], and the stale bytes that the moves leave
    behind the end of [s.b]. *)
Record headerScanner := mkScanner {
  s_err : option header_error;
  s_done : bytes;
  s_b : bytes;
  s_tail : bytes;
  s_key : bytes;
  s_value : bytes;
  s_hLen : Z;
  s_nextColon : option nat;
  s_nextNewLine : Z;
  s_disableNormalizing : bool
}.

#[global] Instance headerScanner_etable : Etable headerScanner := λ s,
  mkScanner (s_err s) (s_done s) (s_b s) (s_tail s) (s_key s) (s_value s) (s_hLen s)
    (s_nextColon s) (s_nextNewLine s) (s_disableNormalizing s).

(** [var s headerScanner] with the two fields set; the first call of [next] sets
    the cached indices to -1. *)
Definition newScanner (b : bytes) (disableNormalizing : bool) : headerScanner :=
  mkScanner None [] b [] [] [] 0 None (-1) disableNormalizing.

(** The buffer the scanner was given, as the scan has left it. *)
Definition s_buf (s : headerScanner) : bytes := s_done s ++ s_b s ++ s_tail s.

Definition isSpTab (c : byte) : bool := bool_decide (c = " "%byte) || bool_decide (c = x09).

Fixpoint leadingSpTab (b : bytes) : nat :=
  match b with
  | c :: b => if isSpTab c then S (leadingSpTab b) else 0
  | [] => 0
  end.

(** [for n > 0 && (v[n-1] == ' ' || v[n-1] == '\t') { n-- }] *)
Fixpoint trimRightSpTab (v : bytes) : bytes :=
  match v with
  | c :: v =>
      match trimRightSpTab v with
      | [] => if isSpTab c then [] else [c]
      | t => c :: t
      end
  | [] => []
  end.

(** The loop of [normalizeHeaderValue]: the bytes kept and the number dropped. *)
Fixpoint normalizeHeaderValue_loop (ov : bytes) (lineStart once : bool) : bytes * nat :=
  match ov with
  | [] => ([], 0)
  | c :: ov =>
      if bool_decide (c = rChar) || bool_decide (c = nChar) then
        let '(nv, shrunk) :=
          if bool_decide (c = nChar) then normalizeHeaderValue_loop ov true false
          else normalizeHeaderValue_loop ov lineStart once in
        (nv, S shrunk)
      else if lineStart && isSpTab c then
        if negb once then
          let '(nv, shrunk) := normalizeHeaderValue_loop ov lineStart true in
          (" "%byte :: nv, shrunk)
        else
          let '(nv, shrunk) := normalizeHeaderValue_loop ov lineStart once in (nv, S shrunk)
      else
        let '(nv, shrunk) := normalizeHeaderValue_loop ov false once in (c :: nv, shrunk)
  end.

(** [ob] is the slice that starts with the value [ov]. The result is the value,
    what has been scanned of the edited [ob], the new [s.b], the stale bytes, and
    the new header length. *)
Definition normalizeHeaderValue (ov ob : bytes) (headerLength : Z)
    : bytes * bytes * bytes * bytes * Z :=
  if bool_decide (length ov = 0) then (ov, ob, [], [], 0%Z)
  else
    let '(nv, shrunk) := normalizeHeaderValue_loop ov false false in
    let write := length nv in
    let ob' := nv ++ drop (write + shrunk) ob ++ drop (length ob - shrunk) ob in
    let skip :=
      match ob' !! write with
      | Some c =>
          if bool_decide (c = rChar) then
            if bool_decide (ob' !! (write + 1) = Some nChar) then 2 else 1
          else if bool_decide (c = nChar) then 1 else 0
      | None => 0
      end in
    let nb := take (length ob - shrunk - (write + skip)) (drop (write + skip) ob') in
    (nv, take (write + skip) ob', nb, drop (length ob - shrunk) ob',
     (headerLength - Z.of_nat shrunk)%Z).

(** The search for the end of a value that continues on lines starting with a blank:
    the index of the final newline, whether there were continuation lines, and the
    indices of the next colon and newline when the lookahead found a colon. Every
    step moves [n] forward, so [length b] bounds the steps. *)
Fixpoint scanFold (fuel : nat) (b : bytes) (n : nat) (multi : bool)
    : nat * bool * option (nat * nat) :=
  match fuel with
  | O => (n, multi, None)
  | S fuel =>
      match b !! (n + 1) with
      | None => (n, multi, None)
      | Some c1 =>
          if negb (isSpTab c1) then (n, multi, None)
          else match IndexByte (drop (n + 1) b) nChar with
               | None => (n, multi, None)
               | Some d =>
                   if bool_decide (d = 0) then (n, multi, None)
                   else if bool_decide (d = 1) && bool_decide (c1 = rChar) then (n, multi, None)
                   else
                     let e := n + d + 1 in
                     match IndexByte (take d (drop (n + 1) b)) ":" with
                     | Some c => (n, multi, Some (c, d - c - 1))
                     | None => scanFold fuel b e true
                     end
               end
      end
  end.

(** The index of the colon that ends the key, from the lookahead or searched. *)
Definition scanColon (s : headerScanner) : nat + header_error :=
  match s_nextColon s with
  | Some n => inl n
  | None =>
      match IndexByte (s_b s) nChar with
      | None => inr errNeedMore
      | Some x =>
          match IndexByte (s_b s) ":" with
          | Some n => if x <? n then inr errInvalidName else inl n
          | None => inr errNeedMore
          end
      end
  end.

(** The value that ends at the newline with index [n]. *)
Definition scanValue (s : headerScanner) (n : nat) : bool * headerScanner :=
  let oldB := s_b s in
  let '(n, isMultiLineValue, look) := scanFold (length oldB) oldB n false in
  let s := match look with
           | Some (c, d) => s <| s_nextColon := Some c |> <| s_nextNewLine := Z.of_nat d |>
           | None => s
           end in
  if length oldB <=? n then (false, s <| s_err := Some errNeedMore |>)
  else
    let value := take n oldB in
    let hLen := (s_hLen s + Z.of_nat n + 1)%Z in
    let value := if bool_decide (last value = Some rChar) then take (n - 1) value else value in
    let value := trimRightSpTab value in
    if isMultiLineValue then
      let '(nv, scanned, nb, stale, hLen) := normalizeHeaderValue value oldB hLen in
      (true, s <| s_value := nv |> <| s_done := s_done s ++ scanned |> <| s_b := nb |>
               <| s_tail := stale ++ s_tail s |> <| s_hLen := hLen |>)
    else
      (true, s <| s_value := value |> <| s_done := s_done s ++ take (n + 1) oldB |>
               <| s_b := drop (n + 1) oldB |> <| s_hLen := hLen |>).

(** The key that ends at the colon with index [n], the blanks behind the colon, and
    the value. *)
Definition scanLine (s : headerScanner) (n : nat) : bool * headerScanner :=
  let b := s_b s in
  let key := take n b in
  let key := if s_disableNormalizing s then key else normalizeHeaderKeyV2 key in
  let ws := leadingSpTab (drop (n + 1) b) in
  let b' := drop (n + 1 + ws) b in
  let s := s <| s_nextColon := None |> <| s_key := key |>
             <| s_nextNewLine := (s_nextNewLine s - Z.of_nat ws)%Z |>
             <| s_hLen := (s_hLen s + Z.of_nat (n + 1 + ws))%Z |>
             <| s_done := s_done s ++ key ++ take (1 + ws) (drop n b) |>
             <| s_b := b' |> in
  let '(found, s) :=
    if (0 <=? s_nextNewLine s)%Z
    then (Some (Z.to_nat (s_nextNewLine s)), s <| s_nextNewLine := (-1)%Z |>)
    else (IndexByte b' nChar, s) in
  match found with
  | None => (false, s <| s_err := Some errNeedMore |>)
  | Some n => scanValue s n
  end.

(** [headerScanner.next] *)
Definition next (s : headerScanner) : bool * headerScanner :=
  if HasPrefix (s_b s) strCRLF then
    (false, s <| s_done := s_done s ++ strCRLF |> <| s_b := drop 2 (s_b s) |>
              <| s_hLen := (s_hLen s + 2)%Z |>)
  else if HasPrefix (s_b s) [nChar] then
    (false, s <| s_done := s_done s ++ [nChar] |> <| s_b := drop 1 (s_b s) |>
              <| s_hLen := (s_hLen s + 1)%Z |>)
  else match scanColon s with
       | inr e => (false, s <| s_err := Some e |>)
       | inl n => scanLine s n
       end.

(** * Trailer names *)

Definition isBadTrailer (key : bytes) (disableNormalize : bool) : bool :=
  match key with
  | [] => true
  | k0 :: _ =>
      let same a := headNameCompare key a disableNormalize in
      let same_from n a := headNameCompare (drop n key) (drop n a) disableNormalize in
      let c := or20 k0 in
      if bool_decide (c = "a"%byte) then same strAuthorization
      else if bool_decide (c = "c"%byte) then
        if (length HeaderContentType <? length key)
           && headNameCompare (take 8 key) (take 8 strContentType) disableNormalize
        then same_from 8 strContentEncoding || same_from 8 strContentLength
             || same_from 8 strContentType || same_from 8 strContentRange
        else same strConnection
      else if bool_decide (c = "e"%byte) then same strExpect
      else if bool_decide (c = "h"%byte) then same strHost
      else if bool_decide (c = "k"%byte) then same strKeepAlive
      else if bool_decide (c = "m"%byte) then same strMaxForwards
      else if bool_decide (c = "p"%byte) then
        if (length HeaderProxyConnection <? length key)
           && headNameCompare (take 6 key) (take 6 strProxyConnection) disableNormalize
        then same_from 6 strProxyConnection || same_from 6 strProxyAuthenticate
             || same_from 6 strProxyAuthorization
        else false
      else if bool_decide (c = "r"%byte) then same strRange
      else if bool_decide (c = "t"%byte) then same strTE || same strTrailer || same strTransferEncoding
      else if bool_decide (c = "w"%byte) then same strWWWAuthenticate
      else false
  end.

(** * Header parameters *)

Fixpoint fieldPrefix (b : bytes) : nat :=
  match b with
  | c :: b => if validHeaderFieldByte c then S (fieldPrefix b) else 0
  | [] => 0
  end.

(** The index of the closing quote, if any. *)
Fixpoint endQuote (b : bytes) (escaping : bool) : option nat :=
  match b with
  | [] => None
  | c :: b =>
      if bool_decide (c = x22) && negb escaping then Some 0
      else S <$> endQuote b (bool_decide (c = "\"%byte) && negb escaping)
  end.

(** [VisitHeaderParams]: [f] threads a state and says whether to go on. Each step
    consumes the semicolon, so [length b] bounds the steps. *)
Fixpoint VisitHeaderParams_loop {S} (fuel : nat) (b : bytes)
    (f : S → bytes → bytes → S * bool) (st : S) : S :=
  match fuel with
  | O => st
  | Datatypes.S fuel =>
      match IndexByte b ";" with
      | None => st
      | Some idxSemi =>
          let b := trimLeft " " (drop (idxSemi + 1) b) in
          let n := fieldPrefix b in
          if bool_decide (n = 0) || (length b - 1 <=? n)
             || negb (bool_decide (b !! n = Some "="%byte)) then st
          else
            let param := take n b in
            let v := drop (n + 1) b in
            match v with
            | [] => st
            | c :: q =>
                if validHeaderFieldByte c then
                  let m := fieldPrefix v in
                  let '(st, more) := f st param (take m v) in
                  if more then VisitHeaderParams_loop fuel (drop m v) f st else st
                else if bool_decide (c = x22) then
                  match endQuote q false with
                  | None => st
                  | Some m =>
                      let '(st, more) := f st param (take m q) in
                      if more then VisitHeaderParams_loop fuel (drop (m + 1) q) f st else st
                  end
                else st
            end
      end
  end.

Definition VisitHeaderParams {S} (b : bytes) (f : S → bytes → bytes → S * bool) (st : S) : S :=
  VisitHeaderParams_loop (length b) b f st.

(** [MultipartFormBoundary] on the content type; [None] is nil. *)
Fixpoint multipartBoundary_loop (fuel : nat) (b : bytes) (n : nat) : option bytes :=
  match fuel with
  | O => None
  | S fuel =>
      if bool_decide (length b = 0) then None
      else
        let b := trimLeft " " (drop (n + 1) b) in
        if negb (HasPrefix b strBoundary) then
          match IndexByte b ";" with
          | None => None
          | Some n => multipartBoundary_loop fuel b n
          end
        else
          let b := drop (length strBoundary) b in
          match b with
          | [] => None
          | c :: b =>
              if negb (bool_decide (c = "="%byte)) then None
              else
                let b := match IndexByte b ";" with Some n => take n b | None => b end in
                Some (if (1 <? length b) && bool_decide (b !! 0 = Some x22)
                         && bool_decide (last b = Some x22)
                      then drop 1 (take (length b - 1) b) else b)
          end
  end.

Definition multipartBoundary (ct : bytes) : option bytes :=
  if negb (HasPrefix ct strMultipartFormData) then None
  else
    let b := drop (length strMultipartFormData) ct in
    match b with
    | [] => None
    | c :: _ => if negb (bool_decide (c = ";"%byte)) then None
                else multipartBoundary_loop (length b) b 0
    end.

(** [HasAcceptEncodingBytes] *)
Definition HasAcceptEncodingBytes (ae acceptEncoding : bytes) : bool :=
  match Index ae acceptEncoding with
  | None => false
  | Some n =>
      let b := drop (n + length acceptEncoding) ae in
      if (0 <? length b) && negb (bool_decide (b !! 0 = Some ","%byte)) then false
      else if bool_decide (n = 0) then true
      else bool_decide (ae !! (n - 1) = Some " "%byte)
  end.
