(* ===== verification/Body.v ===== *)
(** The bodies of messages: http.go's fixed-size, chunked and identity readers and
    writers, round2_64.go, and the body streams of streaming.go. *)

From Stdlib Require Import ZArith Strings.Byte.
From stdpp Require Import prelude strings list.
From S2P Require Import Prelude Tables Bufio Bytesconv Uri Headers HeaderScan.

(** * Errors *)

(** The errors of the clients. *)
Inductive client_error :=
  | ErrTimeout
  | ErrConnectionClosed
  | ErrNoFreeConns
  | errDial (what : nat)
  | ErrUnSupportConnPoolStrategy
  | ErrHostClientRedirectToDifferentScheme
  | ErrHostClientRedirectToDifferentHost
  | ErrTooManyRedirects
  | ErrMissingLocation
  | errInvalidHost (host : bytes)
  | errUnsupportedProtocol (scheme : bytes).

#[global] Instance client_error_eq_decision : EqDecision client_error.
Proof. solve_decision. Defined.

Inductive body_error :=
  | ErrBodyTooLarge
  | errChunkedStream
  | ErrBrokenChunk (what : bytes)
  | errReadNothing                              (* bufio.Read() returned (0, nil) *)
  | ErrUnexpectedReqBodyEOF
  | ErrUnexpectedRespBodyEOF
  | ErrStreamSendSizeNotMatch (sent want : Z)
  | ErrNoProgress
  | errRequestHostRequired
  | errMultipart (what : bytes)
  | bodyConv (e : conv_error)
  | bodyHeader (e : header_error)
  | bodyIO (e : ioerror)
  | bodyURI (e : uri_error)
  | bodyClient (e : client_error)
  | bodyPanic.                                  (* a run-time panic *)

#[global] Instance body_error_eq_decision : EqDecision body_error.
Proof. solve_decision. Defined.

(** The errors the conversions and the header readers pass through are the reader's. *)
Definition of_conv (e : conv_error) : body_error :=
  match e with errIO e => bodyIO e | e => bodyConv e end.

Definition of_header (e : header_error) : body_error :=
  match e with headerIO e => bodyIO e | e => bodyHeader e end.

(** * Writers

    A buffered writer is what it was given and how much more its destination takes
    before failing; an error shows at the write that meets it. *)
Record Writer := mkWriter { w_out : bytes; w_room : option (nat * ioerror) }.

Definition Write (w : Writer) (p : bytes) : option body_error * Writer :=
  match w_room w with
  | None => (None, mkWriter (w_out w ++ p) None)
  | Some (k, e) =>
      if length p <=? k then (None, mkWriter (w_out w ++ p) (Some (k - length p, e)))
      else (Some (bodyIO e), mkWriter (w_out w ++ take k p) (Some (0, e)))
  end.

(** * Slices *)

(** A byte slice: its elements and its capacity. *)
Record slice := mkSlice { sl_b : bytes; sl_cap : Z }.

Definition roundUpForSliceCap (n : Z) : Z :=
  if (n <=? 0)%Z then 0
  else if (n >? 100 * 1024 * 1024)%Z then n
  else
    let x := uint64 (n - 1) in
    let x := Z.lor x (Z.shiftr x 1) in
    let x := Z.lor x (Z.shiftr x 2) in
    let x := Z.lor x (Z.shiftr x 4) in
    let x := Z.lor x (Z.shiftr x 8) in
    let x := Z.lor x (Z.shiftr x 16) in
    int64 (uint64 (x + 1)).

(** * Reading bodies *)

(** The loop of [appendBodyFixedSize]: [acc] is [dst[:offset]] and [left] is
    [dstLen - offset]. Every round reads at least one of the [left] bytes. *)
Fixpoint appendBody_loop (fuel : nat) (r : Reader) (acc : bytes) (left : nat)
    : bytes * option body_error * Reader :=
  match fuel with
  | O => (acc, Some errReadNothing, r)
  | S fuel =>
      match Bufio.Read r left with
      | ([], None, r) => (acc, Some errReadNothing, r)
      | ([], Some e, r) => (acc, Some (bodyIO e), r)
      | (b, _, r) =>
          let acc := acc ++ b in
          let left := left - length b in
          if bool_decide (left = 0) then (acc, None, r) else appendBody_loop fuel r acc left
      end
  end.

(** A negative [n] and a buffer that stays too short are slice bounds panics. *)
Definition appendBodyFixedSize (r : Reader) (dst : slice) (n : Z)
    : slice * option body_error * Reader :=
  if (n =? 0)%Z then (dst, None, r)
  else
    let dstLen := (Z.of_nat (length (sl_b dst)) + n)%Z in
    let cap := if (sl_cap dst <? dstLen)%Z then roundUpForSliceCap dstLen else sl_cap dst in
    if (n <? 0)%Z || (cap <? dstLen)%Z then (dst, Some bodyPanic, r)
    else
      let '(b, err, r) := appendBody_loop (Z.to_nat n) r (sl_b dst) (Z.to_nat n) in
      (mkSlice b cap, err, r).

Definition readBody (r : Reader) (contentLength maxBodySize : Z) (dst : slice)
    : slice * option body_error * Reader :=
  if (maxBodySize >? 0)%Z && (contentLength >? maxBodySize)%Z then (dst, Some ErrBodyTooLarge, r)
  else appendBodyFixedSize r dst contentLength.

(** The slice the streaming body starts with and whether it is all of the body. *)
Definition readBodyWithStreaming (r : Reader) (contentLength maxBodySize : Z) (dst : slice)
    : slice * bool * option body_error * Reader :=
  if (contentLength =? -1)%Z then (mkSlice [] 0, false, Some errChunkedStream, r)
  else
    let dst := mkSlice [] (sl_cap dst) in
    let readN := maxBodySize in
    let readN := if (readN >? contentLength)%Z then contentLength else readN in
    let readN := if (readN >? 8 * 1024)%Z then (8 * 1024)%Z else readN in
    let rSize := Z.of_nat (r_size r) in
    if (readN + rSize >=? contentLength)%Z then
      if (contentLength <=? rSize)%Z then
        let '(b, err, r) := Bufio.Peek r (Z.to_nat contentLength) in
        match err with
        | None => (mkSlice b rSize, true, None, Discard r (Z.to_nat contentLength))
        | Some e => (mkSlice b rSize, true, Some (bodyIO e), r)
        end
      else
        let '(b, err, r) := appendBodyFixedSize r dst (contentLength - rSize) in
        match err with
        | Some e => (b, false, Some e, r)
        | None =>
            let '(_, er, r) := Bufio.Peek r (Z.to_nat rSize) in
            (b, false, bodyIO <$> er, r)
        end
    else
      let '(b, err, r) := appendBodyFixedSize r dst readN in
      match err with
      | Some e => (b, false, Some e, r)
      | None => (b, false, Some ErrBodyTooLarge, r)
      end.

(** The loop of [readBodyIdentity]: [acc] is [dst[:offset]] and [len] is [len(dst)].
    Every round but the last reads a byte. *)
Fixpoint readBodyIdentity_loop (fuel : nat) (r : Reader) (maxBodySize : Z) (acc : bytes) (len : Z)
    : slice * option body_error * Reader :=
  match fuel with
  | O => (mkSlice acc len, Some errReadNothing, r)
  | S fuel =>
      match Bufio.Read r (Z.to_nat (len - Z.of_nat (length acc))) with
      | ([], err, r) =>
          (mkSlice acc len,
           match err with
           | Some e => if bool_decide (e = EOF) then None else Some (bodyIO e)
           | None => Some errReadNothing
           end, r)
      | (b, err, r) =>
          let acc := acc ++ b in
          let offset := Z.of_nat (length acc) in
          if (maxBodySize >? 0)%Z && (offset >? maxBodySize)%Z
          then (mkSlice acc len, Some ErrBodyTooLarge, r)
          else match err with
               | Some e => (mkSlice acc len, if bool_decide (e = EOF) then None else Some (bodyIO e), r)
               | None =>
                   let len :=
                     if (len =? offset)%Z then
                       let n := roundUpForSliceCap (2 * offset) in
                       if (maxBodySize >? 0)%Z && (n >? maxBodySize)%Z then (maxBodySize + 1)%Z else n
                     else len in
                   readBodyIdentity_loop fuel r maxBodySize acc len
               end
      end
  end.

Definition readBodyIdentity (r : Reader) (maxBodySize : Z) (dst : slice)
    : slice * option body_error * Reader :=
  let len := if (sl_cap dst =? 0)%Z then 1024%Z else sl_cap dst in
  readBodyIdentity_loop (S (length (r_data r))) r maxBodySize [] len.

(** ** Chunked bodies *)

Fixpoint readExpected (exp : bytes) (r : Reader) : option body_error * Reader :=
  match exp with
  | [] => (None, r)
  | x :: exp =>
      match ReadByte r with
      | (inr err, r) => (Some (bodyIO err), r)
      | (inl c, r) =>
          if bool_decide (c = x) then readExpected exp r
          else (Some (ErrBrokenChunk
                  (bs "unexpected char " ++ [x22; c; x22] ++ bs " at the end of chunk size. Expected "
                   ++ [x22; x; x22])), r)
      end
  end.

Definition readCrLf (r : Reader) : option body_error * Reader := readExpected strCRLF r.

(** Skips what follows a chunk size, up to its CR. *)
Fixpoint skipExtension (fuel : nat) (r : Reader) : option body_error * Reader :=
  match fuel with
  | O => (None, r)
  | S fuel =>
      match ReadByte r with
      | (inr err, r) => (Some (bodyIO err), r)
      | (inl c, r) =>
          if bool_decide (c ≠ rChar) then skipExtension fuel r
          else match UnreadByte r with
               | (Some err, r) => (Some (bodyIO err), r)
               | (None, r) => (None, r)
               end
      end
  end.

Definition parseChunkSize (r : Reader) : Z * option body_error * Reader :=
  match readHexInt r with
  | ((_, Some err), r) => ((-1)%Z, Some (of_conv err), r)
  | ((n, None), r) =>
      match skipExtension (S (length (r_data r))) r with
      | (Some err, r) => ((-1)%Z, Some err, r)
      | (None, r) =>
          match readCrLf r with
          | (Some err, r) => ((-1)%Z, Some err, r)
          | (None, r) => (n, None, r)
          end
      end
  end.

(** One round per chunk; every round reads a digit. *)
Fixpoint readBodyChunked_loop (fuel : nat) (r : Reader) (maxBodySize : Z) (dst : slice)
    : slice * option body_error * Reader :=
  match fuel with
  | O => (dst, Some errReadNothing, r)
  | S fuel =>
      let '(chunkSize, err, r) := parseChunkSize r in
      match err with
      | Some e => (dst, Some e, r)
      | None =>
          if (chunkSize =? 0)%Z then (dst, None, r)
          else if (maxBodySize >? 0)%Z
                  && (Z.of_nat (length (sl_b dst)) + chunkSize >? maxBodySize)%Z
          then (dst, Some ErrBodyTooLarge, r)
          else
            let '(dst, err, r) :=
              appendBodyFixedSize r dst (chunkSize + Z.of_nat (length strCRLF)) in
            match err with
            | Some e => (dst, Some e, r)
            | None =>
                let n := length (sl_b dst) - length strCRLF in
                if negb (Equal (drop n (sl_b dst)) strCRLF)
                then (dst, Some (ErrBrokenChunk (bs "cannot find crlf at the end of chunk")), r)
                else readBodyChunked_loop fuel r maxBodySize (mkSlice (take n (sl_b dst)) (sl_cap dst))
            end
      end
  end.

Definition readBodyChunked (r : Reader) (maxBodySize : Z) (dst : slice)
    : slice * option body_error * Reader :=
  if 0 <? length (sl_b dst) then (dst, Some bodyPanic, r)
  else readBodyChunked_loop (S (length (r_data r))) r maxBodySize dst.

(** * Streams

    What the sources read a body from, an [io.Reader]: a [Read] of at most [n] bytes. *)
Class IOReader (St : Type) := io_read : St → nat → bytes * option body_error * St.

(** A reader from outside: what its reads deliver, and its final error. *)
Record Source := mkSource { src_reads : list bytes; src_err : ioerror }.

#[global] Instance Source_reader : IOReader Source := λ s n,
  match src_reads s with
  | [] => ([], Some (bodyIO (src_err s)), s)
  | c :: cs =>
      (take n c, None,
       mkSource (if length c <=? n then cs else drop n c :: cs) (src_err s))
  end.

(** [bytes.Reader] and [strings.Reader]: what is left to read. *)
Record BytesReader := mkBytesReader { br_left : bytes }.

#[global] Instance BytesReader_reader : IOReader BytesReader := λ s n,
  match br_left s with
  | [] => ([], Some (bodyIO EOF), s)
  | b => (take n b, None, mkBytesReader (drop n b))
  end.

(** ** TwoBytesReader *)

Record TwoBytesReader := mkTwoBytes {
  t_bytes0 : bytes; t_bytes1 : bytes; t_i : nat; t_current : nat
}.

Definition TwoBytesReader_second (t : TwoBytesReader) (n : nat)
    : bytes * option body_error * TwoBytesReader :=
  if length (t_bytes1 t) <=? t_i t then ([], Some (bodyIO EOF), t)
  else
    let b := take n (drop (t_i t) (t_bytes1 t)) in
    (b, None, mkTwoBytes (t_bytes0 t) (t_bytes1 t) (t_i t + length b) (t_current t)).

#[global] Instance TwoBytesReader_Read : IOReader TwoBytesReader := λ t n,
  if bool_decide (t_current t = 1) then TwoBytesReader_second t n
  else
    let b := take n (drop (t_i t) (t_bytes0 t)) in
    let i := t_i t + length b in
    if bool_decide (i = length (t_bytes0 t)) then
      let t := mkTwoBytes (t_bytes0 t) (t_bytes1 t) 0 1 in
      if bool_decide (length b = 0) then TwoBytesReader_second t n else (b, None, t)
    else (b, None, mkTwoBytes (t_bytes0 t) (t_bytes1 t) i (t_current t)).

(** ** requestStream *)

(** What the stream needs of the header it belongs to. *)
Class HeaderInterface (H : Type) := {
  hi_ContentLength : H → Z;
  hi_ReadTrailer : H → Reader → H * Reader * option header_error
}.

(** [prefetchedBytes] is its size and what is left of it; the header and the
    connection's reader, which the stream shares with their owners, are passed along. *)
Record requestStream := mkStream {
  rs_prefetchedSize : nat;
  rs_prefetched : BytesReader;
  rs_totalBytesRead : Z;
  rs_chunkLeft : Z
}.

#[global] Instance requestStream_etable : Etable requestStream :=
  λ s, mkStream (rs_prefetchedSize s) (rs_prefetched s) (rs_totalBytesRead s) (rs_chunkLeft s).

(** A stream from the pool has been released, which zeroes its counters. *)
Definition acquireRequestStream (b : bytes) : requestStream :=
  mkStream (length b) (mkBytesReader b) 0 0.

Section requestStream.
Context {H : Type} `{HeaderInterface H}.

(** Reading inside a chunk of which [rs_chunkLeft] bytes are left. *)
Definition readChunk (rs : requestStream) (h : H) (r : Reader) (lenp : nat)
    : bytes * option body_error * (requestStream * H * Reader) :=
  let bytesToRead := if (rs_chunkLeft rs <? Z.of_nat lenp)%Z
                     then Z.to_nat (rs_chunkLeft rs) else lenp in
  let '(b, err, r) := Bufio.Read r bytesToRead in
  let n := Z.of_nat (length b) in
  let rs := rs <| rs_totalBytesRead := (rs_totalBytesRead rs + n)%Z |>
               <| rs_chunkLeft := (rs_chunkLeft rs - n)%Z |> in
  match err with
  | Some e => (b, Some (if bool_decide (e = EOF) then ErrUnexpectedReqBodyEOF else bodyIO e), (rs, h, r))
  | None =>
      if (rs_chunkLeft rs =? 0)%Z then
        let '(err, r) := readCrLf r in (b, err, (rs, h, r))
      else (b, None, (rs, h, r))
  end.

#[global] Instance requestStream_Read : IOReader (requestStream * H * Reader) := λ st lenp,
  let '(rs, h, r) := st in
  if (hi_ContentLength h =? -1)%Z then
    if (rs_chunkLeft rs =? 0)%Z then
      match parseChunkSize r with
      | (_, Some err, r) => ([], Some err, (rs, h, r))
      | (chunkSize, None, r) =>
          if (chunkSize =? 0)%Z then
            let '(h, r, err) := hi_ReadTrailer h r in
            match err with
            | Some e => ([], Some (of_header e), (rs, h, r))
            | None => ([], Some (bodyIO EOF), (rs, h, r))
            end
          else readChunk (rs <| rs_chunkLeft := chunkSize |>) h r lenp
      end
    else readChunk rs h r lenp
  else if (rs_totalBytesRead rs =? hi_ContentLength h)%Z then
    ([], Some (bodyIO EOF), (rs, h, r))
  else if (Z.of_nat (rs_prefetchedSize rs) >? rs_totalBytesRead rs)%Z then
    let left := (Z.of_nat (rs_prefetchedSize rs) - rs_totalBytesRead rs)%Z in
    let lenp := if (Z.of_nat lenp >? left)%Z then Z.to_nat left else lenp in
    let '(b, err, p) := io_read (rs_prefetched rs) lenp in
    (b, err, (rs <| rs_prefetched := p |>
                 <| rs_totalBytesRead := (rs_totalBytesRead rs + Z.of_nat (length b))%Z |>, h, r))
  else
    let left := (hi_ContentLength h - rs_totalBytesRead rs)%Z in
    let lenp := if (Z.of_nat lenp >? left)%Z then Z.to_nat left else lenp in
    let '(b, err, r) := Bufio.Read r lenp in
    (b, bodyIO <$> err,
     (rs <| rs_totalBytesRead := (rs_totalBytesRead rs + Z.of_nat (length b))%Z |>, h, r)).
End requestStream.

(** * Writing bodies *)

Definition chunkedEnd : bytes := bs "0" ++ strCRLF.

(** A further [Write], once the ones before it succeeded. *)
Definition andWrite (res : option body_error * Writer) (p : bytes) : option body_error * Writer :=
  match res with
  | (None, w) => Write w p
  | (Some e, w) => (Some e, w)
  end.

Definition writeChunk (w : Writer) (b : bytes) : option body_error * Writer :=
  match writeHexInt (Z.of_nat (length b)) with
  | None => (Some bodyPanic, w)
  | Some digits => andWrite (andWrite (andWrite (Write w digits) strCRLF) b) strCRLF
  end.

Section writing.
Context {St : Type} `{IOReader St}.

(** [buflen] is the capacity of the pooled buffer. A source that keeps returning
    nothing without an error keeps the loop running; [None] is that it still runs
    after [fuel] reads. *)
Fixpoint writeBodyChunked (fuel buflen : nat) (w : Writer) (s : St)
    : option (option body_error * Writer * St) :=
  match fuel with
  | O => None
  | S fuel =>
      match io_read s buflen with
      | ([], None, s) => writeBodyChunked fuel buflen w s
      | ([], Some e, s) =>
          if bool_decide (e = bodyIO EOF) then Some (Write w chunkedEnd, s)
          else Some (Some e, w, s)
      | (b, _, s) =>
          match writeChunk w b with
          | (Some e, w) => Some (Some e, w, s)
          | (None, w) => writeBodyChunked fuel buflen w s
          end
      end
  end.

(** [copyZeroAlloc] to a buffered writer, its [ReadFrom]: [idle] counts consecutive
    reads of nothing. The result is the number of bytes read. *)
Fixpoint copyZeroAlloc (fuel buflen idle : nat) (w : Writer) (s : St) (n : Z)
    : option (Z * option body_error * Writer * St) :=
  match fuel with
  | O => None
  | S fuel =>
      let '(b, err, s) := io_read s buflen in
      match b, err with
      | [], None =>
          if 100 <=? idle + 1 then Some (n, Some ErrNoProgress, w, s)
          else copyZeroAlloc fuel buflen (idle + 1) w s n
      | _, _ =>
          let n := (n + Z.of_nat (length b))%Z in
          match Write w b with
          | (Some e, w) => Some (n, Some e, w, s)
          | (None, w) =>
              match err with
              | Some e => Some (n, if bool_decide (e = bodyIO EOF) then None else Some e, w, s)
              | None => copyZeroAlloc fuel buflen 0 w s n
              end
          end
      end
  end.

Definition writeBodyFixedSize (fuel buflen : nat) (w : Writer) (s : St) (size : Z)
    : option (option body_error * Writer * St) :=
  '(n, err, w, s) ← copyZeroAlloc fuel buflen 0 w s 0;
  Some (if bool_decide (n ≠ size) && bool_decide (err = None)
        then Some (ErrStreamSendSizeNotMatch n size) else err, w, s).
End writing.
