(* ===== verification/BodyFacts.v ===== *)
(** Laws of the body readers and writers: what a fixed-size, chunked or identity reader
    delivers depends on the bytes of the connection alone, never on how they arrive. *)

From Stdlib Require Import ZArith Strings.Byte.
From stdpp Require Import prelude strings list.
From S2P Require Import Prelude Tables Bufio Bytesconv BytesconvFacts Headers HeaderScan Body.

(** * Rounding up *)

Section smear.
Local Open Scope Z_scope.

(** [y] has a bit wherever [x] has one among the next [w]. *)
Definition smeared (x y w : Z) : Prop :=
  ∀ i, 0 ≤ i → (Z.testbit y i = true ↔ ∃ j, i ≤ j < i + w ∧ Z.testbit x j = true).

Lemma smeared_self x : smeared x x 1.
Proof.
  intros i Hi. split; [intros H; exists i; split; [lia|done]|].
  intros (j&Hj&H). by replace i with j by lia.
Qed.

Lemma smeared_step x y w :
  0 < w → smeared x y w → smeared x (Z.lor y (Z.shiftr y w)) (2 * w).
Proof.
  intros Hw Hs i Hi. rewrite Z.lor_spec, Z.shiftr_spec, orb_true_iff by done.
  rewrite (Hs i), (Hs (i + w)) by lia. split.
  - intros [(j&?&?)|(j&?&?)]; exists j; (split; [lia|done]).
  - intros (j&?&?). destruct (decide (j < i + w)); [left|right]; exists j; (split; [lia|done]).
Qed.

Lemma smeared_ones x y w :
  0 < x < 2 ^ w → smeared x y w → y = Z.ones (Z.log2 x + 1).
Proof.
  intros Hx Hs. pose proof (Z.log2_nonneg x) as Hl.
  assert (Z.log2 x < w) by (apply Z.log2_lt_pow2; lia).
  apply Z.bits_inj'. intros i Hi.
  destruct (Z.testbit y i) eqn:E.
  - apply Hs in E as (j&Hj&Hb); [|done]. symmetry. apply Z.ones_spec_low.
    enough (j ≤ Z.log2 x) by lia. destruct (decide (j ≤ Z.log2 x)); [done|].
    by rewrite Z.bits_above_log2 in Hb by lia.
  - destruct (decide (i < Z.log2 x + 1)); [|symmetry; apply Z.ones_spec_high; lia].
    enough (Z.testbit y i = true) by congruence. apply Hs; [done|].
    exists (Z.log2 x). split; [lia|]. apply Z.bit_log2. lia.
Qed.
End smear.

(** The smallest power of two that is no smaller. *)
Lemma roundUpForSliceCap_pow2 n :
  (0 < n ≤ 100 * 1024 * 1024)%Z → roundUpForSliceCap n = (2 ^ Z.log2_up n)%Z.
Proof.
  intros Hn. unfold roundUpForSliceCap.
  destruct (Z.leb_spec n 0); [lia|]. destruct (Z.gtb_spec n (100 * 1024 * 1024)); [lia|].
  assert (uint64 (n - 1) = n - 1)%Z as ->. { unfold wrapU. rewrite Z.mod_small; lia. }
  destruct (decide (n = 1%Z)) as [->|Hn1]; [done|].
  match goal with |- int64 (uint64 (?y + 1)) = _ => assert (smeared (n - 1) y 32)%Z as Hs end.
  { apply (smeared_step _ _ 16), (smeared_step _ _ 8), (smeared_step _ _ 4),
      (smeared_step _ _ 2), (smeared_step _ _ 1), smeared_self; lia. }
  apply smeared_ones in Hs as ->; [|lia]. rewrite Z.ones_equiv.
  rewrite Z.log2_up_eqn by lia. rewrite <- !Z.sub_1_r, <- Z.add_1_r.
  assert (2 ^ (Z.log2 (n - 1) + 1) ≤ 2 ^ 27)%Z.
  { apply Z.pow_le_mono_r; [lia|]. enough (Z.log2 (n - 1) < 27)%Z by lia.
    apply Z.log2_lt_pow2; lia. }
  pose proof (Z.pow_pos_nonneg 2 (Z.log2 (n - 1) + 1) ltac:(lia)
    ltac:(pose proof (Z.log2_nonneg (n - 1)); lia)).
  rewrite Z.sub_add. unfold wrapU. by rewrite Z.mod_small, int64_small by lia.
Qed.

Lemma roundUpForSliceCap_ge n : (n ≤ roundUpForSliceCap n)%Z.
Proof.
  destruct (decide (0 < n ≤ 100 * 1024 * 1024)%Z) as [Hn|Hn].
  - rewrite roundUpForSliceCap_pow2 by done. destruct (decide (n = 1%Z)) as [->|]; [done|].
    apply Z.log2_up_spec. lia.
  - unfold roundUpForSliceCap. destruct (Z.leb_spec n 0); [lia|].
    destruct (Z.gtb_spec n (100 * 1024 * 1024)); lia.
Qed.

(** * Reading a fixed number of bytes *)

Lemma app_le_inv {A} (l1 l2 k1 k2 : list A) :
  l1 ++ l2 = k1 ++ k2 → length k1 ≤ length l1 → ∃ m, l1 = k1 ++ m ∧ k2 = m ++ l2.
Proof.
  revert l1. induction k1 as [|x k1 IH]; intros l1; simpl; [by eauto|].
  destruct l1 as [|y l1]; simpl; [lia|]. intros [= -> E] Hl.
  destruct (IH l1 E) as (m&->&->); [lia|]. by eauto.
Qed.

Lemma appendBody_loop_full fuel r acc d rest :
  reader_ok r → lively r → r_data r = d ++ rest → d ≠ [] → length d ≤ fuel →
  ∃ r', appendBody_loop fuel r acc (length d) = (acc ++ d, None, r') ∧
        r_data r' = rest ∧ later r r'.
Proof.
  revert r acc d. induction fuel as [|fuel IH]; intros r acc d Hok Hl Hd Hne Hf.
  { destruct d; [done|]. simpl in Hf. lia. }
  assert (0 < length d) by (destruct d; [done|simpl; lia]).
  destruct (Read_some r (length d)) as (b&r1&Hr&Hb&Hbn&Hd1&Hl1);
    [done..|by rewrite Hd; destruct d|].
  rewrite Hd in Hd1. destruct (app_le_inv _ _ _ _ Hd1 Hbn) as (m&->&Hm).
  cbn [appendBody_loop]. rewrite Hr. destruct b as [|x b]; [done|].
  rewrite length_app in *. rewrite Nat.add_sub_swap, Nat.sub_diag by done. simpl Nat.add.
  case_bool_decide as Hz.
  - destruct m; [|done]. rewrite app_nil_r. by eauto.
  - destruct (IH r1 (acc ++ x :: b) m) as (r2&->&Hd2&Hl2);
      [by eapply later_ok|by eapply later_lively|done|by intros ->|simpl in *; lia|].
    exists r2. rewrite <- app_assoc. split_and!; [done..|by trans r1].
Qed.

Lemma appendBody_loop_short fuel r acc n :
  reader_ok r → lively r → length (r_data r) < n → n ≤ fuel →
  ∃ r', appendBody_loop fuel r acc n = (acc ++ r_data r, Some (bodyIO (r_err r)), r') ∧
        r_data r' = [] ∧ later r r'.
Proof.
  revert r acc n. induction fuel as [|fuel IH]; intros r acc n Hok Hl Hd Hf; [lia|].
  cbn [appendBody_loop]. destruct (decide (r_data r = [])) as [E|E].
  { rewrite Read_end by (done || lia). exists r. by rewrite E, app_nil_r. }
  destruct (Read_some r n) as (b&r1&Hr&Hb&Hbn&Hd1&Hl1); [done|done|lia|done|].
  rewrite Hr, Hd1. rewrite Hd1, length_app in Hd. destruct b as [|x b]; [done|].
  rewrite bool_decide_false by lia.
  destruct (IH r1 (acc ++ x :: b) (n - length (x :: b))) as (r2&->&Hd2&Hl2);
    [by eapply later_ok|by eapply later_lively|lia|simpl in *; lia|].
  pose proof Hl1 as (_&->&_). exists r2. rewrite <- app_assoc. split_and!; [done..|by trans r1].
Qed.

Lemma appendBodyFixedSize_full r dst d rest :
  reader_ok r → lively r → r_data r = d ++ rest →
  ∃ c r', appendBodyFixedSize r dst (Z.of_nat (length d)) = (mkSlice (sl_b dst ++ d) c, None, r') ∧
          r_data r' = rest ∧ later r r'.
Proof.
  intros Hok Hl Hd. unfold appendBodyFixedSize. destruct (Z.eqb_spec (Z.of_nat (length d)) 0) as [E|E].
  - assert (d = []) as -> by (apply nil_length_inv; lia). rewrite app_nil_r.
    exists (sl_cap dst), r. by destruct dst.
  - set (dstLen := (_ + _)%Z). pose proof (roundUpForSliceCap_ge dstLen) as Hge.
    destruct (Z.ltb_spec (Z.of_nat (length d)) 0); [lia|]. cbn [orb].
    match goal with |- context [(?c <? dstLen)%Z] => destruct (Z.ltb_spec c dstLen) as [Hc|Hc] end.
    { destruct (Z.ltb_spec (sl_cap dst) dstLen); lia. }
    rewrite Nat2Z.id. destruct (appendBody_loop_full (length d) r (sl_b dst) d rest)
      as (r'&->&?&?); [done..|by intros ->|done|]. by eauto.
Qed.

Lemma appendBodyFixedSize_short r dst n :
  reader_ok r → lively r → (Z.of_nat (length (r_data r)) < n)%Z →
  ∃ c r', appendBodyFixedSize r dst n
          = (mkSlice (sl_b dst ++ r_data r) c, Some (bodyIO (r_err r)), r') ∧
          r_data r' = [] ∧ later r r'.
Proof.
  intros Hok Hl Hn. unfold appendBodyFixedSize. destruct (Z.eqb_spec n 0); [lia|].
  set (dstLen := (_ + _)%Z). pose proof (roundUpForSliceCap_ge dstLen) as Hge.
  destruct (Z.ltb_spec n 0); [lia|]. cbn [orb].
  match goal with |- context [(?c <? dstLen)%Z] => destruct (Z.ltb_spec c dstLen) as [Hc|Hc] end.
  { destruct (Z.ltb_spec (sl_cap dst) dstLen); lia. }
  destruct (appendBody_loop_short (Z.to_nat n) r (sl_b dst) (Z.to_nat n))
    as (r'&->&?&?); [done|done|lia|lia|]. by eauto.
Qed.

(** * Chunked bodies *)

Lemma readExpected_ok exp r rest :
  reader_ok r → r_data r = exp ++ rest →
  ∃ r', readExpected exp r = (None, r') ∧ r_data r' = rest ∧ later r r'.
Proof.
  revert r. induction exp as [|x exp IH]; intros r Hok Hd; [by exists r|]. cbn [readExpected].
  destruct (ReadByte_cons r x (exp ++ rest) Hok Hd) as (r1&->&Hd1&_&Hl1).
  rewrite bool_decide_true by done.
  destruct (IH r1) as (r2&->&?&?); [by eapply later_ok|done|].
  exists r2. split_and!; [done..|by trans r1].
Qed.

Lemma readExpected_inv exp r r' :
  readExpected exp r = (None, r') → r_data r = exp ++ r_data r' ∧ later r r'.
Proof.
  revert r. induction exp as [|x exp IH]; intros r; cbn [readExpected]; [by intros [= ->]|].
  destruct (ReadByte r) as [[c|] r1] eqn:Hr; [|done].
  apply ReadByte_inv in Hr as (->&_&Hl). case_bool_decide; [subst|done].
  intros [-> ?]%IH. split; [done|by trans r1].
Qed.

Lemma skipExtension_ok fuel r ext rest :
  reader_ok r → r_data r = ext ++ rChar :: rest → rChar ∉ ext → length ext < fuel →
  ∃ r', skipExtension fuel r = (None, r') ∧ r_data r' = rChar :: rest ∧ later r r'.
Proof.
  revert r ext. induction fuel as [|fuel IH]; intros r ext Hok Hd Hn Hf; [lia|].
  cbn [skipExtension]. destruct ext as [|c ext]; cbn [app] in Hd.
  - destruct (ReadByte_cons r _ _ Hok Hd) as (r1&->&Hd1&Hlast&Hl1).
    rewrite bool_decide_false by (by intros []).
    destruct (UnreadByte_last r1 _ Hlast) as (r2&->&Hd2&Hl2).
    exists r2. rewrite Hd2, Hd1. split_and!; [done..|by trans r1].
  - destruct (ReadByte_cons r _ _ Hok Hd) as (r1&->&Hd1&Hlast&Hl1).
    apply not_elem_of_cons in Hn as [Hc Hn]. rewrite bool_decide_true by done.
    destruct (IH r1 ext) as (r2&->&?&?); [by eapply later_ok|done..|simpl in Hf; lia|].
    exists r2. split_and!; [done..|by trans r1].
Qed.

Lemma skipExtension_inv fuel r r' :
  skipExtension fuel r = (None, r') → reader_ok r → length (r_data r) < fuel →
  ∃ ext rest, r_data r = ext ++ rChar :: rest ∧ rChar ∉ ext ∧ r_data r' = rChar :: rest ∧ later r r'.
Proof.
  revert r. induction fuel as [|fuel IH]; intros r H Hok Hf; [lia|]. cbn [skipExtension] in H.
  destruct (ReadByte r) as [[c|] r1] eqn:Hr; [|done].
  apply ReadByte_inv in Hr as (Hd1&Hlast&Hl1). rewrite Hd1 in *. case_bool_decide as Hc.
  - apply IH in H as (ext&rest&->&?&?&?); [|by eapply later_ok|simpl in Hf; lia].
    exists (c :: ext), rest. split_and!; [done|set_solver|done|by trans r1].
  - subst c. destruct (UnreadByte r1) as [[?|] r2] eqn:Hu; [done|].
    simplify_eq. apply UnreadByte_inv in Hu as (c'&Hc'&Hd2&Hl2). simplify_eq.
    exists [], (r_data r1). split_and!; [done|set_solver|done|by trans r1].
Qed.

(** The line that announces a chunk of [n] bytes: at most 15 hexadecimal digits, an
    extension that is skipped, CRLF. *)
Definition size_line (line : bytes) (n : Z) : Prop :=
  ∃ ds ext, line = ds ++ ext ++ strCRLF ∧ Forall is_hex ds ∧ ds ≠ [] ∧ length ds ≤ 15 ∧
    n = hexval 0 ds ∧ rChar ∉ ext ∧ match ext with c :: _ => ¬ is_hex c | [] => True end.

(** A chunked body on the wire, up to where its trailers start, and what it carries. *)
Inductive chunked : bytes → bytes → Prop :=
  | chunked_end line : size_line line 0 → chunked line []
  | chunked_chunk line data wire body :
      size_line line (Z.of_nat (length data)) → data ≠ [] → chunked wire body →
      chunked (line ++ data ++ strCRLF ++ wire) (data ++ body).

Lemma parseChunkSize_ok r line n rest :
  size_line line n → reader_ok r → r_data r = line ++ rest →
  ∃ r', parseChunkSize r = (n, None, r') ∧ r_data r' = rest ∧ later r r'.
Proof.
  intros (ds&ext&->&Hds&Hne&Hlen&->&Hext&Hhex) Hok Hd.
  change strCRLF with ([rChar] ++ [nChar]) in *. rewrite <- !app_assoc in Hd.
  destruct (readHexInt_digits r ds (ext ++ rChar :: nChar :: rest)) as (r1&Hr1&Hd1&Hl1);
    [done|done|done|done|done|destruct ext; simpl; [by vm_compute|done]|].
  unfold parseChunkSize. rewrite Hr1, Hd1.
  destruct (skipExtension_ok (S (length (ext ++ rChar :: nChar :: rest))) r1 ext (nChar :: rest))
    as (r2&->&Hd2&Hl2); [by eapply later_ok|done|done|rewrite length_app; lia|].
  destruct (readExpected_ok strCRLF r2 rest) as (r3&Hr3&Hd3&Hl3);
    [eapply later_ok, later_ok; done|done|].
  unfold readCrLf. rewrite Hr3. exists r3. split_and!; [done..|]. by trans r1; [|trans r2].
Qed.

Lemma parseChunkSize_inv r n r' :
  parseChunkSize r = (n, None, r') → reader_ok r →
  ∃ line, size_line line n ∧ r_data r = line ++ r_data r' ∧ later r r'.
Proof.
  unfold parseChunkSize. intros H Hok.
  destruct (readHexInt r) as [[m [?|]] r1] eqn:Hh; [done|].
  destruct (skipExtension _ r1) as [[?|] r2] eqn:Hs; [done|].
  destruct (readCrLf r2) as [[?|] r3] eqn:Hc; [done|]. simplify_eq.
  apply readHexInt_inv in Hh as (ds&Hd&Hds&Hne&Hlen&->&Hstop&Hl1); [|done].
  apply skipExtension_inv in Hs as (ext&rest&Hd1&Hext&Hd2&Hl2); [|by eapply later_ok|lia].
  apply readExpected_inv in Hc as [Hd3 Hl3]. rewrite Hd2 in Hd3.
  change strCRLF with [rChar; nChar] in Hd3. simplify_eq/=.
  exists (ds ++ ext ++ strCRLF). split_and!; [|rewrite Hd, Hd1; by rewrite <- !app_assoc|].
  - exists ds, ext. split_and!; try done. destruct ext as [|c ext]; [done|].
    rewrite Hd1 in Hstop. naive_solver.
  - by trans r1; [|trans r2].
Qed.

Lemma size_line_range line n : size_line line n → (0 ≤ n < 16 ^ 15)%Z ∧ line ≠ [].
Proof.
  intros (ds&ext&->&Hds&Hne&Hlen&->&_&_). split; [|by destruct ds].
  assert (∀ v i, (0 ≤ v < 16 ^ i)%Z → (0 ≤ i)%Z →
    (0 ≤ hexval v ds < 16 ^ (i + Z.of_nat (length ds)))%Z) as Hb.
  { clear Hne Hlen. induction Hds as [|c ds Hc Hds IH]; intros v i Hv Hi; [simpl; by rewrite Z.add_0_r|].
    pose proof (is_hex_range c Hc). cbn [hexval foldl length].
    rewrite Nat2Z.inj_succ, <- Z.add_succ_comm.
    apply (IH (16 * v + hex2intTable c)%Z (Z.succ i)); [rewrite Z.pow_succ_r; lia|lia]. }
  specialize (Hb 0%Z 0%Z ltac:(lia) ltac:(lia)).
  assert (16 ^ (0 + Z.of_nat (length ds)) ≤ 16 ^ 15)%Z by (apply Z.pow_le_mono_r; lia). lia.
Qed.

Lemma length_strCRLF : length strCRLF = 2.
Proof. done. Qed.

(** Every chunked body within the limit is read, whatever follows it. *)
Lemma readBodyChunked_loop_ok wire body fuel r maxBodySize dst rest :
  chunked wire body → reader_ok r → lively r → r_data r = wire ++ rest → length wire ≤ fuel →
  (maxBodySize ≤ 0 ∨ Z.of_nat (length (sl_b dst ++ body)) ≤ maxBodySize)%Z →
  ∃ c r', readBodyChunked_loop fuel r maxBodySize dst = (mkSlice (sl_b dst ++ body) c, None, r') ∧
          r_data r' = rest ∧ later r r'.
Proof.
  intros Hw. revert fuel r dst.
  induction Hw as [line Hline|line data wire body Hline Hne Hw IH];
    intros fuel r dst Hok Hl Hd Hf Hm; pose proof (size_line_range _ _ Hline) as [Hr Hln];
    (destruct fuel as [|fuel]; [exfalso; destruct line; [done|simpl in Hf; lia]|]);
    cbn [readBodyChunked_loop].
  - destruct (parseChunkSize_ok r line 0 rest) as (r1&->&Hd1&Hl1); [done..|].
    rewrite app_nil_r. exists (sl_cap dst), r1. by destruct dst.
  - rewrite <- app_assoc in Hd. destruct (parseChunkSize_ok r line _ _ Hline Hok Hd) as (r1&->&Hd1&Hl1).
    destruct (Z.eqb_spec (Z.of_nat (length data)) 0) as [E|E]; [destruct data; [done|simpl in E; lia]|].
    match goal with |- context [?x && ?y] => destruct (x && y) eqn:Hbig end.
    { apply andb_true_iff in Hbig as [? Hbig]. rewrite Z.gtb_lt in *. rewrite !length_app in Hm. lia. }
    rewrite <- Nat2Z.inj_add, <- length_app.
    destruct (appendBodyFixedSize_full r1 dst (data ++ strCRLF) (wire ++ rest)) as (c&r2&->&Hd2&Hl2);
      [by eapply later_ok|by eapply later_lively|rewrite Hd1; by rewrite <- !app_assoc|].
    cbn [sl_b sl_cap]. rewrite !(app_assoc (sl_b dst) data).
    rewrite length_app, Nat.add_sub, drop_app_length, take_app_length.
    unfold Equal. rewrite bool_decide_true by done. cbn [negb].
    destruct (IH fuel r2 (mkSlice (sl_b dst ++ data) c)) as (c'&r3&->&Hd3&Hl3);
      [eapply later_ok, later_ok; done|eapply later_lively, later_lively; done|done| | |].
    + rewrite !length_app in Hf. destruct line; [done|]. simpl in Hf. lia.
    + cbn [sl_b]. by rewrite <- app_assoc.
    + exists c', r3. cbn [sl_b]. rewrite <- app_assoc. split_and!; [done..|]. by trans r1; [|trans r2].
Qed.

(** What a chunked reader accepts is a chunked body, within the limit. *)
Lemma readBodyChunked_loop_inv fuel r maxBodySize dst res r' :
  readBodyChunked_loop fuel r maxBodySize dst = (res, None, r') → reader_ok r → lively r →
  ∃ wire body, chunked wire body ∧ r_data r = wire ++ r_data r' ∧ sl_b res = sl_b dst ++ body ∧
    (maxBodySize ≤ 0 ∨ body = [] ∨ Z.of_nat (length (sl_b res)) ≤ maxBodySize)%Z.
Proof.
  revert r dst. induction fuel as [|fuel IH]; intros r dst H Hok Hl; [done|].
  cbn [readBodyChunked_loop] in H.
  destruct (parseChunkSize r) as [[n [?|]] r1] eqn:Hp; [done|].
  apply parseChunkSize_inv in Hp as (line&Hline&Hd&Hl1); [|done].
  pose proof (size_line_range _ _ Hline) as [Hr Hln].
  destruct (Z.eqb_spec n 0) as [->|Hn].
  { simplify_eq. exists line, []. rewrite app_nil_r. split_and!; [by constructor|done..|auto]. }
  destruct (_ && _) eqn:Hbig; [done|].
  pose proof (later_ok _ _ Hl1 Hok) as Hok1. pose proof (later_lively _ _ Hl1 Hl) as Hlv1.
  destruct (decide (Z.of_nat (length (r_data r1)) < n + 2)%Z) as [Hs|Hs].
  { destruct (appendBodyFixedSize_short r1 dst (n + Z.of_nat (length strCRLF)) Hok1 Hlv1 Hs)
      as (c&r2&Ha&_&_). by rewrite Ha in H. }
  pose proof (appendBodyFixedSize_full r1 dst (take (Z.to_nat (n + 2)) (r_data r1))
    (drop (Z.to_nat (n + 2)) (r_data r1)) Hok1 Hlv1 ltac:(by rewrite take_drop))
    as (c&r2&Ha&Hd2&Hl2).
  rewrite length_take, Nat.min_l in Ha by lia. rewrite Z2Nat.id in Ha by lia.
  change (Z.of_nat (length strCRLF)) with 2%Z in H. rewrite Ha in H.
  cbn [sl_b sl_cap] in H.
  set (k := Z.to_nat n). assert (Z.to_nat (n + 2) = k + 2) as Ek by lia.
  rewrite Ek in *. rewrite <- take_take_drop, app_assoc in H.
  set (data := take k (r_data r1)) in *. set (tl := take 2 (drop k (r_data r1))) in *.
  assert (length data = k) by (unfold data; rewrite length_take; lia).
  assert (length tl = 2) as Htl by (unfold tl; rewrite length_take, length_drop; lia).
  rewrite length_app, Htl, length_strCRLF, Nat.add_sub, drop_app_length, take_app_length in H.
  unfold Equal in H. case_bool_decide as Htc; [|done]. cbn [negb] in H.
  apply IH in H as (wire&body&Hw&Hd3&Hres&Hm);
    [|by eapply later_ok|by eapply later_lively]. cbn [sl_b] in Hres.
  exists (line ++ data ++ strCRLF ++ wire), (data ++ body). split_and!.
  - constructor; [|intros E%(f_equal length); simpl in E; lia|done].
    by replace (Z.of_nat (length data)) with n by lia.
  - rewrite Hd, <- !app_assoc. f_equal. rewrite <- Hd3, Hd2, <- Htc. unfold data, tl.
    by rewrite app_assoc, take_take_drop, take_drop.
  - by rewrite Hres, <- app_assoc.
  - destruct (decide (maxBodySize ≤ 0)%Z); [by left|right; right].
    destruct Hm as [?|[->|?]]; [lia| |done]. rewrite Hres, app_nil_r, length_app.
    apply andb_false_iff in Hbig as [Hb|Hb]; rewrite Z.gtb_ltb, Z.ltb_ge in Hb; lia.
Qed.

(** * Bodies that end with the connection *)

(** The buffer grows when it is full. *)
Lemma identity_grows offset maxBodySize :
  (0 < offset)%Z → (maxBodySize ≤ 0 ∨ offset ≤ maxBodySize)%Z →
  (offset < (if (maxBodySize >? 0) && (roundUpForSliceCap (2 * offset) >? maxBodySize)
             then maxBodySize + 1 else roundUpForSliceCap (2 * offset)))%Z.
Proof.
  intros Ho Hm. pose proof (roundUpForSliceCap_ge (2 * offset)).
  destruct (Z.gtb_spec maxBodySize 0); cbn [andb]; [|lia].
  destruct (Z.gtb_spec (roundUpForSliceCap (2 * offset)) maxBodySize); lia.
Qed.

Lemma readBodyIdentity_loop_ok fuel r maxBodySize acc len :
  reader_ok r → lively r → r_err r = EOF → length (r_data r) < fuel →
  (Z.of_nat (length acc) < len)%Z → (maxBodySize ≤ 0 ∨ Z.of_nat (length acc) ≤ maxBodySize)%Z →
  ∃ b c err r', readBodyIdentity_loop fuel r maxBodySize acc len = (mkSlice b c, err, r') ∧
    if decide (maxBodySize ≤ 0 ∨ Z.of_nat (length (acc ++ r_data r)) ≤ maxBodySize)%Z
    then b = acc ++ r_data r ∧ err = None ∧ r_data r' = []
    else acc ++ r_data r = b ++ r_data r' ∧ err = Some ErrBodyTooLarge ∧
         (maxBodySize < Z.of_nat (length b))%Z.
Proof.
  revert r acc len. induction fuel as [|fuel IH]; intros r acc len Hok Hl He Hf Hlen Hm; [lia|].
  cbn [readBodyIdentity_loop]. destruct (decide (r_data r = [])) as [E|E].
  - rewrite Read_end by (done || lia). rewrite He, bool_decide_true by done.
    eexists _, _, _, _. split; [done|]. rewrite E, app_nil_r.
    by rewrite decide_True by done.
  - destruct (Read_some r (Z.to_nat (len - Z.of_nat (length acc)))) as (b&r1&->&Hb&Hbn&Hd1&Hl1);
      [done|done|lia|done|].
    rewrite Hd1 in *. rewrite length_app in Hf. destruct b as [|x b]; [done|].
    set (acc1 := acc ++ x :: b). set (d1 := r_data r1) in *.
    assert (acc ++ (x :: b) ++ d1 = acc1 ++ d1) as -> by (unfold acc1; by rewrite <- app_assoc).
    assert (length acc1 = length acc + S (length b)) as Hacc1 by (unfold acc1; by rewrite length_app).
    cbn [length] in *.
    match goal with |- context [?x && ?y] => destruct (x && y) eqn:Hbig end.
    { apply andb_true_iff in Hbig as [? Hbig]. rewrite Z.gtb_lt in *.
      eexists _, _, _, _. split; [done|]. rewrite decide_False; [done|].
      rewrite length_app. lia. }
    assert (maxBodySize ≤ 0 ∨ Z.of_nat (length acc1) ≤ maxBodySize)%Z as Hm1.
    { apply andb_false_iff in Hbig as [Hb1|Hb1]; rewrite Z.gtb_ltb, Z.ltb_ge in Hb1; lia. }
    apply (IH r1 acc1); [by eapply later_ok|by eapply later_lively|
      by destruct Hl1 as (_&->&_)|fold d1; lia| |done].
    destruct (Z.eqb_spec len (Z.of_nat (length acc1))); [apply identity_grows; lia|lia].
Qed.

Lemma readBodyIdentity_ok r maxBodySize dst :
  reader_ok r → lively r → r_err r = EOF → (0 ≤ sl_cap dst)%Z →
  ∃ b c err r', readBodyIdentity r maxBodySize dst = (mkSlice b c, err, r') ∧
    if decide (maxBodySize ≤ 0 ∨ Z.of_nat (length (r_data r)) ≤ maxBodySize)%Z
    then b = r_data r ∧ err = None ∧ r_data r' = []
    else r_data r = b ++ r_data r' ∧ err = Some ErrBodyTooLarge ∧
         (maxBodySize < Z.of_nat (length b))%Z.
Proof.
  intros Hok Hl He Hc. unfold readBodyIdentity.
  apply (readBodyIdentity_loop_ok _ r maxBodySize []); [done..|lia| |simpl; lia].
  simpl. destruct (Z.eqb_spec (sl_cap dst) 0); lia.
Qed.
