(* ===== verification/StreamFacts.v ===== *)
(** Laws of the body streams and of the copying loops. [delivers] is what a copying loop
    needs of a stream; every stream of the sources is shown to provide it, so that a
    body read through a stream is the body read into a buffer. *)

From Stdlib Require Import ZArith Strings.Byte.
From stdpp Require Import prelude strings list.
From S2P Require Import Prelude Tables Bufio Bytesconv BytesconvFacts Headers HeaderScan Body BodyFacts.

(** In a state satisfying [P s rem] the stream delivers the bytes [rem] and then its
    end, whatever the sizes of the reads; [Q] holds after the end. *)
Record delivers {St} `{IOReader St} (P : St → bytes → Prop) (Q : St → Prop) : Prop := {
  delivers_more s n rem :
    P s rem → rem ≠ [] → 0 < n →
    ∃ b s' rem', io_read s n = (b, None, s') ∧ b ≠ [] ∧ length b ≤ n ∧ rem = b ++ rem' ∧ P s' rem';
  delivers_end s n :
    P s [] → 0 < n → ∃ s', io_read s n = ([], Some (bodyIO EOF), s') ∧ Q s'
}.

(** * The copying loops *)

Lemma Write_room w p : w_room w = None → Write w p = (None, mkWriter (w_out w ++ p) None).
Proof. intros H. unfold Write. by rewrite H. Qed.

Lemma writeChunk_room w b :
  w_room w = None → (Z.of_nat (length b) < 16 ^ 15)%Z →
  ∃ line, size_line line (Z.of_nat (length b)) ∧
    writeChunk w b = (None, mkWriter (w_out w ++ line ++ b ++ strCRLF) None).
Proof.
  intros Hw Hb. destruct (writeHexInt_spec (Z.of_nat (length b)) 15) as (ds&Hd&Hds&Hne&Hl&Hv);
    [lia|lia|].
  exists (ds ++ strCRLF). split.
  - exists ds, []. split_and!; try done. set_solver.
  - unfold writeChunk. rewrite Hd. unfold andWrite.
    rewrite (Write_room w) by done. rewrite !Write_room by done. cbn [w_out].
    by rewrite <- !app_assoc.
Qed.

Section copying.
Context {St : Type} `{IOReader St} (P : St → bytes → Prop) (Q : St → Prop).
Context (Hdel : delivers P Q).

(** Chunking a stream writes a chunked body that carries exactly what it delivers. *)
Lemma writeBodyChunked_delivers fuel buflen w s rem :
  P s rem → length rem < fuel → 0 < buflen → (Z.of_nat buflen < 16 ^ 15)%Z → w_room w = None →
  ∃ wire s', writeBodyChunked fuel buflen w s = Some (None, mkWriter (w_out w ++ wire) None, s') ∧
             chunked wire rem ∧ Q s'.
Proof.
  revert w s rem. induction fuel as [|fuel IH]; intros w s rem Hs Hf Hb Hbs Hw; [lia|].
  cbn [writeBodyChunked]. destruct (decide (rem = [])) as [->|Hne].
  - destruct (delivers_end _ _ Hdel s buflen Hs Hb) as (s'&->&Hq).
    rewrite bool_decide_true, Write_room by done.
    exists chunkedEnd, s'. split_and!; [done| |done]. constructor. exists (bs "0"), [].
    split_and!; try done; [by repeat constructor; vm_compute|simpl; lia|set_solver].
  - destruct (delivers_more _ _ Hdel s buflen rem Hs Hne Hb) as (b&s1&rem1&->&Hbne&Hbn&->&Hs1).
    destruct (writeChunk_room w b Hw) as (line&Hline&Hwc); [lia|].
    destruct b as [|x b]; [done|]. rewrite Hwc. rewrite length_app in Hf. cbn [length] in Hf.
    destruct (IH (mkWriter (w_out w ++ line ++ (x :: b) ++ strCRLF) None) s1 rem1)
      as (wire&s'&Hrun&Hch&Hq); [done|lia|done..|].
    exists (line ++ (x :: b) ++ strCRLF ++ wire), s'. split_and!; [|by constructor|done].
    cbn [app] in *. rewrite Hrun. cbn [w_out].
    rewrite <- !app_assoc. cbn [app]. by rewrite <- !app_assoc.
Qed.

(** Copying a stream writes exactly what it delivers. *)
Lemma copyZeroAlloc_delivers fuel buflen idle w s n rem :
  P s rem → length rem < fuel → 0 < buflen → w_room w = None →
  ∃ s', copyZeroAlloc fuel buflen idle w s n
        = Some ((n + Z.of_nat (length rem))%Z, None, mkWriter (w_out w ++ rem) None, s') ∧ Q s'.
Proof.
  revert idle w s n rem. induction fuel as [|fuel IH]; intros idle w s n rem Hs Hf Hb Hw; [lia|].
  cbn [copyZeroAlloc]. destruct (decide (rem = [])) as [->|Hne].
  - destruct (delivers_end _ _ Hdel s buflen Hs Hb) as (s'&->&Hq).
    rewrite Write_room, bool_decide_true by done. by eauto.
  - destruct (delivers_more _ _ Hdel s buflen rem Hs Hne Hb) as (b&s1&rem1&->&Hbne&Hbn&->&Hs1).
    rewrite length_app in *. destruct b as [|x b]; [done|]. rewrite Write_room by done.
    cbn [length] in *.
    destruct (IH 0 (mkWriter (w_out w ++ x :: b) None) s1 (n + Z.of_nat (S (length b)))%Z rem1)
      as (s'&->&Hq); [done|lia|done|done|].
    exists s'. split; [|done]. do 3 f_equal; [f_equal; lia|]. cbn [w_out]. by rewrite <- app_assoc.
Qed.

Lemma writeBodyFixedSize_delivers fuel buflen w s rem :
  P s rem → length rem < fuel → 0 < buflen → w_room w = None →
  ∃ s', writeBodyFixedSize fuel buflen w s (Z.of_nat (length rem))
        = Some (None, mkWriter (w_out w ++ rem) None, s') ∧ Q s'.
Proof.
  intros Hs Hf Hb Hw. unfold writeBodyFixedSize.
  destruct (copyZeroAlloc_delivers fuel buflen 0 w s 0 rem) as (s'&->&Hq); [done..|].
  simpl. rewrite bool_decide_false by (intros E; by apply E). by eauto.
Qed.
End copying.

(** * The streams *)

Lemma Source_delivers :
  delivers (λ s rem, Forall (λ c, c ≠ []) (src_reads s) ∧ src_err s = EOF ∧ rem = concat (src_reads s))
    (λ s, src_reads s = []).
Proof.
  split.
  - intros [[|c cs] e] n rem (Hne&He&->) Hr Hn; simpl in *; [done|].
    apply Forall_cons in Hne as [Hc Hcs].
    assert (take n c ≠ []) as Ht by (destruct c, n; simpl in *; done || lia).
    unfold io_read, Source_reader. cbn [src_reads src_err].
    destruct (Nat.leb_spec (length c) n); eexists (take n c), _, _; (split; [done|]);
      (split; [done|]); (split; [rewrite length_take; lia|]); cbn [src_reads src_err].
    + split; [|split_and!; [done..|]; reflexivity]. by rewrite take_ge by lia.
    + split; [|split_and!; [constructor; [|done]|done|]; [|reflexivity]].
      * simpl. by rewrite app_assoc, take_drop.
      * intros E%(f_equal length). rewrite length_drop in E. simpl in E. lia.
  - intros [[|c cs] e] n (Hne&He&Hr) Hn; simpl in *.
    + subst. by eexists.
    + apply Forall_cons in Hne as [Hc _]. destruct c; done.
Qed.

Lemma BytesReader_delivers : delivers (λ s rem, br_left s = rem) (λ s, br_left s = []).
Proof.
  split.
  - intros [b] n rem <- Hr Hn. simpl in *. destruct b as [|x b]; [done|].
    eexists (take n (x :: b)), _, _. split; [done|]. destruct n as [|n]; [lia|].
    split; [done|]. split; [rewrite length_take; lia|]. split; [|reflexivity].
    simpl. by rewrite take_drop.
  - intros [b] n Hb Hn. simpl in Hb. subst. by eexists.
Qed.

(** A [TwoBytesReader] reads as the concatenation of its two slices. *)
Lemma TwoBytesReader_delivers :
  delivers (λ t rem, t_current t = 0 ∧ t_i t ≤ length (t_bytes0 t) ∧
                       rem = drop (t_i t) (t_bytes0 t) ++ t_bytes1 t ∨
                     t_current t = 1 ∧ rem = drop (t_i t) (t_bytes1 t))
    (λ t, t_current t = 1).
Proof.
  assert (∀ b0 b1 i n, drop i b1 ≠ [] → 0 < n → ∃ b s' rem',
    TwoBytesReader_second (mkTwoBytes b0 b1 i 1) n = (b, None, s') ∧ b ≠ [] ∧ length b ≤ n ∧
    drop i b1 = b ++ rem' ∧ t_current s' = 1 ∧ rem' = drop (t_i s') (t_bytes1 s')) as Hsec.
  { intros b0 b1 i n Hne Hn. unfold TwoBytesReader_second. simpl.
    destruct (Nat.leb_spec (length b1) i) as [Hi|Hi]; [by rewrite drop_ge in Hne by lia|].
    eexists _, _, _. split; [done|]. split.
    { destruct (drop i b1), n; simpl in *; done || lia. }
    split; [rewrite length_take; lia|]. simpl. split; [|split; [done|reflexivity]].
    rewrite length_take, <- drop_drop. destruct (decide (n ≤ length (drop i b1))).
    - by rewrite Nat.min_l, take_drop by done.
    - rewrite Nat.min_r by lia. by rewrite take_ge, drop_all, app_nil_r by lia. }
  split.
  - intros [b0 b1 i c] n rem [(Hc&Hi&->)|(Hc&->)] Hr Hn; simpl in *; subst c; unfold io_read, TwoBytesReader_Read; simpl.
    + destruct (decide (drop i b0 = [])) as [E|E].
      * rewrite E in *. rewrite take_nil. cbn [length]. rewrite Nat.add_0_r.
        assert (i = length b0) as ->.
        { apply (f_equal length) in E. rewrite length_drop in E. simpl in E. lia. }
        rewrite !bool_decide_true by done.
        destruct (Hsec b0 b1 0 n) as (b&s'&rem'&->&?&?&?&?&?); [done..|].
        exists b, s', rem'. split_and!; try done. by right.
      * assert (take n (drop i b0) ≠ []) as Hb. { destruct (drop i b0), n; simpl in *; done || lia. }
        rewrite (bool_decide_false (length (take n (drop i b0)) = 0))
          by (by destruct (take n (drop i b0))).
        case_bool_decide as Hall; eexists _, _, _; (split; [done|]); (split; [done|]);
          (split; [rewrite length_take; lia|]); simpl; rewrite length_take, length_drop in Hall.
        -- split; [|right; split; [done|reflexivity]].
           rewrite take_ge by (rewrite length_drop; lia). by rewrite drop_0.
        -- split; [|left; split_and!; [done| |reflexivity]];
             rewrite length_take, length_drop, Nat.min_l by lia; [|lia].
           by rewrite <- drop_drop, app_assoc, take_drop.
    + destruct (Hsec b0 b1 i n) as (b&s'&rem'&->&?&?&?&?&?); [done..|].
      exists b, s', rem'. split_and!; try done. by right.
  - intros [b0 b1 i c] n [(Hc&Hi&Hr)|(Hc&Hr)] Hn; simpl in *; subst c; unfold io_read, TwoBytesReader_Read; simpl.
    + symmetry in Hr. apply app_nil in Hr as [E ->]. rewrite E, take_nil. cbn [length].
      assert (i = length b0) as ->.
      { apply (f_equal length) in E. rewrite length_drop in E. simpl in E. lia. }
      rewrite Nat.add_0_r, !bool_decide_true by done. unfold TwoBytesReader_second. simpl. by eexists.
    + unfold TwoBytesReader_second. simpl. symmetry in Hr.
      apply (f_equal length) in Hr. rewrite length_drop in Hr. simpl in Hr.
      destruct (Nat.leb_spec (length b1) i); [|lia]. by eexists.
Qed.

(** * requestStream

    What a stream relies on in its header: the empty trailer section is a CRLF. *)
Class HeaderInterfaceLaws (H : Type) `{HeaderInterface H} :=
  hi_ReadTrailer_crlf (h : H) r rest :
    2 ≤ r_size r → r_data r = strCRLF ++ rest →
    ∃ r', hi_ReadTrailer h r = (h, r', None) ∧ r_data r' = rest ∧ later r r'.

Section stream.
Context {H : Type} `{HeaderInterfaceLaws H}.

(** A stream in front of or inside a chunked body, with the empty trailer section and
    [rest] behind it. *)
Definition at_chunks (rest : bytes) (st : requestStream * H * Reader) (rem : bytes) : Prop :=
  let '(rs, h, r) := st in
  hi_ContentLength h = (-1)%Z ∧ 2 ≤ r_size r ∧ lively r ∧
  (rs_chunkLeft rs = 0%Z ∧ (∃ wire, chunked wire rem ∧ r_data r = wire ++ strCRLF ++ rest) ∨
   ∃ data wire body, data ≠ [] ∧ rs_chunkLeft rs = Z.of_nat (length data) ∧ chunked wire body ∧
     rem = data ++ body ∧ r_data r = data ++ strCRLF ++ wire ++ strCRLF ++ rest).

Lemma readChunk_step rs h r n data wire body rest :
  hi_ContentLength h = (-1)%Z → 2 ≤ r_size r → lively r → 0 < n → data ≠ [] →
  rs_chunkLeft rs = Z.of_nat (length data) → chunked wire body →
  r_data r = data ++ strCRLF ++ wire ++ strCRLF ++ rest →
  ∃ b st' rem', readChunk rs h r n = (b, None, st') ∧ b ≠ [] ∧ length b ≤ n ∧
    data ++ body = b ++ rem' ∧ at_chunks rest st' rem'.
Proof.
  intros Hcl Hsz Hlv Hn Hne Hleft Hch Hd. unfold readChunk. rewrite Hleft.
  assert (reader_ok r) as Hok by (unfold reader_ok; lia).
  set (k := if (_ <? _)%Z then _ else _).
  assert (0 < k ≤ n ∧ k ≤ length data) as [Hk Hkd].
  { unfold k. assert (0 < length data) by (destruct data; [done|simpl; lia]).
    destruct (Z.ltb_spec (Z.of_nat (length data)) (Z.of_nat n)); lia. }
  destruct (Read_some r k) as (b&r1&->&Hb&Hbn&Hd1&Hl1); [done|done|lia|by rewrite Hd; destruct data|].
  rewrite Hd in Hd1. destruct (app_le_inv _ _ _ _ Hd1) as (m&->&Hm); [lia|].
  pose proof Hl1 as (Hsz1&_&Hlv1). specialize (Hlv1 Hlv).
  match goal with |- context [(?z =? 0)%Z] => destruct (Z.eqb_spec z 0) as [E|E] end;
    cbn in E; rewrite length_app in E.
  - destruct m; [|simpl in E; lia]. rewrite app_nil_r.
    destruct (readExpected_ok strCRLF r1 (wire ++ strCRLF ++ rest)) as (r2&Hr2&Hd2&Hl2);
      [by eapply later_ok|done|].
    unfold readCrLf. rewrite Hr2. pose proof Hl2 as (Hsz2&_&Hlv2). specialize (Hlv2 Hlv1).
    eexists b, _, body. split_and!; [done|done|lia|done|]. split_and!; [done|lia|done|].
    left. split; [cbn; lia|]. by exists wire.
  - eexists b, _, (m ++ body). split_and!; [done|done|lia|by rewrite app_assoc|].
    split_and!; [done|lia|done|]. right. exists m, wire, body.
    split_and!; [|cbn; rewrite length_app; lia|done..]. intros ->. simpl in E. lia.
Qed.

(** A stream that has delivered its end. *)
Definition at_end (rest : bytes) (st : requestStream * H * Reader) : Prop :=
  let '(rs, h, r) := st in
  hi_ContentLength h = (-1)%Z ∧ rs_chunkLeft rs = 0%Z ∧ 2 ≤ r_size r ∧ r_data r = rest.

(** The chunked stream delivers the body and leaves what follows its trailers. *)
Lemma requestStream_chunked_delivers rest : delivers (at_chunks rest) (at_end rest).
Proof.
  split.
  - intros [[rs h] r] n rem (Hcl&Hsz&Hlv&[[Hz (wire&Hch&Hd)]|Hmid]) Hne Hn;
      cbn [io_read requestStream_Read]; unfold io_read, requestStream_Read; rewrite Hcl; cbn [Z.eqb].
    + rewrite Hz. destruct Hch as [|line data wire body Hline Hdn Hch]; [done|].
      rewrite <- !app_assoc in Hd.
      destruct (parseChunkSize_ok r line _ _ Hline ltac:(unfold reader_ok; lia) Hd) as (r1&->&Hd1&Hl1).
      pose proof Hl1 as (Hsz1&_&Hlv1). specialize (Hlv1 Hlv).
      destruct (Z.eqb_spec (Z.of_nat (length data)) 0); [destruct data; [done|simpl in *; lia]|].
      eapply readChunk_step; try done; lia.
    + destruct Hmid as (data&wire&body&Hdn&Hleft&Hch&->&Hd). rewrite Hleft.
      destruct (Z.eqb_spec (Z.of_nat (length data)) 0); [destruct data; [done|simpl in *; lia]|].
      by eapply readChunk_step.
  - intros [[rs h] r] n (Hcl&Hsz&Hlv&[[Hz (wire&Hch&Hd)]|Hmid]) Hn;
      unfold io_read, requestStream_Read; rewrite Hcl; cbn [Z.eqb].
    + rewrite Hz. inversion Hch as [line Hline|]; [subst wire|by destruct data].
      destruct (parseChunkSize_ok r line _ _ Hline ltac:(unfold reader_ok; lia) Hd) as (r1&->&Hd1&Hl1).
      pose proof Hl1 as (Hsz1&_&_).
      destruct (hi_ReadTrailer_crlf h r1 rest) as (r2&Hr2&Hd2&Hl2); [lia|done|].
      cbn [Z.eqb]. rewrite Hr2. eexists. split; [done|]. pose proof Hl2 as (Hsz2&_&_).
      split_and!; [done..|lia|done].
    + destruct Hmid as (data&wire&body&Hdn&Hleft&Hch&Hr&Hd). by destruct data.
Qed.

(** Reading past the end reads what the next message starts with, and loses a byte. *)
Lemma requestStream_past_end st n c d :
  at_end (c :: d) st → ¬ is_hex c →
  ∃ st', io_read st n = ([], Some (bodyConv errEmptyHexNum), st') ∧ r_data st'.2 = d.
Proof.
  destruct st as [[rs h] r]. intros (Hcl&Hleft&Hsz&Hd) Hc.
  unfold io_read, requestStream_Read. rewrite Hcl, Hleft. cbn [Z.eqb].
  unfold parseChunkSize, readHexInt. cbn [readHexInt_loop].
  destruct (ReadByte_cons r c d) as (r1&->&Hd1&_&_); [unfold reader_ok; lia|done|].
  unfold is_hex in Hc. destruct (Z.eqb_spec (hex2intTable c) 16); [|done].
  rewrite bool_decide_true by done. by eexists.
Qed.

(** A stream in front of or inside a body of known length: [p] is still prefetched and
    [d] still in the connection. The body is complete, or the connection ends early. *)
Definition at_fixed (rest : bytes) (cut : bool) (st : requestStream * H * Reader) (rem : bytes) : Prop :=
  let '(rs, h, r) := st in
  reader_ok r ∧ lively r ∧ (0 ≤ rs_totalBytesRead rs)%Z ∧
  (if cut then rs_totalBytesRead rs + Z.of_nat (length rem) < hi_ContentLength h ∧ rest = [] ∧ r_err r = EOF
   else hi_ContentLength h = rs_totalBytesRead rs + Z.of_nat (length rem))%Z ∧
  ∃ p d, rem = p ++ d ∧ r_data r = d ++ rest ∧
    (p ≠ [] ∧ Z.of_nat (rs_prefetchedSize rs) = (rs_totalBytesRead rs + Z.of_nat (length p))%Z ∧
       br_left (rs_prefetched rs) = p ∨
     p = [] ∧ (Z.of_nat (rs_prefetchedSize rs) ≤ rs_totalBytesRead rs)%Z).

Lemma requestStream_fixed_delivers rest cut :
  delivers (at_fixed rest cut) (λ st, r_data st.2 = rest).
Proof.
  split.
  - intros [[rs h] r] n rem (Hok&Hlv&Htot&Hcl&p&d&->&Hd&Hp) Hne Hn.
    assert (0 < length (p ++ d)) by (destruct (p ++ d); [done|simpl; lia]).
    assert (hi_ContentLength h ≠ -1 ∧ rs_totalBytesRead rs ≠ hi_ContentLength h ∧
      rs_totalBytesRead rs + Z.of_nat (length (p ++ d)) ≤ hi_ContentLength h)%Z as (?&?&Hge).
    { destruct cut; [destruct Hcl as (?&_)|]; lia. }
    unfold io_read, requestStream_Read.
    destruct (Z.eqb_spec (hi_ContentLength h) (-1)); [done|].
    destruct (Z.eqb_spec (rs_totalBytesRead rs) (hi_ContentLength h)); [done|].
    destruct Hp as [(Hpn&Hsize&Hleft)|(->&Hsize)].
    + assert (0 < length p) by (destruct p; [done|simpl; lia]).
      destruct (Z.gtb_spec (Z.of_nat (rs_prefetchedSize rs)) (rs_totalBytesRead rs)); [|lia].
      set (k := if (_ >? _)%Z then _ else _). assert (0 < k ≤ n) as Hk.
      { unfold k. destruct (Z.gtb_spec (Z.of_nat n)
          (Z.of_nat (rs_prefetchedSize rs) - rs_totalBytesRead rs)); lia. }
      destruct (delivers_more _ _ BytesReader_delivers (rs_prefetched rs) k p)
        as (b&s'&p'&Hr&Hbn&Hbl&Hpb&Hs'); [done|done|lia|].
      clear Hleft. subst p. rewrite Hr. eexists b, _, (p' ++ d). rewrite <- app_assoc.
      split_and!; [done|done|lia|done|]. rewrite !length_app in *.
      split_and!; [done|done|cbn; lia| |].
      { cbn. rewrite length_app. destruct cut; [destruct Hcl as (?&?&?); split_and!; [|done..]|]; lia. }
      exists p', d. split_and!; [done|done|]. cbn.
      destruct (decide (p' = [])) as [->|Hp']; [right; split; [done|simpl in *; lia]|left].
      split_and!; [done|lia|done].
    + destruct (Z.gtb_spec (Z.of_nat (rs_prefetchedSize rs)) (rs_totalBytesRead rs)); [lia|].
      cbn [app] in *. set (k := if (_ >? _)%Z then _ else _).
      destruct (Read_some r k) as (b&r1&->&Hb&Hbn&Hd1&Hl1);
        [done|done|unfold k; destruct (Z.gtb_spec (Z.of_nat n)
          (hi_ContentLength h - rs_totalBytesRead rs)); lia|by rewrite Hd; destruct d|].
      assert (length b ≤ length d) as Hbd.
      { destruct cut.
        - destruct Hcl as (_&->&_). rewrite app_nil_r in Hd. rewrite <- Hd, Hd1, length_app. lia.
        - revert Hbn. unfold k. destruct (Z.gtb_spec (Z.of_nat n)
            (hi_ContentLength h - rs_totalBytesRead rs)); lia. }
      rewrite Hd in Hd1. destruct (app_le_inv _ _ _ _ Hd1) as (m&->&Hm); [done|].
      eexists b, _, m. split_and!; [done|done| |done|].
      { revert Hbn. unfold k. destruct (Z.gtb_spec (Z.of_nat n)
          (hi_ContentLength h - rs_totalBytesRead rs)); lia. }
      rewrite !length_app in *. split_and!; [by eapply later_ok|by eapply later_lively|cbn; lia| |].
      { cbn. destruct cut; [destruct Hcl as (?&?&?); split_and!; [|done|]|]; [lia| |lia].
        destruct Hl1 as (_&->&_). done. }
      exists [], m. split_and!; [done|done|]. right. split; [done|]. cbn. lia.
  - intros [[rs h] r] n (Hok&Hlv&Htot&Hcl&p&d&Hr&Hd&Hp) Hn.
    symmetry in Hr. apply app_nil in Hr as [-> ->].
    destruct Hp as [(?&_)|(_&Hsize)]; [done|]. unfold io_read, requestStream_Read.
    cbn [length app] in *. destruct cut.
    + destruct Hcl as (Hlt&->&He).
      destruct (Z.eqb_spec (hi_ContentLength h) (-1)); [lia|].
      destruct (Z.eqb_spec (rs_totalBytesRead rs) (hi_ContentLength h)); [lia|].
      destruct (Z.gtb_spec (Z.of_nat (rs_prefetchedSize rs)) (rs_totalBytesRead rs)); [lia|].
      rewrite Read_end, He;
        [|done|done|destruct (Z.gtb_spec (Z.of_nat n) (hi_ContentLength h - rs_totalBytesRead rs)); lia].
      by eexists.
    + destruct (Z.eqb_spec (hi_ContentLength h) (-1)); [lia|].
      destruct (Z.eqb_spec (rs_totalBytesRead rs) (hi_ContentLength h)); [|lia]. by eexists.
Qed.
End stream.
