(* ===== verification/ReqHeader.v ===== *)
(** header.go, the request half: [RequestHeader], its setters and getters, the
    parser of a request head, the reading loop over a [bufio.Reader], and the
    printer. *)

From Stdlib Require Import ZArith Strings.Byte.
From stdpp Require Import prelude strings list.
From S2P Require Import Prelude Tables Bufio Bytesconv Args Uri Cookie Headers HeaderScan.

Record RequestHeader := mkReq {
  q_contentLengthBytes : bytes;
  q_method : bytes;
  q_requestURI : bytes;
  q_proto : bytes;
  q_host : bytes;
  q_contentType : bytes;
  q_userAgent : bytes;
  q_mulHeader : list bytes;
  q_h : kvs;
  q_trailer : kvs;
  q_cookies : kvs;
  q_rawHeaders : bytes;
  q_contentLength : Z;
  q_bufK : bytes;
  q_bufV : bytes;
  q_noHTTP11 : bool;
  q_connectionClose : bool;
  q_cookiesCollected : bool;
  q_contentLengthSeen : bool;
  q_disableSpecialHeader : bool;
  q_disableNormalizing : bool;
  q_noDefaultContentType : bool;
  q_secureErrorLogMessage : bool;
  q_firstLineLen : nat  (* an int32 in the code; a line of 2^31 bytes needs a buffer that large *)
}.

#[global] Instance RequestHeader_etable : Etable RequestHeader := λ h,
  mkReq (q_contentLengthBytes h) (q_method h) (q_requestURI h) (q_proto h) (q_host h)
    (q_contentType h) (q_userAgent h) (q_mulHeader h) (q_h h) (q_trailer h) (q_cookies h)
    (q_rawHeaders h) (q_contentLength h) (q_bufK h) (q_bufV h) (q_noHTTP11 h)
    (q_connectionClose h) (q_cookiesCollected h) (q_contentLengthSeen h)
    (q_disableSpecialHeader h) (q_disableNormalizing h) (q_noDefaultContentType h)
    (q_secureErrorLogMessage h) (q_firstLineLen h).

Definition RequestHeader_zero : RequestHeader :=
  mkReq [] [] [] [] [] [] [] [] (mkKvs [] []) (mkKvs [] []) (mkKvs [] []) [] 0 [] []
    false false false false false false false false 0.

(** [AppendUint] on a number that is known not to be negative, where it does not panic. *)
Definition appendUintNonNeg (dst : bytes) (n : Z) : bytes := default dst (AppendUint dst n).

Module RequestHeader.
(** ** Reset and copy *)

Definition resetSkipNormalize (h : RequestHeader) : RequestHeader :=
  h <| q_contentLengthBytes := [] |> <| q_method := [] |> <| q_requestURI := [] |>
    <| q_proto := [] |> <| q_host := [] |> <| q_contentType := [] |> <| q_userAgent := [] |>
    <| q_mulHeader := [] |> <| q_h := kvs_reset (q_h h) |>
    <| q_trailer := kvs_reset (q_trailer h) |> <| q_cookies := kvs_reset (q_cookies h) |>
    <| q_rawHeaders := [] |> <| q_contentLength := 0%Z |> <| q_firstLineLen := 0 |>
    <| q_noHTTP11 := false |> <| q_connectionClose := false |>
    <| q_cookiesCollected := false |> <| q_contentLengthSeen := false |>.

Definition Reset (h : RequestHeader) : RequestHeader :=
  resetSkipNormalize
    (h <| q_disableSpecialHeader := false |> <| q_disableNormalizing := false |>
       <| q_noDefaultContentType := false |> <| q_secureErrorLogMessage := false |>).

Definition resetFirstLine (h : RequestHeader) : RequestHeader :=
  h <| q_method := [] |> <| q_requestURI := [] |> <| q_proto := [] |> <| q_noHTTP11 := false |>.

(** [append(dst.trailer, h.trailer...)] onto the emptied slice. The copied elements
    share their byte slices with the source; later writes through them are not
    tracked here. *)
Definition appendKvs (dst src : kvs) : kvs :=
  mkKvs (live dst ++ live src) (drop (length (live src)) (spare dst)).

Definition CopyTo (h dst : RequestHeader) : RequestHeader :=
  let dst := Reset dst in
  dst <| q_disableNormalizing := q_disableNormalizing h |>
      <| q_noHTTP11 := q_noHTTP11 h |>
      <| q_connectionClose := q_connectionClose h |>
      <| q_noDefaultContentType := q_noDefaultContentType h |>
      <| q_contentLength := q_contentLength h |>
      <| q_contentLengthBytes := q_contentLengthBytes h |>
      <| q_method := q_method h |>
      <| q_proto := q_proto h |>
      <| q_requestURI := q_requestURI h |>
      <| q_host := q_host h |>
      <| q_contentType := q_contentType h |>
      <| q_userAgent := q_userAgent h |>
      <| q_trailer := appendKvs (q_trailer dst) (q_trailer h) |>
      <| q_h := copyArgs (q_h dst) (q_h h) |>
      <| q_cookies := copyArgs (q_cookies dst) (q_cookies h) |>
      <| q_cookiesCollected := q_cookiesCollected h |>
      <| q_rawHeaders := q_rawHeaders h |>
      <| q_contentLengthSeen := q_contentLengthSeen h |>
      <| q_firstLineLen := q_firstLineLen h |>.

(** ** Fields with their own slot *)

Definition ContentType (h : RequestHeader) : bytes :=
  if q_disableSpecialHeader h then bytes_of (peekArgBytes (q_h h) HeaderContentType)
  else q_contentType h.
Definition SetContentType (h : RequestHeader) (v : bytes) := h <| q_contentType := v |>.
Definition SetContentTypeBytes := SetContentType.

Definition Host (h : RequestHeader) : bytes :=
  if q_disableSpecialHeader h then bytes_of (peekArgBytes (q_h h) HeaderHost) else q_host h.
Definition SetHost (h : RequestHeader) (v : bytes) := h <| q_host := v |>.
Definition SetHostBytes := SetHost.
Definition setHost := SetHost.

Definition UserAgent (h : RequestHeader) : bytes :=
  if q_disableSpecialHeader h then bytes_of (peekArgBytes (q_h h) HeaderUserAgent)
  else q_userAgent h.
Definition SetUserAgent (h : RequestHeader) (v : bytes) := h <| q_userAgent := v |>.
Definition SetUserAgentBytes := SetUserAgent.

Definition Method (h : RequestHeader) : bytes :=
  if bool_decide (length (q_method h) = 0) then MethodGet else q_method h.
Definition SetMethod (h : RequestHeader) (v : bytes) := h <| q_method := v |>.
Definition SetMethodBytes := SetMethod.

Definition Protocol (h : RequestHeader) : bytes :=
  if bool_decide (length (q_proto h) = 0) then strHTTP11 else q_proto h.
Definition SetProtocol (h : RequestHeader) (v : bytes) :=
  h <| q_proto := v |> <| q_noHTTP11 := negb (Equal v strHTTP11) |>.
Definition SetProtocolBytes := SetProtocol.

Definition RequestURI (h : RequestHeader) : bytes :=
  if bool_decide (length (q_requestURI h) = 0) then strSlash else q_requestURI h.
Definition SetRequestURI (h : RequestHeader) (v : bytes) := h <| q_requestURI := v |>.
Definition setRequestURI := SetRequestURI.
Definition SetRequestURIBytes := SetRequestURI.

Definition IsGet (h : RequestHeader) : bool := bool_decide (Method h = MethodGet).
Definition IsPost (h : RequestHeader) : bool := bool_decide (Method h = MethodPost).
Definition IsPut (h : RequestHeader) : bool := bool_decide (Method h = MethodPut).
Definition IsHead (h : RequestHeader) : bool := bool_decide (Method h = MethodHead).
Definition IsDelete (h : RequestHeader) : bool := bool_decide (Method h = MethodDelete).
Definition IsConnect (h : RequestHeader) : bool := bool_decide (Method h = MethodConnect).
Definition IsOptions (h : RequestHeader) : bool := bool_decide (Method h = MethodOptions).
Definition IsTrace (h : RequestHeader) : bool := bool_decide (Method h = MethodTrace).
Definition IsPatch (h : RequestHeader) : bool := bool_decide (Method h = MethodPatch).
Definition IsHTTP11 (h : RequestHeader) : bool := negb (q_noHTTP11 h).
Definition ignoreBody (h : RequestHeader) : bool := IsGet h || IsHead h.

Definition ConnectionClose (h : RequestHeader) : bool := q_connectionClose h.
Definition SetConnectionClose (h : RequestHeader) := h <| q_connectionClose := true |>.
Definition ResetConnectionClose (h : RequestHeader) : RequestHeader :=
  if q_connectionClose h then
    h <| q_connectionClose := false |> <| q_h := delAllArgsBytes (q_h h) strConnection |>
  else h.

Definition realContentLength (h : RequestHeader) : Z := q_contentLength h.
Definition ContentLength (h : RequestHeader) : Z := realContentLength h.
Definition SetContentLength (h : RequestHeader) (n : Z) : RequestHeader :=
  let h := h <| q_contentLength := n |> in
  if (0 <=? n)%Z then
    h <| q_contentLengthBytes := appendUintNonNeg [] n |>
      <| q_h := delAllArgsBytes (q_h h) strTransferEncoding |>
  else
    h <| q_contentLengthBytes := [] |>
      <| q_h := setArgBytes (q_h h) strTransferEncoding strChunked argsHasValue |>.

Definition DisableSpecialHeader (h : RequestHeader) := h <| q_disableSpecialHeader := true |>.
Definition EnableSpecialHeader (h : RequestHeader) := h <| q_disableSpecialHeader := false |>.
Definition DisableNormalizing (h : RequestHeader) := h <| q_disableNormalizing := true |>.
Definition EnableNormalizing (h : RequestHeader) := h <| q_disableNormalizing := false |>.
Definition SetNoDefaultContentType (h : RequestHeader) (b : bool) :=
  h <| q_noDefaultContentType := b |>.

Definition setNonSpecial (h : RequestHeader) (k v : bytes) : RequestHeader :=
  h <| q_h := setArgBytes (q_h h) k v argsHasValue |>.

Definition Referer (h : RequestHeader) : bytes := bytes_of (peekArgBytes (q_h h) strReferer).
Definition SetRefererBytes (h : RequestHeader) (v : bytes) := setNonSpecial h strReferer v.
Definition ContentEncoding (h : RequestHeader) : bytes :=
  bytes_of (peekArgBytes (q_h h) strContentEncoding).
Definition SetContentEncodingBytes (h : RequestHeader) (v : bytes) :=
  setNonSpecial h strContentEncoding v.

(** [None] is the panic of [AppendUint]; the numbers written are never negative. *)
Definition SetByteRange (h : RequestHeader) (startPos endPos : Z) : option RequestHeader :=
  let b := strBytes ++ ["="%byte] in
  '(b, endPos) ← (if (0 <=? startPos)%Z then b ← AppendUint b startPos; Some (b, endPos)
                  else Some (b, int64 (- startPos)));
  let b := b ++ ["-"%byte] in
  b ← (if (0 <=? endPos)%Z then AppendUint b endPos else Some b);
  Some (setNonSpecial (h <| q_bufV := b |>) strRange b).

Definition SetMultipartFormBoundary (h : RequestHeader) (boundary : bytes) : RequestHeader :=
  let b := strMultipartFormData ++ bs "; " ++ strBoundary ++ "="%byte :: boundary in
  SetContentTypeBytes (h <| q_bufV := b |>) b.
Definition SetMultipartFormBoundaryBytes := SetMultipartFormBoundary.
Definition MultipartFormBoundary (h : RequestHeader) : option bytes :=
  multipartBoundary (ContentType h).

(** ** Trailers *)

(** The loop of [AddTrailerBytes] on a non-empty [trailer]; every step drops the
    comma, so [length trailer] bounds the steps. *)
Fixpoint AddTrailerBytes_loop (fuel : nat) (h : RequestHeader) (trailer : bytes)
    (err : option header_error) : RequestHeader * option header_error :=
  match fuel with
  | O => (h, err)
  | S fuel =>
      let i := default (length trailer) (IndexByte trailer ",") in
      let '(k, bufK) := initHeaderK (q_bufK h) (stripSpace (take i trailer))
                          (q_disableNormalizing h) in
      let h := h <| q_bufK := bufK |> in
      let '(h, err) :=
        if isBadTrailer k (q_disableNormalizing h)
        then (h, Some (newHeaderParseErr (bs "bad trailer key") k))
        else (h <| q_trailer := appendArgBytes (q_trailer h) k [] argsNoValue |>, err) in
      if i + 1 <? length trailer
      then AddTrailerBytes_loop fuel h (drop (i + 1) trailer) err
      else (h, err)
  end.

Definition AddTrailerBytes (h : RequestHeader) (trailer : bytes)
    : RequestHeader * option header_error :=
  if 0 <? length trailer then AddTrailerBytes_loop (length trailer) h trailer None else (h, None).
Definition AddTrailer := AddTrailerBytes.

Definition SetTrailerBytes (h : RequestHeader) (trailer : bytes)
    : RequestHeader * option header_error :=
  AddTrailerBytes (h <| q_trailer := kvs_reset (q_trailer h) |>) trailer.
Definition SetTrailer := SetTrailerBytes.

Definition VisitAllTrailer (h : RequestHeader) : list bytes := visitArgsKey (q_trailer h).

(** ** Cookies *)

(** The loop of [collectCookies] over [h.h]: Cookie headers move behind the slice's
    new end. *)
Fixpoint collectCookies_loop (done rest sp : list argsKV) (cookies : kvs) : kvs * kvs :=
  match rest with
  | [] => (mkKvs done sp, cookies)
  | kv :: rest =>
      if caseInsensitiveCompare (key kv) strCookie
      then collectCookies_loop done rest (kv :: sp) (parseRequestCookies cookies (value kv))
      else collectCookies_loop (done ++ [kv]) rest sp cookies
  end.

Definition collectCookies (h : RequestHeader) : RequestHeader :=
  if q_cookiesCollected h then h
  else
    let '(hs, cookies) := collectCookies_loop [] (live (q_h h)) (spare (q_h h)) (q_cookies h) in
    h <| q_h := hs |> <| q_cookies := cookies |> <| q_cookiesCollected := true |>.

Definition SetCookie (h : RequestHeader) (k v : bytes) : RequestHeader :=
  let h := collectCookies h in
  h <| q_cookies := setArg (q_cookies h) k v argsHasValue |>.
Definition SetCookieBytesK := SetCookie.
Definition SetCookieBytesKV := SetCookie.

(** The slot keeps its [noValue] flag. *)
Definition SetCookieBytes (h : RequestHeader) (v : bytes) : RequestHeader :=
  let '(cookies, kv) := allocArg (q_cookies h) in
  h <| q_cookies := commit cookies (mkKV (getCookieKey v) v (noValue kv)) |>.

Definition DelCookie (h : RequestHeader) (k : bytes) : RequestHeader :=
  let h := collectCookies h in h <| q_cookies := delAllArgs (q_cookies h) k |>.
Definition DelCookieBytes := DelCookie.
Definition DelAllCookies (h : RequestHeader) : RequestHeader :=
  let h := collectCookies h in h <| q_cookies := kvs_reset (q_cookies h) |>.

Definition Cookie (h : RequestHeader) (k : bytes) : bytes * RequestHeader :=
  let h := collectCookies h in (bytes_of (peekArgStr (q_cookies h) k), h).
Definition CookieBytes := Cookie.
Definition VisitAllCookie (h : RequestHeader) : list (bytes * bytes) * RequestHeader :=
  let h := collectCookies h in (visitArgs (q_cookies h), h).

(** ** Set, add, delete *)

(** [None] when the key is not special. *)
Definition setSpecialHeader (h : RequestHeader) (k v : bytes) (set : bool)
    : option RequestHeader :=
  match k with
  | [] => None
  | k0 :: _ =>
      if q_disableSpecialHeader h then None
      else
        let c := or20 k0 in
        if bool_decide (c = "c"%byte) then
          if Equal strContentType k then Some (SetContentTypeBytes h v)
          else if Equal strContentLength k then
            Some match parseContentLength v with
                 | (contentLength, None) =>
                     h <| q_contentLength := contentLength |> <| q_contentLengthBytes := v |>
                 | _ => h
                 end
          else if Equal strConnection k then
            Some (if Equal strClose v then SetConnectionClose h
                  else setNonSpecial (ResetConnectionClose h) k v)
          else if Equal strCookie k then
            let h := collectCookies h in
            let h := if set then h <| q_cookies := kvs_reset (q_cookies h) |> else h in
            Some (h <| q_cookies := parseRequestCookies (q_cookies h) v |>)
          else None
        else if bool_decide (c = "t"%byte) then
          if Equal strTransferEncoding k then Some h
          else if Equal strTrailer k then Some (SetTrailerBytes h v).1
          else None
        else if bool_decide (c = "h"%byte) then
          if Equal strHost k then Some (setHost h v) else None
        else if bool_decide (c = "u"%byte) then
          if Equal strUserAgent k then Some (SetUserAgentBytes h v) else None
        else None
  end.

Definition setCanonical (h : RequestHeader) (k v : bytes) : RequestHeader :=
  match setSpecialHeader h k v true with
  | Some h => h
  | None => setNonSpecial h k v
  end.

Definition addCanonical (h : RequestHeader) (k v : bytes) : RequestHeader :=
  match setSpecialHeader h k v false with
  | Some h => h
  | None => h <| q_h := appendArgBytes (q_h h) k v argsHasValue |>
  end.

Definition SetBytesKV (h : RequestHeader) (k v : bytes) : RequestHeader :=
  let '(k, bufK) := initHeaderK (q_bufK h) k (q_disableNormalizing h) in
  let '(v, bufV) := initHeaderV (q_bufV h) v in
  setCanonical (h <| q_bufK := bufK |> <| q_bufV := bufV |>) k v.
Definition Set_ := SetBytesKV.
Definition SetBytesK := SetBytesKV.
Definition SetBytesV := SetBytesKV.

Definition SetCanonical (h : RequestHeader) (k v : bytes) : RequestHeader :=
  let '(v, bufV) := initHeaderV (q_bufV h) v in
  setCanonical (h <| q_bufV := bufV |>) k v.
Definition SetCanonicalKV := SetCanonical.
Definition SetCanonicalNoSpecial := setNonSpecial.
Definition SetCanonicalNoSpecialKV := setNonSpecial.
Definition SetCanonicalNoSpecialK := setNonSpecial.
Definition SetReferer (h : RequestHeader) (v : bytes) := SetBytesK h strReferer v.
Definition SetContentEncoding (h : RequestHeader) (v : bytes) := SetBytesK h strContentEncoding v.

Definition AddBytesKV (h : RequestHeader) (k v : bytes) : RequestHeader :=
  let '(k, bufK) := initHeaderK (q_bufK h) k (q_disableNormalizing h) in
  let '(v, bufV) := initHeaderV (q_bufV h) v in
  addCanonical (h <| q_bufK := bufK |> <| q_bufV := bufV |>) k v.
Definition Add := AddBytesKV.
Definition AddBytesK := AddBytesKV.
Definition AddBytesV := AddBytesKV.

(** The key goes through [AddBytesKV] and is normalized as well. *)
Definition AddCanonical (h : RequestHeader) (k v : bytes) : RequestHeader :=
  let '(v, bufV) := initHeaderV (q_bufV h) v in
  AddBytesKV (h <| q_bufV := bufV |>) k v.

Definition del (h : RequestHeader) (k : bytes) : RequestHeader :=
  let h :=
    if bool_decide (k = HeaderHost) then h <| q_host := [] |>
    else if bool_decide (k = HeaderContentType) then h <| q_contentType := [] |>
    else if bool_decide (k = HeaderUserAgent) then h <| q_userAgent := [] |>
    else if bool_decide (k = HeaderCookie) then h <| q_cookies := kvs_reset (q_cookies h) |>
    else if bool_decide (k = HeaderContentLength)
    then h <| q_contentLength := 0%Z |> <| q_contentLengthBytes := [] |>
    else if bool_decide (k = HeaderConnection) then h <| q_connectionClose := false |>
    else if bool_decide (k = HeaderTrailer) then h <| q_trailer := kvs_reset (q_trailer h) |>
    else h in
  h <| q_h := delAllArgsBytes (q_h h) k |>.
Definition DelCanonical := del.
Definition DelNoSpecialCanonical (h : RequestHeader) (k : bytes) : RequestHeader :=
  h <| q_h := delAllArgsBytes (q_h h) k |>.
Definition DelBytes (h : RequestHeader) (k : bytes) : RequestHeader :=
  let '(k, bufK) := initHeaderK (q_bufK h) k (q_disableNormalizing h) in
  del (h <| q_bufK := bufK |>) k.
Definition Del := DelBytes.

Definition SetTransferEncoding (h : RequestHeader) (v : bytes) : RequestHeader := h.
Definition SetDate (h : RequestHeader) (v : bytes) : RequestHeader := h.

(** ** Lookup *)

(** [Some r] is the result [r, true]. *)
Definition peekSpecial (h : RequestHeader) (k : bytes) : option bytes :=
  match k with
  | [] => None
  | k0 :: _ =>
      if bool_decide (k0 = "H"%byte) then
        if bool_decide (k = HeaderHost) then Some (Host h) else None
      else if bool_decide (k0 = "U"%byte) then
        if bool_decide (k = HeaderUserAgent) then Some (UserAgent h) else None
      else if bool_decide (k0 = "C"%byte) then
        if bool_decide (k = HeaderContentType) then Some (ContentType h)
        else if bool_decide (k = HeaderCookie) then
          if q_cookiesCollected h then Some (appendRequestCookieBytes [] (q_cookies h)) else None
        else if bool_decide (k = HeaderConnection) then
          if ConnectionClose h then Some strClose else None
        else if bool_decide (k = HeaderContentLength) then Some (q_contentLengthBytes h)
        else None
      else if bool_decide (k0 = "T"%byte) then
        if bool_decide (k = HeaderTrailer)
        then Some (appendArgsKeyBytes [] (q_trailer h) strCommaSpace) else None
      else None
  end.

Definition peek (h : RequestHeader) (k : bytes) : bytes :=
  match peekSpecial h k with
  | Some r => r
  | None => bytes_of (peekArgBytes (q_h h) k)
  end.
Definition PeekCanonical := peek.
Definition PeekCanonicalNoSpecial (h : RequestHeader) (k : bytes) : bytes :=
  bytes_of (peekArgBytes (q_h h) k).
Definition PeekCanonicalNoSpecialStr := PeekCanonicalNoSpecial.

Definition PeekBytes (h : RequestHeader) (k : bytes) : bytes * RequestHeader :=
  let '(k, bufK) := initHeaderK (q_bufK h) k (q_disableNormalizing h) in
  (peek h k, h <| q_bufK := bufK |>).
Definition Peek := PeekBytes.

Definition peekAll (h : RequestHeader) (k : bytes) : list bytes * RequestHeader :=
  let r := match peekSpecial h k with
           | Some (x :: r) => [x :: r]
           | _ => peekAllArgBytesToDst [] (q_h h) k
           end in
  (r, h <| q_mulHeader := r |>).
Definition PeekAllCanonical := peekAll.
Definition PeekAllBytes (h : RequestHeader) (k : bytes) : list bytes * RequestHeader :=
  let '(k, bufK) := initHeaderK (q_bufK h) k (q_disableNormalizing h) in
  peekAll (h <| q_bufK := bufK |>) k.
Definition PeekAll := PeekAllBytes.

Definition PeekKeys (h : RequestHeader) : list bytes * RequestHeader :=
  let r := peekArgsKeys [] (q_h h) in (r, h <| q_mulHeader := r |>).
Definition PeekTrailerKeys (h : RequestHeader) : list bytes * RequestHeader :=
  let r := peekArgsKeys [] (q_trailer h) in (r, h <| q_mulHeader := r |>).

Definition ConnectionUpgrade (h : RequestHeader) : bool * RequestHeader :=
  let '(v, h) := Peek h HeaderConnection in (hasHeaderValue v strUpgrade, h).
Definition TransferEncoding (h : RequestHeader) : bytes :=
  match peek h strTransferEncoding with
  | [] => if bool_decide (ContentLength h = (-1)%Z) then strChunked else []
  | t => t
  end.
Definition HasAcceptEncodingBytes (h : RequestHeader) (acceptEncoding : bytes) : bool :=
  HeaderScan.HasAcceptEncodingBytes (peek h strAcceptEncoding) acceptEncoding.
Definition HasAcceptEncoding (h : RequestHeader) (acceptEncoding : bytes) : bool * RequestHeader :=
  (HasAcceptEncodingBytes h acceptEncoding, h <| q_bufV := acceptEncoding |>).

(** The calls of [f], in order. *)
Definition VisitAll (h : RequestHeader) : list (bytes * bytes) * RequestHeader :=
  let opt k v : list (bytes * bytes) := if 0 <? length v then [(k, v)] else [] in
  let first := opt strHost (Host h) ++ opt strContentLength (q_contentLengthBytes h)
               ++ opt strContentType (ContentType h) ++ opt strUserAgent (UserAgent h)
               ++ (if 0 <? length (live (q_trailer h))
                   then [(strTrailer, appendArgsKeyBytes [] (q_trailer h) strCommaSpace)]
                   else []) in
  let h := collectCookies h in
  let '(cookies, h) :=
    if 0 <? length (live (q_cookies h)) then
      let c := appendRequestCookieBytes [] (q_cookies h) in
      ([(strCookie, c)], h <| q_bufV := c |>)
    else ([], h) in
  (first ++ cookies ++ visitArgs (q_h h)
     ++ (if ConnectionClose h then [(strConnection, strClose)] else []), h).
Definition Len (h : RequestHeader) : nat * RequestHeader :=
  let '(l, h) := VisitAll h in (length l, h).

(** ** Printing *)

Definition isTrailerKey (trailer : kvs) (k : bytes) : bool :=
  existsb (λ t, Equal k (key t)) (live trailer).

Definition appendHeaders (dst : bytes) (trailer : kvs) (l : list argsKV) : bytes :=
  foldl (λ dst kv, if isTrailerKey trailer (key kv) then dst
                   else appendHeaderLine dst (key kv) (value kv)) dst l.

Definition AppendBytes (h : RequestHeader) (dst : bytes) : bytes :=
  let dst := dst ++ Method h ++ [" "%byte] ++ RequestURI h ++ [" "%byte] ++ Protocol h ++ strCRLF in
  let special := negb (q_disableSpecialHeader h) in
  let dst := if (0 <? length (UserAgent h)) && special
             then appendHeaderLine dst strUserAgent (UserAgent h) else dst in
  let dst := if (0 <? length (Host h)) && special
             then appendHeaderLine dst strHost (Host h) else dst in
  let ct := ContentType h in
  let ct := if negb (q_noDefaultContentType h) && bool_decide (length ct = 0)
               && negb (ignoreBody h)
            then strDefaultContentType else ct in
  let dst := if (0 <? length ct) && special then appendHeaderLine dst strContentType ct else dst in
  let dst := if (0 <? length (q_contentLengthBytes h)) && special
             then appendHeaderLine dst strContentLength (q_contentLengthBytes h) else dst in
  let dst := appendHeaders dst (q_trailer h) (live (q_h h)) in
  let dst := if 0 <? length (live (q_trailer h))
             then appendHeaderLine dst strTrailer (appendArgsKeyBytes [] (q_trailer h) strCommaSpace)
             else dst in
  let dst := if (0 <? length (live (q_cookies h))) && special
             then appendRequestCookieBytes (dst ++ strCookie ++ strColonSpace) (q_cookies h) ++ strCRLF
             else dst in
  let dst := if ConnectionClose h && special then appendHeaderLine dst strConnection strClose
             else dst in
  dst ++ strCRLF.

Definition Header (h : RequestHeader) : bytes * RequestHeader :=
  let b := AppendBytes h [] in (b, h <| q_bufV := b |>).
Definition String := Header.

Definition TrailerHeader (h : RequestHeader) : bytes * RequestHeader :=
  let b := foldl (λ b t, appendHeaderLine b (key t) (peek h (key t))) [] (live (q_trailer h))
           ++ strCRLF in
  (b, h <| q_bufV := b |>).

Definition RawHeaders (h : RequestHeader) : bytes := q_rawHeaders h.

(** ** Parsing *)

(** The number of bytes read, or an error. The method that was read is not what
    [isValidMethod] is given. *)
Definition parseFirstLine (h : RequestHeader) (buf : bytes)
    : RequestHeader * (nat + header_error) :=
  match nextLine buf with
  | None => (h, inr errNeedMore)
  | Some (firstLine, bNext) =>
      match IndexByte firstLine " " with
      | None | Some 0 => (h, inr (newHeaderParseErr (bs "request method not found") firstLine))
      | Some n1 =>
          let method := take n1 firstLine in
          if negb (isValidMethod (q_method h))
          then (h, inr (newHeaderParseErr (bs "invalid method") method))
          else
            let b := drop (n1 + 1) firstLine in
            match LastIndexByte b " " with
            | None | Some 0 => (h, inr (newHeaderParseErr (bs "request uri not found") firstLine))
            | Some n1 =>
                let protoStr := drop (n1 + 1) b in
                let bad := inr (newHeaderParseErr (bs "unsupported HTTP version") protoStr) in
                let digit i := match protoStr !! i with Some c => isDigit (bz c) | None => false end in
                if bool_decide (length protoStr ≠ length strHTTP11) then (h, bad)
                else if negb (HasPrefix protoStr (take 5 strHTTP11)) then (h, bad)
                else if negb (digit 5) || negb (digit 7) then (h, bad)
                else
                  let n := length buf - length bNext in
                  (h <| q_method := method |>
                     <| q_noHTTP11 := negb (Equal protoStr strHTTP11) |>
                     <| q_proto := protoStr |> <| q_requestURI := take n1 b |>
                     <| q_firstLineLen := n |>, inl n)
            end
      end
  end.

(** One header line of [parseHeaders]. *)
Definition parseHeaderLine (h : RequestHeader) (k v : bytes)
    : RequestHeader * option header_error :=
  let same a := headNameCompare k a (q_disableNormalizing h) in
  let append h := h <| q_h := appendArgBytes (q_h h) k v argsHasValue |> in
  match k with
  | [] => (h, Some EmptyHeaderKeyErr)
  | k0 :: _ =>
      if negb (forallb validHeaderFieldByte k)
      then (h, Some (newHeaderParseErr (bs "invalid header key") k))
      else if negb (forallb validHeaderValueByte v)
      then (h, Some (newHeaderParseErr (bs "invalid header value") v))
      else if q_disableSpecialHeader h then (append h, None)
      else
        let c := or20 k0 in
        if bool_decide (c = "h"%byte) && same strHost then (h <| q_host := v |>, None)
        else if bool_decide (c = "u"%byte) && same strUserAgent
        then (h <| q_userAgent := v |>, None)
        else if bool_decide (c = "c"%byte) && same strContentType
        then (h <| q_contentType := v |>, None)
        else if bool_decide (c = "c"%byte) && same strContentLength then
          if q_contentLengthSeen h then (h, Some MultipleContentLengthErr)
          else
            let h := h <| q_contentLengthSeen := true |> in
            if bool_decide (q_contentLength h = (-1)%Z) then (h, None)
            else match parseContentLength v with
                 | (n, Some _) => (h <| q_contentLength := n |>, Some ContentLengthNotIntErr)
                 | (n, None) =>
                     (h <| q_contentLength := n |> <| q_contentLengthBytes := v |>, None)
                 end
        else if bool_decide (c = "c"%byte) && same strConnection then
          if Equal v strClose then (h <| q_connectionClose := true |>, None)
          else (append (h <| q_connectionClose := false |>), None)
        else if bool_decide (c = "t"%byte) && same strTransferEncoding then
          if headNameCompare v strChunked (q_disableSpecialHeader h) then
            (h <| q_contentLength := (-1)%Z |>
               <| q_h := setArgBytes (q_h h) strTransferEncoding strChunked argsHasValue |>, None)
          else (h, Some (unsupportedTEError v))
        else if bool_decide (c = "t"%byte) && same strTrailer then SetTrailerBytes h v
        else (append h, None)
  end.

Fixpoint parseHeaders_loop (fuel : nat) (h : RequestHeader) (s : headerScanner)
    : RequestHeader * headerScanner * option header_error :=
  match fuel with
  | O => (h, s, Some errNeedMore)
  | S fuel =>
      match next s with
      | (false, s) => (h, s, s_err s)
      | (true, s) =>
          match parseHeaderLine h (s_key s) (s_value s) with
          | (h, Some e) => (h, s, Some e)
          | (h, None) => parseHeaders_loop fuel h s
          end
      end
  end.

(** The header, the edited buffer, and the number of bytes read or an error. Every
    line takes a byte of the slice, so [length buf] bounds the lines. *)
Definition parseHeaders (h : RequestHeader) (buf : bytes)
    : RequestHeader * bytes * (nat + header_error) :=
  let h := h <| q_contentLength := 0%Z |> <| q_contentLengthSeen := false |> in
  let '(h, s, err) :=
    parseHeaders_loop (S (length buf)) h (newScanner buf (q_disableNormalizing h)) in
  match err with
  | Some e => (h, s_buf s, inr e)
  | None =>
      let h := if (q_contentLength h <? 0)%Z then h <| q_contentLengthBytes := [] |> else h in
      let h := if q_noHTTP11 h && negb (q_connectionClose h) then
                 let v := bytes_of (peekArgBytes (q_h h) strConnection) in
                 h <| q_connectionClose := negb (hasHeaderValue v strKeepAlive) |>
               else h in
      (h, s_buf s, inl (Z.to_nat (s_hLen s)))
  end.

Definition parse (h : RequestHeader) (buf : bytes)
    : RequestHeader * bytes * (nat + header_error) :=
  let '(h, first) :=
    if bool_decide (q_firstLineLen h = 0) then parseFirstLine h buf
    else (h, inl (q_firstLineLen h)) in
  match first with
  | inr e => (h, buf, inr e)
  | inl m =>
      let '(raw, _, err) := readRawHeaders [] (drop m buf) in
      let h := h <| q_rawHeaders := raw |> in
      match err with
      | Some e => (h, buf, inr e)
      | None =>
          let '(h, buf', res) := parseHeaders h (drop m buf) in
          (h, take m buf ++ buf',
           match res with inl n => inl (m + n) | inr e => inr e end)
      end
  end.

(** ** Reading *)

Definition eofErr (e eof : header_error) : header_error :=
  if bool_decide (e = headerIO EOF) then eof else e.

(** The bytes peeked are at least one, so [mustPeekBuffered] does not panic. *)
Definition tryRead (h : RequestHeader) (r : Reader) (n : nat)
    : RequestHeader * Reader * option header_error :=
  let '(b, err, r) := Bufio.Peek r n in
  if bool_decide (n ≠ length b) then
    (h, r, (λ e, eofErr (headerIO e) ErrUnexpectedHeaderEOF) <$> err)
  else
    let '(h, buf, res) := parse h (r_buf r) in
    let r := r <| r_buf := buf |> in
    match res with
    | inr e => (h, r, Some e)
    | inl headersLen => (h, Discard r headersLen, None)
    end.

(** A further round needs one byte more than is buffered, and the buffer holds
    [r_size r] bytes. *)
Fixpoint readLoop_from (fuel : nat) (h : RequestHeader) (r : Reader) (n : nat)
    (waitForMore : bool) : RequestHeader * Reader * option header_error :=
  match fuel with
  | O => (h, r, Some errNeedMore)
  | S fuel =>
      match tryRead h r n with
      | (h, r, None) => (h, r, None)
      | (h, r, Some e) =>
          if negb waitForMore || negb (bool_decide (e = errNeedMore)) then
            (h, r, Some (if bool_decide (e = headerIO ErrBufferFull)
                         then HeaderBufferSmallErr else e))
          else readLoop_from fuel h r (Buffered r + 1) waitForMore
      end
  end.

Definition readLoop (h : RequestHeader) (r : Reader) (waitForMore prevMethodIsPost dontReset : bool)
    : RequestHeader * Reader * option header_error :=
  let r := if prevMethodIsPost then
             let '(p, _, r) := Bufio.Peek r 4 in Discard r (numLeadingCRorLF p)
           else r in
  let h := if dontReset then h else resetSkipNormalize h in
  readLoop_from (S (S (r_size r))) h r 1 waitForMore.

Definition Read (h : RequestHeader) (r : Reader)
    : RequestHeader * Reader * option header_error := readLoop h r true false false.

(** ** Trailers on the wire *)

Fixpoint parseTrailer_loop (fuel : nat) (h : RequestHeader) (s : headerScanner)
    : RequestHeader * headerScanner * option header_error :=
  match fuel with
  | O => (h, s, Some errNeedMore)
  | S fuel =>
      match next s with
      | (false, s) => (h, s, s_err s)
      | (true, s) =>
          if 0 <? length (s_key s) then
            if existsb isSpTab (s_key s)
            then (h, s, Some (trailerKeyErr (bs "invalid trailer key") (s_key s)))
            else parseTrailer_loop fuel
                   (h <| q_h := appendArgBytes (q_h h) (s_key s) (s_value s) argsHasValue |>) s
          else parseTrailer_loop fuel h s
      end
  end.

Definition parseTrailer (h : RequestHeader) (buf : bytes)
    : RequestHeader * bytes * (nat + header_error) :=
  let '(h, s, err) :=
    parseTrailer_loop (S (length buf)) h (newScanner buf (q_disableNormalizing h)) in
  match err with
  | Some e => (h, s_buf s, inr e)
  | None => (h, s_buf s, inl (Z.to_nat (s_hLen s)))
  end.

Definition tryReadTrailer (h : RequestHeader) (r : Reader) (n : nat)
    : RequestHeader * Reader * option header_error :=
  let '(b, err, r) := Bufio.Peek r n in
  if bool_decide (n ≠ length b) then
    (h, r, (λ e, if bool_decide (e = ErrBufferFull) then TrailerHeaderBufferSmallErr
                 else eofErr (headerIO e) ErrUnexpectedTrailerEOF) <$> err)
  else
    let '(h, buf, res) := parseTrailer h (r_buf r) in
    let r := r <| r_buf := buf |> in
    match res with
    | inr e => (h, r, Some e)
    | inl headersLen => (h, Discard r headersLen, None)
    end.

Fixpoint ReadTrailer_from (fuel : nat) (h : RequestHeader) (r : Reader) (n : nat)
    : RequestHeader * Reader * option header_error :=
  match fuel with
  | O => (h, r, Some errNeedMore)
  | S fuel =>
      match tryReadTrailer h r n with
      | (h, r, None) => (h, r, None)
      | (h, r, Some e) =>
          if bool_decide (e = errNeedMore) then ReadTrailer_from fuel h r (Buffered r + 1)
          else (h, r, Some e)
      end
  end.

Definition ReadTrailer (h : RequestHeader) (r : Reader)
    : RequestHeader * Reader * option header_error :=
  let '(buf, err, r) := Bufio.Peek r 2 in
  if bool_decide (buf = strCRLF) then (h, Discard r 2, headerIO <$> err)
  else if length buf <? 2 then
    (h, r, (λ e, eofErr (headerIO e) ErrUnexpectedTrailerEOF) <$> err)
  else ReadTrailer_from (S (S (r_size r))) h r 1.

(** The scan edits [rawHeaders] in place. *)
Fixpoint VisitAllInOrder_loop (fuel : nat) (s : headerScanner) : list (bytes * bytes) * headerScanner :=
  match fuel with
  | O => ([], s)
  | S fuel =>
      match next s with
      | (false, s) => ([], s)
      | (true, s) =>
          let '(l, s') := VisitAllInOrder_loop fuel s in
          ((if 0 <? length (s_key s) then [(s_key s, s_value s)] else []) ++ l, s')
      end
  end.

Definition VisitAllInOrder (h : RequestHeader) : list (bytes * bytes) * RequestHeader :=
  let '(l, s) := VisitAllInOrder_loop (S (length (q_rawHeaders h)))
                   (newScanner (q_rawHeaders h) (q_disableNormalizing h)) in
  (l, h <| q_rawHeaders := s_buf s |>).
End RequestHeader.
