(* ===== verification/RespHeader.v ===== *)
(** header.go, the response half: [ResponseHeader], its setters and getters, the
    parser of a response head, the reading loop, and the printer. *)

From Stdlib Require Import ZArith Strings.Byte.
From stdpp Require Import prelude strings list.
From S2P Require Import Prelude Tables Bufio Bytesconv Args Uri Cookie Headers HeaderScan ReqHeader.

Record ResponseHeader := mkResp {
  p_statusMessage : bytes;
  p_protocol : bytes;
  p_contentLengthBytes : bytes;
  p_contentType : bytes;
  p_contentEncoding : bytes;
  p_server : bytes;
  p_mulHeader : list bytes;
  p_h : kvs;
  p_trailer : kvs;
  p_cookies : kvs;
  p_bufK : bytes;
  p_bufV : bytes;
  p_statusCode : Z;
  p_contentLength : Z;
  p_noHTTP11 : bool;
  p_connectionClose : bool;
  p_disableNormalizing : bool;
  p_noDefaultContentType : bool;
  p_secureErrorLogMessage : bool;
  p_headMethod : bool;
  p_noDefaultDate : bool
}.

#[global] Instance ResponseHeader_etable : Etable ResponseHeader := λ h,
  mkResp (p_statusMessage h) (p_protocol h) (p_contentLengthBytes h) (p_contentType h)
    (p_contentEncoding h) (p_server h) (p_mulHeader h) (p_h h) (p_trailer h) (p_cookies h)
    (p_bufK h) (p_bufV h) (p_statusCode h) (p_contentLength h) (p_noHTTP11 h)
    (p_connectionClose h) (p_disableNormalizing h) (p_noDefaultContentType h)
    (p_secureErrorLogMessage h) (p_headMethod h) (p_noDefaultDate h).

Definition ResponseHeader_zero : ResponseHeader :=
  mkResp [] [] [] [] [] [] [] (mkKvs [] []) (mkKvs [] []) (mkKvs [] []) [] [] 0 0
    false false false false false false false.

Definition bodyNotAllowedForStatus (statusCode : Z) : bool :=
  if (statusCode <? 100)%Z || (statusCode =? StatusOK)%Z then false
  else (statusCode =? StatusNotModified)%Z || (statusCode =? StatusNoContent)%Z
       || (statusCode <? 200)%Z.

Definition suppressedHeaders304 : list bytes :=
  [bs "Content-Type"; bs "Content-Length"; bs "Transfer-Encoding"].
Definition suppressedHeadersNoBody : list bytes := [bs "Content-Length"; bs "Transfer-Encoding"].

Definition suppressedHeaders (status : Z) : list bytes :=
  if (status =? 304)%Z then suppressedHeaders304
  else if bodyNotAllowedForStatus status then suppressedHeadersNoBody
  else [].

Module ResponseHeader.
(** ** Reset and copy *)

Definition resetSkipNormalize (h : ResponseHeader) : ResponseHeader :=
  h <| p_statusMessage := [] |> <| p_protocol := [] |> <| p_contentLengthBytes := [] |>
    <| p_contentType := [] |> <| p_contentEncoding := [] |> <| p_server := [] |>
    <| p_mulHeader := [] |> <| p_h := kvs_reset (p_h h) |>
    <| p_trailer := kvs_reset (p_trailer h) |> <| p_cookies := kvs_reset (p_cookies h) |>
    <| p_statusCode := 0%Z |> <| p_contentLength := 0%Z |>
    <| p_noHTTP11 := false |> <| p_connectionClose := false |>.

Definition Reset (h : ResponseHeader) : ResponseHeader :=
  resetSkipNormalize
    (h <| p_disableNormalizing := false |> <| p_noDefaultContentType := false |>
       <| p_secureErrorLogMessage := false |> <| p_headMethod := false |>
       <| p_noDefaultDate := false |>).

Definition CopyTo (h dst : ResponseHeader) : ResponseHeader :=
  let dst := Reset dst in
  dst <| p_disableNormalizing := p_disableNormalizing h |>
      <| p_noHTTP11 := p_noHTTP11 h |>
      <| p_connectionClose := p_connectionClose h |>
      <| p_noDefaultContentType := p_noDefaultContentType h |>
      <| p_noDefaultDate := p_noDefaultDate h |>
      <| p_statusCode := p_statusCode h |>
      <| p_statusMessage := p_statusMessage h |>
      <| p_protocol := p_protocol h |>
      <| p_contentLength := p_contentLength h |>
      <| p_contentLengthBytes := p_contentLengthBytes h |>
      <| p_contentType := p_contentType h |>
      <| p_contentEncoding := p_contentEncoding h |>
      <| p_server := p_server h |>
      <| p_h := copyArgs (p_h dst) (p_h h) |>
      <| p_cookies := copyArgs (p_cookies dst) (p_cookies h) |>
      <| p_trailer := copyArgs (p_trailer dst) (p_trailer h) |>.

(** ** Fields with their own slot *)

Definition StatusCode (h : ResponseHeader) : Z := p_statusCode h.
Definition SetStatusCode (h : ResponseHeader) (n : Z) := h <| p_statusCode := n |>.
Definition StatusMessage (h : ResponseHeader) : bytes := p_statusMessage h.
Definition SetStatusMessage (h : ResponseHeader) (v : bytes) := h <| p_statusMessage := v |>.
Definition Protocol (h : ResponseHeader) : bytes :=
  if 0 <? length (p_protocol h) then p_protocol h else strHTTP11.
Definition SetProtocol (h : ResponseHeader) (v : bytes) := h <| p_protocol := v |>.
Definition IsHTTP11 (h : ResponseHeader) : bool := negb (p_noHTTP11 h).

Definition ConnectionClose (h : ResponseHeader) : bool := p_connectionClose h.
Definition SetConnectionClose (h : ResponseHeader) := h <| p_connectionClose := true |>.
Definition ResetConnectionClose (h : ResponseHeader) : ResponseHeader :=
  if p_connectionClose h then
    h <| p_connectionClose := false |> <| p_h := delAllArgsBytes (p_h h) strConnection |>
  else h.

Definition ContentLength (h : ResponseHeader) : Z := p_contentLength h.
Definition SetContentLength (h : ResponseHeader) (n : Z) := h <| p_contentLength := n |>.
Definition mustSkipContentLength (h : ResponseHeader) : bool :=
  let statusCode := StatusCode h in
  if (statusCode <? 100)%Z || (statusCode =? StatusOK)%Z then false
  else (statusCode =? StatusNotModified)%Z || (statusCode =? StatusNoContent)%Z
       || (statusCode <? 200)%Z.

Definition ContentType (h : ResponseHeader) : bytes :=
  if negb (p_noDefaultContentType h) && bool_decide (length (p_contentType h) = 0)
  then defaultContentType else p_contentType h.
Definition SetContentType (h : ResponseHeader) (v : bytes) := h <| p_contentType := v |>.
Definition SetContentTypeBytes := SetContentType.
Definition ContentEncoding (h : ResponseHeader) : bytes := p_contentEncoding h.
Definition SetContentEncoding (h : ResponseHeader) (v : bytes) := h <| p_contentEncoding := v |>.
Definition SetContentEncodingBytes := SetContentEncoding.
Definition Server (h : ResponseHeader) : bytes := p_server h.
Definition SetServer (h : ResponseHeader) (v : bytes) := h <| p_server := v |>.
Definition SetServerBytes := SetServer.

Definition DisableNormalizing (h : ResponseHeader) := h <| p_disableNormalizing := true |>.
Definition EnableNormalizing (h : ResponseHeader) := h <| p_disableNormalizing := false |>.
Definition SetNoDefaultContentType (h : ResponseHeader) (b : bool) :=
  h <| p_noDefaultContentType := b |>.

Definition setNonSpecial (h : ResponseHeader) (k v : bytes) : ResponseHeader :=
  h <| p_h := setArgBytes (p_h h) k v argsHasValue |>.

(** [None] is the panic of [AppendUint] on a negative number. *)
Definition SetContentRange (h : ResponseHeader) (startPos endPos contentLength : Z)
    : option ResponseHeader :=
  b ← AppendUint (strBytes ++ [" "%byte]) startPos;
  b ← AppendUint (b ++ ["-"%byte]) endPos;
  b ← AppendUint (b ++ ["/"%byte]) contentLength;
  Some (setNonSpecial (h <| p_bufV := b |>) strContentRange b).

Definition SetLastModified `{GoTime} (h : ResponseHeader) (t : Time) : ResponseHeader :=
  let b := AppendHTTPDate [] t in setNonSpecial (h <| p_bufV := b |>) strLastModified b.

(** ** Trailers *)

(** The key is checked before it is normalized. *)
Fixpoint AddTrailerBytes_loop (fuel : nat) (h : ResponseHeader) (trailer : bytes)
    (err : option header_error) : ResponseHeader * option header_error :=
  match fuel with
  | O => (h, err)
  | S fuel =>
      let i := default (length trailer) (IndexByte trailer ",") in
      let k := stripSpace (take i trailer) in
      let '(h, err) :=
        if isBadTrailer k (p_disableNormalizing h) then (h, Some ErrBadTrailer)
        else
          let '(k, bufK) := initHeaderK (p_bufK h) k (p_disableNormalizing h) in
          (h <| p_bufK := bufK |>
             <| p_trailer := appendArgBytes (p_trailer h) k [] argsNoValue |>, err) in
      if i + 1 <? length trailer
      then AddTrailerBytes_loop fuel h (drop (i + 1) trailer) err
      else (h, err)
  end.

Definition AddTrailerBytes (h : ResponseHeader) (trailer : bytes)
    : ResponseHeader * option header_error :=
  if 0 <? length trailer then AddTrailerBytes_loop (length trailer) h trailer None else (h, None).
Definition AddTrailer := AddTrailerBytes.

Definition SetTrailerBytes (h : ResponseHeader) (trailer : bytes)
    : ResponseHeader * option header_error :=
  AddTrailerBytes (h <| p_trailer := kvs_reset (p_trailer h) |>) trailer.
Definition SetTrailer := SetTrailerBytes.

Definition VisitAllTrailer (h : ResponseHeader) : list bytes := visitArgsKey (p_trailer h).

(** ** Cookies *)

Definition PeekCookie (h : ResponseHeader) (k : bytes) : bytes :=
  bytes_of (peekArgStr (p_cookies h) k).
Definition DelAllCookies (h : ResponseHeader) := h <| p_cookies := kvs_reset (p_cookies h) |>.
Definition DelCookie (h : ResponseHeader) (k : bytes) :=
  h <| p_cookies := delAllArgs (p_cookies h) k |>.
Definition DelCookieBytes := DelCookie.
Definition VisitAllCookie (h : ResponseHeader) : list (bytes * bytes) := visitArgs (p_cookies h).

(** The slot keeps its [noValue] flag. *)
Definition SetCookieBytes (h : ResponseHeader) (v : bytes) : ResponseHeader :=
  let '(cookies, kv) := allocArg (p_cookies h) in
  h <| p_cookies := commit cookies (mkKV (getCookieKey v) v (noValue kv)) |>.

Definition SetCookie `{GoTime} (h : ResponseHeader) (c : Cookie)
    : option (ResponseHeader * Cookie) :=
  '(v, c) ← Cookie.Cookie_ c;
  Some (h <| p_cookies := setArgBytes (p_cookies h) (c_key c) v argsHasValue |>, c).

(** The cookie comes from a pool, reset. *)
Definition DelClientCookie `{GoTime} (h : ResponseHeader) (k : bytes) : option ResponseHeader :=
  let h := DelCookie h k in
  let c := Cookie.SetExpire (Cookie.SetKey Cookie_zero k) CookieExpireDelete in
  '(h, _) ← SetCookie h c; Some h.
Definition DelClientCookieBytes `{GoTime} := DelClientCookie.

(** The error of [ParseBytes] is dropped. *)
Definition Cookie `{GoTime} (h : ResponseHeader) (c : Cookie) : bool * Cookie :=
  match peekArgBytes (p_cookies h) (c_key c) with
  | None => (false, c)
  | Some v => (true, (Cookie.ParseBytes c v).1)
  end.

(** ** Set, add, delete *)

(** [None] when the key is not special. *)
Definition setSpecialHeader (h : ResponseHeader) (k v : bytes) (set : bool)
    : option ResponseHeader :=
  match k with
  | [] => None
  | k0 :: _ =>
      let c := or20 k0 in
      if bool_decide (c = "c"%byte) then
        if Equal strContentType k then Some (SetContentTypeBytes h v)
        else if Equal strContentLength k then
          Some match parseContentLength v with
               | (contentLength, None) =>
                   h <| p_contentLength := contentLength |> <| p_contentLengthBytes := v |>
               | _ => h
               end
        else if Equal strContentEncoding k then Some (SetContentEncodingBytes h v)
        else if Equal strConnection k then
          Some (if Equal strClose v then SetConnectionClose h
                else setNonSpecial (ResetConnectionClose h) k v)
        else None
      else if bool_decide (c = "s"%byte) then
        if Equal strServer k then Some (SetServerBytes h v)
        else if Equal strSetCookie k then
          Some (SetCookieBytes (if set then DelAllCookies h else h) v)
        else None
      else if bool_decide (c = "t"%byte) then
        if Equal strTransferEncoding k then Some h
        else if Equal strTrailer k then Some (SetTrailerBytes h v).1
        else None
      else if bool_decide (c = "d"%byte) then
        if Equal strDate k then Some h else None
      else None
  end.

Definition setCanonical (h : ResponseHeader) (k v : bytes) : ResponseHeader :=
  match setSpecialHeader h k v true with
  | Some h => h
  | None => setNonSpecial h k v
  end.

Definition addCanonical (h : ResponseHeader) (k v : bytes) : ResponseHeader :=
  match setSpecialHeader h k v false with
  | Some h => h
  | None => h <| p_h := appendArgBytes (p_h h) k v argsHasValue |>
  end.

Definition SetBytesKV (h : ResponseHeader) (k v : bytes) : ResponseHeader :=
  let '(k, bufK) := initHeaderK (p_bufK h) k (p_disableNormalizing h) in
  let '(v, bufV) := initHeaderV (p_bufV h) v in
  setCanonical (h <| p_bufK := bufK |> <| p_bufV := bufV |>) k v.
Definition Set_ := SetBytesKV.
Definition SetBytesK := SetBytesKV.
Definition SetBytesV := SetBytesKV.

Definition SetCanonical (h : ResponseHeader) (k v : bytes) : ResponseHeader :=
  let '(v, bufV) := initHeaderV (p_bufV h) v in
  setCanonical (h <| p_bufV := bufV |>) k v.

Definition AddBytesKV (h : ResponseHeader) (k v : bytes) : ResponseHeader :=
  let '(k, bufK) := initHeaderK (p_bufK h) k (p_disableNormalizing h) in
  let '(v, bufV) := initHeaderV (p_bufV h) v in
  addCanonical (h <| p_bufK := bufK |> <| p_bufV := bufV |>) k v.
Definition Add := AddBytesKV.
Definition AddBytesK := AddBytesKV.
Definition AddBytesV := AddBytesKV.
Definition AddCanonical (h : ResponseHeader) (k v : bytes) : ResponseHeader :=
  let '(v, bufV) := initHeaderV (p_bufV h) v in
  addCanonical (h <| p_bufV := bufV |>) k v.

Definition del (h : ResponseHeader) (k : bytes) : ResponseHeader :=
  let h :=
    if bool_decide (k = HeaderContentType) then h <| p_contentType := [] |>
    else if bool_decide (k = HeaderContentEncoding) then h <| p_contentEncoding := [] |>
    else if bool_decide (k = HeaderServer) then h <| p_server := [] |>
    else if bool_decide (k = HeaderSetCookie) then h <| p_cookies := kvs_reset (p_cookies h) |>
    else if bool_decide (k = HeaderContentLength)
    then h <| p_contentLength := (-2)%Z |> <| p_contentLengthBytes := [] |>
    else if bool_decide (k = HeaderConnection) then h <| p_connectionClose := false |>
    else if bool_decide (k = HeaderTrailer) then h <| p_trailer := kvs_reset (p_trailer h) |>
    else h in
  h <| p_h := delAllArgsBytes (p_h h) k |>.
Definition DelCanonical := del.
Definition DelNoSpecialCanonical (h : ResponseHeader) (k : bytes) : ResponseHeader :=
  h <| p_h := delAllArgsBytes (p_h h) k |>.

(** The normalized key is kept in [bufV]. *)
Definition DelBytes (h : ResponseHeader) (k : bytes) : ResponseHeader :=
  let '(k, bufV) := initHeaderK (p_bufV h) k (p_disableNormalizing h) in
  del (h <| p_bufV := bufV |>) k.
Definition Del := DelBytes.

Definition SetTransferEncoding (h : ResponseHeader) (v : bytes) : ResponseHeader := h.
Definition SetDate (h : ResponseHeader) (v : bytes) : ResponseHeader := h.

(** ** Lookup *)

(** [Some r] is the result [r, true]; the digits of a positive length are cached. *)
Definition peekSpecial (h : ResponseHeader) (k : bytes) : option bytes * ResponseHeader :=
  match k with
  | [] => (None, h)
  | k0 :: _ =>
      if bool_decide (k0 = "C"%byte) then
        if bool_decide (k = HeaderContentType) then (Some (ContentType h), h)
        else if bool_decide (k = HeaderContentEncoding) then (Some (ContentEncoding h), h)
        else if bool_decide (k = HeaderConnection) then
          if ConnectionClose h then (Some strClose, h) else (None, h)
        else if bool_decide (k = HeaderContentLength) then
          if (0 <? p_contentLength h)%Z then
            let b := appendUintNonNeg [] (p_contentLength h) in
            (Some b, h <| p_contentLengthBytes := b |>)
          else (Some [], h)
        else (None, h)
      else if bool_decide (k0 = "S"%byte) then
        if bool_decide (k = HeaderServer) then (Some (Server h), h)
        else if bool_decide (k = HeaderSetCookie)
        then (Some (appendResponseCookieBytes [] (p_cookies h)), h)
        else (None, h)
      else if bool_decide (k0 = "T"%byte) then
        if bool_decide (k = HeaderTrailer)
        then (Some (appendArgsKeyBytes [] (p_trailer h) strCommaSpace), h)
        else if bool_decide (k = HeaderTransferEncoding)
        then (Some (if bool_decide (p_contentLength h = (-1)%Z) then strChunked else []), h)
        else (None, h)
      else (None, h)
  end.

Definition peek (h : ResponseHeader) (k : bytes) : bytes * ResponseHeader :=
  match peekSpecial h k with
  | (Some r, h) => (r, h)
  | (None, h) => (bytes_of (peekArgBytes (p_h h) k), h)
  end.
Definition PeeKCanonical := peek.
Definition PeeKCanonicalK := peek.
Definition PeekCanonicalNoSpecial (h : ResponseHeader) (k : bytes) : bytes :=
  bytes_of (peekArgBytes (p_h h) k).
Definition PeekCanonicalNoSpecialK := PeekCanonicalNoSpecial.

Definition PeekBytes (h : ResponseHeader) (k : bytes) : bytes * ResponseHeader :=
  let '(k, bufK) := initHeaderK (p_bufK h) k (p_disableNormalizing h) in
  peek (h <| p_bufK := bufK |>) k.
Definition Peek := PeekBytes.

Definition peekAll (h : ResponseHeader) (k : bytes) : list bytes * ResponseHeader :=
  let '(r, h) := peekSpecial h k in
  let r := match r with
           | Some (x :: r) => [x :: r]
           | _ => peekAllArgBytesToDst [] (p_h h) k
           end in
  (r, h <| p_mulHeader := r |>).
Definition PeekAllCanonical := peekAll.
Definition PeekAllBytes (h : ResponseHeader) (k : bytes) : list bytes * ResponseHeader :=
  let '(k, bufK) := initHeaderK (p_bufK h) k (p_disableNormalizing h) in
  peekAll (h <| p_bufK := bufK |>) k.
Definition PeekAll := PeekAllBytes.

Definition PeekKeys (h : ResponseHeader) : list bytes * ResponseHeader :=
  let r := peekArgsKeys [] (p_h h) in (r, h <| p_mulHeader := r |>).
Definition PeekTrailerKeys (h : ResponseHeader) : list bytes * ResponseHeader :=
  let r := peekArgsKeys [] (p_trailer h) in (r, h <| p_mulHeader := r |>).

Definition ConnectionUpgrade (h : ResponseHeader) : bool * ResponseHeader :=
  let '(v, h) := Peek h HeaderConnection in (hasHeaderValue v strUpgrade, h).

Definition Charset (h : ResponseHeader) : bytes * ResponseHeader :=
  let '(ct, h) := Peek h HeaderContentType in
  (if bool_decide (length ct = 0) then CharsetUTF8
   else match LastIndexByte ct "=" with
        | None => CharsetUTF8
        | Some i => drop (i + 1) ct
        end, h).

Definition addVaryBytes (h : ResponseHeader) (v : bytes) : ResponseHeader :=
  let '(old, h) := peek h strVary in
  if bool_decide (length old = 0) then SetBytesV h HeaderVary v
  else if negb (Contains old v) then SetBytesV h HeaderVary (old ++ ","%byte :: v)
  else h.

(** The calls of [f], in order. *)
Definition VisitAll (h : ResponseHeader) : list (bytes * bytes) :=
  let opt k v : list (bytes * bytes) := if 0 <? length v then [(k, v)] else [] in
  opt strContentLength (p_contentLengthBytes h) ++ opt strContentType (ContentType h)
  ++ opt strContentEncoding (ContentEncoding h) ++ opt strServer (Server h)
  ++ ((λ kv, (strSetCookie, kv.2)) <$> visitArgs (p_cookies h))
  ++ (if 0 <? length (live (p_trailer h))
      then [(strTrailer, appendArgsKeyBytes [] (p_trailer h) strCommaSpace)] else [])
  ++ visitArgs (p_h h)
  ++ (if ConnectionClose h then [(strConnection, strClose)] else []).
Definition Len (h : ResponseHeader) : nat := length (VisitAll h).

(** ** Printing *)

Definition appendStatusLine (h : ResponseHeader) (dst : bytes) : bytes :=
  let statusCode := if (StatusCode h <=? 0)%Z then StatusOK else StatusCode h in
  formatStatusLine dst (Protocol h) statusCode (StatusMessage h).

Definition appendHeaders (dst : bytes) (trailer : list argsKV) (l : list argsKV) : bytes :=
  foldl (λ dst kv, if existsb (λ t, Equal (key kv) (key t)) trailer then dst
                   else appendHeaderLine dst (key kv) (value kv)) dst l.

(** [compressed] says that the variadic argument is given; [serverDate] is the
    current value of the global clock's text. [dst] is emptied. *)
Definition AppendBytes (h : ResponseHeader) (serverDate dst : bytes) (compressed : bool)
    : bytes * ResponseHeader :=
  let statusCode := StatusCode h in
  let cL := ContentLength h in
  let dst := appendStatusLine h [] in
  let h := DelNoSpecialCanonical h strTransferEncoding in
  let dst := if bool_decide (length (Server h) ≠ 0)
             then appendHeaderLine dst strServer (Server h) else dst in
  let dst := if negb (p_noDefaultDate h) then appendHeaderLine dst strDate serverDate else dst in
  let '(dst, h, trailer) :=
    if negb (bodyNotAllowedForStatus statusCode) then
      let ct := ContentType h in
      let dst := if (0 <? length ct)
                    && ((0 <? length (p_contentType h)) || negb (bool_decide (cL = 0%Z)))
                 then appendHeaderLine dst strContentType ct else dst in
      let dst := if 0 <? length (ContentEncoding h)
                 then appendHeaderLine dst strContentEncoding (ContentEncoding h) else dst in
      if (0 <? cL)%Z then
        if negb compressed then
          let b := appendUintNonNeg [] cL in
          (appendHeaderLine dst strContentLength b, h <| p_contentLengthBytes := b |>, [])
        else (dst, h, [])
      else if negb (p_headMethod h) then
        if bool_decide (cL = 0%Z) then (appendHeaderLine dst strContentLength (bs "0"), h, [])
        else if bool_decide (cL = (-1)%Z)
        then (appendHeaderLine dst strTransferEncoding strChunked, h, live (p_trailer h))
        else (dst, SetConnectionClose h, [])
      else (dst, h, [])
    else (dst, h, []) in
  let dst := appendHeaders dst trailer (live (p_h h)) in
  let dst := if bool_decide (length trailer = 0) then dst
             else appendHeaderLine dst strTrailer
                    (appendArgsKeyBytes [] (mkKvs trailer []) strCommaSpace) in
  let dst := foldl (λ dst kv, appendHeaderLine dst strSetCookie (value kv)) dst
               (live (p_cookies h)) in
  let dst := if ConnectionClose h then appendHeaderLine dst strConnection strClose else dst in
  (if negb compressed then dst ++ strCRLF else dst, h).

Definition Header (h : ResponseHeader) (serverDate : bytes) (compressed : bool)
    : bytes * ResponseHeader :=
  let '(b, h) := AppendBytes h serverDate [] compressed in (b, h <| p_bufV := b |>).
Definition String (h : ResponseHeader) (serverDate : bytes) := Header h serverDate false.

Definition TrailerHeader (h : ResponseHeader) : bytes * ResponseHeader :=
  let '(b, h) := foldl (λ '(b, h) t,
                   let '(v, h) := peek h (key t) in (appendHeaderLine b (key t) v, h))
                   ([], h) (live (p_trailer h)) in
  let b := b ++ strCRLF in (b, h <| p_bufV := b |>).

(** ** Parsing *)

Definition parseFirstLine (h : ResponseHeader) (buf : bytes)
    : ResponseHeader * (nat + header_error) :=
  match nextLine buf with
  | None => (h, inr errNeedMore)
  | Some (b, bNext) =>
      match IndexByte b " " with
      | None | Some 0 => (h, inr ErrMalformedResponse)
      | Some n1 =>
          let h := h <| p_noHTTP11 := negb (Equal (take n1 b) strHTTP11) |> in
          let b := drop (n1 + 1) b in
          let '(statusCode, n1, err) := parseUintBuf b in
          let h := h <| p_statusCode := statusCode |> in
          match err with
          | Some _ => (h, inr ErrMalformedResponse)
          | None =>
              if (n1 <? length b) && negb (bool_decide (b !! n1 = Some " "%byte))
              then (h, inr ErrMalformedResponse)
              else
                let h := if n1 + 1 <? length b then SetStatusMessage h (drop (n1 + 1) b) else h in
                (h, inl (length buf - length bNext))
          end
      end
  end.

(** One header line of [parseHeaders]. *)
Definition parseHeaderLine (h : ResponseHeader) (k v : bytes)
    : ResponseHeader * option header_error :=
  let same a := headNameCompare k a (p_disableNormalizing h) in
  let append h := h <| p_h := appendArgBytes (p_h h) k v argsHasValue |> in
  match k with
  | [] => (h, Some EmptyHeaderKeyErr)
  | k0 :: _ =>
      if negb (forallb validHeaderFieldByte k)
      then (h, Some (newHeaderParseErr (bs "invalid header key") k))
      else if negb (forallb validHeaderValueByte v)
      then (h, Some (newHeaderParseErr (bs "invalid header value") v))
      else
        let c := or20 k0 in
        if bool_decide (c = "c"%byte) && same strContentType
        then (h <| p_contentType := v |>, None)
        else if bool_decide (c = "c"%byte) && same strContentEncoding
        then (h <| p_contentEncoding := v |>, None)
        else if bool_decide (c = "c"%byte) && same strContentLength then
          if bool_decide (p_contentLength h = (-1)%Z) then (h, None)
          else match parseContentLength v with
               | (n, Some _) => (h <| p_contentLength := n |>, Some ContentLengthNotIntErr)
               | (n, None) =>
                   (h <| p_contentLength := n |> <| p_contentLengthBytes := v |>, None)
               end
        else if bool_decide (c = "c"%byte) && same strConnection then
          if Equal v strClose then (h <| p_connectionClose := true |>, None)
          else (append (h <| p_connectionClose := false |>), None)
        else if bool_decide (c = "s"%byte) && same strServer then (h <| p_server := v |>, None)
        else if bool_decide (c = "s"%byte) && same strSetCookie then (SetCookieBytes h v, None)
        else if bool_decide (c = "t"%byte) && same strTransferEncoding then
          if (0 <? length v) && Equal v strChunked then (h <| p_contentLength := (-1)%Z |>, None)
          else (h, Some (unsupportedTEError v))
        else if bool_decide (c = "t"%byte) && same strTrailer then
          match SetTrailerBytes h v with
          | (h, Some _) => (h, Some BadTrailerInHeader)
          | (h, None) => (h, None)
          end
        else (append h, None)
  end.

Fixpoint parseHeaders_loop (fuel : nat) (h : ResponseHeader) (s : headerScanner)
    : ResponseHeader * headerScanner * option header_error :=
  match fuel with
  | O => (h, s, Some errNeedMore)
  | S fuel =>
      match next s with
      | (false, s) => (h, s, s_err s)
      | (true, s) =>
          match parseHeaderLine h (s_key s) (s_value s) with
          | (h, Some e) => (h, s, Some e)
          | (h, None) => parseHeaders_loop fuel h s
          end
      end
  end.

(** The number of bytes read is what lies before and behind the rest of the slice. *)
Definition parseHeaders (h : ResponseHeader) (buf : bytes)
    : ResponseHeader * bytes * (nat + header_error) :=
  let h := h <| p_contentLength := if p_headMethod h then 0%Z else (-2)%Z |> in
  let '(h, s, err) :=
    parseHeaders_loop (S (length buf)) h (newScanner buf (p_disableNormalizing h)) in
  match err with
  | Some e => (h, s_buf s, inr e)
  | None =>
      let h := if (p_contentLength h <? 0)%Z then h <| p_contentLengthBytes := [] |> else h in
      let h := if p_noHTTP11 h && negb (p_connectionClose h) then
                 let v := bytes_of (peekArgBytes (p_h h) strConnection) in
                 h <| p_connectionClose := negb (hasHeaderValue v strKeepAlive) |>
               else h in
      (h, s_buf s, inl (length buf - length (s_b s)))
  end.

Definition parse (h : ResponseHeader) (buf : bytes)
    : ResponseHeader * bytes * (nat + header_error) :=
  let '(h, first) := parseFirstLine h buf in
  match first with
  | inr e => (h, buf, inr e)
  | inl m =>
      let '(h, buf', res) := parseHeaders h (drop m buf) in
      (h, take m buf ++ buf', match res with inl n => inl (m + n) | inr e => inr e end)
  end.

(** ** Reading *)

Definition tryRead (h : ResponseHeader) (r : Reader) (n : nat)
    : ResponseHeader * Reader * option header_error :=
  let '(b, err, r) := Bufio.Peek r n in
  if bool_decide (n ≠ length b) then
    (h, r, (λ e, RequestHeader.eofErr (headerIO e) ErrUnexpectedHeaderEOF) <$> err)
  else
    let '(h, buf, res) := parse h (r_buf r) in
    let r := r <| r_buf := buf |> in
    match res with
    | inr e => (h, r, Some e)
    | inl headersLen => (h, Discard r headersLen, None)
    end.

Fixpoint Read_from (fuel : nat) (h : ResponseHeader) (r : Reader) (n : nat)
    : ResponseHeader * Reader * option header_error :=
  match fuel with
  | O => (h, r, Some errNeedMore)
  | S fuel =>
      match tryRead h r n with
      | (h, r, None) => (h, r, None)
      | (h, r, Some e) =>
          if bool_decide (e = errNeedMore) then Read_from fuel h r (Buffered r + 1)
          else (h, r, Some e)
      end
  end.

(** The header is reset once, before the first attempt. *)
Definition Read (h : ResponseHeader) (r : Reader)
    : ResponseHeader * Reader * option header_error :=
  Read_from (S (S (r_size r))) (resetSkipNormalize h) r 1.

(** ** Trailers on the wire *)

(** A bad key is remembered and skipped. *)
Fixpoint parseTrailer_loop (fuel : nat) (h : ResponseHeader) (s : headerScanner)
    (err : option header_error) : ResponseHeader * headerScanner * option header_error :=
  match fuel with
  | O => (h, s, Some errNeedMore)
  | S fuel =>
      match next s with
      | (false, s) => (h, s, match s_err s with Some e => Some e | None => err end)
      | (true, s) =>
          if 0 <? length (s_key s) then
            if existsb isSpTab (s_key s)
            then parseTrailer_loop fuel h s
                   (Some (trailerKeyErr (bs "invalid trailer key") (s_key s)))
            else if isBadTrailer (s_key s) false
            then parseTrailer_loop fuel h s
                   (Some (trailerKeyErr (bs "forbidden trailer key") (s_key s)))
            else parseTrailer_loop fuel
                   (h <| p_h := appendArgBytes (p_h h) (s_key s) (s_value s) argsHasValue |>) s err
          else parseTrailer_loop fuel h s err
      end
  end.

(** The length returned does not count a skipped chunk line. *)
Definition parseTrailer (h : ResponseHeader) (buf : bytes)
    : ResponseHeader * bytes * (nat + header_error) :=
  let skip := if bool_decide (buf !! 0 = Some "0"%byte) then length strCRLF + 1 else 0 in
  if length buf <? skip then (h, buf, inr (headerIO EOF))
  else
    let rest := drop skip buf in
    let '(h, s, err) :=
      parseTrailer_loop (S (length rest)) h (newScanner rest (p_disableNormalizing h)) None in
    (h, take skip buf ++ s_buf s,
     match err with Some e => inr e | None => inl (Z.to_nat (s_hLen s)) end).

Definition tryReadTrailer (h : ResponseHeader) (r : Reader) (n : nat)
    : ResponseHeader * Reader * option header_error :=
  let '(b, err, r) := Bufio.Peek r n in
  if bool_decide (n ≠ length b) then
    (h, r, (λ e, if bool_decide (e = ErrBufferFull) then HeaderBufferSmallErr
                 else RequestHeader.eofErr (headerIO e) ErrUnexpectedHeaderEOF) <$> err)
  else
    let '(h, buf, res) := parseTrailer h (r_buf r) in
    let r := r <| r_buf := buf |> in
    match res with
    | inr e => (h, r, Some e)
    | inl headersLen => (h, Discard r headersLen, None)
    end.

Fixpoint ReadTrailer_from (fuel : nat) (h : ResponseHeader) (r : Reader) (n : nat)
    : ResponseHeader * Reader * option header_error :=
  match fuel with
  | O => (h, r, Some errNeedMore)
  | S fuel =>
      match tryReadTrailer h r n with
      | (h, r, None) => (h, r, None)
      | (h, r, Some e) =>
          if bool_decide (e = errNeedMore) then ReadTrailer_from fuel h r (Buffered r + 1)
          else (h, r, Some e)
      end
  end.

Definition ReadTrailer (h : ResponseHeader) (r : Reader)
    : ResponseHeader * Reader * option header_error :=
  let '(buf, err, r) := Bufio.Peek r 2 in
  if bool_decide (buf = strCRLF) then (h, Discard r 2, headerIO <$> err)
  else if length buf <? 2 then
    (h, r, (λ e, RequestHeader.eofErr (headerIO e) ErrUnexpectedTrailerEOF) <$> err)
  else ReadTrailer_from (S (S (r_size r))) h r 1.
End ResponseHeader.
