(* ===== verification/Http.v ===== *)
(** http.go: requests and responses with their bodies, the streams a body can be read
    from, reading a message from a connection and writing one to it. *)

From Stdlib Require Import ZArith Strings.Byte.
From stdpp Require Import prelude strings list.
From S2P Require Import Prelude Tables Bufio Bytesconv Args Uri Headers HeaderScan Body ReqHeader RespHeader.

Definition strGzip : bytes := bs "gzip".
Definition strBr : bytes := bs "br".
Definition strZstd : bytes := bs "zstd".
Definition strDeflate : bytes := bs "deflate".
Definition str100Continue : bytes := bs "100-continue".
Definition strPostArgsContentType : bytes := bs "application/x-www-form-urlencoded".
Definition strBasicSpace : bytes := bs "Basic ".
Definition minCompressLen : nat := 200.
Definition defaultMaxInMemoryFileSize : Z := 16 * 1024 * 1024.

(** * Base64, [base64.StdEncoding] *)

Definition base64_alphabet : bytes :=
  bs "ABCDEFGHIJKLMNOPQRSTUVWXYZabcdefghijklmnopqrstuvwxyz0123456789+/".

Definition base64_digit (n : Z) : byte := nth (Z.to_nat (Z.land n 63)) base64_alphabet x00.

Fixpoint base64_encode (b : bytes) : bytes :=
  match b with
  | x :: y :: z :: b =>
      let v := Z.lor (Z.lor (Z.shiftl (bz x) 16) (Z.shiftl (bz y) 8)) (bz z) in
      base64_digit (Z.shiftr v 18) :: base64_digit (Z.shiftr v 12)
        :: base64_digit (Z.shiftr v 6) :: base64_digit v :: base64_encode b
  | [x; y] =>
      let v := Z.lor (Z.shiftl (bz x) 16) (Z.shiftl (bz y) 8) in
      [base64_digit (Z.shiftr v 18); base64_digit (Z.shiftr v 12); base64_digit (Z.shiftr v 6);
       "="%byte]
  | [x] =>
      let v := Z.shiftl (bz x) 16 in
      [base64_digit (Z.shiftr v 18); base64_digit (Z.shiftr v 12); "="%byte; "="%byte]
  | [] => []
  end.

(** * What the messages use of other packages *)

(** A [bytebufferpool.ByteBuffer] is the slice in its field [B]. *)
Class ByteBufferOps := {
  bb_Get : slice;
  bb_Write : slice → bytes → slice;
  bb_Set : slice → bytes → slice;
  bb_Reset : slice → slice
}.

(** The documented behaviour of the buffers: [Get] returns an empty buffer, [Write]
    appends, [Set] replaces the content and [Reset] empties the buffer. *)
Class ByteBufferLaws `{ByteBufferOps} := {
  bb_Get_empty : sl_b bb_Get = [] ∧ (0 ≤ sl_cap bb_Get)%Z;
  bb_Write_app b p : sl_b (bb_Write b p) = sl_b b ++ p ∧ (0 ≤ sl_cap b → 0 ≤ sl_cap (bb_Write b p))%Z;
  bb_Set_eq b p : sl_b (bb_Set b p) = p ∧ (0 ≤ sl_cap b → 0 ≤ sl_cap (bb_Set b p))%Z;
  bb_Reset_empty b : sl_b (bb_Reset b) = [] ∧ (0 ≤ sl_cap b → 0 ≤ sl_cap (bb_Reset b))%Z
}.

(** A parsed multipart form, its values and files. *)
Record Form := mkForm { f_Value : list (bytes * list bytes); f_File : list (bytes * list bytes) }.

(** [mime/multipart]: reading a form with a boundary from at most [size] bytes of a
    connection, and printing one. *)
Class MultipartOps := {
  mp_ReadForm : bytes → Z → Z → Reader → (Form + body_error) * Reader;
  mp_Write : Form → bytes → bytes + body_error
}.

(** * Body streams *)

(** Closing a stream from outside: not a closer, [Close], or [CloseWithError]. *)
Inductive closer :=
  | noCloser
  | Close (err : option body_error)
  | CloseWithError (f : option body_error → option body_error).

Inductive BodyStream :=
  | emptyRequestBodyStream
  | streamBytes (b : BytesReader)
  | streamTwo (t : TwoBytesReader)
  | streamRequest (rs : requestStream)
  | streamConn                                            (* the connection's own reader *)
  | streamSource (s : Source) (limit : option Z) (c : closer).  (* set by the caller *)

Definition limitedReaderSize (s : BodyStream) : Z :=
  match s with streamSource _ (Some n) _ => n | _ => (-1)%Z end.

(** A stream reads from the connection and the header it was made with. *)
#[global] Instance BodyStream_reader {H} `{HeaderInterface H} : IOReader (BodyStream * H * Reader) :=
  λ '(s, h, r) n,
  match s with
  | emptyRequestBodyStream => ([], Some (bodyIO EOF), (s, h, r))
  | streamBytes b => let '(x, e, b) := io_read b n in (x, e, (streamBytes b, h, r))
  | streamTwo t => let '(x, e, t) := io_read t n in (x, e, (streamTwo t, h, r))
  | streamRequest rs =>
      let '(x, e, (rs, h, r)) := io_read (rs, h, r) n in (x, e, (streamRequest rs, h, r))
  | streamConn => let '(x, e, r) := Bufio.Read r n in (x, bodyIO <$> e, (s, h, r))
  | streamSource src l c =>
      let '(x, e, src) := io_read src n in (x, e, (streamSource src l c, h, r))
  end.

(** [io.LimitedReader]: at most [N] bytes of what it wraps. *)
#[global] Instance limited_reader {St} `{IOReader St} : IOReader (St * Z) := λ '(s, N) n,
  if (N <=? 0)%Z then ([], Some (bodyIO EOF), (s, N))
  else
    let n := if (Z.of_nat n >? N)%Z then Z.to_nat N else n in
    let '(b, err, s) := io_read s n in
    (b, err, (s, (N - Z.of_nat (length b))%Z)).

(** The bytes a stream can still deliver, from which the fuel of a copy is taken: there
    is at least one byte in every hundred consecutive reads. *)
Definition stream_size (s : BodyStream) (r : Reader) : nat :=
  match s with
  | emptyRequestBodyStream => 0
  | streamBytes b => length (br_left b)
  | streamTwo t => length (t_bytes0 t) + length (t_bytes1 t)
  | streamRequest rs => length (br_left (rs_prefetched rs)) + length (r_data r) + length (r_chunks r)
  | streamConn => length (r_data r) + length (r_chunks r)
  | streamSource src _ _ => length (concat (src_reads src)) + length (src_reads src)
  end.

Definition stream_fuel (s : BodyStream) (r : Reader) : nat := S (stream_size s r).

(** The size of the buffer a copy reads into. *)
Definition copyBufSize : nat := 4096.

(** Copies a stream; the fuel is enough unless the copy would go on forever. *)
Definition copyStream {H} `{HeaderInterface H} (w : Writer) (s : BodyStream) (h : H) (r : Reader)
    : Z * option body_error * Writer * (BodyStream * H * Reader) :=
  default (0%Z, Some ErrNoProgress, w, (s, h, r))
    (copyZeroAlloc (stream_fuel s r) copyBufSize 0 w (s, h, r) 0).

#[global] Instance RequestHeader_interface : HeaderInterface RequestHeader := {|
  hi_ContentLength := RequestHeader.ContentLength;
  hi_ReadTrailer := RequestHeader.ReadTrailer
|}.

#[global] Instance ResponseHeader_interface : HeaderInterface ResponseHeader := {|
  hi_ContentLength := ResponseHeader.ContentLength;
  hi_ReadTrailer := ResponseHeader.ReadTrailer
|}.

Definition eofTo (eof : body_error) (e : option body_error) : option body_error :=
  match e with
  | Some (bodyIO EOF) => Some eof
  | e => e
  end.

(** [err == nil] gives the other error its turn. *)
Definition orErr (e e2 : option body_error) : option body_error :=
  match e with Some e => Some e | None => e2 end.

(** * Requests *)

(** A retry decision: the pause, whether the timeouts start afresh, whether to retry. *)
Abbreviation RetryIfErrFunc := (Z → body_error → Z * bool * bool).

Record cliInfo := mkCliInfo {
  ci_readTimeout : Z; ci_writeTimeout : Z; ci_maxAttempts : Z; ci_retryIf : option RetryIfErrFunc
}.

#[global] Instance cliInfo_etable : Etable cliInfo :=
  λ c, mkCliInfo (ci_readTimeout c) (ci_writeTimeout c) (ci_maxAttempts c) (ci_retryIf c).

Definition cliInfo_zero : cliInfo := mkCliInfo 0 0 0 None.

(** [rq_bodyRaw] is [None] for a nil slice. *)
Record Request := mkRequest {
  rq_Header : RequestHeader;
  rq_uri : URI;
  rq_bodyStream : option BodyStream;
  rq_bodyRaw : option bytes;
  rq_body : option slice;
  rq_multipartForm : option Form;
  rq_postArgs : Args;
  rq_multipartFormBoundary : bytes;
  rq_timeout : Z;
  rq_maxBodySize : Z;
  rq_cliInfo : option cliInfo;
  rq_secureErrorLogMessage : bool;
  rq_parsedURI : bool;
  rq_parsedPostArgs : bool;
  rq_keepBodyBuffer : bool;
  rq_isTLS : bool;
  rq_UseHostHeader : bool;
  rq_DisableRedirectPathNormalizing : bool;
  rq_DiscardUnReadBodyStream : bool;
  rq_StreamBody : bool
}.

#[global] Instance Request_etable : Etable Request := λ q,
  mkRequest (rq_Header q) (rq_uri q) (rq_bodyStream q) (rq_bodyRaw q) (rq_body q)
    (rq_multipartForm q) (rq_postArgs q) (rq_multipartFormBoundary q) (rq_timeout q)
    (rq_maxBodySize q) (rq_cliInfo q) (rq_secureErrorLogMessage q) (rq_parsedURI q)
    (rq_parsedPostArgs q) (rq_keepBodyBuffer q) (rq_isTLS q) (rq_UseHostHeader q)
    (rq_DisableRedirectPathNormalizing q) (rq_DiscardUnReadBodyStream q) (rq_StreamBody q).

Definition Request_zero : Request :=
  mkRequest RequestHeader_zero URI_zero None None None None (mkArgs (mkKvs [] []) []) [] 0 0 None
    false false false false false false false false false.

Module Request.
(** ** Settings of the client *)

Definition RetryIf (q : Request) : option RetryIfErrFunc :=
  match rq_cliInfo q with None => None | Some c => ci_retryIf c end.
Definition SetRetryIf (q : Request) (f : option RetryIfErrFunc) : Request :=
  q <| rq_cliInfo := Some ((default cliInfo_zero (rq_cliInfo q)) <| ci_retryIf := f |>) |>.
Definition MaxAttempts (q : Request) : Z :=
  match rq_cliInfo q with None => 0 | Some c => ci_maxAttempts c end.
Definition SetMaxAttempts (q : Request) (n : Z) : Request :=
  q <| rq_cliInfo := Some ((default cliInfo_zero (rq_cliInfo q)) <| ci_maxAttempts := n |>) |>.
Definition WriteTimeout (q : Request) : Z :=
  match rq_cliInfo q with None => 0 | Some c => ci_writeTimeout c end.
Definition ReadTimeout (q : Request) : Z :=
  match rq_cliInfo q with None => 0 | Some c => ci_readTimeout c end.
Definition SetWriteTimeout (q : Request) (t : Z) : Request :=
  q <| rq_cliInfo := Some ((default cliInfo_zero (rq_cliInfo q)) <| ci_writeTimeout := t |>) |>.
Definition SetReadTimeout (q : Request) (t : Z) : Request :=
  q <| rq_cliInfo := Some ((default cliInfo_zero (rq_cliInfo q)) <| ci_readTimeout := t |>) |>.
Definition SetTimeout (q : Request) (t : Z) : Request := q <| rq_timeout := t |>.

(** ** URI *)

Definition parseURI (q : Request) : Request * option uri_error :=
  if rq_parsedURI q then (q, None)
  else
    let q := q <| rq_parsedURI := true |> in
    let '(u, err) := URI.parse (rq_uri q) (RequestHeader.Host (rq_Header q))
                       (RequestHeader.RequestURI (rq_Header q)) (rq_isTLS q) in
    (q <| rq_uri := u |>, err).

Definition URI (q : Request) : URI * Request := let q := (parseURI q).1 in (rq_uri q, q).
Definition SetURI (q : Request) (u : option Uri.URI) : Request :=
  match u with
  | Some u => q <| rq_uri := URI.CopyTo u (rq_uri q) |> <| rq_parsedURI := true |>
  | None => q <| rq_uri := URI.Reset (rq_uri q) |> <| rq_parsedURI := false |>
  end.
Definition SetHost (q : Request) (host : bytes) : Request :=
  let q := (parseURI q).1 in q <| rq_uri := URI.SetHost (rq_uri q) host |>.
Definition SetHostBytes := SetHost.
Definition Host (q : Request) : bytes * Request :=
  let '(u, q) := URI q in (URI.Host u, q).
Definition SetRequestURI (q : Request) (v : bytes) : Request :=
  q <| rq_Header := RequestHeader.SetRequestURI (rq_Header q) v |> <| rq_parsedURI := false |>.
Definition SetRequestURIBytes := SetRequestURI.
Definition RequestURI (q : Request) : bytes * Request :=
  let q := if rq_parsedURI q then
             let '(v, u) := URI.RequestURI (rq_uri q) in
             SetRequestURIBytes (q <| rq_uri := u |>) v
           else q in
  (RequestHeader.RequestURI (rq_Header q), q).

Definition ConnectionClose (q : Request) : bool := RequestHeader.ConnectionClose (rq_Header q).
Definition SetConnectionClose (q : Request) : Request :=
  q <| rq_Header := RequestHeader.SetConnectionClose (rq_Header q) |>.
Definition KeepBuffer (q : Request) : bool := rq_keepBodyBuffer q.
Definition SetKeepBuffer (q : Request) (keep : bool) : Request := q <| rq_keepBodyBuffer := keep |>.
Definition IsBodyStream (q : Request) : bool := bool_decide (is_Some (rq_bodyStream q)).

(** ** The body

    Operations that close a body stream may read from the connection. *)

Definition RemoveMultipartFormFiles (q : Request) : Request :=
  q <| rq_multipartForm := None |> <| rq_multipartFormBoundary := [] |>.

Definition closeBodyStream (q : Request) (r : Reader) : option body_error * Request * Reader :=
  match rq_bodyStream q with
  | None => (None, q, r)
  | Some s =>
      let err := match s with streamSource _ _ (Close e) => e | _ => None end in
      let '(err, q, r) :=
        match s with
        | streamRequest _ =>
            if rq_DiscardUnReadBodyStream q then
              let '(_, err, _, (_, h, r)) := copyStream (mkWriter [] None) s (rq_Header q) r in
              (err, q <| rq_Header := h |>, r)
            else (err, q, r)
        | _ => (err, q, r)
        end in
      (err, q <| rq_bodyStream := None |>, r)
  end.

Definition bodyBytes (q : Request) : bytes :=
  match rq_bodyRaw q with
  | Some b => b
  | None => match rq_body q with Some b => sl_b b | None => [] end
  end.

Definition onlyMultipartForm (q : Request) : bool :=
  bool_decide (is_Some (rq_multipartForm q)) &&
  match rq_body q with None => true | Some b => bool_decide (length (sl_b b) = 0) end.

Definition MayContinue (q : Request) : bool :=
  Equal (RequestHeader.peek (rq_Header q) strExpect) str100Continue.

Definition BodyStream (q : Request) : option BodyStream := rq_bodyStream q.
Definition CloseBodyStream := closeBodyStream.

Section body.
Context `{ByteBufferOps}.

Definition bodyBuffer (q : Request) : slice * Request :=
  let b := default bb_Get (rq_body q) in
  (b, q <| rq_body := Some b |> <| rq_bodyRaw := None |>).

Definition ResetBody (q : Request) (r : Reader) : Request * Reader :=
  let q := q <| rq_bodyRaw := None |> <| rq_postArgs := Args.Reset (rq_postArgs q) |> in
  let q := RemoveMultipartFormFiles q in
  let '(_, q, r) := closeBodyStream q r in
  (q <| rq_body := if rq_keepBodyBuffer q then bb_Reset <$> rq_body q else None |>, r).

Definition SetBodyRaw (q : Request) (r : Reader) (body : option bytes) : Request * Reader :=
  let '(q, r) := ResetBody q r in (q <| rq_bodyRaw := body |>, r).

Definition SetBodyStream (q : Request) (r : Reader) (s : option Http.BodyStream) (bodySize : Z)
    : Request * Reader :=
  let '(q, r) := ResetBody q r in
  (q <| rq_bodyStream := s |>
     <| rq_Header := RequestHeader.SetContentLength (rq_Header q) bodySize |>, r).

Definition ReleaseBody (q : Request) (r : Reader) (size : Z) : Request * Reader :=
  let q := q <| rq_bodyRaw := None |> in
  match rq_body q with
  | None => (q, r)
  | Some b =>
      if (sl_cap b >? size)%Z then
        let '(_, q, r) := closeBodyStream q r in (q <| rq_body := None |>, r)
      else (q, r)
  end.

(** The common start of [AppendBody] and [SetBody]. *)
Definition dropOtherBodies (q : Request) (r : Reader) : Request * Reader :=
  let q := match rq_multipartForm q with Some _ => RemoveMultipartFormFiles q | None => q end in
  let '(_, q, r) := closeBodyStream q r in
  (q <| rq_bodyRaw := None |>, r).

Definition AppendBody (q : Request) (r : Reader) (p : bytes) : Request * Reader :=
  let '(q, r) := dropOtherBodies q r in
  let '(b, q) := bodyBuffer q in (q <| rq_body := Some (bb_Write b p) |>, r).
Definition AppendBodyString := AppendBody.

Definition SetBody (q : Request) (r : Reader) (body : bytes) : Request * Reader :=
  let '(q, r) := dropOtherBodies q r in
  let '(b, q) := bodyBuffer q in (q <| rq_body := Some (bb_Set b body) |>, r).
Definition SetBodyString := SetBody.

(** [capacity] is that of the slice given. *)
Definition SwapBody (errorText : body_error → bytes) (q : Request) (r : Reader) (body : bytes)
    (capacity : Z) : bytes * Request * Reader :=
  let '(bb, q) := bodyBuffer q in
  let '(bb, q, r) :=
    match rq_bodyStream q with
    | None => (bb, q, r)
    | Some s =>
        let '(_, err, w, (s, h, r)) := copyStream (mkWriter [] None) s (rq_Header q) r in
        let q := q <| rq_Header := h |> <| rq_bodyStream := Some s |> in
        let '(_, q, r) := closeBodyStream q r in
        (match err with
         | None => bb_Write (bb_Reset bb) (w_out w)
         | Some e => bb_Set (bb_Reset bb) (errorText e)
         end, q, r)
    end in
  (sl_b bb, q <| rq_bodyRaw := None |> <| rq_body := Some (mkSlice body capacity) |>, r).

(** ** Reading the body out of a request *)

Section body_out.
Context `{MultipartOps} (errorText : body_error → bytes).

(** [BodyWithError], with the [parsePostArgs] that [PostArgs] starts with. *)
Definition BodyWithError_with (parsePostArgs : Request → Reader → Request * Reader)
    (q : Request) (r : Reader) : bytes * option body_error * Request * Reader :=
  match rq_bodyStream q with
  | Some s =>
      let '(bb, q) := bodyBuffer q in
      let '(err, w, (s, h, r)) :=
        if (rq_maxBodySize q >? 0)%Z then
          match copyZeroAlloc (stream_fuel s r) copyBufSize 0 (mkWriter [] None)
                  ((s, rq_Header q, r), rq_maxBodySize q) 0 with
          | Some (_, err, w, (st, _)) => (err, w, st)
          | None => (Some ErrNoProgress, mkWriter [] None, (s, rq_Header q, r))
          end
        else
          let '(_, err, w, st) := copyStream (mkWriter [] None) s (rq_Header q) r in (err, w, st) in
      let q := q <| rq_body := Some (bb_Write (bb_Reset bb) (w_out w)) |>
                 <| rq_Header := h |> <| rq_bodyStream := Some s |> in
      let '(er, q, r) := closeBodyStream q r in
      (bodyBytes q, orErr err er, q, r)
  | None =>
      let body := bodyBytes q in
      if negb (bool_decide (length body = 0)) then (body, None, q, r)
      else
        match rq_multipartForm q with
        | Some f =>
            if onlyMultipartForm q then
              match mp_Write f (rq_multipartFormBoundary q) with
              | inl b => (b, None, q, r)
              | inr e => ([], Some e, q, r)
              end
            else
              let '(q, r) := parsePostArgs q r in
              let '(b, a) := Args.QueryString (rq_postArgs q) in (b, None, q <| rq_postArgs := a |>, r)
        | None =>
            let '(q, r) := parsePostArgs q r in
            let '(b, a) := Args.QueryString (rq_postArgs q) in (b, None, q <| rq_postArgs := a |>, r)
        end
  end.

(** On an error the body is what the buffer holds and the text of the error. *)
Definition Body_with (parsePostArgs : Request → Reader → Request * Reader) (q : Request) (r : Reader)
    : bytes * Request * Reader :=
  match BodyWithError_with parsePostArgs q r with
  | (body, None, q, r) => (body, q, r)
  | (_, Some e, q, r) =>
      let '(bb, q) := bodyBuffer q in
      let bb := bb_Write bb (errorText e) in
      (sl_b bb, q <| rq_body := Some bb |>, r)
  end.

(** The arguments count as parsed before the body is asked for. *)
Definition parsePostArgs (q : Request) (r : Reader) : Request * Reader :=
  if rq_parsedPostArgs q then (q, r)
  else
    let q := q <| rq_parsedPostArgs := true |> in
    if negb (HasPrefix (RequestHeader.ContentType (rq_Header q)) strPostArgsContentType) then (q, r)
    else
      let '(body, q, r) := Body_with (λ q r, (q, r)) q r in
      (q <| rq_postArgs := Args.ParseBytes (rq_postArgs q) body |>, r).

Definition PostArgs (q : Request) (r : Reader) : Args * Request * Reader :=
  let '(q, r) := parsePostArgs q r in (rq_postArgs q, q, r).
Definition BodyWithError := BodyWithError_with parsePostArgs.
Definition Body := Body_with parsePostArgs.

Definition BodyWriteTo (w : Writer) (q : Request) (r : Reader)
    : option body_error * Writer * Request * Reader :=
  match rq_bodyStream q with
  | Some s =>
      let '(_, err, w, (s, h, r)) := copyStream w s (rq_Header q) r in
      let '(er, q, r) := closeBodyStream (q <| rq_Header := h |> <| rq_bodyStream := Some s |>) r in
      (orErr err er, w, q, r)
  | None =>
      match rq_multipartForm q with
      | Some f =>
          if onlyMultipartForm q then
            match mp_Write f (rq_multipartFormBoundary q) with
            | inl b => let '(err, w) := Write w b in (err, w, q, r)
            | inr e => (Some e, w, q, r)
            end
          else let '(err, w) := Write w (bodyBytes q) in (err, w, q, r)
      | None =>
          if negb (bool_decide (length (bodyBytes q) = 0))
          then let '(err, w) := Write w (bodyBytes q) in (err, w, q, r)
          else let '(b, a) := Args.QueryString (rq_postArgs q) in
               let '(err, w) := Write w b in (err, w, q <| rq_postArgs := a |>, r)
      end
  end.
End body_out.

(** ** Reset and copy *)

(** [requestBodyPoolSizeLimit] *)
Context (poolSizeLimit : Z).

Definition releaseLarge (q : Request) (r : Reader) : Request * Reader :=
  if (0 <=? poolSizeLimit)%Z && bool_decide (is_Some (rq_body q))
  then ReleaseBody q r poolSizeLimit else (q, r).

Definition resetSkipHeader (q : Request) (r : Reader) : Request * Reader :=
  let '(q, r) := ResetBody q r in
  (q <| rq_uri := URI.Reset (rq_uri q) |> <| rq_timeout := 0%Z |> <| rq_maxBodySize := 0%Z |>
     <| rq_cliInfo := None |> <| rq_secureErrorLogMessage := false |> <| rq_parsedURI := false |>
     <| rq_parsedPostArgs := false |> <| rq_isTLS := false |> <| rq_UseHostHeader := false |>
     <| rq_DiscardUnReadBodyStream := false |> <| rq_DisableRedirectPathNormalizing := false |>
     <| rq_StreamBody := false |>, r).

Definition Reset (q : Request) (r : Reader) : Request * Reader :=
  let '(q, r) := releaseLarge q r in
  let '(q, r) := resetSkipHeader q r in
  (q <| rq_Header := RequestHeader.Reset (rq_Header q) |>, r).

Definition resetForKeepAlive (q : Request) (r : Reader) : Request * Reader :=
  let '(q, r) := releaseLarge q r in
  let '(q, r) := ResetBody q r in
  (q <| rq_uri := URI.Reset (rq_uri q) |> <| rq_maxBodySize := 0%Z |> <| rq_parsedURI := false |>
     <| rq_parsedPostArgs := false |>
     <| rq_Header := RequestHeader.resetSkipNormalize (rq_Header q) |>, r).

(** [None] is a nil dereference. *)
Definition copyToSkipBody (q dst : Request) (r : Reader) : option (Request * Reader) :=
  let '(dst, r) := Reset dst r in
  let dst := dst <| rq_Header := RequestHeader.CopyTo (rq_Header q) (rq_Header dst) |>
                 <| rq_uri := URI.CopyTo (rq_uri q) (rq_uri dst) |>
                 <| rq_postArgs := Args.CopyTo (rq_postArgs q) (rq_postArgs dst) |>
                 <| rq_timeout := rq_timeout q |> <| rq_maxBodySize := rq_maxBodySize q |> in
  dst ← match rq_cliInfo dst with
        | Some _ => in_ ← rq_cliInfo q; Some (dst <| rq_cliInfo := Some in_ |>)
        | None => Some dst
        end;
  Some (dst <| rq_secureErrorLogMessage := rq_secureErrorLogMessage q |>
            <| rq_parsedURI := rq_parsedURI q |> <| rq_parsedPostArgs := rq_parsedPostArgs q |>
            <| rq_keepBodyBuffer := rq_keepBodyBuffer q |> <| rq_isTLS := rq_isTLS q |>
            <| rq_UseHostHeader := rq_UseHostHeader q |>
            <| rq_DisableRedirectPathNormalizing := rq_DisableRedirectPathNormalizing q |>
            <| rq_DiscardUnReadBodyStream := rq_DiscardUnReadBodyStream q |>
            <| rq_StreamBody := rq_StreamBody q |>, r).

(** [dst.bodyRaw[:0]] of a nil slice is nil, and appending nothing to it stays nil. *)
Definition CopyTo (q dst : Request) (r : Reader) : option (Request * Reader) :=
  '(dst, r) ← copyToSkipBody q dst r;
  let dst := match rq_bodyRaw q with
             | Some b => dst <| rq_bodyRaw := if bool_decide (b = []) then rq_bodyRaw dst else Some b |>
             | None => dst
             end in
  Some (match rq_body q with
        | Some b => let '(bb, dst) := bodyBuffer dst in dst <| rq_body := Some (bb_Set bb (sl_b b)) |>
        | None => dst <| rq_body := None |>
        end, r).

Definition swapRequestBody (a b : Request) : Request * Request :=
  (a <| rq_body := rq_body b |> <| rq_bodyRaw := rq_bodyRaw b |> <| rq_bodyStream := rq_bodyStream b |>,
   b <| rq_body := rq_body a |> <| rq_bodyRaw := rq_bodyRaw a |> <| rq_bodyStream := rq_bodyStream a |>).

(** ** Reading a request *)

Section read.
Context `{MultipartOps}.

Definition readMultipartForm (r : Reader) (boundary : bytes) (size maxInMemoryFileSize : Z)
    : (Form + body_error) * Reader :=
  if (size <=? 0)%Z then (inr (errMultipart (bs "form size must be greater than 0")), r)
  else mp_ReadForm boundary size maxInMemoryFileSize r.

(** Whether the form of a body of known length is read ahead, and its boundary. *)
Definition preParse (q : Request) (contentLength : Z) (preParseMultipartForm : bool) : bool * Request :=
  if (contentLength >? 0)%Z && preParseMultipartForm then
    let boundary := default [] (RequestHeader.MultipartFormBoundary (rq_Header q)) in
    let q := q <| rq_multipartFormBoundary := boundary |> in
    (negb (bool_decide (boundary = [])) &&
     bool_decide (length (RequestHeader.peek (rq_Header q) strContentEncoding) = 0), q)
  else (false, q).

Definition readForm (q : Request) (r : Reader) (contentLength : Z) : option body_error * Request * Reader :=
  match readMultipartForm r (rq_multipartFormBoundary q) contentLength defaultMaxInMemoryFileSize with
  | (inl f, r) => (None, q <| rq_multipartForm := Some f |>, r)
  | (inr e, r) => (Some e, q <| rq_multipartForm := None |>, r)
  end.

Definition readBody (q : Request) (r : Reader) (contentLength maxBodySize : Z)
    : option body_error * Request * Reader :=
  if (contentLength =? 0)%Z then (None, q, r)
  else
    let '(bodyBuf, q) := bodyBuffer q in
    let bodyBuf := bb_Reset bodyBuf in
    let '(b, err, h, r) :=
      if (contentLength >? 0)%Z then
        let '(b, err, r) := Body.readBody r contentLength maxBodySize bodyBuf in
        (b, err, rq_Header q, r)
      else if (contentLength =? -1)%Z then
        let '(b, err, r) := readBodyChunked r maxBodySize bodyBuf in
        (b, err, if bool_decide (err = None) && bool_decide (length (sl_b b) = 0)
                 then RequestHeader.SetContentLength (rq_Header q) 0 else rq_Header q, r)
      else
        let '(b, err, r) := readBodyIdentity r maxBodySize bodyBuf in
        (b, err, RequestHeader.SetContentLength (rq_Header q) (Z.of_nat (length (sl_b b))), r) in
    (eofTo ErrUnexpectedReqBodyEOF err, q <| rq_body := Some b |> <| rq_Header := h |>, r).

Definition ReadBody (q : Request) (r : Reader) (maxBodySize : Z) (preParseMultipartForm : bool)
    : option body_error * Request * Reader :=
  let contentLength := RequestHeader.realContentLength (rq_Header q) in
  if (contentLength =? 0)%Z then (None, q, r)
  else if (contentLength >? 0)%Z && (maxBodySize >? 0)%Z && (contentLength >? maxBodySize)%Z
  then (Some ErrBodyTooLarge, q, r)
  else
    let '(form, q) := preParse q contentLength preParseMultipartForm in
    if form then readForm q r contentLength
    else
      match readBody q r contentLength maxBodySize with
      | (Some e, q, r) => (Some e, q, r)
      | (None, q, r) =>
          if (contentLength =? -1)%Z then
            let '(h, r, err) := RequestHeader.ReadTrailer (rq_Header q) r in
            (of_header <$> err, q <| rq_Header := h |>, r)
          else (None, q, r)
      end.

(** The last branch keeps the two slices of a body that fits the buffer and a prefix. *)
Definition ReadBodyStream (q : Request) (r : Reader) (maxBodySize : Z) (preParseMultipartForm : bool)
    : option body_error * Request * Reader :=
  let contentLength := RequestHeader.realContentLength (rq_Header q) in
  if (contentLength =? 0)%Z then (None, q <| rq_bodyStream := Some emptyRequestBodyStream |>, r)
  else
    let '(form, q) := preParse q contentLength preParseMultipartForm in
    if form then
      let '(err, q, r) := readForm q r contentLength in
      (eofTo ErrUnexpectedReqBodyEOF err, q, r)
    else
      let '(bodyBuf, q) := bodyBuffer q in
      let bodyBuf := bb_Reset bodyBuf in
      let '(b, allInBuf, err, r) := readBodyWithStreaming r contentLength maxBodySize bodyBuf in
      let empty := mkSlice [] (sl_cap b) in
      match err with
      | Some e =>
          if bool_decide (e = ErrBodyTooLarge) || bool_decide (e = errChunkedStream) then
            (None, q <| rq_bodyStream := Some (streamRequest (acquireRequestStream (sl_b b))) |>
                     <| rq_body := Some empty |>, r)
          else (eofTo ErrUnexpectedReqBodyEOF (Some e), q <| rq_body := Some bodyBuf |>, r)
      | None =>
          if allInBuf then
            (None, q <| rq_bodyStream := Some (streamBytes (mkBytesReader (sl_b b))) |>
                     <| rq_body := Some bodyBuf |>, r)
          else
            let '(b2, _, r) := Bufio.Peek r (r_size r) in
            (None, q <| rq_bodyStream := Some (streamTwo (mkTwoBytes (sl_b b) b2 0 0)) |>
                     <| rq_body := Some empty |>, Discard r (r_size r))
      end.

Definition ReadLimit (q : Request) (r : Reader) (maxBodySize : Z) : option body_error * Request * Reader :=
  let q := q <| rq_parsedURI := false |> <| rq_parsedPostArgs := false |> in
  let '(h, r, err) := RequestHeader.Read (rq_Header q) r in
  let q := q <| rq_Header := h |> in
  match err with
  | Some e => (Some (of_header e), q, r)
  | None =>
      let '(q, r) := ResetBody q r in
      if MayContinue q then (None, q, r)
      else if rq_StreamBody q then ReadBodyStream q r maxBodySize true
      else ReadBody q r maxBodySize true
  end.

Definition Read (q : Request) (r : Reader) := ReadLimit q r 0.

(** ** Writing a request *)

Definition writeHeader (w : Writer) (h : RequestHeader) : option body_error * Writer * RequestHeader :=
  let '(b, h) := RequestHeader.Header h in
  let '(err, w) := Write w b in (err, w, h).

Definition writeTrailer (w : Writer) (h : RequestHeader) : option body_error * Writer * RequestHeader :=
  let '(b, h) := RequestHeader.TrailerHeader h in
  let '(err, w) := Write w b in (err, w, h).

(** The scratch space the encoding uses, [Header.bufV], is left out. *)
Definition setHostAndURI (q : Request) : Request + body_error :=
  if bool_decide (length (RequestHeader.Host (rq_Header q)) = 0) || rq_parsedURI q then
    let '(uri, q) := URI q in
    let headHost := RequestHeader.Host (rq_Header q) in
    if bool_decide (length (URI.Host uri) = 0) && bool_decide (length headHost = 0)
    then inr errRequestHostRequired
    else
      let h := if negb (rq_UseHostHeader q) || bool_decide (length headHost = 0)
               then RequestHeader.SetHostBytes (rq_Header q) (URI.Host uri) else rq_Header q in
      let '(ru, uri) := URI.RequestURI uri in
      let h := RequestHeader.SetRequestURIBytes h ru in
      let h := if 0 <? length (username uri) then
                 RequestHeader.SetBytesKV h strAuthorization
                   (strBasicSpace ++ base64_encode (username uri ++ [":"%byte] ++ password uri))
               else h in
      inl (q <| rq_uri := uri |> <| rq_Header := h |>)
  else inl q.

Definition writeBodyStream (w : Writer) (q : Request) (r : Reader) (s : Http.BodyStream)
    : option body_error * Writer * Request * Reader :=
  let contentLength := RequestHeader.ContentLength (rq_Header q) in
  let lrSize := limitedReaderSize s in
  let '(contentLength, h) :=
    if (contentLength <? 0)%Z && (0 <=? lrSize)%Z
    then (lrSize, RequestHeader.SetContentLength (rq_Header q) lrSize)
    else (contentLength, rq_Header q) in
  let fuel := stream_fuel s r in
  let stuck w s := (Some ErrNoProgress, w, s) in
  let '(err, w, (s, h, r)) :=
    if (0 <=? contentLength)%Z then
      let '(err, w, h) := writeHeader w h in
      match err with
      | None =>
          if (contentLength >? 0)%Z then
            default (stuck w (s, h, r)) (writeBodyFixedSize fuel copyBufSize w (s, h, r) contentLength)
          else (None, w, (s, h, r))
      | Some e => (Some e, w, (s, h, r))
      end
    else
      let h := RequestHeader.SetContentLength h (-1) in
      let '(err, w, h) := writeHeader w h in
      match err with
      | Some e => (Some e, w, (s, h, r))
      | None =>
          match default (stuck w (s, h, r)) (writeBodyChunked fuel copyBufSize w (s, h, r)) with
          | (Some e, w, (s, h, r)) => (Some e, w, (s, h, r))
          | (None, w, (s, h, r)) =>
              let '(err, w, h) := writeTrailer w h in (err, w, (s, h, r))
          end
      end in
  let q := q <| rq_Header := h |> <| rq_bodyStream := Some s |> in
  let '(errc, q, r) := closeBodyStream q r in
  (orErr err errc, w, q, r).

(** The end of [Write], for a body in memory. *)
Definition writeWithBody (w : Writer) (q : Request) (h : RequestHeader) (body : bytes)
    : option body_error * Writer * Request :=
  let hasBody := negb (bool_decide (length body = 0)) || negb (RequestHeader.ignoreBody h) in
  let h := if hasBody then RequestHeader.SetContentLength h (Z.of_nat (length body)) else h in
  let '(err, w, h) := writeHeader w h in
  let q := q <| rq_Header := h |> in
  match err with
  | Some e => (Some e, w, q)
  | None =>
      if hasBody && (0 <? length body) then let '(err, w) := Body.Write w body in (err, w, q)
      else (None, w, q)
  end.

Definition Write (w : Writer) (q : Request) (r : Reader) : option body_error * Writer * Request * Reader :=
  match setHostAndURI q with
  | inr e => (Some e, w, q, r)
  | inl q =>
      match rq_bodyStream q with
      | Some s => writeBodyStream w q r s
      | None =>
          let marshalled :=
            if onlyMultipartForm q then
              match rq_multipartForm q with
              | Some f =>
                  match mp_Write f (rq_multipartFormBoundary q) with
                  | inl b => inl (b, RequestHeader.SetMultipartFormBoundary (rq_Header q)
                                       (rq_multipartFormBoundary q))
                  | inr e => inr e
                  end
              | None => inl (bodyBytes q, rq_Header q)
              end
            else inl (bodyBytes q, rq_Header q) in
          match marshalled with
          | inr e => (Some e, w, q, r)
          | inl (body, h) =>
              let '(err, w, q) :=
                if bool_decide (length body = 0) then
                  let '(qs, args) := Args.QueryString (rq_postArgs q) in
                  let h := if 0 <? length qs
                           then RequestHeader.SetContentTypeBytes h strPostArgsContentType else h in
                  writeWithBody w (q <| rq_postArgs := args |>) h qs
                else writeWithBody w q h body in
              (err, w, q, r)
          end
      end
  end.
End read.
End body.
End Request.
