(* ===== verification/HttpResp.v ===== *)
(** http.go, the response half: [Response], its bodies, reading one from a connection and
    writing one to it. *)

From Stdlib Require Import ZArith Strings.Byte.
From stdpp Require Import prelude strings list.
From S2P Require Import Prelude Tables Bufio Bytesconv Args Uri Headers HeaderScan Body ReqHeader RespHeader Http.

(** * Responses *)

(** [re_chunkedW]: the pieces a chunked writer hands down, and its error. A compressor
    is a function on bodies. *)
Record Response := mkResponse {
  re_Header : ResponseHeader;
  re_bodyStream : option BodyStream;
  re_bodyRaw : option bytes;
  re_body : option slice;
  re_chunkedW : option (list bytes * option body_error);
  re_raddr : option bytes;
  re_laddr : option bytes;
  re_compressPool : option (bytes → bytes + body_error);
  re_ImmediateHeaderFlush : bool;
  re_StreamBody : bool;
  re_SkipBody : bool;
  re_keepBodyBuffer : bool;
  re_secureErrorLogMessage : bool
}.

#[global] Instance Response_etable : Etable Response := λ p,
  mkResponse (re_Header p) (re_bodyStream p) (re_bodyRaw p) (re_body p) (re_chunkedW p) (re_raddr p)
    (re_laddr p) (re_compressPool p) (re_ImmediateHeaderFlush p) (re_StreamBody p) (re_SkipBody p)
    (re_keepBodyBuffer p) (re_secureErrorLogMessage p).

Definition Response_zero : Response :=
  mkResponse ResponseHeader_zero None None None None None None None false false false false false.

Module Response.
Definition StatusCode (p : Response) : Z := ResponseHeader.StatusCode (re_Header p).
Definition SetStatusCode (p : Response) (n : Z) : Response :=
  p <| re_Header := ResponseHeader.SetStatusCode (re_Header p) n |>.
Definition ConnectionClose (p : Response) : bool := ResponseHeader.ConnectionClose (re_Header p).
Definition SetConnectionClose (p : Response) : Response :=
  p <| re_Header := ResponseHeader.SetConnectionClose (re_Header p) |>.
Definition KeepBuffer (p : Response) : bool := re_keepBodyBuffer p.
Definition SetKeepBuffer (p : Response) (keep : bool) : Response := p <| re_keepBodyBuffer := keep |>.
Definition IsBodyStream (p : Response) : bool := bool_decide (is_Some (re_bodyStream p)).
Definition needCompress (p : Response) : bool := bool_decide (is_Some (re_compressPool p)).
Definition mustSkipBody (p : Response) : bool :=
  re_SkipBody p || ResponseHeader.mustSkipContentLength (re_Header p).

(** Closing does not read from the stream. *)
Definition closeBodyStream (p : Response) (wErr : option body_error) : option body_error * Response :=
  match re_bodyStream p with
  | None => (None, p)
  | Some s =>
      (match s with
       | streamSource _ _ (Close e) => e
       | streamSource _ _ (CloseWithError f) => f wErr
       | _ => None
       end, p <| re_bodyStream := None |>)
  end.

Definition bodyBytes (p : Response) : bytes :=
  match re_bodyRaw p with
  | Some b => b
  | None => match re_body p with Some b => sl_b b | None => [] end
  end.

Section body.
Context `{ByteBufferOps}.

Definition bodyBuffer (p : Response) : slice * Response :=
  let b := default bb_Get (re_body p) in
  (b, p <| re_body := Some b |> <| re_bodyRaw := None |>).

Definition ResetBody (p : Response) : Response :=
  let p := p <| re_chunkedW := None |> <| re_bodyRaw := None |> in
  let p := (closeBodyStream p None).2 in
  p <| re_body := if re_keepBodyBuffer p then bb_Reset <$> re_body p else None |>.

Definition dropOtherBodies (p : Response) : Response :=
  let p := (closeBodyStream p None).2 in p <| re_chunkedW := None |> <| re_bodyRaw := None |>.

Definition AppendBody (p : Response) (b : bytes) : Response :=
  let '(bb, p) := bodyBuffer (dropOtherBodies p) in p <| re_body := Some (bb_Write bb b) |>.
Definition AppendBodyString := AppendBody.

Definition SetBody (p : Response) (body : bytes) : Response :=
  let '(bb, p) := bodyBuffer (dropOtherBodies p) in
  p <| re_body := Some (bb_Write (bb_Reset bb) body) |>.
Definition SetBodyString := SetBody.

Definition SetBodyRaw (p : Response) (body : option bytes) : Response :=
  let p := ResetBody p in p <| re_bodyRaw := body |>.

Definition SetBodyStream (p : Response) (s : option Http.BodyStream) (bodySize : Z) : Response :=
  let p := ResetBody p in
  p <| re_bodyStream := s |> <| re_Header := ResponseHeader.SetContentLength (re_Header p) bodySize |>.

Definition SetBodyStreamChunkedWriter (p : Response) (sw : list bytes * option body_error) : Response :=
  let p := ResetBody p in
  p <| re_Header := ResponseHeader.SetContentLength (re_Header p) (-1) |> <| re_chunkedW := Some sw |>.

Definition ReleaseBody (p : Response) (size : Z) : Response :=
  let p := p <| re_bodyRaw := None |> in
  match re_body p with
  | None => p
  | Some b =>
      if (sl_cap b >? size)%Z then let p := (closeBodyStream p None).2 in p <| re_body := None |>
      else p
  end.

(** [r] is the connection the stream reads from. *)
Definition BodyWithError (p : Response) (r : Reader) : bytes * option body_error * Response * Reader :=
  match re_bodyStream p with
  | None => (bodyBytes p, None, p, r)
  | Some s =>
      let '(bb, p) := bodyBuffer p in
      let '(_, err, w, (s, h, r)) := copyStream (mkWriter [] None) s (re_Header p) r in
      let p := p <| re_body := Some (bb_Write (bb_Reset bb) (w_out w)) |> <| re_Header := h |>
                 <| re_bodyStream := Some s |> in
      let '(er, p) := closeBodyStream p err in
      match orErr err er with
      | Some e => ([], Some e, p, r)
      | None => (bodyBytes p, None, p, r)
      end
  end.

Definition Body (errorText : body_error → bytes) (p : Response) (r : Reader)
    : bytes * Response * Reader :=
  match BodyWithError p r with
  | (body, None, p, r) => (body, p, r)
  | (_, Some e, p, r) =>
      let '(bb, p) := bodyBuffer p in
      let bb := bb_Write bb (errorText e) in
      (sl_b bb, p <| re_body := Some bb |>, r)
  end.

Definition BodyWriteTo (w : Writer) (p : Response) (r : Reader)
    : option body_error * Writer * Response * Reader :=
  match re_bodyStream p with
  | Some s =>
      let '(_, err, w, (s, h, r)) := copyStream w s (re_Header p) r in
      let '(er, p) := closeBodyStream (p <| re_Header := h |> <| re_bodyStream := Some s |>) err in
      (orErr err er, w, p, r)
  | None => let '(err, w) := Write w (bodyBytes p) in (err, w, p, r)
  end.

Definition SwapBody (errorText : body_error → bytes) (p : Response) (r : Reader) (body : bytes)
    (capacity : Z) : bytes * Response * Reader :=
  let '(bb, p) := bodyBuffer p in
  let '(bb, p, r) :=
    match re_bodyStream p with
    | None => (bb, p, r)
    | Some s =>
        let '(_, err, w, (s, h, r)) := copyStream (mkWriter [] None) s (re_Header p) r in
        let p := p <| re_Header := h |> <| re_bodyStream := Some s |> in
        (match err with
         | None => bb_Write (bb_Reset bb) (w_out w)
         | Some e => bb_Set (bb_Reset bb) (errorText e)
         end, (closeBodyStream p err).2, r)
    end in
  (sl_b bb, p <| re_bodyRaw := None |> <| re_body := Some (mkSlice body capacity) |>, r).

(** ** Reset and copy *)

(** [responseBodyPoolSizeLimit] *)
Context (poolSizeLimit : Z).

Definition releaseLarge (p : Response) : Response :=
  if (0 <=? poolSizeLimit)%Z && bool_decide (is_Some (re_body p))
  then ReleaseBody p poolSizeLimit else p.

Definition resetSkipHeader (p : Response) : Response :=
  let p := ResetBody p in
  p <| re_raddr := None |> <| re_laddr := None |> <| re_compressPool := None |>
    <| re_ImmediateHeaderFlush := false |> <| re_StreamBody := false |> <| re_SkipBody := false |>
    <| re_secureErrorLogMessage := false |>.

Definition Reset (p : Response) : Response :=
  let p := resetSkipHeader (releaseLarge p) in
  p <| re_Header := ResponseHeader.Reset (re_Header p) |>.

Definition resetForKeepAlive (p : Response) : Response :=
  let p := ResetBody (releaseLarge p) in
  p <| re_raddr := None |> <| re_laddr := None |> <| re_compressPool := None |>
    <| re_ImmediateHeaderFlush := false |> <| re_SkipBody := false |>
    <| re_Header := ResponseHeader.resetSkipNormalize ((re_Header p) <| p_headMethod := false |>) |>.

Definition copyToSkipBody (p dst : Response) : Response :=
  let dst := Reset dst in
  dst <| re_Header := ResponseHeader.CopyTo (re_Header p) (re_Header dst) |>
      <| re_raddr := re_raddr p |> <| re_laddr := re_laddr p |>
      <| re_compressPool := re_compressPool p |>
      <| re_ImmediateHeaderFlush := re_ImmediateHeaderFlush p |> <| re_StreamBody := re_StreamBody p |>
      <| re_SkipBody := re_SkipBody p |> <| re_keepBodyBuffer := re_keepBodyBuffer p |>
      <| re_secureErrorLogMessage := re_secureErrorLogMessage p |>.

Definition CopyTo (p dst : Response) : Response :=
  let dst := copyToSkipBody p dst in
  let dst := match re_bodyRaw p with
             | Some b => dst <| re_bodyRaw := if bool_decide (b = []) then re_bodyRaw dst else Some b |>
             | None => dst
             end in
  match re_body p with
  | Some b => let '(bb, dst) := bodyBuffer dst in dst <| re_body := Some (bb_Set bb (sl_b b)) |>
  | None => dst <| re_body := None |>
  end.

Definition swapResponseBody (a b : Response) : Response * Response :=
  (a <| re_body := re_body b |> <| re_bodyRaw := re_bodyRaw b |> <| re_bodyStream := re_bodyStream b |>,
   b <| re_body := re_body a |> <| re_bodyRaw := re_bodyRaw a |> <| re_bodyStream := re_bodyStream a |>).

(** ** Reading a response *)

Definition ReadBody (p : Response) (r : Reader) (maxBodySize : Z) : option body_error * Response * Reader :=
  let contentLength := ResponseHeader.ContentLength (re_Header p) in
  if (contentLength =? 0)%Z then (None, p, r)
  else
    let '(bodyBuf, p) := bodyBuffer p in
    let bodyBuf := bb_Reset bodyBuf in
    let '(b, err, h, r) :=
      if (contentLength >=? 0)%Z then
        let '(b, err, r) := Body.readBody r contentLength maxBodySize bodyBuf in (b, err, re_Header p, r)
      else if (contentLength =? -1)%Z then
        let '(b, err, r) := readBodyChunked r maxBodySize bodyBuf in (b, err, re_Header p, r)
      else
        let '(b, err, r) := readBodyIdentity r maxBodySize bodyBuf in
        (b, err, ResponseHeader.SetContentLength (re_Header p) (Z.of_nat (length (sl_b b))), r) in
    let p := p <| re_body := Some b |> <| re_Header := h |> in
    match err with
    | Some e => (eofTo ErrUnexpectedRespBodyEOF (Some e), p, r)
    | None =>
        if (ResponseHeader.ContentLength h =? -1)%Z then
          let '(h, r, err) := ResponseHeader.ReadTrailer h r in
          (of_header <$> err, p <| re_Header := h |>, r)
        else (None, p, r)
    end.

Definition ReadBodyStream (p : Response) (r : Reader) (maxBodySize : Z)
    : option body_error * Response * Reader :=
  let contentLength := ResponseHeader.ContentLength (re_Header p) in
  if (contentLength =? 0)%Z then (None, p <| re_bodyStream := Some emptyRequestBodyStream |>, r)
  else if (contentLength =? -2)%Z then (None, p <| re_bodyStream := Some streamConn |>, r)
  else
    let '(bodyBuf, p) := bodyBuffer p in
    let bodyBuf := bb_Reset bodyBuf in
    let '(b, allInBuf, err, r) := readBodyWithStreaming r contentLength maxBodySize bodyBuf in
    let empty := mkSlice [] (sl_cap b) in
    match err with
    | Some e =>
        if bool_decide (e = ErrBodyTooLarge) || bool_decide (e = errChunkedStream) then
          (None, p <| re_bodyStream := Some (streamRequest (acquireRequestStream (sl_b b))) |>
                   <| re_body := Some empty |>, r)
        else (eofTo ErrUnexpectedRespBodyEOF (Some e), p <| re_body := Some bodyBuf |>, r)
    | None =>
        if allInBuf then
          (None, p <| re_bodyStream := Some (streamBytes (mkBytesReader (sl_b b))) |>
                   <| re_body := Some bodyBuf |>, r)
        else
          let '(b2, _, r) := Bufio.Peek r (r_size r) in
          (None, p <| re_bodyStream := Some (streamTwo (mkTwoBytes (sl_b b) b2 0 0)) |>
                   <| re_body := Some empty |>, Discard r (r_size r))
    end.

(** The head of a response, past one "100 Continue". *)
Definition readHead (p : Response) (r : Reader) : option body_error * Response * Reader :=
  let '(h, r, err) := ResponseHeader.Read (re_Header p) r in
  let p := p <| re_Header := h |> in
  match err with
  | Some e => (Some (of_header e), p, r)
  | None =>
      let p := ResetBody p in
      if (StatusCode p =? StatusContinue)%Z then
        let '(h, r, err) := ResponseHeader.Read (re_Header p) r in
        (of_header <$> err, p <| re_Header := h |>, r)
      else (None, p, r)
  end.

Definition ReadLimit (p : Response) (r : Reader) (maxBodySize : Z) : option body_error * Response * Reader :=
  match readHead p r with
  | (Some e, p, r) => (Some e, p, r)
  | (None, p, r) =>
      if mustSkipBody p || p_headMethod (re_Header p) then (None, p, r)
      else if re_StreamBody p then ReadBodyStream p r maxBodySize
      else ReadBody p r maxBodySize
  end.

Definition Read (p : Response) (r : Reader) := ReadLimit p r 0.

Definition ReadLimitIfClose (p : Response) (r : Reader) (maxBodySize : Z)
    : bool * option body_error * Response * Reader :=
  match readHead p r with
  | (Some e, p, r) => (false, Some e, p, r)
  | (None, p, r) =>
      if mustSkipBody p || p_headMethod (re_Header p) then (false, None, p, r)
      else
        let closeConn := (p_contentLength (re_Header p) =? -2)%Z in
        let '(err, p, r) := if re_StreamBody p then ReadBodyStream p r maxBodySize
                            else ReadBody p r maxBodySize in
        (closeConn, err, p, r)
  end.
End body.

(** ** Writing a response *)

Section write.
(** The cached date of the server. *)
Context (serverDate : bytes).

Definition WriteHeader (w : Writer) (h : ResponseHeader) : option body_error * Writer * ResponseHeader :=
  let '(b, h) := ResponseHeader.Header h serverDate false in
  let '(err, w) := Write w b in (err, w, h).

Definition writeTrailer (w : Writer) (h : ResponseHeader) : option body_error * Writer * ResponseHeader :=
  let '(b, h) := ResponseHeader.TrailerHeader h in
  let '(err, w) := Write w b in (err, w, h).

Definition writeBodyStream (w : Writer) (p : Response) (r : Reader) (s : Http.BodyStream) (sendBody : bool)
    : option body_error * Writer * Response * Reader :=
  let contentLength := ResponseHeader.ContentLength (re_Header p) in
  let lrSize := limitedReaderSize s in
  let '(contentLength, h) :=
    if (contentLength <? 0)%Z && (0 <=? lrSize)%Z then
      let h := if (contentLength =? -2)%Z then ResponseHeader.SetConnectionClose (re_Header p)
               else re_Header p in
      (lrSize, ResponseHeader.SetContentLength h lrSize)
    else (contentLength, re_Header p) in
  let fuel := stream_fuel s r in
  let stuck w s := (Some ErrNoProgress, w, s) in
  let '(err, w, h) := WriteHeader w h in
  let '(err, w, (s, h, r)) :=
    match err with
    | Some e => (Some e, w, (s, h, r))
    | None =>
        if negb sendBody || (contentLength =? 0)%Z then (None, w, (s, h, r))
        else if (contentLength >? 0)%Z then
          default (stuck w (s, h, r)) (writeBodyFixedSize fuel copyBufSize w (s, h, r) contentLength)
        else if (contentLength =? -1)%Z then
          match default (stuck w (s, h, r)) (writeBodyChunked fuel copyBufSize w (s, h, r)) with
          | (Some e, w, st) => (Some e, w, st)
          | (None, w, (s, h, r)) =>
              let '(err, w, h) := writeTrailer w h in (err, w, (s, h, r))
          end
        else
          let '(_, err, w, st) := copyStream w s h r in (err, w, st)
    end in
  let '(errc, p) := closeBodyStream (p <| re_Header := h |> <| re_bodyStream := Some s |>) err in
  (orErr err errc, w, p, r).

(** [ChunkWriter.Write] of every piece that is not empty. *)
Fixpoint writeChunks (w : Writer) (pieces : list bytes) : option body_error * Writer :=
  match pieces with
  | [] => (None, w)
  | [] :: ps => writeChunks w ps
  | b :: ps =>
      match writeChunk w b with
      | (Some e, w) => (Some e, w)
      | (None, w) => writeChunks w ps
      end
  end.

Definition WriteChunkedStream (w : Writer) (p : Response) (pieces : list bytes) (werr : option body_error)
    : option body_error * Writer * Response :=
  let h := ResponseHeader.SetContentLength (re_Header p) (-1) in
  let '(err, w, h) := WriteHeader w h in
  let p := p <| re_Header := h |> in
  if bool_decide (is_Some err) || mustSkipBody p then (err, w, p)
  else
    let '(err2, w) := writeChunks w pieces in
    match orErr werr err2 with
    | Some e => (Some e, w, p)
    | None =>
        match Write w chunkedEnd with
        | (Some e, w) => (Some e, w, p)
        | (None, w) => let '(err, w, h) := writeTrailer w h in (err, w, p <| re_Header := h |>)
        end
    end.

(** The length line is assembled in 32 bytes. *)
Definition compressedLengthLine (n : nat) : option bytes :=
  let line := HeaderContentLength ++ bs ": " in
  digits ← AppendUintInto (repeat x00 (32 - length line)) (Z.of_nat n);
  Some (take 32 (line ++ digits ++ strCRLF ++ strCRLF)).

(** The error of writing the length line is overwritten by that of the body. *)
Definition WriteCompress (w : Writer) (p : Response) (compress : bytes → bytes + body_error)
    : option body_error * Writer * Response :=
  let sendBody := negb (mustSkipBody p) in
  let body := bodyBytes p in
  if negb sendBody then
    let h := if 0 <? length body
             then ResponseHeader.SetContentLength (re_Header p) (Z.of_nat (length body)) else re_Header p in
    let h := ResponseHeader.DelCanonical h strContentEncoding in
    let '(err, w, h) := WriteHeader w h in (err, w, p <| re_Header := h |>)
  else
    let '(b, h) := ResponseHeader.Header (re_Header p) serverDate true in
    let p := p <| re_Header := h |> in
    match Write w b with
    | (Some e, w) => (Some e, w, p)
    | (None, w) =>
        match compress body with
        | inr e => (Some e, w, p)
        | inl c =>
            match compressedLengthLine (length c) with
            | None => (Some bodyPanic, w, p)
            | Some line =>
                let w := (Write w line).2 in
                let '(err, w) := Write w c in (err, w, p)
            end
        end
    end.

(** A compressed stream is not covered: [None]. *)
Definition Write (w : Writer) (p : Response) (r : Reader)
    : option (option body_error * Writer * Response * Reader) :=
  match re_chunkedW p, re_compressPool p, re_bodyStream p with
  | Some (pieces, werr), None, _ =>
      let '(err, w, p) := WriteChunkedStream w p pieces werr in Some (err, w, p, r)
  | Some _, Some _, _ => None
  | None, Some _, Some _ => None
  | None, Some compress, None =>
      let '(err, w, p) := WriteCompress w p compress in Some (err, w, p, r)
  | None, None, Some s => Some (writeBodyStream w p r s (negb (mustSkipBody p)))
  | None, None, None =>
      let sendBody := negb (mustSkipBody p) in
      let body := bodyBytes p in
      let h := if (sendBody || (0 <? length body)) && negb (p_contentLength (re_Header p) =? -2)%Z
               then ResponseHeader.SetContentLength (re_Header p) (Z.of_nat (length body))
               else re_Header p in
      let '(err, w, h) := WriteHeader w h in
      let p := p <| re_Header := h |> in
      Some match err with
           | Some e => (Some e, w, p, r)
           | None =>
               if negb sendBody then (None, w, p, r)
               else let '(err, w) := Body.Write w body in (err, w, p, r)
           end
  end.
End write.
End Response.
