(* ===== verification/HeaderFacts.v ===== *)
(** Theorems about HeaderScan: key and value normalization, and the scanner: it
    makes progress, keeps the buffer's length, accounts for what it reads, and
    returns printed header lines as they are. *)

From Stdlib Require Import ZArith Strings.Byte.
From stdpp Require Import prelude strings list.
From S2P Require Import Prelude Tables Bufio Bytesconv Args ArgsFacts Uri Cookie CookieFacts.
From S2P Require Import Headers HeaderScan.

(** * Keys *)

Lemma toLower_toUpper c : toLowerTable (toUpperTable c) = toLowerTable c.
Proof. revert c. byte_exhaust. Qed.
Lemma toUpper_toLower c : toUpperTable (toLowerTable c) = toUpperTable c.
Proof. revert c. byte_exhaust. Qed.
Lemma toLower_dash c : toLowerTable c = "-"%byte ↔ c = "-"%byte.
Proof. revert c. byte_exhaust. Qed.

Lemma toUpper_eq c d : toLowerTable c = toLowerTable d → toUpperTable c = toUpperTable d.
Proof. intros E. by rewrite <- (toUpper_toLower c), E, toUpper_toLower. Qed.

(** Induction two bytes at a time, as the loop steps. *)
Lemma bytes_ind2 (P : bytes → Prop) :
  P [] → (∀ c, P [c]) → (∀ c b, P b → P (c :: b)) → (∀ c d b, P b → P (c :: d :: b)) → ∀ b, P b.
Proof. intros H0 H1 H2 H3 b. induction b as [|c b IH]; [done|]. by apply H2. Qed.

Lemma normalize_loop_lower b : toLowerTable <$> normalizeHeaderKey_loop b = toLowerTable <$> b.
Proof.
  induction b as [b IH] using list_length_ind. destruct b as [|c b]; [done|].
  cbn [normalizeHeaderKey_loop]. case_bool_decide.
  - destruct b as [|d b]; [done|]. cbn [fmap list_fmap].
    rewrite toLower_toUpper, IH by (simpl; lia). done.
  - cbn [fmap list_fmap]. rewrite toLower_idemp, IH by (simpl; lia). done.
Qed.

Lemma normalize_loop_eq a b :
  toLowerTable <$> a = toLowerTable <$> b → normalizeHeaderKey_loop a = normalizeHeaderKey_loop b.
Proof.
  revert b. induction a as [a IH] using list_length_ind. intros b E.
  destruct a as [|c a], b as [|d b]; try done. cbn [fmap list_fmap] in E.
  injection E as Ec E. cbn [normalizeHeaderKey_loop].
  destruct (bool_decide_reflect (c = "-"%byte)) as [->|Hc].
  - assert (d = "-"%byte) as -> by (by apply toLower_dash; rewrite <- Ec).
    rewrite bool_decide_true by done.
    destruct a as [|x a], b as [|y b]; try done. cbn [fmap list_fmap] in E. injection E as Ex E.
    rewrite (toUpper_eq x y), (IH a) with (b := b) by (done || simpl; lia). done.
  - rewrite bool_decide_false by (intros ->; apply Hc; by apply toLower_dash).
    rewrite Ec, (IH a) with (b := b) by (done || simpl; lia). done.
Qed.

Lemma normalize_lower b : toLowerTable <$> normalizeHeaderKeyV2 b = toLowerTable <$> b.
Proof.
  destruct b as [|c b]; [done|]. cbn [normalizeHeaderKeyV2 fmap list_fmap].
  by rewrite toLower_toUpper, normalize_loop_lower.
Qed.

(** Normalization identifies exactly the keys that differ in case only. *)
Lemma normalize_eq a b :
  normalizeHeaderKeyV2 a = normalizeHeaderKeyV2 b ↔ toLowerTable <$> a = toLowerTable <$> b.
Proof.
  split.
  - intros E%(f_equal (fmap toLowerTable)). by rewrite !normalize_lower in E.
  - destruct a as [|c a], b as [|d b]; try done. cbn [fmap list_fmap normalizeHeaderKeyV2].
    injection 1 as Ec E. by rewrite (toUpper_eq c d), (normalize_loop_eq a b).
Qed.

Lemma normalize_idemp b : normalizeHeaderKeyV2 (normalizeHeaderKeyV2 b) = normalizeHeaderKeyV2 b.
Proof. apply normalize_eq, normalize_lower. Qed.

Lemma normalize_length b : length (normalizeHeaderKeyV2 b) = length b.
Proof. by rewrite <- (length_fmap toLowerTable), normalize_lower, length_fmap. Qed.

(** * Values *)

Definition no_newline (v : bytes) : Prop := rChar ∉ v ∧ nChar ∉ v.

Lemma spaceNewLine_id v : no_newline v → spaceNewLine <$> v = v.
Proof.
  intros [Hr Hn]. induction v as [|c v IH]; [done|].
  rewrite not_elem_of_cons in Hr, Hn. destruct Hr, Hn. cbn [fmap list_fmap].
  rewrite IH by done. unfold spaceNewLine. by rewrite !bool_decide_false by done.
Qed.

Lemma spaceNewLine_clean v : no_newline (spaceNewLine <$> v).
Proof.
  split; intros (c&E&_)%list_elem_of_fmap; unfold spaceNewLine in E;
    by destruct (bool_decide_reflect (c = rChar)), (bool_decide_reflect (c = nChar)).
Qed.

Lemma elem_of_take_sub {A} (x : A) n l : x ∈ take n l → x ∈ l.
Proof. intros (i&?&_)%elem_of_take. by eapply list_elem_of_lookup_2. Qed.

Lemma IndexByte_take b c n m : IndexByte b c = Some n → m ≤ n → c ∉ take m b.
Proof.
  intros (l&r&->&Hl&->)%IndexByte_Some Hm. rewrite take_app_le by done.
  intros Hc%elem_of_take_sub. done.
Qed.

Lemma newLineStart_prefix raw n : newLineStart raw = Some n → no_newline (take n raw).
Proof.
  unfold newLineStart. intros E.
  destruct (IndexByte raw rChar) as [r|] eqn:Er, (IndexByte raw nChar) as [m|] eqn:Em;
    simplify_eq/=; split.
  all: try (destruct (Nat.ltb_spec m r)).
  all: try (by eapply IndexByte_take; [done|lia]).
  all: try (apply IndexByte_None in Er); try (apply IndexByte_None in Em); try done.
  all: by intros ?%elem_of_take_sub.
Qed.

(** Whatever the starting point found, every newline becomes a space. *)
Lemma newLineStart_spec raw :
  match newLineStart raw with
  | None => raw
  | Some start => take start raw ++ (spaceNewLine <$> drop start raw)
  end = spaceNewLine <$> raw.
Proof.
  destruct (newLineStart raw) as [n|] eqn:E.
  - apply newLineStart_prefix, spaceNewLine_id in E.
    rewrite <- (take_drop n raw) at 3. by rewrite fmap_app, E.
  - symmetry. apply spaceNewLine_id. unfold newLineStart in E.
    destruct (IndexByte raw rChar) eqn:Er, (IndexByte raw nChar) eqn:Em; try done.
    by split; apply IndexByte_None.
Qed.

Lemma initHeaderV_value bufV raw : (initHeaderV bufV raw).1 = spaceNewLine <$> raw.
Proof. unfold initHeaderV. rewrite <- newLineStart_spec. by destruct newLineStart. Qed.

Lemma removeNewLines_spec raw : removeNewLines raw = spaceNewLine <$> raw.
Proof. apply newLineStart_spec. Qed.

Lemma removeNewLinesV2_value kv raw : (removeNewLinesV2 kv raw).1 = spaceNewLine <$> raw.
Proof. unfold removeNewLinesV2. rewrite <- newLineStart_spec. by destruct newLineStart. Qed.

Lemma initHeaderK_key bufK k : (initHeaderK bufK k false).1 = normalizeHeaderKeyV2 k.
Proof. done. Qed.

(** * The scanner *)

Lemma trimRightSpTab_spec v :
  ∃ w, v = trimRightSpTab v ++ w ∧ Forall (λ c, isSpTab c = true) w.
Proof.
  induction v as [|c v (w&Hv&Hw)]; [by exists []|]. cbn [trimRightSpTab].
  destruct (trimRightSpTab v) as [|x t].
  - simpl in Hv. subst w. destruct (isSpTab c) eqn:Ec; [exists (c :: v)|exists v]; auto.
  - exists w. by rewrite Hv at 1.
Qed.

Lemma trimRightSpTab_id v :
  (∀ c, last v = Some c → isSpTab c = false) → trimRightSpTab v = v.
Proof.
  intros Hl. destruct (trimRightSpTab_spec v) as (w&Hv&Hw).
  destruct w as [|x w _] using rev_ind; [by rewrite app_nil_r in Hv|].
  apply Forall_app in Hw as [_ Hx]; rewrite Forall_singleton in Hx.
  rewrite Hl in Hx; [done|]. by rewrite Hv, app_assoc, last_snoc.
Qed.

Lemma leadingSpTab_0 b c : hd_error b = Some c → isSpTab c = false → leadingSpTab b = 0.
Proof. destruct b; simpl; intros [= ->]. intros ->. done. Qed.

Lemma normalizeHeaderValue_loop_length ov ls once :
  length (normalizeHeaderValue_loop ov ls once).1 + (normalizeHeaderValue_loop ov ls once).2
  = length ov.
Proof.
  revert ls once. induction ov as [|c ov IH]; intros ls once; [done|].
  cbn [normalizeHeaderValue_loop length].
  destruct (_ || _).
  - destruct (bool_decide _);
      [specialize (IH true false)|specialize (IH ls once)];
      destruct (normalizeHeaderValue_loop _ _ _); simpl in *; lia.
  - destruct (_ && _); [destruct (negb once)|];
      [specialize (IH ls true)|specialize (IH ls once)|specialize (IH false once)];
      destruct (normalizeHeaderValue_loop _ _ _); simpl in *; lia.
Qed.

(** The end that [scanFold] finds: a newline if it moved at all; a lookahead colon
    belongs to a line that starts with a blank. *)
Lemma scanFold_spec fuel b n multi :
  let '(n', multi', look) := scanFold fuel b n multi in
  n ≤ n' ∧
  (multi = multi' ∧ n' = n ∨ multi' = true ∧ b !! n' = Some nChar ∧ n + 1 < n') ∧
  (∀ c d, look = Some (c, d) → 0 < c ∧ n' + 1 + c < length b ∧
     ∃ x, b !! (n' + 1) = Some x ∧ isSpTab x = true).
Proof.
  revert n multi. induction fuel as [|fuel IH]; intros n multi; cbn [scanFold];
    [by split_and!; auto|].
  destruct (b !! (n + 1)) as [c1|] eqn:E1; [|by split_and!; auto].
  destruct (isSpTab c1) eqn:Eb; cbn [negb]; [|by split_and!; auto].
  destruct (IndexByte (drop (n + 1) b) nChar) as [d|] eqn:Ed; [|by split_and!; auto].
  destruct (bool_decide (d = 0)) eqn:Ed0; [by split_and!; auto|].
  destruct (_ && _); [by split_and!; auto|].
  destruct (IndexByte (take d (drop (n + 1) b)) ":") as [c|] eqn:Ec.
  - split_and!; [auto|auto|]. intros c' d' [= <- <-].
    apply IndexByte_Some in Ec as (l&r&El&Hl&->).
    pose proof (f_equal length El) as Hlen. rewrite length_take, length_drop, length_app in Hlen.
    simpl in Hlen. split_and!; [|lia|eauto].
    destruct l as [|x l]; [|simpl; lia]. exfalso.
    apply (f_equal (lookup 0)) in El. apply bool_decide_eq_false in Ed0.
    rewrite lookup_take_lt, lookup_drop, Nat.add_0_r, E1 in El by lia.
    injection El as ->. done.
  - specialize (IH (n + d + 1) true). destruct (scanFold fuel b (n + d + 1) true) as [[n' m'] look].
    destruct IH as (Hle&Hm&Hlook). split_and!; [lia| |done]. right.
    destruct Hm as [[<- ->]|(->&?&?)]; [|split_and!; auto; lia].
    apply bool_decide_eq_false in Ed0.
    apply IndexByte_Some in Ed as (l&r&El&Hl&->). split_and!; [done| |lia].
    apply (f_equal (lookup (length l))) in El. rewrite lookup_drop, list_lookup_middle in El by done.
    by replace (n + length l + 1) with (n + 1 + length l) by lia.
Qed.

Definition starts_blank (b : bytes) : bool :=
  match b with c :: _ => isSpTab c | [] => false end.

Definition lineEnd (t : bytes) : nat :=
  match t with
  | c :: t => if bool_decide (c = rChar) then
                if bool_decide (t !! 0 = Some nChar) then 2 else 1
              else if bool_decide (c = nChar) then 1 else 0
  | [] => 0
  end.

(** [normalizeHeaderValue] on a value [ov] followed by [t]: [t] moves up behind the
    joined value. *)
Lemma normalizeHeaderValue_eq ov t hl :
  ov ≠ [] → t ≠ [] → (hd_error t = Some rChar → 2 ≤ length t) →
  ∃ nv stale,
    normalizeHeaderValue ov (ov ++ t) hl
    = (nv, nv ++ take (lineEnd t) t, drop (lineEnd t) t, stale,
       (hl - Z.of_nat (length stale))%Z) ∧
    length nv + length stale = length ov ∧ lineEnd t ≤ length t.
Proof.
  intros Hov Ht Hr. unfold normalizeHeaderValue.
  rewrite bool_decide_false by (by destruct ov).
  pose proof (normalizeHeaderValue_loop_length ov false false) as Hlen.
  destruct (normalizeHeaderValue_loop ov false false) as [nv shrunk]. cbn [fst snd] in Hlen.
  rewrite Hlen, drop_app_length. set (stale := drop _ (ov ++ t)).
  assert (length stale = shrunk) as Hs
    by (unfold stale; rewrite length_drop, length_app; lia).
  assert ((nv ++ t ++ stale) !! length nv = hd_error t) as ->.
  { rewrite lookup_app_r, Nat.sub_diag by lia. by destruct t. }
  assert (lineEnd t ≤ length t) as Hle.
  { destruct t as [|c [|d t]]; [done|..]; simpl in *; repeat case_bool_decide; simplify_eq/=; try lia. }
  assert (match hd_error t with
          | Some c => if bool_decide (c = rChar) then
              if bool_decide ((nv ++ t ++ stale) !! (length nv + 1) = Some nChar) then 2 else 1
              else if bool_decide (c = nChar) then 1 else 0
          | None => 0 end = lineEnd t) as ->.
  { rewrite lookup_app_r by lia. replace (length nv + 1 - length nv) with 1 by lia.
    destruct t as [|c [|d t]]; [done|..]; cbn [hd_error lineEnd]; [|done].
    case_bool_decide as Hc; [|done]. rewrite Hc in Hr. specialize (Hr eq_refl). simpl in Hr. lia. }
  exists nv, stale. split; [|lia]. rewrite Hs.
  assert (take (length nv + lineEnd t) (nv ++ t ++ stale) = nv ++ take (lineEnd t) t) as ->
    by (by rewrite take_app_add', take_app_le).
  assert (drop (length nv + lineEnd t) (nv ++ t ++ stale) = drop (lineEnd t) t ++ stale) as ->
    by (by rewrite drop_app_add', drop_app_le).
  rewrite take_app_length' by (rewrite length_drop, length_app; lia).
  rewrite app_assoc, drop_app_length' by (rewrite !length_app; lia). done.
Qed.

(** The value without its line end and trailing blanks. *)
Definition trimmedValue (b : bytes) (n : nat) : bytes :=
  let v := take n b in
  trimRightSpTab (if bool_decide (last v = Some rChar) then take (n - 1) v else v).

Lemma isSpTab_not_newline c : isSpTab c = true → c ≠ rChar ∧ c ≠ nChar.
Proof. revert c. byte_exhaust. Qed.

Lemma blank_lineEnd w t :
  Forall (λ c, isSpTab c = true) w → w ≠ [] →
  starts_blank (w ++ t) = true ∧ lineEnd (w ++ t) = 0 ∧ hd_error (w ++ t) ≠ Some rChar.
Proof.
  intros [|c w' Hc _] Hne; [done|]. cbn. apply isSpTab_not_newline in Hc as Hn. destruct Hn.
  rewrite !bool_decide_false by done. split_and!; [done|done|congruence].
Qed.

(** What follows the trimmed value: its line end, or the blanks that were trimmed. *)
Lemma trimmedValue_spec b n :
  b !! n = Some nChar →
  ∃ t, b = trimmedValue b n ++ t ∧ t ≠ [] ∧ (hd_error t = Some rChar → 2 ≤ length t) ∧
    (starts_blank t = true ∧ lineEnd t = 0 ∨ length (trimmedValue b n) + lineEnd t = n + 1).
Proof.
  intros Hn. unfold trimmedValue. pose proof (lookup_lt_Some _ _ _ Hn) as Hlt.
  assert (b = take n b ++ nChar :: drop (S n) b) as Hb
    by (by rewrite <- (take_drop_middle b n nChar Hn) at 1).
  assert (length (take n b) = n) as Hl by (rewrite length_take; lia).
  set (r := drop (S n) b) in *. revert Hb Hl. generalize (take n b) as v0. intros v0 Hb Hl.
  case_bool_decide as Hlast.
  - apply last_Some in Hlast as (u&->). rewrite length_app in Hl. simpl in Hl.
    replace (n - 1) with (length u) by lia. rewrite take_app_length.
    destruct (trimRightSpTab_spec u) as (w&Hu&Hw). exists (w ++ rChar :: nChar :: r).
    split_and!.
    + rewrite Hb, Hu at 1. by rewrite <- !app_assoc.
    + by destruct w.
    + rewrite length_app. simpl. lia.
    + destruct (decide (w = [])) as [->|Hne].
      * right. rewrite app_nil_r in Hu. rewrite <- Hu. change (lineEnd _) with 2. lia.
      * left. by destruct (blank_lineEnd w (rChar :: nChar :: r) Hw Hne) as (?&?&?).
  - destruct (trimRightSpTab_spec v0) as (w&Hu&Hw). exists (w ++ nChar :: r).
    split_and!.
    + rewrite Hb, Hu at 1. by rewrite <- !app_assoc.
    + by destruct w.
    + destruct (decide (w = [])) as [->|Hne]; [done|]. intros Hh.
      by destruct (blank_lineEnd w (nChar :: r) Hw Hne) as (?&?&?).
    + destruct (decide (w = [])) as [->|Hne].
      * right. rewrite app_nil_r in Hu. rewrite <- Hu. change (lineEnd _) with 1. lia.
      * left. by destruct (blank_lineEnd w (nChar :: r) Hw Hne) as (?&?&?).
Qed.

Lemma trimmedValue_le b n : length (trimmedValue b n) ≤ n.
Proof.
  unfold trimmedValue. destruct (trimRightSpTab_spec (if bool_decide (last (take n b) = Some rChar)
    then take (n - 1) (take n b) else take n b)) as (w&Hv&_).
  apply (f_equal length) in Hv. rewrite length_app in Hv.
  destruct (bool_decide _); rewrite !length_take in Hv; lia.
Qed.

(** A value of at least two bytes that starts with no blank does not trim to nothing. *)
Lemma trimmedValue_nonempty b n :
  starts_blank b = false → 2 ≤ n → n < length b → trimmedValue b n ≠ [].
Proof.
  intros Hb Hn2 Hn He. destruct b as [|x b]; [simpl in Hn; lia|]. destruct n as [|[|n]]; [lia..|].
  unfold trimmedValue in He.
  destruct (trimRightSpTab_spec (if bool_decide (last (take (S (S n)) (x :: b)) = Some rChar)
    then take (S (S n) - 1) (take (S (S n)) (x :: b)) else take (S (S n)) (x :: b))) as (w&Hv&Hw).
  rewrite He in Hv. cbn [app] in Hv. subst w. cbn [starts_blank] in Hb.
  assert (isSpTab x = true) as Hx; [|congruence].
  destruct (bool_decide _); [cbn [take Nat.sub] in Hw|]; exact (Forall_inv Hw).
Qed.

Lemma starts_blank_drop b n x :
  b !! n = Some x → isSpTab x = true → starts_blank (drop n b) = true.
Proof. intros Hx Hb. by rewrite (drop_S b x n Hx). Qed.

(** Joining a folded value: nothing is lost from the buffer, and the scan goes on
    behind the line end, or at blanks that were trimmed from the value. *)
Lemma normalizeHeaderValue_scan b n hl :
  b !! n = Some nChar → starts_blank b = false → 2 ≤ n →
  let '(_, scanned, nb, stale, hl') := normalizeHeaderValue (trimmedValue b n) b hl in
  length scanned + length nb + length stale = length b ∧ length b ≤ length nb + n + 1 ∧
  (starts_blank nb = true ∨
   nb = drop (n + 1) b ∧ hl' = (hl - Z.of_nat (n + 1) + Z.of_nat (length scanned))%Z).
Proof.
  intros Hn Hb0 Hn2. destruct (trimmedValue_spec b n Hn) as (t&Hb&Ht&Hr&Hend).
  pose proof (lookup_lt_Some _ _ _ Hn) as Hlt.
  pose proof (trimmedValue_nonempty b n Hb0 Hn2 Hlt) as Hne.
  destruct (normalizeHeaderValue_eq _ t hl Hne Ht Hr) as (nv&stale&E&Hlen&Hle).
  rewrite <- Hb in E. rewrite E. pose proof (f_equal length Hb) as Hlb. rewrite length_app in Hlb.
  pose proof (trimmedValue_le b n) as Hv.
  split; [rewrite length_app, length_take, length_drop; lia|].
  split; [rewrite length_drop; lia|].
  destruct Hend as [[Hbl ->]|He]; [left; by rewrite drop_0|right].
  split; [|rewrite length_app, length_take; lia].
  transitivity (drop (n + 1) (trimmedValue b n ++ t)); [|by rewrite <- Hb].
  by rewrite <- He, drop_app_add'.
Qed.

Lemma scanValue_spec s n :
  n < length (s_b s) → starts_blank (s_b s) = false →
  ∃ s', scanValue s n = (true, s') ∧ s_key s' = s_key s ∧ s_err s' = s_err s ∧
    s_disableNormalizing s' = s_disableNormalizing s ∧
    length (s_buf s') = length (s_buf s) ∧ length (s_b s') ≤ length (s_b s) ∧
    (s_nextColon s = None → ∀ c, s_nextColon s' = Some c →
       0 < c < length (s_b s') ∧ starts_blank (s_b s') = true) ∧
    (s_b s !! n = Some nChar → starts_blank (s_b s') = true ∨
       s_nextColon s' = s_nextColon s ∧ s_nextNewLine s' = s_nextNewLine s ∧
       (s_hLen s' + Z.of_nat (length (s_done s)) = s_hLen s + Z.of_nat (length (s_done s')))%Z).
Proof.
  intros Hn Hb0. unfold scanValue. set (b := s_b s) in *.
  pose proof (scanFold_spec (length b) b n false) as Hf.
  destruct (scanFold (length b) b n false) as [[n' multi] look].
  destruct Hf as (Hle&Hmulti&Hlook).
  assert (n' < length b) as Hn'.
  { destruct Hmulti as [[_ ->]|(_&H&_)]; [done|]. by eapply lookup_lt_Some. }
  assert ((length b <=? n') = false) as -> by (apply Nat.leb_gt; lia).
  set (s1 := match look with Some _ => _ | None => _ end).
  assert (s_key s1 = s_key s ∧ s_err s1 = s_err s ∧ s_done s1 = s_done s ∧
    s_disableNormalizing s1 = s_disableNormalizing s ∧ s_tail s1 = s_tail s ∧ s_hLen s1 = s_hLen s)
    as (E1&E2&E3&E4&E5&E6) by (unfold s1; destruct look as [[??]|]; done).
  fold (trimmedValue b n').
  assert (∀ rest, (starts_blank rest = true ∨ rest = drop (n' + 1) b) →
    length b ≤ length rest + n' + 1 → s_nextColon s = None →
    ∀ c, s_nextColon s1 = Some c → 0 < c < length rest ∧ starts_blank rest = true) as Hcolon.
  { intros rest Hrest Hrl H0 c. unfold s1. destruct look as [[c' d']|]; [|congruence].
    intros [= <-]. destruct (Hlook c' d' eq_refl) as (?&?&x&Hx&Hb). split; [lia|].
    destruct Hrest as [?| ->]; [done|]. by eapply starts_blank_drop. }
  assert (starts_blank (drop (n' + 1) b) = true ∨
    s_nextColon s1 = s_nextColon s ∧ s_nextNewLine s1 = s_nextNewLine s) as Hlk.
  { unfold s1. destruct look as [[c d]|]; [left|by right].
    destruct (Hlook c d eq_refl) as (_&_&x&Hx&Hb). by eapply starts_blank_drop. }
  destruct multi.
  - destruct Hmulti as [[? _]|(_&HLF&Hgt)]; [done|].
    pose proof (normalizeHeaderValue_scan b n' (s_hLen s1 + Z.of_nat n' + 1) HLF Hb0
      ltac:(lia)) as Hnv.
    destruct (normalizeHeaderValue _ _ _) as [[[[nv scanned] nb] stale] hl'].
    destruct Hnv as (Hlen&Hnl&Hnb). eexists. split; [done|]. unfold s_buf. cbn.
    rewrite ?E1, ?E2, ?E3, ?E4, ?E5, !length_app. fold b. split_and!; try done; try lia.
    + apply Hcolon; [naive_solver|done].
    + intros _. destruct Hnb as [?|[-> ->]]; [by left|].
      destruct Hlk as [?|[-> ->]]; [by left|right]. split_and!; try done. lia.
  - eexists. split; [done|]. unfold s_buf. cbn. rewrite ?E1, ?E2, ?E3, ?E4, ?E5, ?E6, !length_app, length_take, length_drop. fold b.
    split_and!; try done; try lia.
    + rewrite <- length_drop. apply Hcolon; [by right|rewrite length_drop; lia].
    + intros _. destruct Hlk as [?|[-> ->]]; [by left|right]. split_and!; try done. lia.
Qed.

(** A cached colon lies on a line that starts with a blank. *)
Definition colon_inv (s : headerScanner) : Prop :=
  ∀ c, s_nextColon s = Some c → 0 < c < length (s_b s) ∧ starts_blank (s_b s) = true.

(** Nothing is cached, and the length counts what has been scanned. *)
Definition settled (s : headerScanner) : Prop :=
  s_nextColon s = None ∧ (s_nextNewLine s < 0)%Z ∧ s_hLen s = Z.of_nat (length (s_done s)).

Lemma settled_colon_inv s : settled s → colon_inv s.
Proof. intros [E _] c. by rewrite E. Qed.

Lemma leadingSpTab_le b : leadingSpTab b ≤ length b.
Proof. induction b as [|c b IH]; cbn; [done|]. destruct (isSpTab c); lia. Qed.

Lemma leadingSpTab_drop b : starts_blank (drop (leadingSpTab b) b) = false.
Proof.
  induction b as [|c b IH]; [done|]. cbn [leadingSpTab]. destruct (isSpTab c) eqn:E; [done|].
  cbn [drop starts_blank]. done.
Qed.

Lemma scanValue_oob s n : length (s_b s) ≤ n → ∃ s', scanValue s n = (false, s') ∧
  s_err s' = Some errNeedMore ∧ s_buf s' = s_buf s.
Proof.
  intros Hn. unfold scanValue.
  assert (scanFold (length (s_b s)) (s_b s) n false = (n, false, None)) as ->.
  { destruct (length (s_b s)) as [|k] eqn:El; [done|]. cbn [scanFold].
    by rewrite lookup_ge_None_2 by lia. }
  assert ((length (s_b s) <=? n) = true) as -> by (by apply Nat.leb_le).
  by eexists.
Qed.

Lemma scanLine_spec s n :
  n < length (s_b s) →
  ∃ ok s', scanLine s n = (ok, s') ∧ length (s_buf s') = length (s_buf s) ∧
  if ok then
    s_key s' = (if s_disableNormalizing s then take n (s_b s)
                else normalizeHeaderKeyV2 (take n (s_b s))) ∧
    s_err s' = s_err s ∧ s_disableNormalizing s' = s_disableNormalizing s ∧
    length (s_b s') < length (s_b s) ∧ colon_inv s' ∧
    (settled s → starts_blank (s_b s') = true ∨ settled s')
  else s_err s' ≠ None.
Proof.
  intros Hn. unfold scanLine. set (b := s_b s) in *.
  set (k := if s_disableNormalizing s then take n b else normalizeHeaderKeyV2 (take n b)).
  assert (length k = n) as Hk.
  { unfold k. destruct (s_disableNormalizing s); rewrite ?normalize_length, length_take; lia. }
  set (ws := leadingSpTab (drop (n + 1) b)).
  assert (starts_blank (drop (n + 1 + ws) b) = false) as Hnb
    by (rewrite <- drop_drop; apply leadingSpTab_drop).
  assert (ws ≤ length b - (n + 1)) as Hws
    by (pose proof (leadingSpTab_le (drop (n + 1) b)); rewrite length_drop in *; done).
  set (s1 := upd s_b _ _).
  assert (length (s_buf s1) = length (s_buf s)) as Hbuf.
  { unfold s_buf. cbn. rewrite !length_app, length_take, !length_drop, Hk. fold b. lia. }
  assert (∀ s2 m, s_buf s2 = s_buf s1 → s_b s2 = s_b s1 → s_key s2 = k → s_err s2 = s_err s →
    s_nextColon s2 = None → s_disableNormalizing s2 = s_disableNormalizing s →
    (settled s → s_b s1 !! m = Some nChar ∧ settled s2) →
    ∃ ok s', scanValue s2 m = (ok, s') ∧ length (s_buf s') = length (s_buf s) ∧
    if ok then s_key s' = k ∧ s_err s' = s_err s ∧
      s_disableNormalizing s' = s_disableNormalizing s ∧
      length (s_b s') < length b ∧ colon_inv s' ∧
      (settled s → starts_blank (s_b s') = true ∨ settled s')
    else s_err s' ≠ None) as Hval.
  { intros s2 m Eb2 E2 Ek Ee Ec Ed Hset.
    destruct (le_lt_dec (length (s_b s2)) m) as [Hm|Hm].
    { destruct (scanValue_oob s2 m Hm) as (s'&->&E'&Eb'). exists false, s'.
      split; [done|]. rewrite Eb', Eb2, E'. done. }
    destruct (scanValue_spec s2 m Hm) as (s'&->&Ek'&Ee'&Ed'&Hb'&Hl'&Hc'&Hs'); [by rewrite E2|].
    exists true, s'. split; [done|]. rewrite Hb', Eb2, Ek', Ee', Ed'.
    split; [done|]. split_and!; try done.
    - rewrite E2 in Hl'. unfold s1 in Hl'. cbn in Hl'. rewrite length_drop in Hl'. lia.
    - intros c Hc. by apply Hc'.
    - intros Hst. destruct (Hset Hst) as [HLF (S1&S2&S3)]. rewrite E2 in Hs'.
      destruct (Hs' HLF) as [?|(H1&H2&H3)]; [by left|right]. split_and!; [congruence|lia|lia]. }
  destruct (0 <=? s_nextNewLine s1)%Z eqn:Enl.
  - apply Hval; try done. intros (_&Hst&_). unfold s1 in Enl. cbn in Enl.
    apply Z.leb_le in Enl. lia.
  - destruct (IndexByte (drop (n + 1 + ws) b) nChar) as [m|] eqn:Em.
    + apply Hval; try done. intros (S1&S2&S3). split.
      * apply IndexByte_Some in Em as (l&r&El&_&->). cbn. fold b ws. rewrite El.
        by apply list_lookup_middle.
      * split_and!; [done|cbn; fold ws; lia|]. cbn. fold ws k.
        rewrite !length_app, length_take, length_drop. fold b. rewrite Hk. lia.
    + exists false. eexists. split; [done|]. by split.
Qed.

(** A successful step consumes input, keeps the buffer's length and the invariant. *)
Lemma next_true s s' :
  colon_inv s → next s = (true, s') →
  colon_inv s' ∧ length (s_b s') < length (s_b s) ∧ length (s_buf s') = length (s_buf s) ∧
  s_err s' = s_err s ∧ s_disableNormalizing s' = s_disableNormalizing s ∧
  (settled s → starts_blank (s_b s') = true ∨ settled s') ∧
  (starts_blank (s_b s) = true → starts_blank (s_key s') = true).
Proof.
  intros Hinv. unfold next. destruct (HasPrefix _ _); [done|]. destruct (HasPrefix _ _); [done|].
  destruct (scanColon s) as [n|e] eqn:Ec; [|done].
  assert (n < length (s_b s) ∧ (starts_blank (s_b s) = true → 0 < n)) as [Hn Hb].
  { unfold scanColon in Ec. destruct (s_nextColon s) as [c|] eqn:E.
    - simplify_eq. destruct (Hinv _ E) as [[??] ?]. lia.
    - destruct (IndexByte (s_b s) nChar) as [x|]; [|done].
      destruct (IndexByte (s_b s) ":") as [m|] eqn:Em; [|done]. destruct (_ <? _); [done|].
      simplify_eq. apply IndexByte_Some in Em as (l&r&Hb&_&->). rewrite Hb, length_app. simpl.
      split; [lia|]. destruct l; simpl; [done|lia]. }
  destruct (scanLine_spec s n Hn) as (ok&s1&->&Hl&H). intros [= -> <-].
  destruct H as (Hk&He&Hd&Hlt&Hc&Hs). split_and!; try done.
  intros Hbl. rewrite Hk. destruct (s_b s) as [|x b]; [done|]. destruct n as [|n]; [by apply Hb in Hbl; lia|].
  cbn [take starts_blank] in *. destruct (s_disableNormalizing s); [done|]. cbn.
  revert Hbl. clear. revert x. byte_exhaust.
Qed.

Lemma HasPrefix_split b p : HasPrefix b p = true → b = p ++ drop (length p) b.
Proof.
  revert b. induction p as [|y p IH]; intros b; [done|]. destruct b as [|x b]; [done|]. cbn.
  destruct (bool_decide_reflect (x = y)) as [->|]; [|done]. intros E. by rewrite <- IH.
Qed.

Lemma scanColon_lt s n : colon_inv s → scanColon s = inl n → n < length (s_b s).
Proof.
  intros Hinv Ec. unfold scanColon in Ec. destruct (s_nextColon s) as [c|] eqn:E.
  - simplify_eq. by destruct (Hinv _ E) as [[??] ?].
  - destruct (IndexByte (s_b s) nChar) as [x|]; [|done].
    destruct (IndexByte (s_b s) ":") as [m|] eqn:Em; [|done]. destruct (_ <? _); [done|].
    simplify_eq. apply IndexByte_Some in Em as (l&r&Hb&_&->). rewrite Hb, length_app. simpl. lia.
Qed.

(** The scan ends at the blank line or with an error. *)
Lemma next_false s s' :
  colon_inv s → next s = (false, s') →
  length (s_buf s') = length (s_buf s) ∧
  (starts_blank (s_b s) = true → s_err s' ≠ None) ∧
  (settled s → s_err s' = None → s_hLen s' = Z.of_nat (length (s_done s'))).
Proof.
  intros Hinv. unfold next.
  destruct (HasPrefix (s_b s) strCRLF) eqn:E1; [|destruct (HasPrefix (s_b s) [nChar]) eqn:E2].
  1,2: intros [= <-]; apply HasPrefix_split in E1 || apply HasPrefix_split in E2;
    unfold s_buf; cbn; rewrite !length_app;
    (split_and!; [apply (f_equal length) in E1 || apply (f_equal length) in E2;
                  rewrite length_app in *; cbn in *; lia
                 |rewrite E1 || rewrite E2; done
                 |intros (_&_&->); cbn; lia]).
  destruct (scanColon s) as [n|e] eqn:Ec.
  - destruct (scanLine_spec s n (scanColon_lt s n Hinv Ec)) as (ok&s1&->&Hl&H).
    intros [= -> <-]. split_and!; done.
  - intros [= <-]. split_and!; done.
Qed.

(** * Printed header lines *)

Definition token (k : bytes) : Prop := k ≠ [] ∧ forallb validHeaderFieldByte k = true.

Definition value_ok (v : bytes) : Prop :=
  forallb validHeaderValueByte v = true ∧ starts_blank v = false ∧
  ∀ c, last v = Some c → isSpTab c = false.

Definition hdr_line (k v : bytes) : bytes := appendHeaderLine [] k v.

Lemma appendHeaderLine_line dst k v : appendHeaderLine dst k v = dst ++ hdr_line k v.
Proof. done. Qed.

Lemma field_byte c : validHeaderFieldByte c = true →
  c ≠ ":"%byte ∧ c ≠ rChar ∧ c ≠ nChar ∧ isSpTab c = false ∧ c ≠ ","%byte.
Proof. revert c. byte_exhaust. Qed.

Lemma value_byte c : validHeaderValueByte c = true → c ≠ rChar ∧ c ≠ nChar.
Proof. revert c. byte_exhaust. Qed.

Lemma forallb_elem {A} (f : A → bool) l x : forallb f l = true → x ∈ l → f x = true.
Proof. intros Hl Hx. apply (forallb_forall f l) with (x := x) in Hl; [done|]. by apply list_elem_of_In. Qed.

Lemma token_clean k : token k → ":"%byte ∉ k ∧ nChar ∉ k ∧ rChar ∉ k ∧ ","%byte ∉ k.
Proof.
  intros [_ Hk]. split_and!; intros Hin; apply (forallb_elem _ _ _ Hk), field_byte in Hin; naive_solver.
Qed.

Lemma value_clean v : value_ok v → no_newline v.
Proof.
  intros [Hv _]. split; intros Hin; apply (forallb_elem _ _ _ Hv), value_byte in Hin; naive_solver.
Qed.

(** The line end of a value. *)
Lemma trimmedValue_line v rest :
  value_ok v → trimmedValue (v ++ strCRLF ++ rest) (length v + 1) = v.
Proof.
  intros (Hv&_&Hl). unfold trimmedValue. rewrite app_assoc.
  assert (take (length v + 1) ((v ++ strCRLF) ++ rest) = v ++ [rChar]) as ->.
  { rewrite <- app_assoc. by rewrite take_app_add'. }
  rewrite last_snoc, bool_decide_true by done.
  rewrite take_app_le, firstn_all2 by lia. by apply trimRightSpTab_id.
Qed.

Lemma scanFold_stop fuel b n m :
  starts_blank (drop (n + 1) b) = false → scanFold fuel b n m = (n, m, None).
Proof.
  intros Hb. destruct fuel as [|fuel]; [done|]. cbn [scanFold].
  destruct (b !! (n + 1)) as [c|] eqn:E; [|done].
  rewrite (drop_S _ _ _ E) in Hb. cbn [starts_blank] in Hb. by rewrite Hb.
Qed.

Lemma scanValue_line s v rest :
  value_ok v → starts_blank rest = false → s_b s = v ++ strCRLF ++ rest →
  scanValue s (length v + 1)
  = (true, s <| s_value := v |> <| s_done := s_done s ++ v ++ strCRLF |> <| s_b := rest |>
             <| s_hLen := (s_hLen s + Z.of_nat (length v + 2))%Z |>).
Proof.
  intros Hv Hr Hb. unfold scanValue. rewrite Hb.
  assert (drop (length v + 1 + 1) (v ++ strCRLF ++ rest) = rest) as Hd.
  { replace (length v + 1 + 1) with (length v + 2) by lia. by rewrite drop_app_add'. }
  rewrite scanFold_stop by (by rewrite Hd).
  fold (trimmedValue (v ++ strCRLF ++ rest) (length v + 1)).
  assert ((length (v ++ strCRLF ++ rest) <=? length v + 1) = false) as ->
    by (apply Nat.leb_gt; rewrite !length_app; simpl; lia).
  rewrite trimmedValue_line, Hd by done.
  assert (take (length v + 1 + 1) (v ++ strCRLF ++ rest) = v ++ strCRLF) as ->.
  { replace (length v + 1 + 1) with (length v + 2) by lia. by rewrite take_app_add'. }
  f_equal. destruct s; cbn. f_equal. lia.
Qed.

Lemma IndexByte_line k v rest :
  token k → value_ok v →
  IndexByte (hdr_line k v ++ rest) ":" = Some (length k) ∧
  IndexByte (hdr_line k v ++ rest) nChar = Some (length k + length v + 3).
Proof.
  intros (H1&H2&_&_)%token_clean [_ H3]%value_clean. unfold hdr_line, appendHeaderLine. cbn [app].
  split.
  - rewrite <- app_assoc. cbn [strColonSpace bs String.list_byte_of_string app].
    by apply IndexByte_app.
  - apply IndexByte_Some. exists (k ++ strColonSpace ++ v ++ [rChar]), rest.
    split_and!; [by rewrite <- !app_assoc|set_solver|]. rewrite !length_app. simpl. lia.
Qed.

Lemma HasPrefix_line k v rest :
  token k → HasPrefix (hdr_line k v ++ rest) strCRLF = false ∧
            HasPrefix (hdr_line k v ++ rest) [nChar] = false.
Proof.
  intros Hk. destruct (token_clean k Hk) as (_&Hn&Hr&_). destruct Hk as [Hk _].
  destruct k as [|c k]; [done|]. rewrite not_elem_of_cons in Hn, Hr. destruct Hn, Hr.
  cbn. by rewrite !bool_decide_false by done.
Qed.

(** Scanning a printed line gives back its key and value, whatever follows. *)
Lemma next_line s k v rest :
  settled s → token k → value_ok v → starts_blank rest = false →
  s_b s = hdr_line k v ++ rest →
  let key' := if s_disableNormalizing s then k else normalizeHeaderKeyV2 k in
  ∃ s', next s = (true, s') ∧ settled s' ∧ s_key s' = key' ∧ s_value s' = v ∧ s_b s' = rest ∧
    s_tail s' = s_tail s ∧ s_done s' = s_done s ++ hdr_line key' v ∧ s_err s' = s_err s ∧
    s_disableNormalizing s' = s_disableNormalizing s.
Proof.
  intros (Sc&Sn&Sl) Hk Hv Hr Hb key'. unfold next. rewrite Hb.
  destruct (HasPrefix_line k v rest Hk) as [-> ->]. unfold scanColon. rewrite Sc, Hb.
  destruct (IndexByte_line k v rest Hk Hv) as [-> ->].
  assert ((length k + length v + 3 <? length k) = false) as -> by (apply Nat.ltb_ge; lia).
  unfold scanLine. rewrite Hb.
  assert (hdr_line k v ++ rest = k ++ ":"%byte :: " "%byte :: v ++ strCRLF ++ rest) as ->.
  { unfold hdr_line, appendHeaderLine. cbn [app]. by rewrite <- !app_assoc. }
  rewrite take_app_length. fold key'.
  assert (drop (length k + 1) (k ++ ":"%byte :: " "%byte :: v ++ strCRLF ++ rest)
    = " "%byte :: v ++ strCRLF ++ rest) as -> by (by rewrite drop_app_add').
  assert (leadingSpTab (" "%byte :: v ++ strCRLF ++ rest) = 1) as ->.
  { destruct Hv as (_&Hb0&_). destruct v as [|c v]; [done|]. cbn in Hb0 |- *. by rewrite Hb0. }
  assert (drop (length k + 1 + 1) (k ++ ":"%byte :: " "%byte :: v ++ strCRLF ++ rest)
    = v ++ strCRLF ++ rest) as -> by (by rewrite <- Nat.add_assoc, drop_app_add').
  rewrite drop_app_length.
  set (s1 := upd s_b _ _). assert ((0 <=? s_nextNewLine s1)%Z = false) as ->
    by (apply Z.leb_gt; cbn; lia).
  assert (IndexByte (v ++ strCRLF ++ rest) nChar = Some (length v + 1)) as ->.
  { apply IndexByte_Some. exists (v ++ [rChar]), rest. destruct (value_clean v Hv).
    split_and!; [by rewrite <- app_assoc|set_solver|]. rewrite length_app. simpl. lia. }
  rewrite (scanValue_line s1 v rest) by done. eexists. split; [done|].
  assert (length key' = length k) as Hl
    by (unfold key'; destruct (s_disableNormalizing s); rewrite ?normalize_length; done).
  split_and!; try done.
  - split_and!; [done|cbn; lia|]. cbn. rewrite !length_app, Hl. simpl. lia.
  - cbn. unfold hdr_line, appendHeaderLine. cbn [app]. by rewrite <- !app_assoc.
Qed.

Definition hdr_lines (l : list (bytes * bytes)) : bytes := l ≫= λ kv, hdr_line kv.1 kv.2.

Definition lines_ok (l : list (bytes * bytes)) : Prop := Forall (λ kv, token kv.1 ∧ value_ok kv.2) l.

Lemma hdr_lines_blank l rest : lines_ok l → starts_blank (hdr_lines l ++ strCRLF ++ rest) = false.
Proof.
  intros [|[k v] l' [Hk _] _]; [done|]. destruct Hk as [Hne Hk]. destruct k as [|c k]; [done|].
  cbn in Hk |- *. apply andb_prop in Hk as [Hc _]. by apply field_byte in Hc as (_&_&_&?&_).
Qed.

Lemma next_end s rest :
  s_b s = strCRLF ++ rest →
  next s = (false, s <| s_done := s_done s ++ strCRLF |> <| s_b := rest |>
                     <| s_hLen := (s_hLen s + 2)%Z |>).
Proof. intros Hb. unfold next. by rewrite Hb. Qed.

(** * The raw header block *)

Lemma length_hdr_line k v : length (hdr_line k v) = length k + length v + 4.
Proof. unfold hdr_line, appendHeaderLine. rewrite !length_app. simpl. lia. Qed.

Lemma hdr_line_LF k v : token k → value_ok v →
  ∃ l, hdr_line k v = l ++ [nChar] ∧ nChar ∉ l.
Proof.
  intros (_&Hk&_&_)%token_clean [_ Hv]%value_clean.
  exists (k ++ strColonSpace ++ v ++ [rChar]). unfold hdr_line, appendHeaderLine. cbn [app].
  split; [by rewrite <- !app_assoc|set_solver].
Qed.

Lemma readRawHeaders_loop_lines fuel l rest n :
  lines_ok l → length l < fuel →
  readRawHeaders_loop fuel (hdr_lines l ++ strCRLF ++ rest) n = Some (n + length (hdr_lines l) + 2).
Proof.
  intros Hl. revert fuel n. induction Hl as [|[k v] l [Hk Hv] Hl IH]; intros fuel n Hf;
    (destruct fuel as [|fuel]; [simpl in Hf; lia|]); cbn [readRawHeaders_loop].
  - cbn. f_equal. lia.
  - cbn [hdr_lines mbind list_bind fst snd] in *. fold (hdr_lines l).
    rewrite <- app_assoc. destruct (IndexByte_line k v (hdr_lines l ++ strCRLF ++ rest) Hk Hv) as [_ ->].
    rewrite (bool_decide_false (_ = 2)), (bool_decide_false (_ = 1)) by lia. cbn [andb orb].
    rewrite drop_app_length' by (rewrite length_hdr_line; lia).
    rewrite IH by (simpl in Hf; lia). rewrite length_app, length_hdr_line. f_equal. lia.
Qed.

Lemma length_hdr_lines l : length l ≤ length (hdr_lines l).
Proof.
  induction l as [|[k v] l IH]; [done|]. cbn [hdr_lines mbind list_bind]. fold (hdr_lines l).
  rewrite length_app, length_hdr_line. simpl. lia.
Qed.

Lemma readRawHeaders_lines l rest :
  lines_ok l →
  ∃ n, readRawHeaders [] (hdr_lines l ++ strCRLF ++ rest)
  = (match l with [] => [] | _ => hdr_lines l ++ strCRLF end, n, None).
Proof.
  intros Hl. unfold readRawHeaders. destruct Hl as [|[k v] l [Hk Hv] Hl].
  - eexists. done.
  - cbn [hdr_lines mbind list_bind fst snd]. fold (hdr_lines l). rewrite <- app_assoc.
    destruct (IndexByte_line k v (hdr_lines l ++ strCRLF ++ rest) Hk Hv) as [_ ->].
    rewrite (bool_decide_false (_ = 1)), (bool_decide_false (_ = 0)) by lia. cbn [andb orb].
    rewrite drop_app_length' by (rewrite length_hdr_line; lia).
    rewrite readRawHeaders_loop_lines.
    2: done.
    2: { rewrite !length_app, length_hdr_line. pose proof (length_hdr_lines l). lia. }
    eexists. f_equal. f_equal. cbn [app].
    rewrite app_assoc, app_assoc. apply take_app_length'. rewrite !length_app, length_hdr_line.
    simpl. lia.
Qed.

(** A strict prefix of a header block is not complete. *)
Lemma prefix_cases (b x p q : bytes) :
  b ++ x = p ++ q → (∃ y, y ≠ [] ∧ p = b ++ y) ∨ (∃ b', b = p ++ b' ∧ b' ++ x = q).
Proof.
  intros E. apply app_eq_inv in E as [(y&->&->)|(y&->&->)].
  - right. by exists y.
  - destruct y as [|z y]; [right; exists []|left; by exists (z :: y)].
    by rewrite !app_nil_r.
Qed.

Lemma IndexByte_strict_prefix b y l c : l ++ [c] = b ++ y → y ≠ [] → c ∉ l → IndexByte b c = None.
Proof.
  intros E Hy Hl. apply IndexByte_None. destruct y as [|z y _] using rev_ind; [done|].
  rewrite app_assoc in E. apply app_inj_tail in E as [-> _]. set_solver.
Qed.

Lemma readRawHeaders_loop_prefix fuel l b x n :
  lines_ok l → b ++ x = hdr_lines l ++ strCRLF → x ≠ [] → readRawHeaders_loop fuel b n = None.
Proof.
  intros Hl. revert fuel b n. induction Hl as [|[k v] l [Hk Hv] Hl IH]; intros fuel b n E Hx;
    (destruct fuel as [|fuel]; [done|]); cbn [readRawHeaders_loop].
  - by rewrite (IndexByte_strict_prefix b x [rChar] nChar) by (done || set_solver).
  - cbn [hdr_lines mbind list_bind fst snd] in E. fold (hdr_lines l) in E. rewrite <- app_assoc in E.
    destruct (hdr_line_LF k v Hk Hv) as (u&Eu&Hu).
    apply prefix_cases in E as [(y&Hy&E)|(b'&->&E)].
    + rewrite Eu in E. by rewrite (IndexByte_strict_prefix b y u nChar).
    + destruct (IndexByte_line k v b' Hk Hv) as [_ ->].
      rewrite (bool_decide_false (_ = 2)), (bool_decide_false (_ = 1)) by lia. cbn [andb orb].
      rewrite drop_app_length' by (rewrite length_hdr_line; lia). by apply IH.
Qed.

Lemma readRawHeaders_prefix l b x :
  lines_ok l → b ++ x = hdr_lines l ++ strCRLF → x ≠ [] →
  readRawHeaders [] b = ([], 0, Some errNeedMore).
Proof.
  intros Hl E Hx. unfold readRawHeaders. destruct Hl as [|[k v] l [Hk Hv] Hl].
  - by rewrite (IndexByte_strict_prefix b x [rChar] nChar) by (done || set_solver).
  - cbn [hdr_lines mbind list_bind fst snd] in E. fold (hdr_lines l) in E. rewrite <- app_assoc in E.
    destruct (hdr_line_LF k v Hk Hv) as (u&Eu&Hu).
    apply prefix_cases in E as [(y&Hy&E)|(b'&->&E)].
    + rewrite Eu in E. by rewrite (IndexByte_strict_prefix b y u nChar).
    + destruct (IndexByte_line k v b' Hk Hv) as [_ ->].
      rewrite (bool_decide_false (_ = 1)), (bool_decide_false (_ = 0)) by lia. cbn [andb orb].
      rewrite drop_app_length' by (rewrite length_hdr_line; lia).
      by rewrite (readRawHeaders_loop_prefix _ l b' x).
Qed.
