(* ===== verification/ReqFacts.v ===== *)
(** Theorems about RequestHeader: the parser terminates, accounts for the bytes it
    reads, accepts one framing only and stores valid headers only; printed headers
    parse back, in whatever pieces they arrive. *)

From Stdlib Require Import ZArith Strings.Byte.
From stdpp Require Import prelude strings list.
From S2P Require Import Prelude Tables Bufio Bytesconv BytesconvFacts Args ArgsFacts Uri Cookie.
From S2P Require Import CookieFacts Headers HeaderScan ReqHeader HeaderFacts.
Import RequestHeader.

(** * The header loop *)

Lemma starts_blank_invalid k : starts_blank k = true → forallb validHeaderFieldByte k = false.
Proof.
  destruct k as [|c k]; [done|]. cbn. intros Hc. apply andb_false_intro1. revert c Hc. byte_exhaust.
Qed.

Lemma parseHeaderLine_valid h k v h' :
  parseHeaderLine h k v = (h', None) → token k ∧ forallb validHeaderValueByte v = true.
Proof.
  unfold parseHeaderLine, token. destruct k as [|k0 k]; [done|].
  destruct (forallb validHeaderFieldByte (k0 :: k)); [|done].
  destruct (forallb validHeaderValueByte v); [|done]. done.
Qed.

(** More fuel than the slice has bytes changes nothing. *)
Lemma parseHeaders_loop_fuel f1 f2 h s :
  colon_inv s → length (s_b s) < f1 → length (s_b s) < f2 →
  parseHeaders_loop f1 h s = parseHeaders_loop f2 h s.
Proof.
  revert f2 h s. induction f1 as [|f1 IH]; intros f2 h s Hinv H1 H2; [lia|].
  destruct f2 as [|f2]; [lia|]. cbn [parseHeaders_loop].
  destruct (next s) as [[] s'] eqn:E; [|done].
  apply next_true in E as (Hinv'&Hlt&_); [|done].
  destruct (parseHeaderLine h (s_key s') (s_value s')) as [h' [e|]]; [done|].
  apply IH; [done|lia..].
Qed.

(** The loop keeps the buffer's length; when it succeeds the header length counts
    what was scanned. *)
Lemma parseHeaders_loop_buf fuel h s h' s' err :
  colon_inv s → parseHeaders_loop fuel h s = (h', s', err) →
  length (s_buf s') = length (s_buf s) ∧
  (settled s ∨ starts_blank (s_b s) = true → s_err s = None → err = None →
   s_hLen s' = Z.of_nat (length (s_done s'))).
Proof.
  revert h s. induction fuel as [|fuel IH]; intros h s Hinv; cbn [parseHeaders_loop].
  { intros [= <- <- <-]. done. }
  destruct (next s) as [[] s1] eqn:E.
  - apply next_true in E as (Hinv1&_&Hl&He&_&Hs&Hb); [|done].
    destruct (parseHeaderLine h (s_key s1) (s_value s1)) as [h1 [e|]] eqn:Ep.
    { intros [= <- <- <-]. done. }
    intros Hloop. destruct (IH _ _ Hinv1 Hloop) as [Hl' Hend]. split; [lia|].
    intros [Hset|Hbl] Hs0 Herr; apply Hend; try done; try congruence.
    + destruct (Hs Hset); auto.
    + apply parseHeaderLine_valid in Ep as [[_ Hk] _].
      by rewrite starts_blank_invalid in Hk by auto.
  - intros [= <- <- <-]. apply next_false in E as (Hl&Hb&Hs); [|done].
    split; [done|]. intros [Hset|Hbl] _ Herr; [by apply Hs|]. by apply Hb in Hbl.
Qed.

Lemma newScanner_settled b dn : settled (newScanner b dn).
Proof. done. Qed.

Lemma parseHeaders_len h buf h' buf' res :
  parseHeaders h buf = (h', buf', res) →
  length buf' = length buf ∧ (∀ n, res = inl n → n ≤ length buf).
Proof.
  unfold parseHeaders. set (h0 := upd q_contentLengthSeen _ _).
  destruct (parseHeaders_loop _ _ _) as [[h1 s] err] eqn:E.
  pose proof (settled_colon_inv _ (newScanner_settled buf (q_disableNormalizing h0))) as Hinv.
  destruct (parseHeaders_loop_buf _ _ _ _ _ _ Hinv E) as [Hl Hend].
  assert (length (s_buf (newScanner buf (q_disableNormalizing h0))) = length buf) as Hb
    by (unfold s_buf; cbn; by rewrite app_nil_r).
  destruct err as [e|]; intros [= <- <- <-]; (split; [lia|]); intros n Hn; [done|].
  simplify_eq. rewrite Hend by auto using newScanner_settled. rewrite Nat2Z.id.
  rewrite <- Hb, <- Hl. unfold s_buf. rewrite length_app. lia.
Qed.

Lemma parse_len h buf h' buf' res :
  q_firstLineLen h ≤ length buf → parse h buf = (h', buf', res) →
  length buf' = length buf ∧ (∀ n, res = inl n → n ≤ length buf).
Proof.
  intros Hf. unfold parse.
  assert (∀ h1 m, (if bool_decide (q_firstLineLen h = 0) then parseFirstLine h buf
    else (h, inl (q_firstLineLen h))) = (h1, inl m) → m ≤ length buf) as Hm.
  { intros h1 m. destruct (bool_decide _); [|intros [= <- <-]; done].
    unfold parseFirstLine. destruct (nextLine buf) as [[fl bn]|]; [|done].
    repeat (case_match; try done); intros [= <- <-]; lia. }
  destruct (if bool_decide _ then _ else _) as [h1 [m|e]].
  - specialize (Hm _ _ eq_refl).
    destruct (readRawHeaders [] (drop m buf)) as [[raw n] [e|]]; [by intros [= <- <- <-]|].
    destruct (parseHeaders _ _) as [[h2 b2] r2] eqn:E. intros [= <- <- <-].
    apply parseHeaders_len in E as [Hl Hn]. rewrite length_app, length_take, Hl, length_drop.
    split; [lia|]. intros n'. destruct r2; intros [= <-]. specialize (Hn _ eq_refl).
    rewrite length_drop in Hn. lia.
  - by intros [= <- <- <-].
Qed.

(** * Framing *)

(** Adding trailers touches the trailer list and the key buffer only. *)
Lemma AddTrailerBytes_loop_frame fuel h t err :
  ∃ bk tr, (AddTrailerBytes_loop fuel h t err).1 = h <| q_bufK := bk |> <| q_trailer := tr |>.
Proof.
  revert h t err. induction fuel as [|fuel IH]; intros h t err; cbn [AddTrailerBytes_loop].
  { exists (q_bufK h), (q_trailer h). by destruct h. }
  destruct (initHeaderK _ _ _) as [k bk].
  destruct (isBadTrailer _ _); (destruct (_ <? _);
    [match goal with |- context [AddTrailerBytes_loop fuel ?h' ?t' ?e'] =>
       destruct (IH h' t' e') as (bk'&tr&->) end; by exists bk', tr|]).
  - exists bk, (q_trailer h). by destruct h.
  - by eexists bk, _.
Qed.

Lemma SetTrailerBytes_frame h t :
  ∃ bk tr, (SetTrailerBytes h t).1 = h <| q_bufK := bk |> <| q_trailer := tr |>.
Proof.
  unfold SetTrailerBytes, AddTrailerBytes. destruct (_ <? _).
  - destruct (AddTrailerBytes_loop_frame (length t)
      (h <| q_trailer := kvs_reset (q_trailer h) |>) t None) as (bk&tr&->). by exists bk, tr.
  - exists (q_bufK h), (kvs_reset (q_trailer h)). by destruct h.
Qed.

(** The switch on the first letter does not change which name is found. *)
Lemma special_name c a k0 k :
  or20 (hd x00 a) = c →
  bool_decide (or20 k0 = c) && bool_decide (k0 :: k = a) = bool_decide (k0 :: k = a).
Proof.
  intros <-. destruct (bool_decide_reflect (k0 :: k = a)) as [<-|]; [|by rewrite andb_false_r].
  by rewrite bool_decide_true.
Qed.

(** One line, with normalized names and special headers enabled. *)
Lemma parseHeaderLine_norm h k v :
  q_disableSpecialHeader h = false → q_disableNormalizing h = false →
  token k → forallb validHeaderValueByte v = true →
  parseHeaderLine h k v =
  if bool_decide (k = strHost) then (h <| q_host := v |>, None)
  else if bool_decide (k = strUserAgent) then (h <| q_userAgent := v |>, None)
  else if bool_decide (k = strContentType) then (h <| q_contentType := v |>, None)
  else if bool_decide (k = strContentLength) then
    if q_contentLengthSeen h then (h, Some MultipleContentLengthErr)
    else
      let h := h <| q_contentLengthSeen := true |> in
      if bool_decide (q_contentLength h = (-1)%Z) then (h, None)
      else match parseContentLength v with
           | (n, Some _) => (h <| q_contentLength := n |>, Some ContentLengthNotIntErr)
           | (n, None) => (h <| q_contentLength := n |> <| q_contentLengthBytes := v |>, None)
           end
  else if bool_decide (k = strConnection) then
    if Equal v strClose then (h <| q_connectionClose := true |>, None)
    else (h <| q_connectionClose := false |>
            <| q_h := appendArgBytes (q_h h) k v argsHasValue |>, None)
  else if bool_decide (k = strTransferEncoding) then
    if bool_decide (v = strChunked) then
      (h <| q_contentLength := (-1)%Z |>
         <| q_h := setArgBytes (q_h h) strTransferEncoding strChunked argsHasValue |>, None)
    else (h, Some (unsupportedTEError v))
  else if bool_decide (k = strTrailer) then SetTrailerBytes h v
  else (h <| q_h := appendArgBytes (q_h h) k v argsHasValue |>, None).
Proof.
  intros Hs Hn [Hne Hk] Hv. unfold parseHeaderLine. destruct k as [|k0 k]; [done|].
  rewrite Hk, Hv, Hs, Hn. cbn [negb]. unfold headNameCompare. cbn [negb].
  by rewrite !special_name by reflexivity.
Qed.

Lemma parseHeaderLine_frame h k v h' :
  q_disableSpecialHeader h = false → q_disableNormalizing h = false →
  parseHeaderLine h k v = (h', None) →
  q_disableSpecialHeader h' = false ∧ q_disableNormalizing h' = false ∧
  (k = HeaderContentLength → q_contentLengthSeen h = false ∧ q_contentLengthSeen h' = true ∧
     (q_contentLength h = (-1)%Z ∧ q_contentLength h' = (-1)%Z ∨
      q_contentLength h ≠ (-1)%Z ∧ parseContentLength v = (q_contentLength h', None))) ∧
  (k = HeaderTransferEncoding → v = strChunked ∧ q_contentLength h' = (-1)%Z ∧
     q_contentLengthSeen h' = q_contentLengthSeen h) ∧
  (k ≠ HeaderContentLength → k ≠ HeaderTransferEncoding →
     q_contentLength h' = q_contentLength h ∧ q_contentLengthSeen h' = q_contentLengthSeen h).
Proof.
  intros Hs Hn Hp. pose proof (parseHeaderLine_valid _ _ _ _ Hp) as [Ht Hv].
  rewrite parseHeaderLine_norm in Hp by done.
  destruct (bool_decide_reflect (k = strHost)) as [->|_]; [by simplify_eq|].
  destruct (bool_decide_reflect (k = strUserAgent)) as [->|_]; [by simplify_eq|].
  destruct (bool_decide_reflect (k = strContentType)) as [->|_]; [by simplify_eq|].
  destruct (bool_decide_reflect (k = strContentLength)) as [->|Hcl].
  { destruct (q_contentLengthSeen h); [done|]. cbn zeta in Hp. cbn in Hp.
    destruct (bool_decide_reflect (q_contentLength h = (-1)%Z)) as [?|Hm1]; [injection Hp as <-; cbn; split_and!; try done; intros _; split_and!; auto|].
    destruct (parseContentLength v) as [n [e|]] eqn:Ec; [done|]. injection Hp as <-. cbn. split_and!; try done; intros _; split_and!; auto. }
  destruct (bool_decide_reflect (k = strConnection)) as [->|_].
  { destruct (Equal v strClose); by simplify_eq. }
  destruct (bool_decide_reflect (k = strTransferEncoding)) as [->|Hte].
  { destruct (bool_decide_reflect (v = strChunked)); [|done]. by simplify_eq. }
  destruct (bool_decide_reflect (k = strTrailer)) as [->|_]; [|by simplify_eq].
  destruct (SetTrailerBytes_frame h v) as (bk&tr&E). rewrite Hp in E. cbn [fst] in E. by subst h'.
Qed.

(** The body length that the header lines [ls] announce, [cl] being the one so far. *)
Fixpoint framing (cl : Z) (ls : list (bytes * bytes)) : Z :=
  match ls with
  | [] => cl
  | (k, v) :: ls =>
      if bool_decide (k = HeaderTransferEncoding) then framing (-1) ls
      else if bool_decide (k = HeaderContentLength)
      then framing (if bool_decide (cl = (-1)%Z) then -1 else (parseContentLength v).1) ls
      else framing cl ls
  end.

Definition is_name (a : bytes) (kv : bytes * bytes) : Prop := kv.1 = a.
#[global] Instance is_name_dec a kv : Decision (is_name a kv) := decide (kv.1 = a).

(** A content length that parses is a digit string that fits. *)
Lemma parseContentLength_inv v n :
  parseContentLength v = (n, None) →
  Forall is_digit v ∧ v ≠ [] ∧ n = int64 (decval 0 v) ∧ (0 ≤ n < 2 ^ 63)%Z.
Proof.
  unfold parseContentLength. destruct (parseUintBuf v) as [[n' len] [e|]] eqn:E; [done|].
  case_bool_decide as Hl; [done|]. intros [= <-].
  apply parseUintBuf_inv in E as (ds&rest&->&->&?&?&?&?&?). rewrite length_app in Hl.
  destruct rest; [|simpl in Hl; lia]. rewrite app_nil_r. done.
Qed.

(** What a successful parse of the lines [ls] has established: at most one content
    length, which parses unless the body is chunked, and no other encoding. *)
Definition framing_ok (seen : bool) (cl : Z) (ls : list (bytes * bytes)) : Prop :=
  length (filter (is_name HeaderContentLength) ls) ≤ (if seen then 0 else 1) ∧
  Forall (λ kv, is_name HeaderTransferEncoding kv → kv.2 = strChunked) ls ∧
  (cl ≠ (-1)%Z → HeaderTransferEncoding ∉ ls.*1 →
   Forall (λ kv, is_name HeaderContentLength kv → (parseContentLength kv.2).2 = None) ls).

Lemma framing_cons seen seen' cl cl' k v ls :
  framing_ok seen' cl' ls → cl' = framing cl [(k, v)] →
  (k = HeaderContentLength → seen = false ∧ seen' = true ∧
     (cl = (-1)%Z ∨ cl ≠ (-1)%Z ∧ parseContentLength v = (cl', None))) →
  (k = HeaderTransferEncoding → v = strChunked ∧ seen' = seen) →
  (k ≠ HeaderContentLength → k ≠ HeaderTransferEncoding → seen' = seen) →
  framing_ok seen cl ((k, v) :: ls).
Proof.
  intros (F1&F2&F3) Ecl Hcl Hte Ho. unfold framing_ok. cbn [framing] in Ecl.
  rewrite filter_cons. unfold is_name at 1. cbn [fst].
  destruct (decide (k = HeaderContentLength)) as [->|Hk1].
  - destruct (Hcl eq_refl) as (->&->&Hv). rewrite bool_decide_false, bool_decide_true in Ecl by done.
    split_and!.
    + cbn [length]. lia.
    + constructor; [done|done].
    + intros Hm Hin. destruct Hv as [?|[_ Hv]]; [done|].
      rewrite fmap_cons, not_elem_of_cons in Hin. destruct Hin as [_ Hin].
      constructor; [intros _; cbn; by rewrite Hv|]. apply F3; [|done].
      apply parseContentLength_inv in Hv as (_&_&_&?). lia.
  - destruct (decide (k = HeaderTransferEncoding)) as [->|Hk2].
    + destruct (Hte eq_refl) as (->&->). split_and!; [done|by constructor|].
      intros _ Hin. rewrite fmap_cons, not_elem_of_cons in Hin. by destruct Hin.
    + rewrite !bool_decide_false in Ecl by done. subst cl'. rewrite Ho in F1 by done.
      split_and!; [done|by constructor|]. intros Hm Hin.
      rewrite fmap_cons, not_elem_of_cons in Hin. destruct Hin. constructor; [done|by apply F3].
Qed.

Lemma framing_app cl k v ls : framing cl ((k, v) :: ls) = framing (framing cl [(k, v)]) ls.
Proof. cbn. by repeat case_bool_decide. Qed.

Lemma framing_loop fuel h s h' s' :
  q_disableSpecialHeader h = false → q_disableNormalizing h = false → colon_inv s →
  parseHeaders_loop fuel h s = (h', s', None) →
  let ls := (VisitAllInOrder_loop fuel s).1 in
  framing_ok (q_contentLengthSeen h) (q_contentLength h) ls ∧
  q_contentLength h' = framing (q_contentLength h) ls.
Proof.
  revert h s. induction fuel as [|fuel IH]; intros h s Hs Hn Hinv; cbn [parseHeaders_loop]; [done|].
  cbn [VisitAllInOrder_loop]. destruct (next s) as [[] s1] eqn:E.
  - destruct (parseHeaderLine h (s_key s1) (s_value s1)) as [h1 [e|]] eqn:Ep; [done|].
    intros Hloop. apply next_true in E as (Hinv1&_); [|done].
    pose proof (parseHeaderLine_valid _ _ _ _ Ep) as [[Hne _] _].
    apply parseHeaderLine_frame in Ep as (Hs1&Hn1&Hcl&Hte&Ho); [|done..].
    destruct (IH _ _ Hs1 Hn1 Hinv1 Hloop) as [F Hf].
    destruct (VisitAllInOrder_loop fuel s1) as [ls s2]. cbn [fst] in *.
    assert ((0 <? length (s_key s1)) = true) as -> by (by destruct (s_key s1)).
    cbn [app]. rewrite framing_app, Hf.
    assert (q_contentLength h1 = framing (q_contentLength h) [(s_key s1, s_value s1)]) as Ecl.
    { cbn [framing]. destruct (bool_decide_reflect (s_key s1 = HeaderTransferEncoding)) as [Hk|Hk1].
      { by destruct (Hte Hk) as (_&?&_). }
      destruct (bool_decide_reflect (s_key s1 = HeaderContentLength)) as [Hk|Hk2].
      { destruct (Hcl Hk) as (_&_&[[E1 ->]|[E1 E2]]).
        - by rewrite bool_decide_true.
        - by rewrite bool_decide_false, E2. }
      by destruct (Ho Hk2 Hk1). }
    rewrite <- Ecl. split; [|done]. eapply framing_cons; [exact F|exact Ecl|..].
    + intros Hk. destruct (Hcl Hk) as (?&?&[[? _]|?]); auto.
    + intros Hk. by destruct (Hte Hk) as (?&_&?).
    + intros Hk1 Hk2. by destruct (Ho Hk1 Hk2).
  - intros [= <- <- Herr]. cbn. split; [|done].
    split_and!; [by destruct (q_contentLengthSeen h); cbn; lia|constructor|constructor].
Qed.

Lemma framing_chunked ls : framing (-1) ls = (-1)%Z.
Proof.
  induction ls as [|[k v] ls IH]; [done|]. cbn [framing].
  by destruct (bool_decide (k = _)), (bool_decide (k = _)).
Qed.

Lemma framing_TE cl ls : HeaderTransferEncoding ∈ ls.*1 → framing cl ls = (-1)%Z.
Proof.
  revert cl. induction ls as [|[k v] ls IH]; intros cl; [set_solver|].
  rewrite fmap_cons, elem_of_cons. cbn [framing fst].
  destruct (bool_decide_reflect (k = HeaderTransferEncoding)) as [|Hk]; [intros _; apply framing_chunked|].
  intros [E|?]; [by destruct Hk|]. destruct (bool_decide _); auto.
Qed.

Lemma framing_plain cl ls :
  HeaderTransferEncoding ∉ ls.*1 → filter (is_name HeaderContentLength) ls = [] → framing cl ls = cl.
Proof.
  revert cl. induction ls as [|[k v] ls IH]; intros cl; [done|].
  rewrite fmap_cons, not_elem_of_cons, filter_cons. cbn [framing fst]. intros [H1 H2] Hf.
  unfold is_name at 1 in Hf. cbn [fst] in Hf.
  destruct (decide (k = HeaderContentLength)); [done|].
  rewrite !bool_decide_false by done. by apply IH.
Qed.

Lemma framing_length cl ls v :
  HeaderTransferEncoding ∉ ls.*1 → cl ≠ (-1)%Z →
  filter (is_name HeaderContentLength) ls = [(HeaderContentLength, v)] →
  framing cl ls = (parseContentLength v).1.
Proof.
  revert cl. induction ls as [|[k w] ls IH]; intros cl; [done|].
  rewrite fmap_cons, not_elem_of_cons, filter_cons. cbn [framing fst]. intros [H1 H2] Hc Hf.
  unfold is_name at 1 in Hf. cbn [fst] in Hf. rewrite (bool_decide_false (k = HeaderTransferEncoding)) by done.
  destruct (decide (k = HeaderContentLength)) as [->|Hk].
  - injection Hf as -> Hf. rewrite bool_decide_true, bool_decide_false by done. by apply framing_plain.
  - rewrite bool_decide_false by done. by apply IH.
Qed.

(** The header lines of a buffer, as the scanner delivers them. *)
Definition scanned_lines (buf : bytes) (dn : bool) : list (bytes * bytes) :=
  (VisitAllInOrder_loop (S (length buf)) (newScanner buf dn)).1.

Lemma parseHeaders_framing h buf h' buf' n :
  q_disableSpecialHeader h = false → q_disableNormalizing h = false →
  parseHeaders h buf = (h', buf', inl n) →
  let ls := scanned_lines buf false in
  let cls := filter (is_name HeaderContentLength) ls in
  (∀ v, (HeaderTransferEncoding, v) ∈ ls → v = strChunked) ∧
  (HeaderTransferEncoding ∈ ls.*1 ∧ length cls ≤ 1 ∧
     q_contentLength h' = (-1)%Z ∧ q_contentLengthBytes h' = [] ∨
   HeaderTransferEncoding ∉ ls.*1 ∧ cls = [] ∧ q_contentLength h' = 0%Z ∨
   HeaderTransferEncoding ∉ ls.*1 ∧ ∃ v, cls = [(HeaderContentLength, v)] ∧
     Forall is_digit v ∧ v ≠ [] ∧ q_contentLength h' = int64 (decval 0 v) ∧
     (0 ≤ q_contentLength h' < 2 ^ 63)%Z).
Proof.
  intros Hs Hn Hp ls cls. unfold parseHeaders in Hp. set (h0 := upd q_contentLengthSeen _ _) in Hp.
  destruct (parseHeaders_loop _ _ _) as [[h1 s] [e|]] eqn:E; [done|].
  change (q_disableNormalizing h0) with (q_disableNormalizing h) in E. rewrite Hn in E.
  pose proof (settled_colon_inv _ (newScanner_settled buf false)) as Hinv.
  assert (framing_ok false 0 ls ∧ q_contentLength h1 = framing 0 ls) as [(F1&F2&F3) Hcl]
    by exact (framing_loop _ h0 _ _ _ Hs Hn Hinv E).
  assert (q_contentLength h' = q_contentLength h1) as Eh.
  { injection Hp as <- _ _. by repeat case_match. }
  split.
  { intros v Hv. rewrite Forall_forall in F2. by apply (F2 _ Hv). }
  destruct (decide (HeaderTransferEncoding ∈ ls.*1)) as [Hte|Hte]; [left|right].
  - split_and!; [done|done| |].
    + by rewrite Eh, Hcl, framing_TE.
    + rewrite framing_TE in Hcl by done. injection Hp as <- _ _. rewrite Hcl. by repeat case_match.
  - change (length cls ≤ 1) in F1.
    destruct cls as [|[k v] [|]] eqn:Ecls; [left|right|simpl in F1; lia].
    { split_and!; [done|done|]. by rewrite Eh, Hcl, framing_plain. }
    assert ((k, v) ∈ cls) as Hin by (rewrite Ecls; by left). unfold cls in Hin.
    apply list_elem_of_filter in Hin as [Hk Hin]. unfold is_name in Hk. cbn in Hk. subst k.
    split; [done|]. exists v. rewrite Eh, Hcl, (framing_length 0 ls v) by done.
    specialize (F3 ltac:(done) Hte). eapply Forall_forall in F3; [|exact Hin].
    specialize (F3 eq_refl). cbn in F3. destruct (parseContentLength v) as [m err] eqn:Ep.
    cbn in F3. subst err. apply parseContentLength_inv in Ep as (?&?&?&?). done.
Qed.

(** * Stored headers are valid *)

Definition kv_valid (kv : argsKV) : Prop :=
  token (key kv) ∧ forallb validHeaderValueByte (value kv) = true.
Definition headers_valid (h : RequestHeader) : Prop := Forall kv_valid (live (q_h h)).

Lemma assoc_set_Forall (P : argsKV → Prop) l k v nv :
  P (mkKV k (storeValue v nv) nv) → Forall P l → Forall P (assoc_set l k v nv).
Proof. intros Hp. induction 1 as [|kv l Hkv Hl IH]; simpl; [by constructor|]. case_decide; by constructor. Qed.

Lemma parseHeaderLine_keeps_valid h k v h' err :
  headers_valid h → parseHeaderLine h k v = (h', err) → headers_valid h'.
Proof.
  intros Hh Hp. unfold parseHeaderLine in Hp. destruct k as [|k0 k]; [by injection Hp as <- _|].
  set (kk := k0 :: k) in *.
  destruct (forallb validHeaderFieldByte kk) eqn:Hk; cbn [negb] in Hp; [|by injection Hp as <- _].
  destruct (forallb validHeaderValueByte v) eqn:Hv; cbn [negb] in Hp; [|by injection Hp as <- _].
  assert (∀ a, headers_valid a → headers_valid (a <| q_h := appendArgBytes (q_h a) kk v argsHasValue |>))
    as Happ.
  { intros a Ha. unfold headers_valid, appendArgBytes. cbn. rewrite live_appendArg.
    apply Forall_app_2; [done|]. by apply Forall_singleton. }
  destruct (q_disableSpecialHeader h); [injection Hp as <- _; by apply Happ|].
  repeat match type of Hp with (if ?c then _ else _) = _ => destruct c eqn:? end;
    try (injection Hp as <- _; by first [apply Happ|done]).
  - by destruct (parseContentLength v) as [n [e|]]; injection Hp as <- _.
  - injection Hp as <- _. unfold headers_valid, setArgBytes. cbn. rewrite live_setArg.
    apply assoc_set_Forall; [|done]. by split.
  - destruct (SetTrailerBytes_frame h v) as (bk&tr&E). rewrite Hp in E. cbn [fst] in E. by subst h'.
Qed.

Lemma parseHeaders_loop_valid fuel h s h' s' err :
  headers_valid h → parseHeaders_loop fuel h s = (h', s', err) → headers_valid h'.
Proof.
  revert h s. induction fuel as [|fuel IH]; intros h s Hh; cbn [parseHeaders_loop];
    [by intros [= <- _ _]|].
  destruct (next s) as [[] s1]; [|by intros [= <- <- _]].
  destruct (parseHeaderLine _ _ _) as [h1 err1] eqn:E.
  apply parseHeaderLine_keeps_valid in E; [|done].
  destruct err1; [by intros [= <- _ _]|by apply IH].
Qed.

Lemma parseHeaders_valid h buf h' buf' res :
  headers_valid h → parseHeaders h buf = (h', buf', res) → headers_valid h'.
Proof.
  intros Hh Hp. unfold parseHeaders in Hp.
  destruct (parseHeaders_loop _ _ _) as [[h1 s] err] eqn:E.
  apply parseHeaders_loop_valid in E; [|done].
  destruct err; injection Hp as <- _ _; unfold headers_valid in *; [done|by repeat case_match].
Qed.

Lemma parse_valid h buf h' buf' res :
  headers_valid h → parse h buf = (h', buf', res) → headers_valid h'.
Proof.
  intros Hh. unfold parse.
  assert (∀ h1 r, (if bool_decide (q_firstLineLen h = 0) then parseFirstLine h buf
    else (h, inl (q_firstLineLen h))) = (h1, r) → headers_valid h1) as Hf.
  { intros h1 r. destruct (bool_decide _); [|by intros [= <- _]]. unfold parseFirstLine.
    by repeat case_match; intros [= <- _]. }
  destruct (if bool_decide _ then _ else _) as [h1 [m|e]]; specialize (Hf _ _ eq_refl);
    [|by intros [= <- _ _]].
  destruct (readRawHeaders _ _) as [[raw ?] [e|]]; [by intros [= <- _ _]|].
  destruct (parseHeaders _ _) as [[h2 b2] r2] eqn:E. intros [= <- _ _].
  by eapply parseHeaders_valid in E.
Qed.

Lemma readLoop_from_valid fuel h r n w h' r' err :
  headers_valid h → readLoop_from fuel h r n w = (h', r', err) → headers_valid h'.
Proof.
  revert h r n. induction fuel as [|fuel IH]; intros h r n Hh; cbn [readLoop_from];
    [by intros [= <- _ _]|].
  destruct (tryRead h r n) as [[h1 r1] err1] eqn:E.
  assert (headers_valid h1) as Hh1.
  { unfold tryRead in E. destruct (Bufio.Peek r n) as [[b e] r2].
    destruct (bool_decide _); [by injection E as <- _ _|].
    destruct (parse h (r_buf r2)) as [[h2 buf] res] eqn:Ep. apply parse_valid in Ep; [|done].
    by destruct res; injection E as <- _ _. }
  destruct err1 as [e|]; [|by intros [= <- _ _]].
  destruct (_ || _); [by intros [= <- _ _]|by apply IH].
Qed.

(** * The read loop ends *)

Lemma parseHeaderLine_first h k v h' err :
  parseHeaderLine h k v = (h', err) → q_firstLineLen h' = q_firstLineLen h.
Proof.
  unfold parseHeaderLine. destruct k as [|k0 k]; [by intros [= <- _]|].
  repeat (match goal with |- context [if ?b then _ else _] => destruct b end;
    try (by intros [= <- _])).
  - destruct (parseContentLength v) as [n [e|]]; by intros [= <- _].
  - destruct (SetTrailerBytes_frame h v) as (bk&tr&E). intros E'. rewrite E' in E.
    cbn in E. by rewrite E.
Qed.

Lemma parseHeaders_loop_first fuel h s h' s' err :
  parseHeaders_loop fuel h s = (h', s', err) → q_firstLineLen h' = q_firstLineLen h.
Proof.
  revert h s. induction fuel as [|fuel IH]; intros h s; cbn [parseHeaders_loop];
    [by intros [= <- _ _]|].
  destruct (next s) as [[] s1]; [|by intros [= <- _ _]].
  destruct (parseHeaderLine h _ _) as [h1 [e|]] eqn:E; apply parseHeaderLine_first in E.
  - by intros [= <- _ _].
  - intros ->%IH. done.
Qed.

Lemma parse_firstLineLen h buf h' buf' res :
  q_firstLineLen h ≤ length buf → parse h buf = (h', buf', res) → q_firstLineLen h' ≤ length buf.
Proof.
  intros Hf. unfold parse.
  assert (∀ h1 f, (if bool_decide (q_firstLineLen h = 0) then parseFirstLine h buf
    else (h, inl (q_firstLineLen h))) = (h1, f) → q_firstLineLen h1 ≤ length buf) as Hm.
  { intros h1 f. destruct (bool_decide _); [|by intros [= <- <-]].
    unfold parseFirstLine. intros E. repeat (case_match; simplify_eq; cbn); lia. }
  destruct (if bool_decide _ then _ else _) as [h1 [m|e]]; specialize (Hm _ _ eq_refl);
    [|by intros [= <- <- <-]].
  destruct (readRawHeaders [] (drop m buf)) as [[raw n] [e|]]; [by intros [= <- <- <-]|].
  unfold parseHeaders. destruct (parseHeaders_loop _ _ _) as [[h2 s] [e|]] eqn:E;
    apply parseHeaders_loop_first in E; cbn in E; intros [= <- <- <-]; [by rewrite E|].
  destruct (_ && _), (_ <? 0)%Z; cbn; by rewrite E.
Qed.

Definition bounded (h : RequestHeader) (r : Reader) : Prop :=
  q_firstLineLen h ≤ Buffered r ∧ Buffered r ≤ r_size r.

(** A round that asks for more has its [n] bytes buffered, and the buffer holds them. *)
Lemma tryRead_more h r n h' r' :
  bounded h r → tryRead h r n = (h', r', Some errNeedMore) →
  n ≤ Buffered r' ∧ r_size r' = r_size r ∧ bounded h' r'.
Proof.
  intros [Hf Hb]. unfold tryRead, Bufio.Peek, Buffered in *.
  pose proof (fill_until_prefix n (r_size r) (r_buf r) (r_chunks r)) as [z Hz].
  pose proof (fill_until_le n (r_size r) (r_buf r) (r_chunks r) Hb) as Hle.
  destruct (fill_until _ _ _ _) as [buf chunks]. cbn [fst] in *.
  assert (q_firstLineLen h ≤ length buf) as Hf' by (rewrite Hz, length_app; lia).
  assert (∀ e, eofErr (headerIO e) ErrUnexpectedHeaderEOF ≠ errNeedMore) as He
    by (intros e; unfold eofErr; by case_bool_decide).
  destruct (Nat.ltb_spec (r_size r) n) as [E1|E1]; [|destruct (Nat.ltb_spec (length buf) n) as [E2|E2]].
  1, 2: rewrite bool_decide_true by lia; intros [= _ _ E]; by destruct (He _ E).
  rewrite bool_decide_false by (rewrite length_take; lia).
  change (r_buf (upd r_last _ _)) with buf.
  destruct (parse h buf) as [[h1 b1] [m|e]] eqn:E; [by intros [=]|]. intros [= <- <- ->].
  pose proof (parse_firstLineLen _ _ _ _ _ Hf' E). apply parse_len in E as [E _]; [|done].
  unfold bounded, Buffered. cbn. rewrite E. split_and!; done.
Qed.

(** [n] grows with every round, up to the size of the buffer. *)
Lemma readLoop_from_fuel f1 f2 h r n w :
  bounded h r → r_size r + 2 ≤ n + f1 → r_size r + 2 ≤ n + f2 → n ≤ r_size r + 1 →
  readLoop_from f1 h r n w = readLoop_from f2 h r n w.
Proof.
  revert f2 h r n. induction f1 as [|f1 IH]; intros f2 h r n Hb H1 H2 Hn; [lia|].
  destruct f2 as [|f2]; [lia|]. cbn [readLoop_from].
  destruct (tryRead h r n) as [[h' r'] [e|]] eqn:E; [|done].
  destruct (negb w) eqn:Ew; [done|]. cbn [orb]. case_bool_decide as He; [|done]. subst e.
  cbn [negb]. apply tryRead_more in E as (Hn'&Es&Hb'); [|done].
  pose proof Hb' as [_ Hsz]. rewrite Es in Hsz. apply IH; rewrite ?Es; try done; lia.
Qed.

(** * Trailer names *)

Definition trailer_allowed (dn : bool) (kv : argsKV) : Prop := isBadTrailer (key kv) dn = false.

Lemma AddTrailerBytes_loop_allowed fuel h t err :
  let dn := q_disableNormalizing h in
  Forall (trailer_allowed dn) (live (q_trailer h)) →
  Forall (trailer_allowed dn) (live (q_trailer (AddTrailerBytes_loop fuel h t err).1)).
Proof.
  cbv zeta. revert h t err. induction fuel as [|fuel IH]; intros h t err Hh; [done|].
  cbn [AddTrailerBytes_loop]. destruct (initHeaderK _ _ _) as [k bufK].
  change (q_disableNormalizing (upd q_bufK h bufK)) with (q_disableNormalizing h).
  destruct (isBadTrailer k (q_disableNormalizing h)) eqn:E; cbv beta iota zeta.
  - destruct (_ <? _); [|done].
    match goal with |- context [AddTrailerBytes_loop fuel ?x] => exact (IH x _ _ Hh) end.
  - set (h1 := upd q_trailer _ _).
    assert (Forall (trailer_allowed (q_disableNormalizing h)) (live (q_trailer h1))) as H1.
    { unfold h1. cbn. rewrite live_appendArg. apply Forall_app_2; [done|]. by apply Forall_singleton. }
    destruct (_ <? _); [exact (IH h1 _ _ H1)|done].
Qed.

Lemma SetTrailerBytes_allowed h t :
  Forall (trailer_allowed (q_disableNormalizing h)) (live (q_trailer (SetTrailerBytes h t).1)).
Proof.
  unfold SetTrailerBytes, AddTrailerBytes. destruct (_ <? _); [|constructor].
  match goal with |- context [AddTrailerBytes_loop _ ?x] =>
    apply (AddTrailerBytes_loop_allowed _ x); constructor end.
Qed.
