(* ===== verification/ReqRoundtrip.v ===== *)
(** Printing and reading a request head: the printed lines, what the parser makes of
    them, and reading them through a buffered reader in arbitrary pieces. *)

From Stdlib Require Import ZArith Strings.Byte.
From stdpp Require Import prelude strings list.
From S2P Require Import Prelude Tables Bufio Bytesconv BytesconvFacts Args ArgsFacts Uri Cookie.
From S2P Require Import CookieFacts Headers HeaderScan ReqHeader HeaderFacts ReqFacts.
Import RequestHeader.

(** * Lines one by one *)

Fixpoint apply_lines (h : RequestHeader) (ls : list (bytes * bytes))
    : RequestHeader * option header_error :=
  match ls with
  | [] => (h, None)
  | kv :: ls =>
      match parseHeaderLine h kv.1 kv.2 with
      | (h, Some e) => (h, Some e)
      | (h, None) => apply_lines h ls
      end
  end.

Lemma apply_lines_app h l1 l2 h1 :
  apply_lines h l1 = (h1, None) → apply_lines h (l1 ++ l2) = apply_lines h1 l2.
Proof.
  revert h. induction l1 as [|kv l1 IH]; intros h; cbn [app apply_lines]; [by intros [= ->]|].
  destruct (parseHeaderLine _ _ _) as [h2 [e|]]; [done|apply IH].
Qed.

(** Lines whose names are as the scanner delivers them. *)
Definition names_ok (dn : bool) (ls : list (bytes * bytes)) : Prop :=
  dn = true ∨ Forall (λ kv, normalizeHeaderKeyV2 kv.1 = kv.1) ls.

Lemma parseHeaders_loop_lines fuel ls h s body h' :
  lines_ok ls → names_ok (s_disableNormalizing s) ls →
  settled s → s_err s = None → s_b s = hdr_lines ls ++ strCRLF ++ body →
  length ls < fuel → apply_lines h ls = (h', None) →
  ∃ s', parseHeaders_loop fuel h s = (h', s', None) ∧ s_b s' = body ∧ s_tail s' = s_tail s ∧
    s_done s' = s_done s ++ hdr_lines ls ++ strCRLF ∧ s_hLen s' = Z.of_nat (length (s_done s')).
Proof.
  intros Hl. revert fuel h s. induction Hl as [|[k v] ls [Hk Hv] Hl IH];
    intros fuel h s Hn Hs He Hb Hf Ha; (destruct fuel as [|fuel]; [simpl in Hf; lia|]);
    cbn [parseHeaders_loop apply_lines] in *.
  - injection Ha as <-. rewrite (next_end s body) by done. eexists.
    split; [cbn; by rewrite He|]. cbn. split_and!; try done. destruct Hs as (_&_&->).
    rewrite length_app. simpl. lia.
  - cbn [hdr_lines mbind list_bind fst snd] in Hb. fold (hdr_lines ls) in Hb.
    rewrite <- app_assoc in Hb.
    destruct (next_line s k v _ Hs Hk Hv (hdr_lines_blank ls body Hl) Hb)
      as (s1&->&Hs1&Ek&Ev&Eb&Et&Ed&Ee&En).
    assert ((if s_disableNormalizing s then k else normalizeHeaderKeyV2 k) = k) as Hkk.
    { destruct (s_disableNormalizing s); [done|]. destruct Hn as [|Hn]; [done|].
      by apply Forall_inv in Hn. }
    rewrite Hkk in *. rewrite Ek, Ev. cbn [fst snd] in Ha.
    destruct (parseHeaderLine h k v) as [h1 [e|]]; [done|].
    destruct (IH fuel h1 s1) as (s'&->&E1&E2&E3&E4); try done.
    + rewrite En. destruct Hn as [->|Hn]; [by left|right]. by apply Forall_inv_tail in Hn.
    + congruence.
    + simpl in Hf. lia.
    + exists s'. split_and!; [done|done|congruence| |done].
      rewrite E3, Ed. cbn [hdr_lines mbind list_bind fst snd]. fold (hdr_lines ls).
      by rewrite <- !app_assoc.
Qed.

(** What [parseHeaders] does after the last line. *)
Definition finishHeaders (h : RequestHeader) : RequestHeader :=
  let h := if (q_contentLength h <? 0)%Z then h <| q_contentLengthBytes := [] |> else h in
  if q_noHTTP11 h && negb (q_connectionClose h) then
    let v := bytes_of (peekArgBytes (q_h h) strConnection) in
    h <| q_connectionClose := negb (hasHeaderValue v strKeepAlive) |>
  else h.

Definition startHeaders (h : RequestHeader) : RequestHeader :=
  h <| q_contentLength := 0%Z |> <| q_contentLengthSeen := false |>.

Lemma parseHeaders_lines ls h body h' :
  lines_ok ls → names_ok (q_disableNormalizing h) ls →
  apply_lines (startHeaders h) ls = (h', None) →
  parseHeaders h (hdr_lines ls ++ strCRLF ++ body)
  = (finishHeaders h', hdr_lines ls ++ strCRLF ++ body, inl (length (hdr_lines ls) + 2)).
Proof.
  intros Hl Hn Ha. unfold parseHeaders. fold (startHeaders h).
  set (buf := hdr_lines ls ++ strCRLF ++ body).
  destruct (parseHeaders_loop_lines (S (length buf)) ls (startHeaders h)
    (newScanner buf (q_disableNormalizing (startHeaders h))) body h')
    as (s&->&Eb&Et&Ed&El); try done.
  { unfold buf. rewrite length_app. pose proof (length_hdr_lines ls). lia. }
  unfold finishHeaders. f_equal; [f_equal|].
  - unfold s_buf. rewrite Eb, Et, Ed. cbn. rewrite app_nil_r. by rewrite <- app_assoc.
  - rewrite El, Ed. f_equal. rewrite Nat2Z.id. cbn. rewrite length_app. done.
Qed.

(** * The request line *)

Definition first_line (m u p : bytes) : bytes := m ++ " "%byte :: u ++ " "%byte :: p ++ strCRLF.

Definition proto_ok (p : bytes) : Prop :=
  ∃ a b, is_digit a ∧ is_digit b ∧ p = bs "HTTP/" ++ [a; "."%byte; b].

Definition first_ok (m u p : bytes) : Prop :=
  m ≠ [] ∧ " "%byte ∉ m ∧ nChar ∉ m ∧ u ≠ [] ∧ nChar ∉ u ∧ proto_ok p.

Lemma proto_clean p : proto_ok p → " "%byte ∉ p ∧ nChar ∉ p ∧ length p = 8 ∧ last p ≠ Some rChar.
Proof.
  intros (a&b&Ha&Hb&->).
  assert (∀ c, is_digit c → c ≠ " "%byte ∧ c ≠ nChar ∧ c ≠ rChar) as Hd by byte_exhaust.
  destruct (Hd a Ha) as (?&?&?), (Hd b Hb) as (?&?&?).
  split_and!; [set_solver|set_solver|done|]. cbn. congruence.
Qed.

Definition setFirstLine (h : RequestHeader) (m u p : bytes) (n : nat) : RequestHeader :=
  h <| q_method := m |> <| q_noHTTP11 := negb (Equal p strHTTP11) |>
    <| q_proto := p |> <| q_requestURI := u |> <| q_firstLineLen := n |>.

Lemma nextLine_line l rest : nChar ∉ l → last l ≠ Some rChar →
  nextLine (l ++ strCRLF ++ rest) = Some (l, rest).
Proof.
  intros Hl Hr. unfold nextLine.
  assert (IndexByte (l ++ strCRLF ++ rest) nChar = Some (length l + 1)) as ->.
  { apply IndexByte_Some. exists (l ++ [rChar]), rest.
    split_and!; [by rewrite <- app_assoc|set_solver|]. rewrite length_app. simpl. lia. }
  replace (length l + 1 - 1) with (length l) by lia.
  rewrite bool_decide_true by (by apply list_lookup_middle).
  destruct (Nat.ltb_spec 0 (length l + 1)); [|lia]. cbn [andb].
  rewrite take_app_length. f_equal. f_equal.
  replace (length l + 1 + 1) with (length l + 2) by lia. by rewrite drop_app_add'.
Qed.

Lemma first_line_split m u p rest :
  first_line m u p ++ rest = (m ++ " "%byte :: u ++ " "%byte :: p) ++ strCRLF ++ rest.
Proof. unfold first_line. by repeat (rewrite <- ?app_assoc; cbn [app]). Qed.

Lemma parseFirstLine_line h m u p rest :
  first_ok m u p → isValidMethod (q_method h) = true →
  parseFirstLine h (first_line m u p ++ rest)
  = (setFirstLine h m u p (length (first_line m u p)), inl (length (first_line m u p))).
Proof.
  intros (Hm&Hms&Hmn&Hu&Hun&Hp) Hv. destruct (proto_clean p Hp) as (Hps&Hpn&Hp8&Hpr).
  unfold parseFirstLine. rewrite first_line_split, nextLine_line.
  2: set_solver.
  2: { rewrite last_app_cons. change (" "%byte :: u ++ " "%byte :: p) with ([" "%byte] ++ u ++ " "%byte :: p).
       rewrite app_assoc, last_app_cons. destruct p; [done|]. exact Hpr. }
  rewrite IndexByte_app by done. destruct m as [|m0 m]; [done|]. cbn [length].
  rewrite Hv. cbn [negb]. set (mm := m0 :: m) in *.
  change (S (length m)) with (length mm). rewrite take_app_length.
  assert (drop (length mm + 1) (mm ++ " "%byte :: u ++ " "%byte :: p) = u ++ " "%byte :: p) as ->
    by (by rewrite drop_app_add').
  assert (LastIndexByte (u ++ " "%byte :: p) " " = Some (length u)) as ->
    by (apply LastIndexByte_Some; eauto).
  destruct u as [|u0 u]; [done|]. cbn [length]. set (uu := u0 :: u) in *.
  change (S (length u)) with (length uu).
  assert (drop (length uu + 1) (uu ++ " "%byte :: p) = p) as -> by (by rewrite drop_app_add').
  rewrite take_app_length.
  destruct Hp as (a&b&Ha&Hb&Ep). rewrite bool_decide_false by (by rewrite Hp8; naive_solver).
  assert (HasPrefix p (take 5 strHTTP11) = true) as -> by (by rewrite Ep).
  assert (p !! 5 = Some a) as -> by (by rewrite Ep). assert (p !! 7 = Some b) as -> by (by rewrite Ep).
  unfold is_digit in Ha, Hb. rewrite Ha, Hb. cbn [negb orb].
  assert (length (mm ++ " "%byte :: uu ++ " "%byte :: p) + 2 = length (first_line mm uu p)) as Hlen.
  { unfold first_line. rewrite !length_app. cbn. rewrite !length_app. cbn. rewrite length_app. cbn. lia. }
  assert (length ((mm ++ " "%byte :: uu ++ " "%byte :: p) ++ strCRLF ++ rest) - length rest
    = length (first_line mm uu p)) as ->.
  { rewrite <- Hlen, (length_app (mm ++ _)), (length_app strCRLF). simpl (length strCRLF). lia. }
  done.
Qed.

Lemma nextLine_prefix m u p b x :
  first_ok m u p → b ++ x = first_line m u p → x ≠ [] → nextLine b = None.
Proof.
  intros (_&_&Hmn&_&Hun&Hp) E Hx. destruct (proto_clean p Hp) as (_&Hpn&_&_).
  unfold nextLine. rewrite (IndexByte_strict_prefix b x (m ++ " "%byte :: u ++ " "%byte :: p ++ [rChar])); [done| |done|set_solver].
  rewrite E. unfold first_line. by repeat (rewrite <- ?app_assoc; cbn [app]).
Qed.

(** * Reading the head in pieces *)

Definition head (m u p : bytes) (ls : list (bytes * bytes)) : bytes :=
  first_line m u p ++ hdr_lines ls ++ strCRLF.

Lemma length_first_line m u p : length (first_line m u p) ≠ 0.
Proof. unfold first_line. rewrite length_app. simpl. lia. Qed.

Lemma set_raw_same h : q_rawHeaders h = [] → h <| q_rawHeaders := [] |> = h.
Proof. destruct h; cbn. by intros ->. Qed.

Section read.
Context (h0 : RequestHeader) (m u p : bytes) (ls : list (bytes * bytes)) (h' : RequestHeader).
Hypothesis (Hfirst : first_ok m u p) (Hl : lines_ok ls)
  (Hn : names_ok (q_disableNormalizing h0) ls).

Let n1 := length (first_line m u p).
Let h1 := setFirstLine h0 m u p n1.
Let raw := match ls with [] => [] | _ => hdr_lines ls ++ strCRLF end.

Hypothesis (Hmethod : q_method h0 = []) (Hraw : q_rawHeaders h0 = [])
  (Hlen0 : q_firstLineLen h0 = 0).
Hypothesis Happly : apply_lines (startHeaders (h1 <| q_rawHeaders := raw |>)) ls = (h', None).

(** The header between two attempts: untouched, or with the request line read. *)
Definition between (st : RequestHeader) (b : bytes) : Prop :=
  st = h0 ∨ st = h1 ∧ ∃ b', b = first_line m u p ++ b'.

Lemma parse_first st b : between st b → (∃ b', b = first_line m u p ++ b') →
  (if bool_decide (q_firstLineLen st = 0) then parseFirstLine st b
   else (st, inl (q_firstLineLen st))) = (h1, inl n1).
Proof.
  intros [->|[-> _]] (b'&->).
  - rewrite Hlen0, bool_decide_true by done. rewrite parseFirstLine_line; [done|done|].
    by rewrite Hmethod.
  - rewrite bool_decide_false; [done|]. cbn. apply length_first_line.
Qed.

Lemma parse_head st body :
  between st (head m u p ls ++ body) →
  parse st (head m u p ls ++ body)
  = (finishHeaders h', head m u p ls ++ body, inl (length (head m u p ls))).
Proof.
  intros Hst. unfold parse. rewrite parse_first; [|done|].
  2: { eexists. unfold head. by rewrite <- app_assoc. }
  assert (head m u p ls ++ body = first_line m u p ++ hdr_lines ls ++ strCRLF ++ body) as E
    by (unfold head; by rewrite <- !app_assoc).
  rewrite E. unfold n1 at 1 2 3. rewrite drop_app_length, take_app_length.
  destruct (readRawHeaders_lines ls body Hl) as (n&->).
  rewrite (parseHeaders_lines ls _ body h') by done.
  unfold head. rewrite !length_app. done.
Qed.

Lemma parse_head_prefix st b x :
  between st b → b ++ x = head m u p ls → x ≠ [] →
  ∃ st', parse st b = (st', b, inr errNeedMore) ∧ between st' b.
Proof.
  intros Hst E Hx. unfold head in E.
  apply prefix_cases in E as [(y&Hy&E)|(b'&->&E)].
  - destruct Hst as [->|[_ (b'&->)]].
    + exists h0. split; [|by left]. unfold parse.
      rewrite Hlen0, bool_decide_true by done. unfold parseFirstLine.
      by rewrite (nextLine_prefix m u p b y).
    + exfalso. apply (f_equal length) in E. rewrite !length_app in E. destruct y; [done|].
      simpl in E. lia.
  - exists h1. split; [|right; eauto]. unfold parse.
    rewrite parse_first by eauto. unfold n1. rewrite drop_app_length.
    rewrite (readRawHeaders_prefix ls b' x) by done. by rewrite set_raw_same.
Qed.

Lemma readLoop_head fuel st r n body :
  between st (r_buf r) → r_data r = head m u p ls ++ body →
  length (head m u p ls) ≤ r_size r → 1 ≤ n ≤ length (head m u p ls) →
  (n = 1 ∨ n = length (r_buf r) + 1) →
  length (head m u p ls) + 2 - n ≤ fuel →
  ∃ r', readLoop_from fuel st r n true = (finishHeaders h', r', None) ∧ r_data r' = body ∧
        r_size r' = r_size r ∧ r_err r' = r_err r.
Proof.
  revert st r n. induction fuel as [|fuel IH]; intros st r n Hst Hd Hsize Hn1 Hnb Hf; [lia|].
  cbn [readLoop_from]. unfold tryRead.
  destruct (Peek_ok r n) as (r1&->&Hbuf&Hd1&Hs1&He1&(z&Ez)); [lia|rewrite Hd, length_app; lia|].
  rewrite bool_decide_false by (rewrite length_take; lia).
  assert (between st (r_buf r1)) as Hst1.
  { destruct Hst as [->|[-> (b'&Eb)]]; [by left|right; split; [done|]].
    exists (b' ++ z). by rewrite Ez, Eb, app_assoc. }
  rewrite Hd in Hd1. pose proof Hd1 as Hdata. unfold r_data in Hd1.
  apply prefix_cases in Hd1 as [(y&Hy&E)|(b'&Eb&E)].
  - destruct (parse_head_prefix st (r_buf r1) y Hst1) as (st'&->&Hst'); [done|done|].
    cbn [negb orb]. rewrite bool_decide_true by done. cbn [negb].
    pose proof (f_equal length E) as El. rewrite length_app in El. destruct y as [|y0 y]; [done|].
    simpl in El. destruct (IH st' (r1 <| r_buf := r_buf r1 |>) (length (r_buf r1) + 1))
      as (r'&E1&E2&E3&E4); [done|exact Hdata|cbn; lia|lia|by right|lia|].
    exists r'. cbn in E1, E3, E4. split_and!; [exact E1|done|congruence|congruence].
  - rewrite Eb in Hst1 |- *. rewrite (parse_head st b') by done.
    eexists. split; [done|]. unfold r_data, Discard. cbn.
    rewrite drop_app_length. split_and!; done.
Qed.
End read.

(** * The lines a header prints *)

Definition opt_line (k v : bytes) : list (bytes * bytes) := if 0 <? length v then [(k, v)] else [].
Definition line_of (kv : argsKV) : bytes * bytes := (key kv, value kv).

(** The content type that is sent. *)
Definition sent_ct (h : RequestHeader) : bytes :=
  if negb (q_noDefaultContentType h) && bool_decide (length (ContentType h) = 0)
     && negb (ignoreBody h)
  then strDefaultContentType else ContentType h.

Definition not_trailer (h : RequestHeader) (kv : argsKV) : Prop :=
  isTrailerKey (q_trailer h) (key kv) = false.
#[global] Instance not_trailer_dec h kv : Decision (not_trailer h kv) := decide (_ = false).

Definition req_lines (h : RequestHeader) : list (bytes * bytes) :=
  opt_line strUserAgent (UserAgent h) ++ opt_line strHost (Host h)
  ++ opt_line strContentType (sent_ct h) ++ opt_line strContentLength (q_contentLengthBytes h)
  ++ (line_of <$> filter (not_trailer h) (live (q_h h)))
  ++ (if 0 <? length (live (q_trailer h))
      then [(strTrailer, appendArgsKeyBytes [] (q_trailer h) strCommaSpace)] else [])
  ++ (if 0 <? length (live (q_cookies h))
      then [(strCookie, appendRequestCookieBytes [] (q_cookies h))] else [])
  ++ (if ConnectionClose h then [(strConnection, strClose)] else []).

Lemma hdr_lines_app a b : hdr_lines (a ++ b) = hdr_lines a ++ hdr_lines b.
Proof. unfold hdr_lines. by rewrite bind_app. Qed.

Lemma hdr_lines_one k v : hdr_lines [(k, v)] = hdr_line k v.
Proof. unfold hdr_lines. cbn. by rewrite app_nil_r. Qed.

Lemma hdr_lines_if (c : bool) k v :
  hdr_lines (if c then [(k, v)] else []) = if c then hdr_line k v else [].
Proof. destruct c; [apply hdr_lines_one|done]. Qed.

Lemma appendHeaders_lines h dst l :
  appendHeaders dst (q_trailer h) l = dst ++ hdr_lines (line_of <$> filter (not_trailer h) l).
Proof.
  revert dst. induction l as [|kv l IH]; intros dst; cbn [appendHeaders foldl];
    [by rewrite app_nil_r|]. fold (appendHeaders (if isTrailerKey (q_trailer h) (key kv) then dst
      else appendHeaderLine dst (key kv) (value kv)) (q_trailer h) l).
  rewrite IH, filter_cons. destruct (decide (not_trailer h kv)) as [E|E]; unfold not_trailer in E.
  - rewrite E, fmap_cons, appendHeaderLine_line, <- app_assoc. done.
  - by destruct (isTrailerKey _ _).
Qed.

Lemma appendRequestCookie_dst dst c :
  appendRequestCookieBytes dst c = dst ++ appendRequestCookieBytes [] c.
Proof.
  unfold appendRequestCookieBytes. generalize (live c) as l. intros l.
  enough (∀ a b, appendRequestCookieBytes_loop (a ++ b) l = a ++ appendRequestCookieBytes_loop b l)
    as Hab by (by rewrite <- (app_nil_r dst), Hab, app_nil_r).
  induction l as [|kv l IH]; intros a b; [done|]. cbn [appendRequestCookieBytes_loop].
  destruct (0 <? _), l; rewrite <- ?app_assoc, IH; done.
Qed.

Lemma if_append_line (c : bool) dst k v :
  (if c then appendHeaderLine dst k v else dst) = dst ++ if c then hdr_line k v else [].
Proof. destruct c; [apply appendHeaderLine_line|by rewrite app_nil_r]. Qed.

Lemma AppendBytes_lines h :
  q_disableSpecialHeader h = false →
  AppendBytes h [] = head (Method h) (RequestURI h) (Protocol h) (req_lines h).
Proof.
  intros Hs. unfold AppendBytes, head, req_lines, opt_line. rewrite Hs. cbn [negb].
  rewrite !andb_true_r. fold (sent_ct h). rewrite !hdr_lines_app, !hdr_lines_if.
  rewrite !if_append_line, appendHeaders_lines.
  assert (∀ (c : bool) dst, (if c then appendRequestCookieBytes (dst ++ strCookie ++ strColonSpace)
      (q_cookies h) ++ strCRLF else dst)
    = dst ++ if c then hdr_line strCookie (appendRequestCookieBytes [] (q_cookies h)) else []) as Hck.
  { intros c dst. destruct c; [|by rewrite app_nil_r]. rewrite appendRequestCookie_dst.
    unfold hdr_line, appendHeaderLine. cbn [app]. by rewrite <- !app_assoc. }
  rewrite Hck. unfold first_line. by repeat (rewrite <- ?app_assoc; cbn [app]).
Qed.

(** * What the parser makes of the printed lines *)

Definition keys_of (l : list argsKV) : list bytes := key <$> l.

Definition is_TE (kv : argsKV) : Prop := key kv = strTransferEncoding.
#[global] Instance is_TE_dec kv : Decision (is_TE kv) := decide (_ = _).
#[global] Typeclasses Opaque is_TE.

(** A header that may stand in the list of general headers. *)
Definition entry_ok (kv : argsKV) : Prop :=
  token (key kv) ∧ normalizeHeaderKeyV2 (key kv) = key kv ∧ value_ok (value kv) ∧
  noValue kv = false ∧
  key kv ∉ [strHost; strUserAgent; strContentType; strContentLength; strTrailer; strCookie] ∧
  (key kv = strTransferEncoding → value kv = strChunked) ∧
  (key kv = strConnection → value kv ≠ strClose).

Lemma assoc_set_notin l k v nv : k ∉ keys_of l → assoc_set l k v nv = assoc_add l k v nv.
Proof.
  induction l as [|kv l IH]; intros Hk; [done|]. cbn in Hk. apply not_elem_of_cons in Hk as [H1 H2].
  cbn [assoc_set]. rewrite decide_False by congruence. by rewrite IH.
Qed.

Lemma kv_eta kv : noValue kv = false → mkKV (key kv) (storeValue (value kv) argsHasValue) argsHasValue = kv.
Proof. destruct kv; cbn. by intros ->. Qed.

(** What a run of general headers does to the header. *)
Definition with_entries (a : RequestHeader) (hs : kvs) (l : list argsKV) : RequestHeader :=
  a <| q_h := hs |>
    <| q_contentLength := if decide (strTransferEncoding ∈ keys_of l) then (-1)%Z else q_contentLength a |>
    <| q_connectionClose := if decide (strConnection ∈ keys_of l) then false else q_connectionClose a |>.

Lemma parseHeaderLine_entry a kv :
  q_disableSpecialHeader a = false → q_disableNormalizing a = false → entry_ok kv →
  (is_TE kv → strTransferEncoding ∉ keys_of (live (q_h a))) →
  ∃ hs, parseHeaderLine a (key kv) (value kv) = (with_entries a hs [kv], None) ∧
        live hs = live (q_h a) ++ [kv].
Proof.
  intros Hs Hn (Ht&_&Hv&Hnv&Hspecial&Hte&Hcc) Hte1. destruct Hv as [Hv _].
  rewrite parseHeaderLine_norm by done. rewrite !not_elem_of_cons in Hspecial.
  destruct Hspecial as (?&?&?&?&?&?&_).
  rewrite (bool_decide_false (_ = strHost)), (bool_decide_false (_ = strUserAgent)),
    (bool_decide_false (_ = strContentType)), (bool_decide_false (_ = strContentLength)) by done.
  assert (∀ x, x ∈ keys_of [kv] ↔ key kv = x) as Hin by (intros x; cbn; set_solver).
  assert (live (appendArgBytes (q_h a) (key kv) (value kv) argsHasValue) = live (q_h a) ++ [kv])
    as Happ by (unfold appendArgBytes; rewrite live_appendArg; unfold assoc_add; by rewrite kv_eta).
  unfold with_entries.
  destruct (bool_decide_reflect (key kv = strConnection)) as [Ec|Ec].
  - unfold Equal. rewrite (bool_decide_false (value kv = strClose)) by auto.
    exists (appendArgBytes (q_h a) (key kv) (value kv) argsHasValue). split; [|exact Happ].
    rewrite decide_False, decide_True by (rewrite Hin, Ec; done). reflexivity.
  - rewrite (decide_False (P := strConnection ∈ _)) by (by rewrite Hin).
    destruct (bool_decide_reflect (key kv = strTransferEncoding)) as [Et|Et].
    + rewrite (bool_decide_true (value kv = strChunked)) by auto.
      exists (setArgBytes (q_h a) strTransferEncoding strChunked argsHasValue).
      split; [rewrite decide_True by (by rewrite Hin); reflexivity|].
      unfold setArgBytes. rewrite live_setArg, assoc_set_notin by auto.
      unfold assoc_add. by rewrite <- (kv_eta kv), Et, (Hte Et).
    + rewrite (bool_decide_false (key kv = strTrailer)) by done.
      exists (appendArgBytes (q_h a) (key kv) (value kv) argsHasValue).
      split; [rewrite decide_False by (by rewrite Hin); reflexivity|exact Happ].
Qed.

Lemma with_entries_flags a hs l :
  q_disableSpecialHeader (with_entries a hs l) = q_disableSpecialHeader a ∧
  q_disableNormalizing (with_entries a hs l) = q_disableNormalizing a ∧
  q_h (with_entries a hs l) = hs.
Proof. done. Qed.

Lemma with_entries_app a hs1 hs2 l1 l2 :
  with_entries (with_entries a hs1 l1) hs2 l2 = with_entries a hs2 (l1 ++ l2).
Proof.
  assert (keys_of (l1 ++ l2) = keys_of l1 ++ keys_of l2) as E by apply fmap_app.
  unfold with_entries. cbn. rewrite E. f_equal; repeat case_decide; try done; set_solver.
Qed.

Lemma with_entries_nil a : with_entries a (q_h a) [] = a.
Proof. unfold with_entries. rewrite !decide_False by set_solver. by destruct a. Qed.

Lemma apply_entries a l :
  q_disableSpecialHeader a = false → q_disableNormalizing a = false → Forall entry_ok l →
  length (filter is_TE (live (q_h a) ++ l)) ≤ 1 →
  ∃ hs, apply_lines a (line_of <$> l) = (with_entries a hs l, None) ∧
        live hs = live (q_h a) ++ l.
Proof.
  intros Hs Hn Hl. revert a Hs Hn. induction Hl as [|kv l Hkv Hl IH]; intros a Hs Hn Hte.
  { exists (q_h a). rewrite with_entries_nil, app_nil_r. done. }
  destruct (parseHeaderLine_entry a kv Hs Hn Hkv) as (hs&E&Elive).
  { intros Hkte Hin. rewrite filter_app, filter_cons, decide_True, length_app in Hte by done.
    apply list_elem_of_fmap in Hin as (x&Ex&Hx).
    assert (x ∈ filter is_TE (live (q_h a))) as Hf by (by apply list_elem_of_filter).
    destruct (filter is_TE (live (q_h a))); [set_solver|]. simpl in Hte. lia. }
  cbn [fmap list_fmap apply_lines line_of fst snd]. rewrite E.
  destruct (IH (with_entries a hs [kv])) as (hs'&E'&El'); [done|done| |].
  { cbn [with_entries upd q_h]. rewrite Elive, <- app_assoc. done. }
  exists hs'. rewrite E', with_entries_app. split; [done|].
  rewrite El'. cbn [with_entries upd q_h]. by rewrite Elive, <- app_assoc.
Qed.

(** * Trailer names *)

Definition trailer_ok (k : bytes) : Prop :=
  token k ∧ normalizeHeaderKeyV2 k = k ∧ isBadTrailer k false = false.

Definition trailer_kv (k : bytes) : argsKV := mkKV k [] true.

Fixpoint join_keys (l : list bytes) : bytes :=
  match l with
  | [] => []
  | [k] => k
  | k :: l => k ++ strCommaSpace ++ join_keys l
  end.

Lemma appendArgsKeyBytes_join l :
  appendArgsKeyBytes [] (mkKvs l []) strCommaSpace = join_keys (key <$> l).
Proof.
  unfold appendArgsKeyBytes. cbn [live].
  enough (∀ dst, appendArgsKeyBytes_loop dst l strCommaSpace = dst ++ join_keys (key <$> l)) as H
    by apply (H []).
  induction l as [|kv l IH]; intros dst; cbn [appendArgsKeyBytes_loop fmap list_fmap join_keys];
    [by rewrite app_nil_r|].
  destruct l as [|kv' l]; [by rewrite IH, app_nil_r|]. rewrite IH. cbn [fmap list_fmap].
  by rewrite <- !app_assoc.
Qed.

Lemma stripSpace_token sp k : token k → sp = [] ∨ sp = [" "%byte] → stripSpace (sp ++ k) = k.
Proof.
  intros [Hne Hk] Hsp. unfold stripSpace.
  assert (∀ c, c ∈ k → c ≠ " "%byte) as Hc.
  { intros c Hin ->. by apply (forallb_elem _ _ _ Hk) in Hin. }
  assert (trimLeft " " (sp ++ k) = k) as ->.
  { assert (trimLeft " " k = k) as E.
    { apply trimLeft_id. destruct k as [|c k]; [done|]. cbn. intros [= ->]. by apply (Hc " "%byte); [left|]. }
    destruct Hsp as [->| ->]; [done|]. exact E. }
  apply trimRight_id. intros Hl. apply last_Some_elem_of in Hl. by apply (Hc " "%byte).
Qed.

Lemma AddTrailerBytes_loop_keys fuel h sp l :
  q_disableNormalizing h = false → Forall trailer_ok l → l ≠ [] →
  sp = [] ∨ sp = [" "%byte] → length l ≤ fuel →
  ∃ bk tr, AddTrailerBytes_loop fuel h (sp ++ join_keys l) None
           = (h <| q_bufK := bk |> <| q_trailer := tr |>, None) ∧
           live tr = live (q_trailer h) ++ (trailer_kv <$> l).
Proof.
  revert h sp l. induction fuel as [|fuel IH]; intros h sp l Hn Hl Hne Hsp Hf.
  { destruct l; [done|]. simpl in Hf. lia. }
  destruct l as [|k l]; [done|]. apply Forall_cons in Hl as [(Ht&Hnorm&Hbad) Hl].
  assert (","%byte ∉ sp ++ k) as Hc.
  { destruct (token_clean k Ht) as (_&_&_&?). destruct Hsp as [->| ->]; set_solver. }
  cbn [AddTrailerBytes_loop].
  assert (∃ t, sp ++ join_keys (k :: l) = (sp ++ k) ++ t ∧
    default (length (sp ++ join_keys (k :: l))) (IndexByte (sp ++ join_keys (k :: l)) ",")
      = length (sp ++ k) ∧
    (l = [] ∧ t = [] ∨ l ≠ [] ∧ t = ","%byte :: [" "%byte] ++ join_keys l)) as (t&Et&Ei&Ht').
  { destruct l as [|k' l].
    - exists []. cbn [join_keys]. rewrite app_nil_r. split_and!; [done| |by left].
      by rewrite (proj2 (IndexByte_None _ _)).
    - exists (","%byte :: [" "%byte] ++ join_keys (k' :: l)).
      assert (sp ++ join_keys (k :: k' :: l) = (sp ++ k) ++ ","%byte :: [" "%byte] ++ join_keys (k' :: l))
        as E by (cbn [join_keys]; by rewrite <- app_assoc).
      rewrite E, IndexByte_app by done. split_and!; [done|done|by right]. }
  rewrite Ei, Et, take_app_length, stripSpace_token by done.
  unfold initHeaderK. rewrite Hn, Hnorm.
  change (q_disableNormalizing (upd q_bufK h k)) with (q_disableNormalizing h). rewrite Hn, Hbad.
  destruct Ht' as [[-> ->]|[Hlne ->]].
  - rewrite app_nil_r. destruct (Nat.ltb_spec (length (sp ++ k) + 1) (length (sp ++ k))); [lia|].
    exists k, (appendArgBytes (q_trailer h) k [] argsNoValue). split; [done|].
    unfold appendArgBytes. by rewrite live_appendArg.
  - destruct (Nat.ltb_spec (length (sp ++ k) + 1) (length ((sp ++ k) ++ ","%byte :: [" "%byte] ++ join_keys l)))
      as [_|Hlt]; [|rewrite length_app in Hlt; simpl in Hlt; lia].
    rewrite drop_app_add' by done.
    edestruct (IH (h <| q_bufK := k |> <| q_trailer := appendArgBytes (q_trailer h) k [] argsNoValue |>)
      [" "%byte] l) as (bk&tr&E&Elive); [done|done|done|by right|simpl in Hf; lia|].
    exists bk, tr. split; [exact E|]. rewrite Elive. cbn [upd q_trailer].
    unfold appendArgBytes. rewrite live_appendArg. unfold assoc_add. by rewrite <- app_assoc.
Qed.

Lemma length_join_keys l : Forall trailer_ok l → length l ≤ length (join_keys l).
Proof.
  induction 1 as [|k l [[Hne _] _] Hl IH]; [done|]. destruct k as [|c k]; [done|].
  destruct l as [|k' l]; [simpl; lia|]. cbn [join_keys] in *. rewrite !length_app. simpl in *. lia.
Qed.

Lemma SetTrailerBytes_keys h l :
  q_disableNormalizing h = false → Forall trailer_ok l → l ≠ [] →
  ∃ bk tr, SetTrailerBytes h (join_keys l) = (h <| q_bufK := bk |> <| q_trailer := tr |>, None) ∧
           live tr = trailer_kv <$> l.
Proof.
  intros Hn Hl Hne. unfold SetTrailerBytes, AddTrailerBytes.
  pose proof (length_join_keys l Hl) as Hlen.
  destruct (Nat.ltb_spec 0 (length (join_keys l))) as [_|Hz]; [|destruct l; simpl in *; [done|lia]].
  destruct (AddTrailerBytes_loop_keys (length (join_keys l))
    (h <| q_trailer := kvs_reset (q_trailer h) |>) [] l) as (bk&tr&E&El); try done; [by left|].
  exists bk, tr. split; [exact E|exact El].
Qed.

(** * A whole head *)

Definition normal (a : RequestHeader) : Prop :=
  q_disableSpecialHeader a = false ∧ q_disableNormalizing a = false.

Ltac names := repeat first
  [rewrite bool_decide_true by done | rewrite bool_decide_false by done].

Lemma name_token a : a ∈ [strHost; strUserAgent; strContentType; strContentLength; strConnection;
  strTransferEncoding; strTrailer; strCookie] → token a ∧ normalizeHeaderKeyV2 a = a.
Proof. rewrite !elem_of_cons, elem_of_nil. intros Ha. by destruct_or! Ha; subst. Qed.

Section special_lines.
Context (a : RequestHeader) (Ha : normal a).

Lemma apply_host v : value_ok v → q_host a = [] →
  apply_lines a (opt_line strHost v) = (a <| q_host := v |>, None).
Proof.
  intros [Hv _] He. destruct v as [|c v]; [by destruct a; cbn in *; rewrite He|].
  destruct Ha. cbn [opt_line length Nat.ltb Nat.leb apply_lines fst snd].
  rewrite parseHeaderLine_norm by done. by names.
Qed.

Lemma apply_userAgent v : value_ok v → q_userAgent a = [] →
  apply_lines a (opt_line strUserAgent v) = (a <| q_userAgent := v |>, None).
Proof.
  intros [Hv _] He. destruct v as [|c v]; [by destruct a; cbn in *; rewrite He|].
  destruct Ha. cbn [opt_line length Nat.ltb Nat.leb apply_lines fst snd].
  rewrite parseHeaderLine_norm by done. by names.
Qed.

Lemma apply_contentType v : value_ok v → q_contentType a = [] →
  apply_lines a (opt_line strContentType v) = (a <| q_contentType := v |>, None).
Proof.
  intros [Hv _] He. destruct v as [|c v]; [by destruct a; cbn in *; rewrite He|].
  destruct Ha. cbn [opt_line length Nat.ltb Nat.leb apply_lines fst snd].
  rewrite parseHeaderLine_norm by done. by names.
Qed.

Lemma apply_contentLength v n :
  value_ok v → v ≠ [] → parseContentLength v = (n, None) →
  q_contentLength a = 0%Z → q_contentLengthSeen a = false →
  apply_lines a (opt_line strContentLength v)
  = (a <| q_contentLengthSeen := true |> <| q_contentLength := n |>
       <| q_contentLengthBytes := v |>, None).
Proof.
  intros [Hv _] Hne Hp Hc Hs. destruct v as [|c v]; [done|].
  destruct Ha. cbn [opt_line length Nat.ltb Nat.leb apply_lines fst snd].
  rewrite parseHeaderLine_norm by done. rewrite Hs. cbn [upd q_contentLength].
  rewrite Hc, Hp. by names.
Qed.

Lemma apply_close (c : bool) : q_connectionClose a = false →
  apply_lines a (if c then [(strConnection, strClose)] else [])
  = (a <| q_connectionClose := c |>, None).
Proof.
  intros He. destruct c; [|by destruct a; cbn in *; rewrite He]. destruct Ha.
  cbn [apply_lines fst snd]. rewrite parseHeaderLine_norm by done. unfold Equal. by names.
Qed.

Lemma apply_cookie v : value_ok v →
  apply_lines a [(strCookie, v)]
  = (a <| q_h := appendArgBytes (q_h a) strCookie v argsHasValue |>, None).
Proof.
  intros [Hv _]. destruct Ha. cbn [apply_lines fst snd].
  rewrite parseHeaderLine_norm by done. by names.
Qed.

Lemma apply_trailers l : Forall trailer_ok l → l ≠ [] →
  forallb validHeaderValueByte (join_keys l) = true →
  ∃ bk tr, apply_lines a [(strTrailer, join_keys l)]
           = (a <| q_bufK := bk |> <| q_trailer := tr |>, None) ∧ live tr = trailer_kv <$> l.
Proof.
  intros Hl Hne Hv. destruct Ha as [H1 H2].
  destruct (SetTrailerBytes_keys a l H2 Hl Hne) as (bk&tr&E&El). exists bk, tr. split; [|done].
  cbn [apply_lines fst snd]. rewrite parseHeaderLine_norm by done. names. by rewrite E.
Qed.
End special_lines.

(** The general headers that are sent, and the line of the cookies. *)
Definition sent_headers (h : RequestHeader) : list argsKV := filter (not_trailer h) (live (q_h h)).
Definition cookie_entry (h : RequestHeader) : list argsKV :=
  if 0 <? length (live (q_cookies h))
  then [mkKV strCookie (appendRequestCookieBytes [] (q_cookies h)) false] else [].

(** How the body is announced. *)
Definition framing_wf (h : RequestHeader) : Prop :=
  q_contentLengthBytes h = [] ∧ q_contentLength h = 0%Z ∧
    strTransferEncoding ∉ keys_of (sent_headers h) ∨
  value_ok (q_contentLengthBytes h) ∧ q_contentLengthBytes h ≠ [] ∧
    parseContentLength (q_contentLengthBytes h) = (q_contentLength h, None) ∧
    strTransferEncoding ∉ keys_of (sent_headers h) ∨
  q_contentLengthBytes h = [] ∧ q_contentLength h = (-1)%Z ∧
    strTransferEncoding ∈ keys_of (sent_headers h).

(** A request header that can be sent. *)
Record req_wf (h : RequestHeader) : Prop := {
  wf_normal : normal h;
  wf_first : first_ok (Method h) (RequestURI h) (Protocol h);
  wf_userAgent : value_ok (UserAgent h);
  wf_host : value_ok (Host h);
  wf_contentType : value_ok (ContentType h);
  wf_headers : Forall entry_ok (sent_headers h);
  wf_TE : length (filter is_TE (sent_headers h)) ≤ 1;
  wf_framing : framing_wf h;
  wf_trailer : ∃ l, live (q_trailer h) = trailer_kv <$> l ∧ Forall trailer_ok l;
  wf_cookies : ∃ l, live (q_cookies h) = has_value <$> l ∧ Forall cookie_wf l;
  wf_cookie_line : value_ok (appendRequestCookieBytes [] (q_cookies h))
}.

(** A header in which no general header has been stored, and one in which nothing has. *)
Definition unframed (a : RequestHeader) : Prop :=
  normal a ∧ q_contentLength a = 0%Z ∧ q_contentLengthSeen a = false ∧
  q_contentLengthBytes a = [] ∧ live (q_h a) = [] ∧ q_connectionClose a = false.
Definition fresh (a : RequestHeader) : Prop :=
  unframed a ∧ q_host a = [] ∧ q_userAgent a = [] ∧ q_contentType a = [] ∧
  live (q_trailer a) = [].

Lemma value_ok_ct h : value_ok (ContentType h) → value_ok (sent_ct h).
Proof. intros Hv. unfold sent_ct. destruct (_ && _ && _); [|done].
  split_and!; [done|done|by intros c [= <-]]. Qed.

Lemma join_keys_valid l : Forall trailer_ok l → forallb validHeaderValueByte (join_keys l) = true.
Proof.
  assert (∀ c, validHeaderFieldByte c = true → validHeaderValueByte c = true) as Hc by byte_exhaust.
  assert (∀ k, token k → forallb validHeaderValueByte k = true) as Hk.
  { intros k [_ Hk]. apply forallb_forall. intros c Hin. apply Hc.
    by apply (proj1 (forallb_forall _ _) Hk). }
  induction 1 as [|k l [Ht _] Hl IH]; [done|]. destruct l as [|k' l]; [by apply Hk|].
  cbn [join_keys] in *. by rewrite !forallb_app, (Hk k), IH.
Qed.

Lemma apply_trailer_line a h :
  normal a → live (q_trailer a) = [] →
  (∃ l, live (q_trailer h) = trailer_kv <$> l ∧ Forall trailer_ok l) →
  ∃ bk tr, apply_lines a (if 0 <? length (live (q_trailer h))
      then [(strTrailer, appendArgsKeyBytes [] (q_trailer h) strCommaSpace)] else [])
    = (a <| q_bufK := bk |> <| q_trailer := tr |>, None) ∧ live tr = live (q_trailer h).
Proof.
  intros Ha Ht (l&El&Hl). unfold appendArgsKeyBytes. rewrite El.
  destruct l as [|k l].
  - exists (q_bufK a), (q_trailer a). split; [by destruct a|done].
  - pose proof (appendArgsKeyBytes_join (trailer_kv <$> k :: l)) as Ej.
    unfold appendArgsKeyBytes in Ej. cbn [live] in Ej. rewrite Ej.
    assert (key <$> (trailer_kv <$> k :: l) = k :: l) as ->
      by (rewrite <- list_fmap_compose; apply list_fmap_id).
    destruct (apply_trailers a Ha (k :: l) Hl ltac:(done) (join_keys_valid _ Hl)) as (bk&tr&E&Etr).
    exists bk, tr. split; [exact E|done].
Qed.

(** The content length line and the general headers together announce the body. *)
Lemma apply_framing a h :
  unframed a → req_wf h →
  ∃ hs seen, apply_lines a (opt_line strContentLength (q_contentLengthBytes h)
                            ++ (line_of <$> sent_headers h))
    = (a <| q_contentLengthSeen := seen |> <| q_contentLengthBytes := q_contentLengthBytes h |>
         <| q_contentLength := q_contentLength h |> <| q_h := hs |>, None) ∧
    live hs = sent_headers h.
Proof.
  intros ([Hs Hn]&Hcl&Hseen&Hbytes&Hh&Hcc) Hwf.
  assert (∀ b, normal b → live (q_h b) = [] → q_connectionClose b = false →
    ∃ hs, apply_lines b (line_of <$> sent_headers h) =
      (b <| q_contentLength := if decide (strTransferEncoding ∈ keys_of (sent_headers h))
                               then (-1)%Z else q_contentLength b |> <| q_h := hs |>, None) ∧
      live hs = sent_headers h) as Hent.
  { intros b [Hbs Hbn] Hbh Hbc.
    destruct (apply_entries b (sent_headers h) Hbs Hbn (wf_headers h Hwf)) as (hs&E&El).
    { rewrite Hbh. apply (wf_TE h Hwf). }
    exists hs. rewrite E, El, Hbh. split; [|done]. unfold with_entries. rewrite Hbc.
    assert ((if decide (strConnection ∈ keys_of (sent_headers h)) then false else false) = false) as ->
      by (by destruct (decide _)). by destruct b; cbn in *; subst. }
  destruct (wf_framing h Hwf) as [(E1&E2&E3)|[(E1&E2&E3&E4)|(E1&E2&E3)]].
  - destruct (Hent a ltac:(done) Hh Hcc) as (hs&E&El). exists hs, false. split; [|done].
    rewrite E1, E2. cbn [opt_line length Nat.ltb Nat.leb app]. rewrite E, decide_False by done.
    by destruct a; cbn in *; subst.
  - rewrite (apply_lines_app _ _ _ _ (apply_contentLength a ltac:(done) _ _ E1 E2 E3 Hcl Hseen)).
    match goal with |- context [apply_lines ?b _] => destruct (Hent b) as (hs&E&El) end; try done.
    exists hs, true. split; [|done]. rewrite E, decide_False by done. by destruct a.
  - destruct (Hent a ltac:(done) Hh Hcc) as (hs&E&El). exists hs, false. split; [|done].
    rewrite E1, E2. cbn [opt_line length Nat.ltb Nat.leb app]. rewrite E, decide_True by done.
    by destruct a; cbn in *; subst.
Qed.

Lemma apply_cookie_line a h :
  normal a → value_ok (appendRequestCookieBytes [] (q_cookies h)) →
  ∃ hs, apply_lines a (if 0 <? length (live (q_cookies h))
      then [(strCookie, appendRequestCookieBytes [] (q_cookies h))] else [])
    = (a <| q_h := hs |>, None) ∧ live hs = live (q_h a) ++ cookie_entry h.
Proof.
  intros Ha Hv. unfold cookie_entry. destruct (0 <? _).
  - rewrite (apply_cookie a Ha) by done. eexists. split; [done|].
    unfold appendArgBytes. by rewrite live_appendArg.
  - exists (q_h a). rewrite app_nil_r. split; [by destruct a|done].
Qed.

Lemma apply_req_lines a h :
  fresh a → req_wf h →
  ∃ hs tr seen bk, apply_lines a (req_lines h)
    = (a <| q_userAgent := UserAgent h |> <| q_host := Host h |> <| q_contentType := sent_ct h |>
         <| q_contentLengthSeen := seen |> <| q_contentLengthBytes := q_contentLengthBytes h |>
         <| q_contentLength := q_contentLength h |> <| q_h := hs |> <| q_bufK := bk |>
         <| q_trailer := tr |> <| q_connectionClose := q_connectionClose h |>, None) ∧
    live hs = sent_headers h ++ cookie_entry h ∧ live tr = live (q_trailer h).
Proof.
  intros (Hu&H1&H2&H3&H4) Hwf. pose proof (proj1 Hu) as Ha. unfold req_lines.
  rewrite (apply_lines_app _ _ _ _ (apply_userAgent a Ha _ (wf_userAgent h Hwf) H2)).
  set (a1 := upd q_userAgent _ _).
  rewrite (apply_lines_app _ _ _ _ (apply_host a1 Ha _ (wf_host h Hwf) H1)).
  set (a2 := upd q_host _ _).
  rewrite (apply_lines_app _ _ _ _ (apply_contentType a2 Ha _ (value_ok_ct h (wf_contentType h Hwf)) H3)).
  set (a3 := upd q_contentType _ _).
  destruct (apply_framing a3 h Hu Hwf) as (hs&seen&E4&El4).
  rewrite app_assoc, (apply_lines_app _ _ _ _ E4). set (a4 := upd q_h _ _).
  destruct (apply_trailer_line a4 h Ha H4 (wf_trailer h Hwf)) as (bk&tr&E5&El5).
  rewrite (apply_lines_app _ _ _ _ E5). set (a5 := upd q_trailer _ _).
  destruct (apply_cookie_line a5 h Ha (wf_cookie_line h Hwf)) as (hs'&E6&El6).
  rewrite (apply_lines_app _ _ _ _ E6). set (a6 := upd q_h _ _).
  unfold ConnectionClose. rewrite (apply_close a6 Ha) by apply Hu.
  exists hs', tr, seen, bk. split; [done|]. split; [|done].
  rewrite El6. change (q_h a5) with hs. by rewrite El4.
Qed.

(** * Reading back a printed header *)

(** The two headers say the same, [a] having been read and [h] printed. *)
Definition same_request (h a : RequestHeader) : Prop :=
  Method a = Method h ∧ RequestURI a = RequestURI h ∧ Protocol a = Protocol h ∧
  Host a = Host h ∧ UserAgent a = UserAgent h ∧ ContentType a = sent_ct h ∧
  ContentLength a = ContentLength h ∧
  live (q_h a) = sent_headers h ++ cookie_entry h ∧
  live (q_trailer a) = live (q_trailer h) ∧
  ConnectionClose a = (ConnectionClose h || negb (Equal (Protocol h) strHTTP11)
     && negb (hasHeaderValue (bytes_of (peekArg_loop (sent_headers h) strConnection)) strKeepAlive)).

Lemma value_ok_join l : Forall trailer_ok l → l ≠ [] → value_ok (join_keys l).
Proof.
  intros Hl Hne. split_and!; [by apply join_keys_valid| |].
  - destruct Hl as [|k l [[Hk Hf] _] _]; [done|]. destruct k as [|c k]; [done|].
    cbn in Hf. apply andb_prop in Hf as [Hc _]. apply field_byte in Hc as (_&_&_&Hc&_).
    by destruct l.
  - induction Hl as [|k l [[Hk Hf] _] Hl IH]; [done|]. destruct l as [|k' l].
    + intros c Hc. apply last_Some_elem_of, (forallb_elem _ _ _ Hf), field_byte in Hc. by destruct_and! Hc.
    + intros c. change (join_keys (k :: k' :: l)) with (k ++ strCommaSpace ++ join_keys (k' :: l)).
      rewrite app_assoc, last_app. specialize (IH ltac:(done)).
      destruct (last (join_keys (k' :: l))) eqn:E; [intros [= <-]; by apply IH|].
      apply last_None in E. exfalso. pose proof (length_join_keys (k' :: l) Hl) as Hlen.
      rewrite E in Hlen. simpl in Hlen. lia.
Qed.

Definition line_ok (kv : bytes * bytes) : Prop :=
  token kv.1 ∧ value_ok kv.2 ∧ normalizeHeaderKeyV2 kv.1 = kv.1.

Lemma opt_line_ok k v :
  k ∈ [strHost; strUserAgent; strContentType; strContentLength; strConnection;
       strTransferEncoding; strTrailer; strCookie] → value_ok v → Forall line_ok (opt_line k v).
Proof.
  intros Hk Hv. apply name_token in Hk as [??]. unfold opt_line.
  destruct (_ <? _); [|constructor]. by apply Forall_singleton.
Qed.

Lemma req_lines_ok h : req_wf h → Forall line_ok (req_lines h).
Proof.
  intros Hwf. unfold req_lines. repeat apply Forall_app_2.
  - apply opt_line_ok; [set_solver|apply Hwf].
  - apply opt_line_ok; [set_solver|apply Hwf].
  - apply opt_line_ok; [set_solver|apply value_ok_ct, Hwf].
  - destruct (wf_framing h Hwf) as [(->&_)|[(?&_)|(->&_)]]; [constructor|apply opt_line_ok; [set_solver|done]|constructor].
  - apply Forall_fmap. eapply Forall_impl; [apply (wf_headers h Hwf)|].
    intros kv (?&?&?&_). done.
  - destruct (wf_trailer h Hwf) as (l&El&Hl).
    pose proof (appendArgsKeyBytes_join (live (q_trailer h))) as Ej.
    unfold appendArgsKeyBytes in *. cbn [live] in Ej. rewrite Ej, El.
    assert (key <$> (trailer_kv <$> l) = l) as -> by (rewrite <- list_fmap_compose; apply list_fmap_id).
    destruct l as [|k l]; [constructor|]. apply Forall_singleton.
    split_and!; [done|by apply value_ok_join|done].
  - destruct (0 <? _); [|constructor]. apply Forall_singleton. split_and!; [done|apply Hwf|done].
  - destruct (ConnectionClose h); [|constructor]. apply Forall_singleton.
    split_and!; [done| |done]. split_and!; [done|done|by intros c [= <-]].
Qed.

Lemma req_lines_split h : req_wf h → lines_ok (req_lines h) ∧ names_ok false (req_lines h).
Proof.
  intros Hl%req_lines_ok. split; [|right]; eapply Forall_impl; try exact Hl; intros kv (?&?&?); done.
Qed.

Lemma peek_app l1 l2 k :
  peekArg_loop (l1 ++ l2) k = match peekArg_loop l1 k with Some v => Some v | None => peekArg_loop l2 k end.
Proof. induction l1 as [|kv l1 IH]; [done|]. cbn. by destruct (bool_decide _). Qed.

Lemma set_close b (x v : bool) :
  (if x && negb (q_connectionClose b) then b <| q_connectionClose := v |> else b)
  = b <| q_connectionClose := q_connectionClose b || x && v |>.
Proof. destruct b as [???????????????? [] ???????], x; done. Qed.

Lemma finishHeaders_same a h :
  q_noHTTP11 a = negb (Equal (Protocol h) strHTTP11) →
  live (q_h a) = sent_headers h ++ cookie_entry h →
  finishHeaders a =
    a <| q_contentLengthBytes := if (q_contentLength a <? 0)%Z then [] else q_contentLengthBytes a |>
      <| q_connectionClose := q_connectionClose a || negb (Equal (Protocol h) strHTTP11)
           && negb (hasHeaderValue (bytes_of (peekArg_loop (sent_headers h) strConnection)) strKeepAlive) |>.
Proof.
  intros Hp Hl. unfold finishHeaders, peekArgBytes.
  assert ((if (q_contentLength a <? 0)%Z then a <| q_contentLengthBytes := [] |> else a)
    = a <| q_contentLengthBytes := if (q_contentLength a <? 0)%Z then [] else q_contentLengthBytes a |>)
    as -> by (destruct (_ <? _)%Z; by destruct a).
  set (b := upd q_contentLengthBytes _ _). rewrite set_close.
  change (q_connectionClose b) with (q_connectionClose a). change (q_noHTTP11 b) with (q_noHTTP11 a).
  change (q_h b) with (q_h a). rewrite Hp, Hl, peek_app.
  assert (peekArg_loop (cookie_entry h) strConnection = None) as ->
    by (unfold cookie_entry; by destruct (_ <? _)).
  by destruct (peekArg_loop (sent_headers h) strConnection).
Qed.

Lemma caseInsensitive_cookie k :
  caseInsensitiveCompare k strCookie = true → normalizeHeaderKeyV2 k = strCookie.
Proof.
  assert (∀ c, or20 c = or20 "C"%byte → toLowerTable c = "c"%byte) as H1 by byte_exhaust.
  assert (∀ c, or20 c = or20 "o"%byte → toLowerTable c = "o"%byte) as H2 by byte_exhaust.
  assert (∀ c, or20 c = or20 "k"%byte → toLowerTable c = "k"%byte) as H3 by byte_exhaust.
  assert (∀ c, or20 c = or20 "i"%byte → toLowerTable c = "i"%byte) as H4 by byte_exhaust.
  assert (∀ c, or20 c = or20 "e"%byte → toLowerTable c = "e"%byte) as H5 by byte_exhaust.
  intros E. change strCookie with (normalizeHeaderKeyV2 strCookie). apply normalize_eq.
  unfold caseInsensitiveCompare in E. destruct (bool_decide_reflect (length k ≠ length strCookie)) as [|Hl]; [done|].
  apply dec_stable in Hl. destruct k as [|c1 [|c2 [|c3 [|c4 [|c5 [|c6 [|]]]]]]]; try done.
  change (caseInsensitiveCompare_loop [c1; c2; c3; c4; c5; c6]
    ["C"%byte; "o"%byte; "o"%byte; "k"%byte; "i"%byte; "e"%byte] = true) in E.
  cbn [caseInsensitiveCompare_loop] in E. rewrite !andb_true_iff, !bool_decide_eq_true in E. destruct E as (?&?&?&?&?&?&_).
  cbn [fmap list_fmap]. rewrite H1, !H2, H3, H4, H5 by done. done.
Qed.

Lemma collectCookies_loop_skip done_ l sp c rest :
  Forall entry_ok l →
  collectCookies_loop done_ (l ++ rest) sp c = collectCookies_loop (done_ ++ l) rest sp c.
Proof.
  intros Hl. revert done_. induction Hl as [|kv l Hkv Hl IH]; intros done_.
  { by rewrite app_nil_r. }
  cbn [app collectCookies_loop]. destruct (caseInsensitiveCompare (key kv) strCookie) eqn:E.
  - apply caseInsensitive_cookie in E. destruct Hkv as (_&Hn&_&_&Hsp&_). rewrite Hn in E.
    rewrite E in Hsp. set_solver.
  - rewrite IH. by rewrite <- app_assoc.
Qed.

(** The cookies that were sent are the cookies that are collected. *)
Lemma collectCookies_same a h :
  req_wf h → q_cookiesCollected a = false → live (q_h a) = sent_headers h ++ cookie_entry h →
  cookies_ok (q_cookies a) → live (q_cookies a) = [] →
  live (q_cookies (collectCookies a)) = live (q_cookies h) ∧
  live (q_h (collectCookies a)) = sent_headers h.
Proof.
  intros Hwf Hc Hl Hok Hnil. unfold collectCookies. rewrite Hc, Hl.
  rewrite collectCookies_loop_skip by apply Hwf. cbn [app]. unfold cookie_entry.
  destruct (wf_cookies h Hwf) as (cs&Ecs&Hcs).
  destruct (Nat.ltb_spec 0 (length (live (q_cookies h)))) as [Hlt|Hz].
  - cbn [collectCookies_loop key value].
    destruct (caseInsensitiveCompare strCookie strCookie) eqn:E; [|by rewrite caseInsensitiveCompare_refl in E].
    cbn [upd q_cookies q_h live]. split; [|done].
    destruct (parseRequestCookies_spec (q_cookies a) (appendRequestCookieBytes [] (q_cookies h)) Hok)
      as [-> _].
    rewrite Hnil, Ecs. destruct (appendRequestCookie_parse cs [] Hcs) as (s&Es&Ep&_).
    unfold appendRequestCookieBytes. rewrite Ecs, Es. cbn [app]. by rewrite Ep.
  - cbn. rewrite Hnil. split; [|done]. destruct (live (q_cookies h)); [done|]. simpl in Hz. lia.
Qed.

Lemma Method_set b m : q_method b = m → m ≠ [] → Method b = m.
Proof. intros <- Hm. unfold Method. by destruct (q_method b). Qed.
Lemma RequestURI_set b m : q_requestURI b = m → m ≠ [] → RequestURI b = m.
Proof. intros <- Hm. unfold RequestURI. by destruct (q_requestURI b). Qed.
Lemma Protocol_set b m : q_proto b = m → m ≠ [] → Protocol b = m.
Proof. intros <- Hm. unfold Protocol. by destruct (q_proto b). Qed.

Lemma Host_set b v : q_disableSpecialHeader b = false → q_host b = v → Host b = v.
Proof. intros Hs. unfold Host. by rewrite Hs. Qed.
Lemma UserAgent_set b v : q_disableSpecialHeader b = false → q_userAgent b = v → UserAgent b = v.
Proof. intros Hs. unfold UserAgent. by rewrite Hs. Qed.
Lemma ContentType_set b v : q_disableSpecialHeader b = false → q_contentType b = v → ContentType b = v.
Proof. intros Hs. unfold ContentType. by rewrite Hs. Qed.

(** A printed header read back through any reader that can hold it: the request is
    the same, and the body is what remains. *)
Lemma Read_AppendBytes h h0 r body :
  req_wf h → normal h0 → cookies_ok (q_cookies h0) →
  r_data r = AppendBytes h [] ++ body → length (AppendBytes h []) ≤ r_size r →
  ∃ a r', Read h0 r = (a, r', None) ∧ r_data r' = body ∧ same_request h a ∧
    live (q_cookies (collectCookies a)) = live (q_cookies h) ∧
    live (q_h (collectCookies a)) = sent_headers h ∧ cookies_ok (q_cookies a).
Proof.
  intros Hwf [Hs0 Hn0] Hck Hd Hsize. destruct (wf_normal h Hwf) as [Hs Hn].
  rewrite AppendBytes_lines in Hd, Hsize by done.
  destruct (req_lines_split h Hwf) as [Hlines Hnames].
  set (r0 := resetSkipNormalize h0). rewrite <- Hn0 in Hnames.
  change (q_disableNormalizing h0) with (q_disableNormalizing r0) in Hnames.
  set (n1 := length (first_line (Method h) (RequestURI h) (Protocol h))).
  set (a0 := startHeaders ((setFirstLine r0 (Method h) (RequestURI h) (Protocol h) n1)
    <| q_rawHeaders := match req_lines h with [] => [] | _ => hdr_lines (req_lines h) ++ strCRLF end |>)).
  assert (fresh a0) as Hfresh by (repeat split; done).
  destruct (apply_req_lines a0 h Hfresh Hwf) as (hs&tr&seen&bk&Happly&Ehs&Etr).
  destruct (readLoop_head r0 (Method h) (RequestURI h) (Protocol h) (req_lines h) _
    (wf_first h Hwf) Hlines Hnames eq_refl eq_refl eq_refl Happly
    (S (S (r_size r))) r0 r 1 body) as (r'&E&Ed&_); [by left|done|done| |by left|lia|].
  { split; [done|]. unfold head. rewrite length_app. pose proof (length_first_line (Method h) (RequestURI h) (Protocol h)). lia. }
  match type of Happly with _ = (?x, _) => set (a := x) in * end.
  assert (Read h0 r = readLoop_from (S (S (r_size r))) r0 r 1 true) as -> by done.
  rewrite E, (finishHeaders_same a h eq_refl Ehs).
  set (b := upd q_connectionClose _ _). exists b, r'. split; [done|]. split; [done|].
  pose proof (wf_first h Hwf) as (Hm&_&_&Hu&_&Hp). apply proto_clean in Hp as (_&_&Hp&_).
  split.
  { repeat split; try done.
    - by apply (Method_set b (Method h)).
    - by apply (RequestURI_set b (RequestURI h)).
    - apply (Protocol_set b (Protocol h)); [done|]. intros E0. by rewrite E0 in Hp.
    - by apply (Host_set b (Host h)).
    - by apply (UserAgent_set b (UserAgent h)).
    - by apply (ContentType_set b (sent_ct h)). }
  assert (cookies_ok (q_cookies b)) as Hb by (unfold cookies_ok in *; cbn; done).
  destruct (collectCookies_same b h) as [-> ->]; done.
Qed.
