(* ===== verification/HttpFacts.v ===== *)
(** Laws of requests and responses with their bodies: what is written is what is read,
    and what the operations on bodies, resets and copies leave behind. *)

From Stdlib Require Import ZArith Strings.Byte.
From stdpp Require Import prelude strings list.
From S2P Require Import Prelude Tables Bufio Bytesconv BytesconvFacts Args ArgsFacts Uri Headers HeaderScan CookieFacts Body BodyFacts StreamFacts.
From S2P Require Import ReqHeader RespHeader HeaderFacts ReqFacts ReqRoundtrip Http HttpResp.

(** * Readers and the header readers *)

Section later.
Import RequestHeader.

Lemma tryRead_later h r n : later r (tryRead h r n).1.2.
Proof.
  unfold tryRead. pose proof (Peek_later r n) as Hp.
  destruct (Bufio.Peek r n) as [[b err] r1]. cbn [snd] in Hp.
  case_bool_decide; [done|]. destruct (parse h (r_buf r1)) as [[h1 buf] [len|e]]; done.
Qed.

Lemma readLoop_from_later fuel h r n w : later r (readLoop_from fuel h r n w).1.2.
Proof.
  revert h r n. induction fuel as [|fuel IH]; intros h r n; [done|]. cbn [readLoop_from].
  pose proof (tryRead_later h r n) as Ht. destruct (tryRead h r n) as [[h1 r1] [e|]]; [|done].
  cbn [fst snd] in Ht. destruct (_ || _); [done|]. by trans r1.
Qed.

Lemma Read_later h r : later r (Read h r).1.2.
Proof. apply readLoop_from_later. Qed.
End later.

(** The empty trailer section. *)
Lemma Peek_crlf r rest :
  2 ≤ r_size r → r_data r = strCRLF ++ rest →
  ∃ r1, Bufio.Peek r 2 = (strCRLF, None, r1) ∧ r_data (Discard r1 2) = rest ∧ later r (Discard r1 2).
Proof.
  intros Hs Hd. destruct (Peek_ok r 2) as (r1&Hp&Hn&Hd1&_&_&_);
    [done|rewrite Hd, length_app; simpl; lia|].
  pose proof (Peek_later r 2) as Hl. rewrite Hp in Hl. cbn [snd] in Hl.
  assert (take 2 (r_buf r1) = strCRLF) as Ht.
  { rewrite Hd in Hd1. unfold r_data in Hd1. apply (f_equal (take 2)) in Hd1.
    rewrite take_app_le in Hd1 by done. by rewrite Hd1. }
  exists r1. rewrite Hp, Ht. split; [done|]. split; [|done].
  by apply (Discard_data r1 2 strCRLF); [rewrite Hd1|..].
Qed.

Lemma ReadTrailer_crlf h r rest :
  2 ≤ r_size r → r_data r = strCRLF ++ rest →
  ∃ r', RequestHeader.ReadTrailer h r = (h, r', None) ∧ r_data r' = rest ∧ later r r'.
Proof.
  intros Hs Hd. destruct (Peek_crlf r rest Hs Hd) as (r1&Hp&?&?).
  unfold RequestHeader.ReadTrailer. rewrite Hp, bool_decide_true by done. by eauto.
Qed.

Lemma resp_ReadTrailer_crlf h r rest :
  2 ≤ r_size r → r_data r = strCRLF ++ rest →
  ∃ r', ResponseHeader.ReadTrailer h r = (h, r', None) ∧ r_data r' = rest ∧ later r r'.
Proof.
  intros Hs Hd. destruct (Peek_crlf r rest Hs Hd) as (r1&Hp&?&?).
  unfold ResponseHeader.ReadTrailer. rewrite Hp, bool_decide_true by done. by eauto.
Qed.

#[global] Instance RequestHeader_laws : HeaderInterfaceLaws RequestHeader := ReadTrailer_crlf.
#[global] Instance ResponseHeader_laws : HeaderInterfaceLaws ResponseHeader := resp_ReadTrailer_crlf.

(** * Announcing the body *)

Section framing.
Import RequestHeader.

Lemma digits_value_ok ds : Forall is_digit ds → value_ok ds.
Proof.
  assert (∀ c, is_digit c → validHeaderValueByte c = true ∧ isSpTab c = false) as Hc by byte_exhaust.
  intros Hds. split_and!.
  - apply forallb_forall. intros c Hin%list_elem_of_In. by apply Hc, (proj1 (Forall_forall _ _) Hds).
  - destruct Hds as [|c ds Hd _]; [done|]. simpl. by apply Hc.
  - intros c Hl%last_Some_elem_of. by apply Hc, (proj1 (Forall_forall _ _) Hds).
Qed.

Lemma appendUint_parses n :
  (0 ≤ n < 2 ^ 63)%Z →
  value_ok (appendUintNonNeg [] n) ∧ appendUintNonNeg [] n ≠ [] ∧
  parseContentLength (appendUintNonNeg [] n) = (n, None).
Proof.
  intros Hn. destruct (AppendUint_spec [] n Hn) as (ds&Ha&Hds&Hne&Hv).
  unfold appendUintNonNeg. rewrite Ha. cbn [app from_option id].
  split_and!; [by apply digits_value_ok|done|]. unfold parseContentLength.
  pose proof (parseUintBuf_digits ds [] Hds Hne ltac:(lia) I) as E.
  rewrite app_nil_r in E. rewrite E, Hv. by rewrite bool_decide_false by naive_solver.
Qed.

(** The fields with their own slot do not look at the general headers. *)
Lemma slots_same h h' :
  normal h → q_disableSpecialHeader h' = q_disableSpecialHeader h →
  q_userAgent h' = q_userAgent h → q_host h' = q_host h → q_contentType h' = q_contentType h →
  UserAgent h' = UserAgent h ∧ Host h' = Host h ∧ ContentType h' = ContentType h.
Proof.
  intros [Hd _] E ???. unfold UserAgent, Host, ContentType. rewrite E, Hd. by split_and!.
Qed.

(** Announcing a length keeps a header sendable, and so does announcing chunks. *)
Lemma req_wf_length h n : req_wf h → (0 ≤ n < 2 ^ 63)%Z → req_wf (SetContentLength h n).
Proof.
  intros [H1 H2 H3 H4 H5 H6 H7 H8 H9 H10 H11] Hn. unfold SetContentLength.
  destruct (Z.leb_spec 0 n); [|lia]. destruct (appendUint_parses n Hn) as (Hv&Hne&Hp).
  set (h' := upd q_h _ _).
  assert (sent_headers h' = filter (λ kv, key kv ≠ strTransferEncoding) (sent_headers h)) as Hsent.
  { unfold sent_headers. cbn. rewrite live_delAllArgs. unfold assoc_del.
    rewrite !list_filter_filter. apply list_filter_iff. intros kv. unfold not_trailer. cbn. tauto. }
  destruct (slots_same h h' H1) as (E1&E2&E3); [done..|].
  split; [exact H1|exact H2|by rewrite E1|by rewrite E2|by rewrite E3| | | |exact H9|exact H10|exact H11].
  - rewrite Hsent. apply Forall_forall. intros kv [_ Hin]%list_elem_of_filter.
    by apply (proj1 (Forall_forall _ _) H6).
  - rewrite Hsent. apply Nat.le_trans with 0; [|lia]. apply Nat.le_0_r, length_zero_iff_nil.
    apply elem_of_nil_inv. intros kv [Hk [Hn' _]%list_elem_of_filter]%list_elem_of_filter. done.
  - right. left. split_and!; [done..|]. rewrite Hsent. unfold keys_of.
    intros (kv&E&Hin)%list_elem_of_fmap. apply list_elem_of_filter in Hin as [? _]. done.
Qed.

Lemma sent_headers_all h : live (q_trailer h) = [] → sent_headers h = live (q_h h).
Proof.
  intros Htr. unfold sent_headers. induction (live (q_h h)) as [|kv l IH]; [done|].
  rewrite filter_cons_True, IH; [done|]. unfold not_trailer, isTrailerKey. by rewrite Htr.
Qed.

(** Setting the transfer encoding leaves one, and the other headers. *)
Lemma assoc_set_TE l :
  Forall entry_ok l → length (filter is_TE l) ≤ 1 →
  let l' := assoc_set l strTransferEncoding strChunked false in
  Forall entry_ok l' ∧ length (filter is_TE l') ≤ 1 ∧ strTransferEncoding ∈ keys_of l'.
Proof.
  assert (entry_ok (mkKV strTransferEncoding strChunked false)) as Hte.
  { split_and!; try done; [by split_and!; [..|intros c [= <-]]|].
    apply (bool_decide_unpack _). by vm_compute. }
  cbv zeta. intros Hl Hn. induction Hl as [|kv l Hkv Hl IH]; cbn [assoc_set].
  - split_and!; [by apply Forall_singleton|simpl; lia|by left].
  - destruct (decide (key kv = strTransferEncoding)) as [E|E].
    + rewrite filter_cons_True in Hn by done. cbn [length] in Hn. split_and!.
      * by constructor.
      * rewrite filter_cons_True by done. simpl. lia.
      * by left.
    + rewrite filter_cons_False in Hn by done. destruct (IH Hn) as (?&?&?).
      split_and!; [by constructor|by rewrite filter_cons_False|by right].
Qed.

Lemma req_wf_chunks h :
  req_wf h → live (q_trailer h) = [] → req_wf (SetContentLength h (-1)).
Proof.
  intros [H1 H2 H3 H4 H5 H6 H7 H8 H9 H10 H11] Htr. unfold SetContentLength.
  change (0 <=? -1)%Z with false. cbv iota.
  set (h' := upd q_h _ _).
  assert (sent_headers h' = assoc_set (sent_headers h) strTransferEncoding strChunked false) as Hsent.
  { rewrite !sent_headers_all by done. apply live_setArg. }
  destruct (assoc_set_TE (sent_headers h) H6 H7) as (?&?&?).
  destruct (slots_same h h' H1) as (E1&E2&E3); [done..|].
  split; [exact H1|exact H2|by rewrite E1|by rewrite E2|by rewrite E3| | | |exact H9|exact H10|exact H11];
    unfold framing_wf; rewrite Hsent; [done..|]. right. right. by split_and!.
Qed.
End framing.

(** * Writing and reading requests *)

Section request.
Context `{ByteBufferLaws} `{MultipartOps}.

(** The body a request sends: its own, or else its POST arguments. *)
Definition payload (q : Request) : bytes :=
  if decide (Request.bodyBytes q = []) then (Args.QueryString (rq_postArgs q)).1
  else Request.bodyBytes q.

(** The header it is sent with. *)
Definition typed_header (q : Request) : RequestHeader :=
  if decide (Request.bodyBytes q = [] ∧ (Args.QueryString (rq_postArgs q)).1 ≠ [])
  then RequestHeader.SetContentTypeBytes (rq_Header q) strPostArgsContentType
  else rq_Header q.

Definition sent_header (q : Request) : RequestHeader :=
  let h := typed_header q in
  if decide (payload q = [] ∧ RequestHeader.ignoreBody h = true) then h
  else RequestHeader.SetContentLength h (Z.of_nat (length (payload q))).

(** A request with a body in memory that can be sent as it stands. *)
Record sendable (q : Request) : Prop := {
  sd_header : req_wf (rq_Header q);
  sd_host : RequestHeader.Host (rq_Header q) ≠ [];
  sd_uri : rq_parsedURI q = false;
  sd_stream : rq_bodyStream q = None;
  sd_form : rq_multipartForm q = None;
  sd_none : payload q = [] → RequestHeader.ignoreBody (rq_Header q) = true →
            RequestHeader.ContentLength (rq_Header q) = 0%Z;
  sd_size : (Z.of_nat (length (payload q)) < 2 ^ 63)%Z
}.

(** What the receiver must not take for something else. *)
Record plain (h : RequestHeader) : Prop := {
  pl_expect : strExpect ∉ keys_of (live (q_h h));
  pl_multipart : multipartBoundary (sent_ct h) = None
}.

Lemma length_zero (b : bytes) : bool_decide (length b = 0) = bool_decide (b = []).
Proof. apply bool_decide_ext. split; [apply nil_length_inv|by intros ->]. Qed.

Lemma length_pos (b : bytes) : (0 <? length b) = negb (bool_decide (b = [])).
Proof. destruct b as [|x b]; [by rewrite bool_decide_true|by rewrite bool_decide_false]. Qed.

Lemma writeWithBody_room w q h body :
  w_room w = None →
  ∃ q', Request.writeWithBody w q h body =
    (None, mkWriter (w_out w ++ RequestHeader.AppendBytes
       (if decide (body = [] ∧ RequestHeader.ignoreBody h = true) then h
        else RequestHeader.SetContentLength h (Z.of_nat (length body))) [] ++ body) None, q').
Proof.
  intros Hw. unfold Request.writeWithBody, Request.writeHeader. rewrite length_zero, length_pos.
  cbn [RequestHeader.Header]. rewrite (Write_room w) by done.
  case_bool_decide as Hb; cbn [negb orb andb].
  - rewrite andb_false_r. subst body. rewrite app_nil_r.
    destruct (RequestHeader.ignoreBody h); cbn [negb];
      [rewrite decide_True by done|rewrite decide_False by naive_solver]; by eexists.
  - rewrite Write_room, decide_False by naive_solver. cbn [w_out]. rewrite <- app_assoc. by eexists.
Qed.

Lemma Write_sent q r :
  sendable q →
  ∃ q', Request.Write (mkWriter [] None) q r
        = (None, mkWriter (RequestHeader.AppendBytes (sent_header q) [] ++ payload q) None, q', r).
Proof.
  intros [_ Hhost Huri Hst Hform _ _]. unfold Request.Write, Request.setHostAndURI.
  rewrite Huri, bool_decide_false by (by intros E%nil_length_inv). cbn [orb]. rewrite Hst.
  unfold Request.onlyMultipartForm. rewrite Hform. rewrite bool_decide_false by (by intros [? ?]).
  cbn [andb]. unfold sent_header, payload, typed_header. rewrite length_zero. case_bool_decide as E.
  - rewrite (decide_True (P := Request.bodyBytes q = [])) by done. destruct (Args.QueryString (rq_postArgs q)) as [qs a]. cbn [fst].
    rewrite length_pos. case_bool_decide as E'; cbn [negb].
    + rewrite (decide_False (P := Request.bodyBytes q = [] ∧ qs ≠ [])) by naive_solver.
      destruct (writeWithBody_room (mkWriter [] None) (q <| rq_postArgs := a |>) (rq_Header q) qs) as [q' ->];
        [done|]. by eexists.
    + rewrite (decide_True (P := Request.bodyBytes q = [] ∧ qs ≠ [])) by done. edestruct writeWithBody_room as [q' ->]; [done|]. by eexists.
  - rewrite (decide_False (P := Request.bodyBytes q = [])) by done.
    rewrite (decide_False (P := Request.bodyBytes q = [] ∧ (Args.QueryString (rq_postArgs q)).1 ≠ []))
      by naive_solver.
    edestruct writeWithBody_room as [q' ->]; [done|]. by eexists.
Qed.

Lemma sent_header_wf q : sendable q → req_wf (sent_header q).
Proof.
  intros [Hwf _ _ _ _ _ Hsz].
  assert (req_wf (typed_header q)) as Ht.
  { unfold typed_header. destruct (decide _); [|done].
    destruct Hwf as [H2 H3 H4 H5 H6 H7 H8 H9 H10 H11 H12]. split; try done.
    unfold RequestHeader.ContentType. cbn. destruct H2 as [-> _]. split_and!; [done..|].
    by intros c [= <-]. }
  unfold sent_header. destruct (decide _); [done|]. by apply req_wf_length; [|lia].
Qed.

Lemma sent_header_length q :
  sendable q → RequestHeader.ContentLength (sent_header q) = Z.of_nat (length (payload q)).
Proof.
  intros Hs. unfold sent_header. destruct (decide _) as [[Hp Hi]|_].
  - assert (typed_header q = rq_Header q) as Ht.
    { unfold typed_header, payload in *. destruct (decide (Request.bodyBytes q = [])); [|done].
      by rewrite decide_False by naive_solver. }
    rewrite Ht in *. rewrite Hp. by apply (sd_none q Hs).
  - unfold RequestHeader.SetContentLength. by destruct (Z.leb_spec 0 (Z.of_nat (length (payload q)))).
Qed.

Lemma AppendBytes_min h : 2 ≤ length (RequestHeader.AppendBytes h []).
Proof. unfold RequestHeader.AppendBytes. rewrite length_app. simpl. lia. Qed.

(** A request whose head has been read, just before its body is. *)
Lemma ReadBody_fixed q r maxBodySize pre body rest :
  reader_ok r → lively r → r_data r = body ++ rest →
  RequestHeader.ContentLength (rq_Header q) = Z.of_nat (length body) →
  (maxBodySize ≤ 0 ∨ Z.of_nat (length body) ≤ maxBodySize)%Z →
  RequestHeader.MultipartFormBoundary (rq_Header q) = None → Request.bodyBytes q = [] →
  ∃ q' r', Request.ReadBody q r maxBodySize pre = (None, q', r') ∧ Request.bodyBytes q' = body ∧
           rq_Header q' = rq_Header q ∧ r_data r' = rest ∧ later r r' ∧ rq_bodyStream q' = rq_bodyStream q.
Proof.
  intros Hok Hl Hd Hcl Hm Hmp Hb. unfold Request.ReadBody, RequestHeader.realContentLength.
  unfold RequestHeader.ContentLength, RequestHeader.realContentLength in Hcl. rewrite Hcl.
  destruct (Z.eqb_spec (Z.of_nat (length body)) 0) as [E|E].
  { assert (body = []) as -> by (apply nil_length_inv; lia). exists q, r. by split_and!. }
  match goal with |- context [?x && ?y && ?z] => assert (x && y && z = false) as -> end.
  { rewrite !Z.gtb_ltb. repeat match goal with |- context [(?a <? ?b)%Z] =>
      destruct (Z.ltb_spec a b); cbn [andb]; try done end. lia. }
  assert (∃ q1, Request.preParse q (Z.of_nat (length body)) pre = (false, q1) ∧ rq_Header q1 = rq_Header q ∧
    rq_bodyStream q1 = rq_bodyStream q) as (q1&->&<-&<-).
  { unfold Request.preParse. rewrite Hmp. destruct (_ && pre); [|by exists q].
    cbn [default from_option]. rewrite bool_decide_true by done. by eexists. }
  unfold Request.readBody. destruct (Z.eqb_spec (Z.of_nat (length body)) 0); [done|].
  destruct (Z.gtb_spec (Z.of_nat (length body)) 0); [|lia].
  cbn [Request.bodyBuffer]. set (bb := bb_Reset _). unfold Body.readBody.
  match goal with |- context [?x && ?y] => assert (x && y = false) as -> end.
  { rewrite !Z.gtb_ltb. repeat match goal with |- context [(?a <? ?b)%Z] =>
      destruct (Z.ltb_spec a b); cbn [andb]; try done end. lia. }
  destruct (appendBodyFixedSize_full r bb body rest Hok Hl Hd) as (c&r'&->&Hd'&Hl').
  assert (sl_b bb = []) as -> by apply bb_Reset_empty.
  destruct (Z.eqb_spec (Z.of_nat (length body)) (-1)); [lia|]. eexists _, r'. by split_and!.
Qed.

Lemma ResetBody_none q r :
  rq_bodyStream q = None →
  ∃ q', Request.ResetBody q r = (q', r) ∧ rq_Header q' = rq_Header q ∧
        rq_StreamBody q' = rq_StreamBody q ∧ Request.bodyBytes q' = [].
Proof.
  intros Hst. unfold Request.ResetBody, Request.closeBodyStream. cbn. rewrite Hst.
  eexists. split; [done|]. split_and!; [done..|]. unfold Request.bodyBytes. cbn.
  destruct (rq_keepBodyBuffer q), (rq_body q) as [b|]; try done. simpl. apply bb_Reset_empty.
Qed.

Lemma peek_notin l k : k ∉ keys_of l → peekArg_loop l k = None.
Proof.
  induction l as [|kv l IH]; intros Hk; [done|]. apply not_elem_of_cons in Hk as [? ?].
  cbn [peekArg_loop]. rewrite bool_decide_false by congruence. by apply IH.
Qed.

Lemma MayContinue_plain h a q :
  strExpect ∉ keys_of (live (q_h h)) → same_request h a → rq_Header q = a → Request.MayContinue q = false.
Proof.
  intros He (_&_&_&_&_&_&_&Hq&_) Ha.
  unfold Request.MayContinue, RequestHeader.peek, peekArgBytes. rewrite Ha.
  change (RequestHeader.peekSpecial a strExpect) with (@None bytes). cbv iota.
  rewrite Hq, peek_notin; [done|]. unfold keys_of. rewrite fmap_app, not_elem_of_app. split.
  - intros (kv&E&[_ Hin]%list_elem_of_filter)%list_elem_of_fmap. apply He. rewrite E.
    by apply list_elem_of_fmap_2.
  - unfold cookie_entry. destruct (_ <? _); [|by intros ?%elem_of_nil].
    intros [= ?]%list_elem_of_singleton.
Qed.

(** Receiving what was sent, over any connection and into any request that has no
    stream of its own. *)
Lemma ReadLimit_sent q q0 r rest maxBodySize :
  sendable q → plain (sent_header q) →
  normal (rq_Header q0) → cookies_ok (q_cookies (rq_Header q0)) →
  rq_bodyStream q0 = None → rq_StreamBody q0 = false →
  lively r → r_data r = RequestHeader.AppendBytes (sent_header q) [] ++ payload q ++ rest →
  length (RequestHeader.AppendBytes (sent_header q) []) ≤ r_size r →
  (maxBodySize ≤ 0 ∨ Z.of_nat (length (payload q)) ≤ maxBodySize)%Z →
  ∃ q1 r1, Request.ReadLimit q0 r maxBodySize = (None, q1, r1) ∧
           same_request (sent_header q) (rq_Header q1) ∧ Request.bodyBytes q1 = payload q ∧
           r_data r1 = rest.
Proof.
  intros Hs Hp Hn Hc Hst Hsb Hl Hd Hsz Hm. pose proof (sent_header_wf q Hs) as Hwf.
  destruct (Read_AppendBytes (sent_header q) (rq_Header q0) r (payload q ++ rest))
    as (a&r1&Hr&Hd1&Hsame&_); [done..|].
  pose proof (Read_later (rq_Header q0) r) as Hl1. rewrite Hr in Hl1. cbn [fst snd] in Hl1.
  unfold Request.ReadLimit. cbn [rq_Header upd setter]. rewrite Hr.
  match goal with |- context [Request.ResetBody ?x r1] =>
    destruct (ResetBody_none x r1 Hst) as (q1&->&Hh&Hs1&Hb1) end. cbn in Hh, Hs1.
  rewrite (MayContinue_plain _ a q1 (pl_expect _ Hp) Hsame Hh), Hs1, Hsb.
  destruct (ReadBody_fixed q1 r1 maxBodySize true (payload q) rest) as (q2&r2&->&Hb2&Hh2&Hd2&_).
  - eapply later_ok; [done|]. unfold reader_ok.
    pose proof (AppendBytes_min (sent_header q)). lia.
  - by eapply later_lively.
  - done.
  - rewrite Hh. destruct Hsame as (_&_&_&_&_&_&->&_). by apply sent_header_length.
  - done.
  - unfold RequestHeader.MultipartFormBoundary. rewrite Hh.
    destruct Hsame as (_&_&_&_&_&->&_). apply Hp.
  - done.
  - exists q2, r2. rewrite Hh2, Hh. by split_and!.
Qed.
End request.

(** * The operations on bodies *)

Section body_ops.
Context `{ByteBufferLaws}.

(** Closing the stream leaves the other bodies and the client's settings. *)
Lemma closeBodyStream_frame q r :
  let q' := (Request.closeBodyStream q r).1.2 in
  rq_bodyStream q' = None ∧ rq_bodyRaw q' = rq_bodyRaw q ∧ rq_body q' = rq_body q ∧
  rq_cliInfo q' = rq_cliInfo q ∧ rq_keepBodyBuffer q' = rq_keepBodyBuffer q.
Proof.
  unfold Request.closeBodyStream. destruct (rq_bodyStream q) as [[]|] eqn:E; try by split_and!.
  destruct (rq_DiscardUnReadBodyStream q); [|by split_and!].
  destruct (copyStream _ _ _ _) as [[[? ?] ?] [[? ?] ?]]. by split_and!.
Qed.

Lemma ResetBody_bytes q r :
  let q' := (Request.ResetBody q r).1 in
  Request.bodyBytes q' = [] ∧ rq_bodyRaw q' = None ∧ rq_bodyStream q' = None ∧
  match rq_body q' with Some b => sl_b b = [] | None => True end.
Proof.
  unfold Request.ResetBody, Request.bodyBytes. set (q1 := Request.RemoveMultipartFormFiles _).
  pose proof (closeBodyStream_frame q1 r) as Hc.
  destruct (Request.closeBodyStream q1 r) as [[e q2] r2]. cbn [fst snd] in Hc.
  destruct Hc as (H1&H2&H3&H4&H5). cbn [fst]. set (b := if rq_keepBodyBuffer q2 then _ else _).
  assert (match b with Some s => sl_b s = [] | None => True end) as Hb.
  { unfold b. destruct (rq_keepBodyBuffer q2); [|done]. destruct (rq_body q2); [|done].
    by apply bb_Reset_empty. }
  set (q3 := upd rq_body _ _). change (rq_bodyRaw q3) with (rq_bodyRaw q2).
  change (rq_bodyStream q3) with (rq_bodyStream q2). change (rq_body q3) with b.
  rewrite H1, H2. split_and!; try done. by destruct b.
Qed.

Lemma dropOtherBodies_frame q r :
  let q' := (Request.dropOtherBodies q r).1 in
  rq_bodyStream q' = None ∧ rq_bodyRaw q' = None ∧ rq_body q' = rq_body q.
Proof.
  unfold Request.dropOtherBodies.
  set (q1 := match rq_multipartForm q with Some _ => _ | None => _ end).
  assert (rq_body q1 = rq_body q) as E by (unfold q1; by destruct (rq_multipartForm q)).
  pose proof (closeBodyStream_frame q1 r) as Hc.
  destruct (Request.closeBodyStream q1 r) as [[e q2] r2]. cbn [fst snd] in Hc. cbn [fst].
  destruct Hc as (H1&_&H3&_). by rewrite <- E, <- H3.
Qed.

Lemma SetBody_bytes q r b :
  let q' := (Request.SetBody q r b).1 in Request.bodyBytes q' = b ∧ rq_bodyStream q' = None.
Proof.
  unfold Request.SetBody. pose proof (dropOtherBodies_frame q r) as (H1&H2&H3).
  destruct (Request.dropOtherBodies q r) as [q1 r1]. cbn [fst] in *. split; [|done].
  apply bb_Set_eq.
Qed.

Lemma AppendBody_bytes q r p :
  let q' := (Request.AppendBody q r p).1 in
  Request.bodyBytes q' = default [] (sl_b <$> rq_body q) ++ p ∧ rq_bodyStream q' = None.
Proof.
  unfold Request.AppendBody. pose proof (dropOtherBodies_frame q r) as (H1&H2&H3).
  destruct (Request.dropOtherBodies q r) as [q1 r1]. cbn [fst] in *. split; [|done].
  unfold Request.bodyBuffer. rewrite H3. trans (sl_b (bb_Write (default bb_Get (rq_body q)) p)); [done|].
  rewrite (proj1 (bb_Write_app _ _)). destruct (rq_body q); [done|]. cbn. by rewrite (proj1 bb_Get_empty).
Qed.

Lemma copyToSkipBody_frame limit q dst r :
  ∃ d r', Request.copyToSkipBody limit q dst r = Some (d, r') ∧ rq_bodyRaw d = None ∧
    rq_bodyStream d = None ∧ rq_cliInfo d = None.
Proof.
  unfold Request.copyToSkipBody, Request.Reset. destruct (Request.releaseLarge limit dst r) as [q1 r1].
  unfold Request.resetSkipHeader. pose proof (ResetBody_bytes q1 r1) as (_&H2&H3&_).
  destruct (Request.ResetBody q1 r1) as [q2 r2]. cbn [fst] in *. cbv beta iota zeta.
  match goal with |- context [rq_cliInfo ?x] => change (rq_cliInfo x) with (@None cliInfo) end.
  cbv beta iota. eexists _, _. split; [reflexivity|]. by split_and!.
Qed.

Lemma CopyTo_bytes limit q dst r :
  ∃ d r', Request.CopyTo limit q dst r = Some (d, r') ∧
    Request.bodyBytes d = match rq_body q with Some b => sl_b b | None => Request.bodyBytes q end ∧
    rq_bodyStream d = None ∧ rq_cliInfo d = None.
Proof.
  destruct (copyToSkipBody_frame limit q dst r) as (d&r'&E&H1&H2&H3).
  unfold Request.CopyTo. rewrite E. cbn [mbind option_bind]. unfold Request.bodyBytes.
  eexists _, r'. split; [reflexivity|].
  set (d1 := match rq_bodyRaw q with Some _ => _ | None => d end).
  assert (rq_bodyStream d1 = None ∧ rq_cliInfo d1 = None ∧
    rq_bodyRaw d1 = match rq_bodyRaw q with Some [] => None | o => o end) as (G1&G2&G3).
  { unfold d1. destruct (rq_bodyRaw q) as [b|]; [|done]. split_and!; [done..|].
    cbn. rewrite H1. by destruct b. }
  destruct (rq_body q) as [b|].
  - split_and!; [|done..]. apply (bb_Set_eq _ (sl_b b)).
  - split_and!; [|done..]. trans (match rq_bodyRaw d1 with Some b => b | None => [] end); [done|].
    rewrite G3. by destruct (rq_bodyRaw q) as [[]|].
Qed.
End body_ops.
