(* ===== verification/HttpStreamFacts.v ===== *)
(** Bodies that are streamed: a request written from a stream is read back whole, and a
    body read as a stream is the body read into a buffer. *)

From Stdlib Require Import ZArith Strings.Byte.
From stdpp Require Import prelude strings list.
From S2P Require Import Prelude Tables Bufio Bytesconv BytesconvFacts Args ArgsFacts Uri Headers HeaderScan CookieFacts Body BodyFacts StreamFacts.
From S2P Require Import ReqHeader RespHeader HeaderFacts ReqFacts ReqRoundtrip Http HttpFacts.

(** * The streams of a message *)

Section lift.
Context {H : Type} `{HeaderInterface H}.
Implicit Types (h : H) (r : Reader).

(** A stream that owns its data leaves the header and the connection alone. *)
Lemma lift_own {St} `{IOReader St} (C : St → BodyStream) P Q h r :
  (∀ s n, io_read (C s, h, r) n = let '(x, e, s) := io_read s n in (x, e, (C s, h, r))) →
  delivers P Q →
  delivers (λ st rem, ∃ s, st = (C s, h, r) ∧ P s rem) (λ st, ∃ s, st = (C s, h, r) ∧ Q s).
Proof.
  intros HC [Hm He]. split.
  - intros st n rem (s&->&Hs) Hr Hn. destruct (Hm s n rem Hs Hr Hn) as (b&s'&rem'&E&?&?&?&?).
    exists b, (C s', h, r), rem'. rewrite HC, E. split_and!; [done..|]. by eauto.
  - intros st n (s&->&Hs) Hn. destruct (He s n Hs Hn) as (s'&E&?).
    exists (C s', h, r). rewrite HC, E. by eauto.
Qed.

(** The streams of the connection read from it. *)
Lemma lift_request P Q :
  delivers P Q →
  delivers (λ st rem, ∃ rs, st.1.1 = streamRequest rs ∧ P (rs, st.1.2, st.2) rem)
           (λ st, ∃ rs, st.1.1 = streamRequest rs ∧ Q (rs, st.1.2, st.2)).
Proof.
  intros [Hm He]. split.
  - intros [[s h] r] n rem (rs&Hs&Hp) Hr Hn. cbn in Hs. subst s.
    destruct (Hm (rs, h, r) n rem Hp Hr Hn) as (b&[[rs' h'] r']&rem'&E&?&?&?&?).
    exists b, (streamRequest rs', h', r'), rem'. split_and!; [|done..|by eauto].
    unfold io_read, BodyStream_reader. by rewrite E.
  - intros [[s h] r] n (rs&Hs&Hp) Hn. cbn in Hs. subst s.
    destruct (He (rs, h, r) n Hp Hn) as ([[rs' h'] r']&E&?).
    exists (streamRequest rs', h', r'). split; [|by eauto].
    unfold io_read, BodyStream_reader. by rewrite E.
Qed.

(** A stream with enough fuel is copied whole. *)
Lemma copyStream_delivers P Q w s h r rem :
  delivers P Q → P (s, h, r) rem → length rem ≤ stream_size s r → w_room w = None →
  ∃ s' h' r', copyStream w s h r
    = (Z.of_nat (length rem), None, mkWriter (w_out w ++ rem) None, (s', h', r')) ∧ Q (s', h', r').
Proof.
  intros Hdel Hp Hsz Hw. unfold copyStream.
  destruct (copyZeroAlloc_delivers P Q Hdel (stream_fuel s r) copyBufSize 0 w (s, h, r) 0 rem)
    as ([[s' h'] r']&->&Hq); [done|unfold stream_fuel; lia|unfold copyBufSize; lia|done|].
  exists s', h', r'. by split.
Qed.
End lift.

(** * Sending a stream *)

Section send.
Context `{ByteBufferLaws} `{MultipartOps}.

(** A request whose body comes from a source of unknown length. *)
Record streamable (q : Request) (src : Source) : Prop := {
  sm_header : req_wf (rq_Header q);
  sm_trailer : live (q_trailer (rq_Header q)) = [];
  sm_host : RequestHeader.Host (rq_Header q) ≠ [];
  sm_uri : rq_parsedURI q = false;
  sm_stream : rq_bodyStream q = Some (streamSource src None noCloser);
  sm_source : Forall (λ c, c ≠ []) (src_reads src) ∧ src_err src = EOF;
  sm_length : (RequestHeader.ContentLength (rq_Header q) < 0)%Z
}.

Definition chunked_header (q : Request) : RequestHeader :=
  RequestHeader.SetContentLength (rq_Header q) (-1).

Lemma TrailerHeader_none h :
  live (q_trailer h) = [] → (RequestHeader.TrailerHeader h).1 = strCRLF.
Proof. intros E. unfold RequestHeader.TrailerHeader. by rewrite E. Qed.

Lemma Write_streamed q src r :
  streamable q src →
  ∃ wire q', Request.Write (mkWriter [] None) q r
    = (None, mkWriter (RequestHeader.AppendBytes (chunked_header q) [] ++ wire ++ strCRLF) None, q', r) ∧
    chunked wire (concat (src_reads src)).
Proof.
  intros [_ Htr Hhost Huri Hst [Hne He] Hcl]. unfold Request.Write, Request.setHostAndURI.
  rewrite Huri, bool_decide_false by (by intros E%nil_length_inv). cbn [orb]. rewrite Hst.
  unfold Request.writeBodyStream. cbn [limitedReaderSize].
  destruct (Z.ltb_spec (RequestHeader.ContentLength (rq_Header q)) 0); [|lia]. cbn [andb].
  change (0 <=? -1)%Z with false. cbv iota.
  destruct (Z.leb_spec 0 (RequestHeader.ContentLength (rq_Header q))); [lia|].
  fold (chunked_header q). unfold Request.writeHeader. cbn [RequestHeader.Header].
  rewrite Write_room by done. cbn [w_out app].
  set (h := upd q_bufV _ _). set (w := mkWriter _ None).
  assert (live (q_trailer h) = []) as Hth by done.
  pose proof (lift_own (λ s, streamSource s None noCloser) _ _ h r ltac:(done) Source_delivers) as Hdel.
  destruct (writeBodyChunked_delivers _ _ Hdel (stream_fuel (streamSource src None noCloser) r) copyBufSize w
    (streamSource src None noCloser, h, r) (concat (src_reads src))) as (wire&st&Hrun&Hch&(s'&->&_));
    [by exists src|unfold stream_fuel; simpl; lia|unfold copyBufSize; lia|unfold copyBufSize; lia|done|].
  rewrite Hrun. cbn [from_option id]. unfold Request.writeTrailer.
  pose proof (TrailerHeader_none h Hth) as Ht. destruct (RequestHeader.TrailerHeader h) as [t h2].
  cbn [fst] in Ht. subst t. rewrite Write_room by done. cbn [w_out].
  exists wire. eexists. split; [|done]. unfold Request.closeBodyStream. cbn.
  unfold w. cbn [w_out]. by rewrite <- app_assoc.
Qed.
End send.

(** * Receiving chunks *)

Section receive.
Context `{ByteBufferLaws} `{MultipartOps}.

Lemma readBodyChunked_ok r maxBodySize dst wire body rest :
  chunked wire body → reader_ok r → lively r → r_data r = wire ++ rest → sl_b dst = [] →
  (maxBodySize ≤ 0 ∨ Z.of_nat (length body) ≤ maxBodySize)%Z →
  ∃ c r', readBodyChunked r maxBodySize dst = (mkSlice body c, None, r') ∧
          r_data r' = rest ∧ later r r'.
Proof.
  intros Hch Hok Hl Hd Hdst Hm. unfold readBodyChunked. rewrite Hdst.
  cbn [length Nat.ltb Nat.leb].
  destruct (readBodyChunked_loop_ok wire body (S (length (r_data r))) r maxBodySize dst rest)
    as (c&r'&->&?&?); [done..|rewrite Hd, length_app; lia|by rewrite Hdst|].
  rewrite Hdst. by eauto.
Qed.

Lemma ReadBody_chunks q r maxBodySize pre wire body rest :
  chunked wire body → 2 ≤ r_size r → lively r → r_data r = wire ++ strCRLF ++ rest →
  RequestHeader.ContentLength (rq_Header q) = (-1)%Z →
  (maxBodySize ≤ 0 ∨ Z.of_nat (length body) ≤ maxBodySize)%Z →
  ∃ q' r', Request.ReadBody q r maxBodySize pre = (None, q', r') ∧ Request.bodyBytes q' = body ∧
           rq_Header q' = (if decide (body = []) then RequestHeader.SetContentLength (rq_Header q) 0
                           else rq_Header q) ∧ r_data r' = rest.
Proof.
  intros Hch Hsz Hl Hd Hcl Hm. unfold Request.ReadBody.
  unfold RequestHeader.ContentLength in Hcl. rewrite Hcl.
  change (-1 =? 0)%Z with false. change (-1 >? 0)%Z with false. change (-1 =? -1)%Z with true.
  cbn [andb]. unfold Request.preParse. change (-1 >? 0)%Z with false. cbn [andb].
  unfold Request.readBody. change (-1 =? 0)%Z with false. change (-1 >? 0)%Z with false.
  change (-1 =? -1)%Z with true. cbv iota. cbn [Request.bodyBuffer].
  destruct (readBodyChunked_ok r maxBodySize (bb_Reset (default bb_Get (rq_body q))) wire body
    (strCRLF ++ rest)) as (c&r1&->&Hd1&Hl1); [done|unfold reader_ok; lia|done|done| |done|].
  { apply bb_Reset_empty. }
  cbn [sl_b eofTo]. rewrite (bool_decide_true (None = None)), length_zero by done. cbn [andb].
  match goal with |- context [RequestHeader.ReadTrailer ?h _] =>
    destruct (ReadTrailer_crlf h r1 rest) as (r2&->&Hd2&_) end;
    [destruct Hl1 as (->&_); done|done|].
  eexists _, r2. split; [done|]. split; [done|]. split; [|done]. cbn.
  case_bool_decide; [by rewrite decide_True|by rewrite decide_False].
Qed.

(** Receiving a request that was sent in chunks. *)
Lemma ReadLimit_streamed q src q0 r wire rest maxBodySize :
  streamable q src → strExpect ∉ keys_of (live (q_h (chunked_header q))) →
  chunked wire (concat (src_reads src)) →
  normal (rq_Header q0) → cookies_ok (q_cookies (rq_Header q0)) →
  rq_bodyStream q0 = None → rq_StreamBody q0 = false → lively r →
  r_data r = RequestHeader.AppendBytes (chunked_header q) [] ++ wire ++ strCRLF ++ rest →
  length (RequestHeader.AppendBytes (chunked_header q) []) ≤ r_size r →
  (maxBodySize ≤ 0 ∨ Z.of_nat (length (concat (src_reads src))) ≤ maxBodySize)%Z →
  ∃ a q1 r1, Request.ReadLimit q0 r maxBodySize = (None, q1, r1) ∧
    same_request (chunked_header q) a ∧
    rq_Header q1 = (if decide (concat (src_reads src) = []) then RequestHeader.SetContentLength a 0 else a) ∧
    Request.bodyBytes q1 = concat (src_reads src) ∧ r_data r1 = rest.
Proof.
  intros Hs He Hch Hn Hc Hst Hsb Hl Hd Hsz Hm.
  pose proof (req_wf_chunks _ (sm_header _ _ Hs) (sm_trailer _ _ Hs)) as Hwf.
  fold (chunked_header q) in Hwf.
  destruct (Read_AppendBytes (chunked_header q) (rq_Header q0) r (wire ++ strCRLF ++ rest))
    as (a&r1&Hr&Hd1&Hsame&_); [done..|].
  pose proof (Read_later (rq_Header q0) r) as Hl1. rewrite Hr in Hl1. cbn [fst snd] in Hl1.
  unfold Request.ReadLimit. cbn [rq_Header upd setter]. rewrite Hr.
  match goal with |- context [Request.ResetBody ?x r1] =>
    destruct (ResetBody_none x r1 Hst) as (q1&->&Hh&Hs1&Hb1) end. cbn in Hh, Hs1.
  rewrite (MayContinue_plain _ a q1 He Hsame Hh), Hs1, Hsb.
  destruct (ReadBody_chunks q1 r1 maxBodySize true wire (concat (src_reads src)) rest)
    as (q2&r2&->&Hb2&Hh2&Hd2); [done|..].
  - destruct Hl1 as (->&_). pose proof (AppendBytes_min (chunked_header q)). lia.
  - by eapply later_lively.
  - done.
  - rewrite Hh. by destruct Hsame as (_&_&_&_&_&_&->&_).
  - done.
  - exists a, q2, r2. rewrite Hh2, Hh. by split_and!.
Qed.
End receive.

(** * Reading a body as a stream *)

Section stream_read.
Context `{ByteBufferLaws} `{MultipartOps} (errorText : body_error → bytes).

(** [Peek] of the bytes in front. *)
Lemma Peek_front r d rest :
  r_data r = d ++ rest → length d ≤ r_size r →
  ∃ r1, Bufio.Peek r (length d) = (d, None, r1) ∧ r_data r1 = d ++ rest ∧
        r_data (Discard r1 (length d)) = rest ∧ later r r1.
Proof.
  intros Hd Hs. destruct (Peek_ok r (length d)) as (r1&Hp&Hn&Hd1&_&_&_);
    [done|rewrite Hd, length_app; lia|].
  pose proof (Peek_later r (length d)) as Hl. rewrite Hp in Hl. cbn [snd] in Hl.
  rewrite Hd in Hd1. assert (take (length d) (r_buf r1) = d) as Ht.
  { pose proof (f_equal (take (length d)) Hd1) as E. unfold r_data in E.
    by rewrite take_app_le, take_app_length in E by done. }
  exists r1. rewrite Hp, Ht. split_and!; [done|done| |done].
  by apply (Discard_data r1 (length d) d).
Qed.

(** A body of known length: all of it from the buffer, a prefix and a full buffer, or a
    prefix and a stream. *)
Lemma readBodyWithStreaming_spec r body maxBodySize dst rest :
  reader_ok r → lively r → r_data r = body ++ rest → (0 ≤ maxBodySize)%Z →
  ∃ b c all err r', readBodyWithStreaming r (Z.of_nat (length body)) maxBodySize dst
    = (mkSlice b c, all, err, r') ∧ later r r' ∧
    (all = true ∧ err = None ∧ b = body ∧ r_data r' = rest ∨
     all = false ∧ err = None ∧ (∃ d, body = b ++ d ∧ length d = r_size r ∧ r_data r' = d ++ rest) ∨
     err = Some ErrBodyTooLarge ∧ (∃ d, body = b ++ d ∧ r_data r' = d ++ rest)).
Proof.
  intros Hok Hl Hd Hm. unfold readBodyWithStreaming.
  destruct (Z.eqb_spec (Z.of_nat (length body)) (-1)); [lia|].
  set (readN := if (_ >? 8 * 1024)%Z then _ else _).
  assert (0 ≤ readN ≤ Z.of_nat (length body))%Z as HN.
  { unfold readN. destruct (Z.gtb_spec maxBodySize (Z.of_nat (length body)));
      match goal with |- context [(?a >? ?b)%Z] => destruct (Z.gtb_spec a b) end; lia. }
  assert (∀ k, k ≤ length body → ∃ c r', appendBodyFixedSize r (mkSlice [] (sl_cap dst)) (Z.of_nat k)
    = (mkSlice (take k body) c, None, r') ∧ r_data r' = drop k body ++ rest ∧ later r r') as Hpre.
  { intros k Hk. destruct (appendBodyFixedSize_full r (mkSlice [] (sl_cap dst)) (take k body)
      (drop k body ++ rest)) as (c&r'&E&?&?); [done|done|by rewrite app_assoc, take_drop|].
    rewrite length_take, Nat.min_l in E by done. by eauto. }
  destruct (Z.geb_spec (readN + Z.of_nat (r_size r)) (Z.of_nat (length body)));
    [destruct (Z.leb_spec (Z.of_nat (length body)) (Z.of_nat (r_size r)))|].
  - rewrite Nat2Z.id. destruct (Peek_front r body rest Hd) as (r1&->&_&Hd2&Hl1); [lia|].
    eexists _, _, _, _, _. split; [done|]. split; [by trans r1|]. by left.
  - destruct (Hpre (length body - r_size r)) as (c&r1&E&Hd1&Hl1); [lia|].
    rewrite Nat2Z.inj_sub in E by lia. rewrite E, Nat2Z.id.
    set (d := drop (length body - r_size r) body) in *.
    assert (length d = r_size r) as Hdl by (unfold d; rewrite length_drop; lia).
    destruct (Peek_front r1 d rest Hd1) as (r2&Hp&Hd2&_&Hl2); [destruct Hl1 as (->&_); lia|].
    rewrite Hdl in Hp. rewrite Hp.
    eexists _, _, _, _, _. split; [done|]. split; [by trans r1|]. right. left.
    split_and!; [done..|]. exists d. split_and!; [|done..]. symmetry. apply take_drop.
  - destruct (Hpre (Z.to_nat readN)) as (c&r1&E&Hd1&Hl1); [lia|].
    rewrite Z2Nat.id in E by lia. rewrite E.
    eexists _, _, _, _, _. split; [done|]. split; [done|]. right. right.
    split; [done|]. eexists. split; [|done]. symmetry. apply take_drop.
Qed.

(** A stream of the server's own making, which has nothing to close. *)
Definition own_stream (s : BodyStream) : Prop := ∀ src l c, s ≠ streamSource src l c.

Lemma closeBodyStream_own q r s :
  rq_bodyStream q = Some s → own_stream s → rq_DiscardUnReadBodyStream q = false →
  Request.closeBodyStream q r = (None, q <| rq_bodyStream := None |>, r).
Proof.
  intros Hs Ho Hd. unfold Request.closeBodyStream. rewrite Hs.
  destruct s as [| | | | |src l c]; [done|done|done|by rewrite Hd|done|by destruct (Ho src l c)].
Qed.

(** Reading a stream out through [BodyWithError]. *)
Lemma BodyWithError_delivers P Q q r s rem :
  rq_bodyStream q = Some s → rq_maxBodySize q = 0%Z → rq_DiscardUnReadBodyStream q = false →
  delivers P Q → P (s, rq_Header q, r) rem → length rem ≤ stream_size s r →
  (∀ st, Q st → own_stream st.1.1) →
  ∃ s' h' q' r', Request.BodyWithError errorText q r = (rem, None, q', r') ∧ Q (s', h', r').
Proof.
  intros Hs Hmax Hdis Hdel Hp Hsz Hown. unfold Request.BodyWithError, Request.BodyWithError_with.
  rewrite Hs. unfold Request.bodyBuffer. cbv beta iota.
  set (bb := default bb_Get (rq_body q)). set (q1 := upd rq_bodyRaw _ _).
  change (rq_maxBodySize q1) with (rq_maxBodySize q). change (rq_Header q1) with (rq_Header q).
  rewrite Hmax. change (0 >? 0)%Z with false. cbv beta iota.
  destruct (copyStream_delivers P Q (mkWriter [] None) s (rq_Header q) r rem Hdel Hp Hsz)
    as (s'&h'&r'&->&Hq); [done|]. cbv beta iota.
  assert (sl_b (bb_Write (bb_Reset bb) rem) = rem) as Hbb.
  { destruct (bb_Write_app (bb_Reset bb) rem) as [-> _].
    by destruct (bb_Reset_empty bb) as [-> _]. }
  set (q2 := upd rq_bodyStream _ _).
  rewrite (closeBodyStream_own q2 r' s' eq_refl (Hown _ Hq) Hdis). cbv beta iota.
  exists s', h'. eexists _, r'. split; [|done].
  match goal with |- (Request.bodyBytes ?x, _, _, _) = _ => change (Request.bodyBytes x)
    with (sl_b (bb_Write (bb_Reset bb) rem)) end.
  rewrite Hbb. reflexivity.
Qed.

(** The body on the wire, as the content length announces it. *)
Definition framed (contentLength : Z) (wire body : bytes) : Prop :=
  contentLength = (-1)%Z ∧ (∃ w, chunked w body ∧ wire = w ++ strCRLF) ∨
  contentLength = Z.of_nat (length body) ∧ wire = body.

Lemma chunked_length wire body : chunked wire body → length body ≤ length wire.
Proof. induction 1; rewrite ?length_app; simpl; lia. Qed.

Lemma ReadBodyStream_framed q r maxBodySize wire body rest :
  framed (RequestHeader.ContentLength (rq_Header q)) wire body →
  2 ≤ r_size r → lively r → r_data r = wire ++ rest → (0 ≤ maxBodySize)%Z →
  RequestHeader.MultipartFormBoundary (rq_Header q) = None →
  rq_maxBodySize q = 0%Z → rq_DiscardUnReadBodyStream q = false →
  ∃ q1 r1 q2 r2, Request.ReadBodyStream q r maxBodySize true = (None, q1, r1) ∧
    Request.BodyWithError errorText q1 r1 = (body, None, q2, r2) ∧ r_data r2 = rest.
Proof.
  intros Hf Hsz Hl Hd Hm Hmp Hmax Hdis. assert (reader_ok r) as Hok by (unfold reader_ok; lia).
  unfold Request.ReadBodyStream. unfold RequestHeader.ContentLength in Hf.
  set (cl := RequestHeader.realContentLength (rq_Header q)) in *.
  destruct (Z.eqb_spec cl 0) as [Hz|Hz].
  { assert (body = [] ∧ wire = []) as [-> ->].
    { destruct Hf as [[? _]|[? ->]]; [lia|]. destruct body; [done|simpl in *; lia]. }
    eexists _, r. 
    destruct (BodyWithError_delivers (λ st rem, st.1.1 = emptyRequestBodyStream ∧ st.2 = r ∧ rem = [])
      (λ st, st.1.1 = emptyRequestBodyStream ∧ st.2 = r) (q <| rq_bodyStream := Some emptyRequestBodyStream |>)
      r emptyRequestBodyStream []) as (s'&h'&q'&r'&E&_&Hr'); try done.
    { split; [by intros [[??]?] n rem (_&_&->)|]. intros [[s h] r'] n (Hs&Hr&_) Hn.
      cbn in Hs, Hr. subst. by eexists. }
    { intros st [-> _] ???. done. }
    eexists q', r'. split; [done|]. split; [exact E|]. cbn in Hr'. by subst r'. }
  assert (Request.preParse q cl true
    = (false, if (cl >? 0)%Z then q <| rq_multipartFormBoundary := [] |> else q)) as ->.
  { unfold Request.preParse. rewrite Hmp. destruct (cl >? 0)%Z; [|done]. cbn [andb from_option].
    by rewrite bool_decide_true. }
  set (q1 := if (cl >? 0)%Z then _ else _).
  assert (rq_Header q1 = rq_Header q ∧ rq_maxBodySize q1 = 0%Z ∧ rq_DiscardUnReadBodyStream q1 = false)
    as (Hh1&Hmax1&Hdis1) by (unfold q1; by destruct (cl >? 0)%Z).
  cbn [Request.bodyBuffer]. set (bb := bb_Reset _).
  destruct Hf as [[Hcl (w&Hch&->)]|[Hcl ->]].
  - unfold readBodyWithStreaming. rewrite Hcl. change (-1 =? -1)%Z with true. cbv iota.
    rewrite bool_decide_false, (bool_decide_true (errChunkedStream = errChunkedStream)) by done. cbn [orb].
    match goal with |- ∃ q1 r1 q2 r2, (None, ?x, ?y) = _ ∧ _ =>
      destruct (BodyWithError_delivers _ _ x y (streamRequest (acquireRequestStream [])) body
        eq_refl Hmax1 Hdis1 (lift_request _ _ (requestStream_chunked_delivers rest)))
        as (s'&h'&q'&r'&E&Hq) end.
    + eexists. split; [done|]. cbn. rewrite Hh1. split_and!; [done..|]. left. split; [done|].
      exists w. split; [done|]. by rewrite Hd, <- app_assoc.
    + simpl. rewrite Hd, !length_app. pose proof (chunked_length _ _ Hch). lia.
    + intros [[s0 h0] r0] (rs&->&_) ???. done.
    + eexists _, _, q', r'. split; [done|]. split; [exact E|]. by destruct Hq as (?&_&_&_&_&?).
  - destruct (readBodyWithStreaming_spec r body maxBodySize bb rest)
      as (b&c&all&err&r1&E&Hl1&Hcase); [done..|]. rewrite Hcl, E.
    destruct Hcase as [(->&->&->&Hd1)|[(->&->&d&->&Hdl&Hd1)|(->&d&->&Hd1)]]; cbn [sl_b sl_cap].
    + match goal with |- ∃ q1 r1 q2 r2, (None, ?x, ?y) = _ ∧ _ =>
        destruct (BodyWithError_delivers _ _ x y (streamBytes (mkBytesReader body)) body
          eq_refl Hmax1 Hdis1 (lift_own streamBytes _ _ (rq_Header q1) r1 ltac:(done) BytesReader_delivers))
          as (s'&h'&q'&r'&E'&Hq) end; [by eexists|simpl; lia|by intros st (?&->&_) ???|].
      eexists _, _, q', r'. split; [done|]. split; [exact E'|]. destruct Hq as (?&[= _ _ ->]&_). done.
    + destruct (Peek_front r1 d rest Hd1) as (r2&Hp&_&Hd2&Hl2); [destruct Hl1 as (->&_); lia|].
      destruct Hl1 as (Hs1&_). rewrite Hdl, <- Hs1 in Hp, Hd2. rewrite Hp.
      assert (r_size r2 = r_size r1) as Hs2 by apply Hl2. rewrite Hs2.
      match goal with |- ∃ q1 r1 q2 r2, (None, ?x, ?y) = _ ∧ _ =>
        destruct (BodyWithError_delivers _ _ x y (streamTwo (mkTwoBytes b d 0 0)) (b ++ d)
          eq_refl Hmax1 Hdis1 (lift_own streamTwo _ _ (rq_Header q1) y ltac:(done) TwoBytesReader_delivers))
          as (s'&h'&q'&r'&E'&Hq) end;
        [|simpl; rewrite length_app; lia|by intros st (?&->&_) ???|].
      { eexists. split; [done|]. left. simpl. split_and!; [done|lia|done]. }
      eexists _, _, q', r'. split; [done|]. split; [exact E'|]. destruct Hq as (?&[= _ _ ->]&_). done.
    + rewrite (bool_decide_true (ErrBodyTooLarge = ErrBodyTooLarge)) by done. cbn [orb].
      match goal with |- ∃ q1 r1 q2 r2, (None, ?x, ?y) = _ ∧ _ =>
        destruct (BodyWithError_delivers _ _ x y (streamRequest (acquireRequestStream b)) (b ++ d)
          eq_refl Hmax1 Hdis1 (lift_request _ _ (requestStream_fixed_delivers rest false)))
          as (s'&h'&q'&r'&E'&Hq) end.
      * eexists. split; [done|]. cbn. rewrite Hh1.
        split_and!; [by eapply later_ok|by eapply later_lively|done| |].
        { fold cl in Hcl. unfold RequestHeader.ContentLength. fold cl. lia. }
        exists b, d. split_and!; [done|done|]. destruct (decide (b = [])) as [->|Hb];
          [right; split; [done|simpl; lia]|left]. split_and!; [done|lia|done].
      * simpl. rewrite Hd1, !length_app. lia.
      * intros [[s0 h0] r0] (rs&->&_) ???. done.
      * eexists _, _, q', r'. split; [done|]. split; [exact E'|]. by destruct Hq as (?&_&?).
Qed.

(** Closing a finished stream that is to be discarded reads on. *)
Lemma BodyWithError_discard q r rem c d :
  rq_bodyStream q = Some (streamRequest (acquireRequestStream [])) → rq_maxBodySize q = 0%Z →
  rq_DiscardUnReadBodyStream q = true →
  at_chunks (c :: d) (acquireRequestStream [], rq_Header q, r) rem → ¬ is_hex c →
  ∃ q' r', Request.BodyWithError errorText q r
           = (rem, Some (bodyConv errEmptyHexNum), q', r') ∧ r_data r' = d.
Proof.
  intros Hs Hmax Hdis Hp Hc. set (s := streamRequest (acquireRequestStream [])) in *.
  unfold Request.BodyWithError, Request.BodyWithError_with.
  rewrite Hs. unfold Request.bodyBuffer. cbv beta iota.
  set (bb := default bb_Get (rq_body q)). set (q1 := upd rq_bodyRaw _ _).
  change (rq_maxBodySize q1) with (rq_maxBodySize q). change (rq_Header q1) with (rq_Header q).
  rewrite Hmax. change (0 >? 0)%Z with false. cbv beta iota.
  destruct (copyStream_delivers _ _ (mkWriter [] None) s (rq_Header q) r rem
    (lift_request _ _ (requestStream_chunked_delivers (c :: d)))) as (s'&h'&r'&->&rs&Hs'&Hend).
  { by eexists. }
  { destruct Hp as (_&_&_&[[_ (wire&Hch&Hd)]|(data&?&?&Hne&Hz&_)]).
    - simpl. rewrite Hd, !length_app. pose proof (chunked_length _ _ Hch). lia.
    - destruct data; [done|]. cbn in Hz. lia. }
  { done. }
  cbn [fst snd] in Hs', Hend. subst s'. cbv beta iota. set (q2 := upd rq_bodyStream _ _).
  destruct (requestStream_past_end (rs, h', r') copyBufSize c d Hend Hc) as ([[rs2 h2] r2]&Hread&Hd2).
  assert (copyStream (mkWriter [] None) (streamRequest rs) h' r'
    = (0%Z, Some (bodyConv errEmptyHexNum), mkWriter [] None, (streamRequest rs2, h2, r2))) as Hcopy.
  { unfold copyStream, stream_fuel. cbn [copyZeroAlloc].
    assert (io_read (streamRequest rs, h', r') copyBufSize
      = ([], Some (bodyConv errEmptyHexNum), (streamRequest rs2, h2, r2))) as ->
      by (unfold io_read, BodyStream_reader; by rewrite Hread). done. }
  assert (Request.closeBodyStream q2 r' = (Some (bodyConv errEmptyHexNum),
    q2 <| rq_Header := h2 |> <| rq_bodyStream := None |>, r2)) as ->.
  { unfold Request.closeBodyStream. change (rq_bodyStream q2) with (Some (streamRequest rs)).
    change (rq_DiscardUnReadBodyStream q2) with (rq_DiscardUnReadBodyStream q). rewrite Hdis.
    change (rq_Header q2) with h'. cbv beta iota. by rewrite Hcopy. }
  eexists _, r2. split; [|done]. cbv beta iota.
  match goal with |- (Request.bodyBytes ?x, _, _, _) = _ => change (Request.bodyBytes x)
    with (sl_b (bb_Write (bb_Reset bb) rem)) end.
  destruct (bb_Write_app (bb_Reset bb) rem) as [-> _]. by destruct (bb_Reset_empty bb) as [-> _].
Qed.
End stream_read.
