(* ===== verification/HeaderLaws.v ===== *)
(** The map that a header offers to its users: names without regard to case, values
    without newlines. The interface is a class with the laws of set, delete and
    lookup; requests and responses are its instances, and what follows from the laws
    is proved once. *)

From Stdlib Require Import ZArith Strings.Byte.
From stdpp Require Import prelude strings list.
From S2P Require Import Prelude Tables Bufio Bytesconv Args ArgsFacts Uri Cookie CookieFacts.
From S2P Require Import Headers HeaderScan HeaderFacts ReqHeader RespHeader.

(** The stored form of a name and of a value. *)
Abbreviation canonical := normalizeHeaderKeyV2.
Definition clean (v : bytes) : bytes := spaceNewLine <$> v.

Class HeaderStore (H : Type) := {
  hs_normal : H → Prop;      (* names are normalized, special headers are enabled *)
  hs_special : list bytes;   (* names with a slot of their own *)
  hs_set : H → bytes → bytes → H;
  hs_del : H → bytes → H;
  hs_peek : H → bytes → bytes;
  hs_set_normal h k v : hs_normal h → canonical k ∉ hs_special → hs_normal (hs_set h k v);
  hs_del_normal h k : hs_normal h → canonical k ∉ hs_special → hs_normal (hs_del h k);
  hs_peek_set h k v k' : hs_normal h → canonical k ∉ hs_special →
    hs_peek (hs_set h k v) k' =
      if decide (canonical k = canonical k') then clean v else hs_peek h k';
  hs_peek_del h k k' : hs_normal h → canonical k ∉ hs_special →
    hs_peek (hs_del h k) k' =
      if decide (canonical k = canonical k') then [] else hs_peek h k'
}.

(** * What users of the interface may rely on *)

Section store.
Context `{HeaderStore H}.
Implicit Types h : H.

(** Two headers that answer every lookup alike. *)
Definition store_equiv h1 h2 : Prop := ∀ k, hs_peek h1 k = hs_peek h2 k.
#[global] Instance store_equiv_equivalence : Equivalence store_equiv.
Proof.
  split.
  - by intros h k.
  - intros h1 h2 E k. by rewrite E.
  - intros h1 h2 h3 E1 E2 k. by rewrite E1, E2.
Qed.

#[global] Instance hs_peek_proper : Proper (store_equiv ==> (=) ==> (=)) hs_peek.
Proof. intros h1 h2 E k _ <-. apply E. Qed.

Lemma peek_case h k v k' :
  hs_normal h → canonical k ∉ hs_special → toLowerTable <$> k = toLowerTable <$> k' →
  hs_peek (hs_set h k v) k' = clean v ∧ no_newline (hs_peek (hs_set h k v) k').
Proof.
  intros Hn Hk Hl%normalize_eq. rewrite hs_peek_set, decide_True by done.
  split; [done|apply spaceNewLine_clean].
Qed.

Lemma set_set_equiv h k1 k2 v1 v2 :
  hs_normal h → canonical k1 ∉ hs_special → canonical k1 = canonical k2 →
  store_equiv (hs_set (hs_set h k1 v1) k2 v2) (hs_set h k2 v2).
Proof.
  intros Hn Hk E k. rewrite !hs_peek_set by (rewrite <- ?E; auto using hs_set_normal).
  rewrite E. by case_decide.
Qed.

Lemma set_comm_equiv h k1 k2 v1 v2 :
  hs_normal h → canonical k1 ∉ hs_special → canonical k2 ∉ hs_special →
  canonical k1 ≠ canonical k2 →
  store_equiv (hs_set (hs_set h k1 v1) k2 v2) (hs_set (hs_set h k2 v2) k1 v1).
Proof.
  intros Hn H1 H2 E k. rewrite !hs_peek_set by auto using hs_set_normal.
  repeat case_decide; congruence.
Qed.

Lemma del_set_equiv h k1 k2 v :
  hs_normal h → canonical k1 ∉ hs_special → canonical k1 = canonical k2 →
  store_equiv (hs_del (hs_set h k1 v) k2) (hs_del h k2).
Proof.
  intros Hn Hk E k. rewrite !hs_peek_del, hs_peek_set by (rewrite <- ?E; auto using hs_set_normal).
  rewrite E. by case_decide.
Qed.
End store.

(** * Requests *)

Definition request_special : list bytes :=
  [strContentType; strContentLength; strConnection; strCookie; strTransferEncoding; strTrailer;
   strHost; strUserAgent].

Section request.
Import RequestHeader.
Implicit Types h : RequestHeader.

Definition req_normal h : Prop :=
  q_disableSpecialHeader h = false ∧ q_disableNormalizing h = false.

Lemma setSpecialHeader_none h k v set : k ∉ request_special → setSpecialHeader h k v set = None.
Proof.
  unfold request_special. rewrite !not_elem_of_cons. intros (?&?&?&?&?&?&?&?&_).
  unfold setSpecialHeader, Equal. destruct k as [|k0 k]; [done|].
  destruct (q_disableSpecialHeader h); [done|].
  by repeat (case_bool_decide; try congruence; try done).
Qed.

Lemma peekSpecial_none h k : k ∉ request_special → peekSpecial h k = None.
Proof.
  unfold request_special. rewrite !not_elem_of_cons. intros (?&?&?&?&?&?&?&?&_).
  unfold peekSpecial. destruct k as [|k0 k]; [done|].
  by repeat (case_bool_decide; try done).
Qed.

(** [peekSpecial] does not look at the general headers. *)
Lemma peekSpecial_general h hs bk bv k :
  req_normal h →
  peekSpecial (h <| q_bufK := bk |> <| q_bufV := bv |> <| q_h := hs |>) k = peekSpecial h k.
Proof.
  intros [Hs _]. unfold peekSpecial, Host, UserAgent, ContentType. cbn. by rewrite Hs.
Qed.

Lemma SetBytesKV_general h k v :
  req_normal h → canonical k ∉ request_special →
  ∃ bv, SetBytesKV h k v = h <| q_bufK := canonical k |> <| q_bufV := bv |>
    <| q_h := setArgBytes (q_h h) (canonical k) (clean v) argsHasValue |>.
Proof.
  intros [_ Hn] Hk. unfold SetBytesKV, initHeaderK. rewrite Hn.
  pose proof (initHeaderV_value (q_bufV h) v) as Hv. destruct (initHeaderV (q_bufV h) v) as [v' bv].
  cbn [fst] in Hv. subst v'. exists bv. unfold setCanonical.
  by rewrite setSpecialHeader_none.
Qed.

Lemma DelBytes_general h k :
  req_normal h → canonical k ∉ request_special →
  DelBytes h k = h <| q_bufK := canonical k |> <| q_bufV := q_bufV h |>
    <| q_h := delAllArgsBytes (q_h h) (canonical k) |>.
Proof.
  intros [_ Hn] Hk. unfold DelBytes, initHeaderK. rewrite Hn. unfold del.
  revert Hk. unfold request_special. rewrite !not_elem_of_cons. intros (?&?&?&?&?&?&?&?&_).
  by rewrite !bool_decide_false by done.
Qed.

Lemma PeekBytes_value h k :
  req_normal h → (PeekBytes h k).1 = peek h (canonical k).
Proof. intros [_ Hn]. unfold PeekBytes, initHeaderK. by rewrite Hn. Qed.

#[global, program] Instance request_store : HeaderStore RequestHeader := {
  hs_normal := req_normal;
  hs_special := request_special;
  hs_set := SetBytesKV;
  hs_del := DelBytes;
  hs_peek h k := (PeekBytes h k).1
}.
Next Obligation.
  intros h k v Hn Hk. destruct (SetBytesKV_general h k v Hn Hk) as (bv&->). exact Hn.
Qed.
Next Obligation. intros h k Hn Hk. rewrite DelBytes_general by done. exact Hn. Qed.
Next Obligation.
  intros h k v k' Hn Hk. destruct (SetBytesKV_general h k v Hn Hk) as (bv&->).
  rewrite !PeekBytes_value by exact Hn. unfold peek. rewrite peekSpecial_general by done.
  unfold setArgBytes, peekArgBytes. cbn [upd q_h]. rewrite live_setArg. case_decide as E.
  - rewrite <- E, peekSpecial_none, peek_set_eq by done. done.
  - by rewrite peek_set_ne by done.
Qed.
Next Obligation.
  intros h k k' Hn Hk. rewrite DelBytes_general by done.
  rewrite !PeekBytes_value by exact Hn. unfold peek.
  rewrite peekSpecial_general by done.
  unfold delAllArgsBytes, peekArgBytes. cbn [upd q_h]. rewrite live_delAllArgs. case_decide as E.
  - rewrite <- E, peekSpecial_none, peek_del_eq by done. done.
  - by rewrite peek_del_ne by done.
Qed.
End request.

(** * Responses *)

Definition response_special : list bytes :=
  [strContentType; strContentLength; strContentEncoding; strConnection; strServer; strSetCookie;
   strTransferEncoding; strTrailer; strDate].

Section response.
Import ResponseHeader.
Implicit Types h : ResponseHeader.

Definition resp_normal h : Prop := p_disableNormalizing h = false.

Lemma resp_setSpecialHeader_none h k v set :
  k ∉ response_special → setSpecialHeader h k v set = None.
Proof.
  unfold response_special. rewrite !not_elem_of_cons. intros (?&?&?&?&?&?&?&?&?&_).
  unfold setSpecialHeader, Equal. destruct k as [|k0 k]; [done|].
  by repeat (case_bool_decide; try congruence; try done).
Qed.

Lemma resp_peekSpecial_none h k : k ∉ response_special → peekSpecial h k = (None, h).
Proof.
  unfold response_special. rewrite !not_elem_of_cons. intros (?&?&?&?&?&?&?&?&?&_).
  unfold peekSpecial. destruct k as [|k0 k]; [done|].
  by repeat (case_bool_decide; try done).
Qed.

(** [peekSpecial] neither looks at the general headers nor changes them. *)
Lemma resp_peekSpecial_general h hs bk bv k :
  (peekSpecial (h <| p_bufK := bk |> <| p_bufV := bv |> <| p_h := hs |>) k).1
    = (peekSpecial h k).1 ∧
  p_h (peekSpecial h k).2 = p_h h.
Proof.
  unfold peekSpecial, ConnectionClose. destruct k as [|k0 k]; [done|].
  change (p_contentLength (upd p_h _ _)) with (p_contentLength h).
  change (p_connectionClose (upd p_h _ _)) with (p_connectionClose h).
  repeat (case_bool_decide; try done); by destruct (_ <? _)%Z || destruct (p_connectionClose h).
Qed.

Lemma resp_SetBytesKV_general h k v :
  resp_normal h → canonical k ∉ response_special →
  ∃ bv, SetBytesKV h k v = h <| p_bufK := canonical k |> <| p_bufV := bv |>
    <| p_h := setArgBytes (p_h h) (canonical k) (clean v) argsHasValue |>.
Proof.
  intros Hn Hk. unfold SetBytesKV, initHeaderK. rewrite Hn.
  pose proof (initHeaderV_value (p_bufV h) v) as Hv. destruct (initHeaderV (p_bufV h) v) as [v' bv].
  cbn [fst] in Hv. subst v'. exists bv. unfold setCanonical.
  by rewrite resp_setSpecialHeader_none.
Qed.

Lemma resp_DelBytes_general h k :
  resp_normal h → canonical k ∉ response_special →
  DelBytes h k = h <| p_bufK := p_bufK h |> <| p_bufV := canonical k |>
    <| p_h := delAllArgsBytes (p_h h) (canonical k) |>.
Proof.
  intros Hn Hk. unfold DelBytes, initHeaderK. rewrite Hn. unfold del.
  revert Hk. unfold response_special. rewrite !not_elem_of_cons. intros (?&?&?&?&?&?&?&?&?&_).
  by rewrite !bool_decide_false by done.
Qed.

Lemma resp_peek_value h k :
  (peek h k).1 = match (peekSpecial h k).1 with
                 | Some r => r
                 | None => bytes_of (peekArg_loop (live (p_h h)) k)
                 end.
Proof.
  unfold peek. pose proof (proj2 (resp_peekSpecial_general h (p_h h) [] [] k)) as Hh.
  destruct (peekSpecial h k) as [[r|] h']; [done|]. cbn in *. unfold peekArgBytes. by rewrite Hh.
Qed.

Lemma resp_PeekBytes_value h k :
  resp_normal h → (PeekBytes h k).1 = (peek h (canonical k)).1.
Proof.
  intros Hn. unfold PeekBytes, initHeaderK. rewrite Hn, !resp_peek_value.
  pose proof (resp_peekSpecial_general h (p_h h) (canonical k) (p_bufV h) (canonical k)) as [E _].
  change (h <| p_bufK := canonical k |>) with
    (h <| p_bufK := canonical k |> <| p_bufV := p_bufV h |> <| p_h := p_h h |>). by rewrite E.
Qed.

(** A lookup after the general headers have changed. *)
Lemma resp_PeekBytes_general h hs bk bv k :
  resp_normal h →
  (PeekBytes (h <| p_bufK := bk |> <| p_bufV := bv |> <| p_h := hs |>) k).1 =
  match (peekSpecial h (canonical k)).1 with
  | Some r => r
  | None => bytes_of (peekArg_loop (live hs) (canonical k))
  end.
Proof.
  intros Hn. rewrite resp_PeekBytes_value, resp_peek_value by exact Hn.
  by rewrite (proj1 (resp_peekSpecial_general h hs bk bv (canonical k))).
Qed.

#[global, program] Instance response_store : HeaderStore ResponseHeader := {
  hs_normal := resp_normal;
  hs_special := response_special;
  hs_set := SetBytesKV;
  hs_del := DelBytes;
  hs_peek h k := (PeekBytes h k).1
}.
Next Obligation.
  intros h k v Hn Hk. destruct (resp_SetBytesKV_general h k v Hn Hk) as (bv&->). exact Hn.
Qed.
Next Obligation. intros h k Hn Hk. rewrite resp_DelBytes_general by done. exact Hn. Qed.
Next Obligation.
  intros h k v k' Hn Hk. destruct (resp_SetBytesKV_general h k v Hn Hk) as (bv&->).
  rewrite resp_PeekBytes_general by done. unfold setArgBytes. rewrite live_setArg.
  case_decide as E.
  - rewrite <- E, resp_peekSpecial_none, peek_set_eq by done. done.
  - rewrite peek_set_ne by done. by rewrite resp_PeekBytes_value, resp_peek_value by done.
Qed.
Next Obligation.
  intros h k k' Hn Hk. rewrite resp_DelBytes_general by done.
  rewrite resp_PeekBytes_general by done. unfold delAllArgsBytes. rewrite live_delAllArgs.
  case_decide as E.
  - rewrite <- E, resp_peekSpecial_none, peek_del_eq by done. done.
  - rewrite peek_del_ne by done. by rewrite resp_PeekBytes_value, resp_peek_value by done.
Qed.
End response.
