(* ===== verification/Cleaner.v ===== *)
(** client_cleaner.go: the timer heap that decides when idle clients are cleaned, a 4-ary
    heap of items ordered by their next due time. *)

From Stdlib Require Import ZArith.
From stdpp Require Import prelude list.
From S2P Require Import Prelude.

(** [client] identifies what is to be cleaned. *)
Record CleanItem := mkItem { client : nat; when_ : Z }.

(** A panic is [None]; [badHeap] is one. *)
Definition badHeap {A} : option A := None.

(** * The heap *)

(** The loops carry the item being placed, [tmp], which the slice gets at the end. *)
Fixpoint siftUp_loop (fuel : nat) (items : list CleanItem) (i : nat) (tmp : CleanItem)
    : option (list CleanItem * nat) :=
  match fuel with
  | O => Some (<[i := tmp]> items, i)
  | S fuel =>
      if bool_decide (i = 0) then Some (<[i := tmp]> items, i)
      else
        let p := (i - 1) / 4 in
        y ← items !! p;
        if (when_ tmp >=? when_ y)%Z then Some (<[i := tmp]> items, i)
        else siftUp_loop fuel (<[i := y]> items) p tmp
  end.

Definition siftUp (items : list CleanItem) (i : nat) : option (list CleanItem * nat) :=
  match items !! i with
  | None => badHeap
  | Some tmp => if (when_ tmp <=? 0)%Z then badHeap else siftUp_loop (S i) items i tmp
  end.

(** The smaller of the items at [c] and [c + 1], and where it is. *)
Definition smaller (items : list CleanItem) (c : nat) : option (Z * nat) :=
  x ← items !! c;
  Some match items !! (c + 1) with
       | Some y => if (when_ y <? when_ x)%Z then (when_ y, c + 1) else (when_ x, c)
       | None => (when_ x, c)
       end.

(** The smallest child of [i], [None] when there is none. *)
Definition minChild (items : list CleanItem) (i : nat) : option (Z * nat) :=
  let c := i * 4 + 1 in
  let c3 := c + 2 in
  '(w, c) ← smaller items c;
  Some match smaller items c3 with
       | Some (w3, c3) => if (w3 <? w)%Z then (w3, c3) else (w, c)
       | None => (w, c)
       end.

(** [fuel] bounds the levels left. *)
Fixpoint siftDown_loop (fuel : nat) (items : list CleanItem) (i : nat) (tmp : CleanItem)
    : list CleanItem :=
  match fuel with
  | O => <[i := tmp]> items
  | S fuel =>
      match minChild items i with
      | None => <[i := tmp]> items
      | Some (w, c) =>
          if (w >=? when_ tmp)%Z then <[i := tmp]> items
          else match items !! c with
               | Some y => siftDown_loop fuel (<[i := y]> items) c tmp
               | None => <[i := tmp]> items
               end
      end
  end.

Definition siftDown (items : list CleanItem) (i : nat) : option (list CleanItem) :=
  match items !! i with
  | None => badHeap
  | Some tmp =>
      if (when_ tmp <=? 0)%Z then badHeap else Some (siftDown_loop (length items) items i tmp)
  end.

(** * The cleaner

    [cc_ticks] counts the readings of the clock, [cc_timer] is the last duration the timer
    was set to and [cc_log] the clients cleaned so far. *)
Record DurationCleaner := mkCleaner {
  cc_items : list CleanItem;
  cc_zeroWhen : Z;
  cc_numItems : Z;
  cc_minDuration : Z;
  cc_ticks : nat;
  cc_timer : option Z;
  cc_log : list nat
}.

#[global] Instance DurationCleaner_etable : Etable DurationCleaner :=
  λ c, mkCleaner (cc_items c) (cc_zeroWhen c) (cc_numItems c) (cc_minDuration c) (cc_ticks c)
         (cc_timer c) (cc_log c).

Section cleaner.
(** The clock, and what [Clean] of a client returns at a reading: the pause until it wants
    to be cleaned again, and whether it is to be dropped. *)
Context (NanoTime : nat → Z) (Clean : nat → nat → Z * bool).

Definition update0When (cc : DurationCleaner) : DurationCleaner :=
  match cc_items cc with
  | [] => cc <| cc_zeroWhen := 0%Z |>
  | x :: _ =>
      if bool_decide (cc_zeroWhen cc ≠ when_ x) then
        let du := int64 (when_ x - NanoTime (cc_ticks cc)) in
        cc <| cc_ticks := S (cc_ticks cc) |> <| cc_zeroWhen := when_ x |>
           <| cc_timer := Some (if (du <? 0)%Z then 0%Z else du) |>
      else cc
  end.

(** The item added is the last one; it heads the heap when it was moved there. *)
Definition doAdd (cc : DurationCleaner) : option DurationCleaner :=
  let cc := cc <| cc_numItems := uint32 (cc_numItems cc + 1) |> in
  '(items, i) ← siftUp (cc_items cc) (length (cc_items cc) - 1);
  let cc := cc <| cc_items := items |> in
  Some (if bool_decide (i = 0) then update0When cc else cc).

Definition Register (cc : DurationCleaner) (c : nat) (duration : Z) : option DurationCleaner :=
  let when' := int64 (NanoTime (cc_ticks cc) + duration) in
  let cc := cc <| cc_ticks := S (cc_ticks cc) |> in
  doAdd (cc <| cc_items := cc_items cc ++ [mkItem c when'] |>).

Definition doDel0 (cc : DurationCleaner) : option DurationCleaner :=
  let last := length (cc_items cc) - 1 in
  x ← cc_items cc !! last;
  let items := take last (<[0 := x]> (cc_items cc)) in
  items ← (if 0 <? last then siftDown items 0 else Some items);
  let cc := update0When (cc <| cc_items := items |>) in
  Some (cc <| cc_numItems := uint32 (cc_numItems cc + 4294967295) |>).

Definition runOne (cc : DurationCleaner) (item : CleanItem) : option DurationCleaner :=
  let '(duration, stop) := Clean (client item) (cc_ticks cc) in
  let duration := if (duration <? cc_minDuration cc)%Z then cc_minDuration cc else duration in
  let item := mkItem (client item) (int64 (duration + NanoTime (cc_ticks cc))) in
  let cc := cc <| cc_ticks := S (cc_ticks cc) |> <| cc_log := cc_log cc ++ [client item] |>
               <| cc_items := <[0 := item]> (cc_items cc) |> in
  if stop then doDel0 cc
  else items ← siftDown (cc_items cc) 0; Some (cc <| cc_items := items |>).

(** The time at which the first item is due, 0 when one was cleaned. *)
Definition run (cc : DurationCleaner) (now : Z) : option (Z * DurationCleaner) :=
  t ← cc_items cc !! 0;
  if (when_ t >? now)%Z then Some (when_ t, cc)
  else cc ← runOne cc t; Some (0%Z, cc).

(** The loop of [checkItems]: [inr] is that it is still running. *)
Fixpoint checkItems_loop (fuel : nat) (cc : DurationCleaner) (now : Z) (ran : bool)
    : option (Z * bool * DurationCleaner + DurationCleaner) :=
  match fuel with
  | O => Some (inr cc)
  | S fuel =>
      match cc_items cc with
      | [] => Some (inl (0%Z, ran, cc))
      | _ =>
          '(tw, cc) ← run cc now;
          if bool_decide (tw ≠ 0%Z) then
            Some (inl (if (tw >? 0)%Z then tw else 0%Z, ran, cc))
          else checkItems_loop fuel cc now true
      end
  end.

(** One round per item that is due, and one more. *)
Definition checkItems (cc : DurationCleaner) (now : Z)
    : option (Z * bool * DurationCleaner + DurationCleaner) :=
  if (now <? cc_zeroWhen cc)%Z then Some (inl (cc_zeroWhen cc, false, cc))
  else checkItems_loop (S (length (cc_items cc))) cc now false.

(** What the goroutine does when the timer fires; the panic is "never happened". *)
Definition onTimer (cc : DurationCleaner) : option (DurationCleaner + DurationCleaner) :=
  let now := NanoTime (cc_ticks cc) in
  let cc := cc <| cc_ticks := S (cc_ticks cc) |> in
  res ← checkItems cc now;
  match res with
  | inr cc => Some (inr cc)
  | inl (pollUntil, _, cc) =>
      if (pollUntil >? 0)%Z then
        let du := int64 (pollUntil - now) in
        if (du <=? 0)%Z then None else Some (inl (cc <| cc_timer := Some du |>))
      else Some (inl cc)
  end.
End cleaner.
