(* ===== verification/CleanerFacts.v ===== *)
(** The timer heap keeps its order and its items, and a timer tick cleans each item that
    is due exactly once. *)

From Stdlib Require Import ZArith.
From stdpp Require Import prelude list sorting.
From S2P Require Import Prelude Cleaner.

(** * The heap order *)

Section heap.
Implicit Types (l : list CleanItem) (i j : nat).

Definition par i : nat := (i - 1) / 4.
Definition at_ l i : Z := match l !! i with Some x => when_ x | None => 0%Z end.

Definition heap l : Prop := ∀ j, 0 < j < length l → (at_ l (par j) ≤ at_ l j)%Z.

Lemma par_lt j : 0 < j → par j < j.
Proof. intros Hj. unfold par. apply Nat.Div0.div_lt_upper_bound. lia. Qed.

Lemma par_child i j : 0 < j → par j = i ↔ i * 4 + 1 ≤ j ≤ i * 4 + 4.
Proof.
  intros Hj. unfold par. pose proof (Nat.div_mod_eq (j - 1) 4).
  pose proof (Nat.mod_upper_bound (j - 1) 4). lia.
Qed.

(** Exchanging two items. *)
Definition swap i j l : list CleanItem :=
  match l !! i, l !! j with
  | Some x, Some y => <[i := y]> (<[j := x]> l)
  | _, _ => l
  end.

Lemma length_swap i j l : length (swap i j l) = length l.
Proof. unfold swap. repeat case_match; by rewrite ?length_insert. Qed.

Lemma at_swap i j l k :
  i < length l → j < length l →
  at_ (swap i j l) k = if decide (k = i) then at_ l j else if decide (k = j) then at_ l i else at_ l k.
Proof.
  intros [x Hx]%lookup_lt_is_Some_2 [y Hy]%lookup_lt_is_Some_2. unfold swap, at_. rewrite Hx, Hy.
  pose proof (lookup_lt_Some _ _ _ Hx). pose proof (lookup_lt_Some _ _ _ Hy).
  repeat case_decide; subst; rewrite ?list_lookup_insert_eq by (rewrite ?length_insert; done); [done| |].
  - rewrite list_lookup_insert_ne by done. by rewrite list_lookup_insert_eq by done.
  - by rewrite !list_lookup_insert_ne by done.
Qed.

Lemma swap_Permutation i j l : swap i j l ≡ₚ l.
Proof.
  unfold swap. destruct (l !! i) as [x|] eqn:Hx; [|done]. destruct (l !! j) as [y|] eqn:Hy; [|done].
  by apply Permutation_insert_swap.
Qed.

(** The slice with a hole at [i] stands for the list with the item in it: filling the
    hole from [p] and moving the hole there is an exchange. *)
Lemma hole_swap l i p tmp y :
  i < length l → l !! p = Some y → p ≠ i →
  <[p := tmp]> (<[i := y]> l) = swap i p (<[i := tmp]> l).
Proof.
  intros Hi Hy Hne. unfold swap. rewrite list_lookup_insert_eq by done.
  rewrite list_lookup_insert_ne, Hy by done.
  assert (<[p := tmp]> (<[i := tmp]> l) = <[i := tmp]> (<[p := tmp]> l)) as ->
    by (by apply list_insert_insert_ne).
  rewrite list_insert_insert_eq. by apply list_insert_insert_ne.
Qed.

(** ** Sifting up *)

(** Heap order except between [i] and its parent. *)
Definition up_ok l i : Prop :=
  (∀ j, 0 < j < length l → j ≠ i → (at_ l (par j) ≤ at_ l j)%Z) ∧
  (∀ j, 0 < j < length l → par j = i → 0 < i → (at_ l (par i) ≤ at_ l j)%Z).

Lemma up_step l i :
  0 < i < length l → up_ok l i → (at_ l i < at_ l (par i))%Z → up_ok (swap i (par i) l) (par i).
Proof.
  intros Hi [H1 H2] Hlt. pose proof (par_lt i ltac:(lia)) as Hp.
  assert (∀ k, at_ (swap i (par i) l) k = if decide (k = i) then at_ l (par i)
    else if decide (k = par i) then at_ l i else at_ l k) as Hat by (intros; apply at_swap; lia).
  split; intros j; rewrite length_swap; intros Hj Hne; rewrite !Hat.
  - pose proof (par_lt j ltac:(lia)). rewrite (decide_False (P := j = par i)) by done.
    destruct (decide (j = i)) as [->|Hji].
    { rewrite decide_False, decide_True by (done || lia). lia. }
    destruct (decide (par j = i)) as [E|E]; [apply H2; lia|].
    destruct (decide (par j = par i)) as [E'|E'].
    + pose proof (H1 j Hj Hji) as Hx. rewrite E' in Hx. lia.
    + by apply H1.
  - intros Hp0. pose proof (par_lt (par i) Hp0). pose proof (H1 (par i) ltac:(lia) ltac:(lia)).
    rewrite (decide_False (P := par (par i) = i)), (decide_False (P := par (par i) = par i)) by lia.
    pose proof (par_lt j ltac:(lia)). rewrite (decide_False (P := j = par i)) by lia.
    destruct (decide (j = i)) as [->|Hji]; [done|]. pose proof (H1 j Hj Hji) as Hx.
    rewrite Hne in Hx. lia.
Qed.

Lemma siftUp_loop_ok fuel l i tmp :
  i < fuel → i < length l → up_ok (<[i := tmp]> l) i →
  ∃ l' k, siftUp_loop fuel l i tmp = Some (l', k) ∧ heap l' ∧ l' ≡ₚ <[i := tmp]> l ∧
          l' !! k = Some tmp.
Proof.
  revert l i. induction fuel as [|fuel IH]; intros l i Hf Hi Hup; [lia|]. cbn [siftUp_loop].
  case_bool_decide as Hz.
  { subst. eexists _, _. split; [done|]. split; [|split; [done|by apply list_lookup_insert_eq]].
    intros j Hj. apply Hup; [done|lia]. }
  pose proof (par_lt i ltac:(lia)) as Hp. fold (par i).
  destruct (lookup_lt_is_Some_2 l (par i)) as [y Hy]; [lia|]. rewrite Hy. cbn [mbind option_bind].
  set (L := <[i := tmp]> l) in *. assert (length L = length l) as HL by apply length_insert.
  assert (at_ L i = when_ tmp) as Ei by (unfold at_, L; by rewrite list_lookup_insert_eq).
  assert (at_ L (par i) = when_ y) as Ep.
  { unfold at_, L. rewrite list_lookup_insert_ne by lia. by rewrite Hy. }
  destruct (Z.geb_spec (when_ tmp) (when_ y)) as [Hge|Hlt].
  - eexists _, _. split; [done|]. split; [|split; [done|by apply list_lookup_insert_eq]].
    intros j Hj. destruct (decide (j = i)) as [->|]; [lia|]. by apply Hup.
  - destruct (IH (<[i := y]> l) (par i)) as (l'&k&->&Hheap&Hperm&Hk).
    + lia.
    + rewrite length_insert. lia.
    + rewrite hole_swap by (done || lia). fold L. apply up_step; [lia|done|lia].
    + eexists _, _. split; [done|]. split; [done|]. split; [|done]. rewrite Hperm, hole_swap by (done || lia).
      apply swap_Permutation.
Qed.

(** ** Sifting down *)

(** Heap order except between [i] and its children. *)
Definition down_ok l i : Prop :=
  (∀ j, 0 < j < length l → par j ≠ i → (at_ l (par j) ≤ at_ l j)%Z) ∧
  (∀ j, 0 < j < length l → par j = i → 0 < i → (at_ l (par i) ≤ at_ l j)%Z).

Lemma down_step l i c :
  i < length l → 0 < c < length l → par c = i → down_ok l i → (at_ l c < at_ l i)%Z →
  (∀ j, 0 < j < length l → par j = i → (at_ l c ≤ at_ l j)%Z) →
  down_ok (swap i c l) c.
Proof.
  intros Hi Hc Hpc [H1 H2] Hlt Hmin. pose proof (par_lt c ltac:(lia)) as Hp. rewrite Hpc in Hp.
  assert (∀ k, at_ (swap i c l) k = if decide (k = i) then at_ l c
    else if decide (k = c) then at_ l i else at_ l k) as Hat by (intros; apply at_swap; lia).
  split; intros j; rewrite length_swap; intros Hj Hne; rewrite !Hat; pose proof (par_lt j ltac:(lia)).
  - rewrite (decide_False (P := par j = c)) by done.
    destruct (decide (par j = i)) as [E|E].
    + rewrite (decide_False (P := j = i)) by lia. destruct (decide (j = c)); [lia|by apply Hmin].
    + rewrite (decide_False (P := j = c)) by (intros ->; lia).
      destruct (decide (j = i)) as [->|]; [apply H2; lia|by apply H1].
  - intros _. rewrite Hpc, decide_True, (decide_False (P := j = i)), (decide_False (P := j = c)) by lia.
    rewrite <- Hne at 1. apply H1; lia.
Qed.

Lemma smaller_Some l c w k :
  smaller l c = Some (w, k) →
  (k = c ∨ k = c + 1) ∧ k < length l ∧ w = at_ l k ∧ (w ≤ at_ l c)%Z ∧
  (c + 1 < length l → (w ≤ at_ l (c + 1))%Z).
Proof.
  unfold smaller, at_. destruct (l !! c) as [x|] eqn:Hx; [|done]. cbn [mbind option_bind].
  pose proof (lookup_lt_Some _ _ _ Hx).
  destruct (l !! (c + 1)) as [y|] eqn:Hy.
  - pose proof (lookup_lt_Some _ _ _ Hy).
    destruct (Z.ltb_spec (when_ y) (when_ x)); intros [= <- <-]; rewrite ?Hx, ?Hy; naive_solver lia.
  - apply lookup_ge_None in Hy. intros [= <- <-]. rewrite Hx. split_and!; [by left|done|done|lia|lia].
Qed.

Lemma smaller_None l c : smaller l c = None → length l ≤ c.
Proof.
  unfold smaller. destruct (l !! c) eqn:E; [done|]. intros _. by apply lookup_ge_None.
Qed.

(** The smallest child. *)
Lemma minChild_Some l i w c :
  minChild l i = Some (w, c) →
  0 < c < length l ∧ par c = i ∧ w = at_ l c ∧
  (∀ j, 0 < j < length l → par j = i → (w ≤ at_ l j)%Z).
Proof.
  unfold minChild. destruct (smaller l (i * 4 + 1)) as [[w1 c1]|] eqn:E1; [|done].
  cbn [mbind option_bind]. apply smaller_Some in E1 as (Hc1&Hl1&->&Hle1&Hle1').
  destruct (smaller l (i * 4 + 1 + 2)) as [[w3 c3]|] eqn:E3.
  - apply smaller_Some in E3 as (Hc3&Hl3&->&Hle3&Hle3').
    assert (∀ j, 0 < j < length l → par j = i →
      (at_ l c1 ≤ at_ l j ∨ at_ l c3 ≤ at_ l j)%Z) as Hall.
    { intros j Hj Hp%par_child; [|lia].
      assert (j = i * 4 + 1 ∨ j = i * 4 + 1 + 1 ∨ j = i * 4 + 1 + 2 ∨ j = i * 4 + 1 + 2 + 1)
        as [->|[->|[->| ->]]] by lia; [left|left|right|right]; (done || lia). }
    destruct (Z.ltb_spec (at_ l c3) (at_ l c1)); intros [= <- <-];
      (split; [lia|]); (split; [apply par_child; lia|]); (split; [done|]);
      intros j Hj Hp; destruct (Hall j Hj Hp); lia.
  - apply smaller_None in E3. intros [= <- <-].
    split; [lia|]. split; [apply par_child; lia|]. split; [done|].
    intros j Hj Hp%par_child; [|lia].
    assert (j = i * 4 + 1 ∨ j = i * 4 + 1 + 1) as [->| ->] by lia; [done|lia].
Qed.

Lemma minChild_None l i j : minChild l i = None → 0 < j < length l → par j ≠ i.
Proof.
  unfold minChild. destruct (smaller l (i * 4 + 1)) as [[w1 c1]|] eqn:E1; [done|].
  apply smaller_None in E1. intros _ Hj Hp%par_child; lia.
Qed.

(** The hole does not change what is found below it. *)
Lemma at_insert_ne l i x j : i ≠ j → at_ (<[i := x]> l) j = at_ l j.
Proof. intros. unfold at_. by rewrite list_lookup_insert_ne. Qed.

Lemma siftDown_loop_ok fuel l i tmp :
  length l ≤ i + fuel → i < length l → down_ok (<[i := tmp]> l) i →
  heap (siftDown_loop fuel l i tmp) ∧ siftDown_loop fuel l i tmp ≡ₚ <[i := tmp]> l.
Proof.
  revert l i. induction fuel as [|fuel IH]; intros l i Hf Hi Hd; [lia|]. cbn [siftDown_loop].
  set (L := <[i := tmp]> l) in *. assert (length L = length l) as HL by apply length_insert.
  assert (at_ L i = when_ tmp) as Ei by (unfold at_, L; by rewrite list_lookup_insert_eq).
  assert (∀ j, 0 < j → par j = i → at_ L j = at_ l j) as Hch.
  { intros j Hj Hp. apply at_insert_ne. pose proof (par_lt j Hj). lia. }
  destruct (minChild l i) as [[w c]|] eqn:Em.
  - apply minChild_Some in Em as (Hc&Hpc&->&Hmin).
    destruct (Z.geb_spec (at_ l c) (when_ tmp)) as [Hge|Hlt].
    + split; [|done]. intros j Hj. destruct (decide (par j = i)) as [E|E]; [|by apply Hd].
      rewrite E, Ei, Hch by (done || lia). pose proof (Hmin j ltac:(lia) E). lia.
    + destruct (lookup_lt_is_Some_2 l c) as [y Hy]; [lia|]. rewrite Hy.
      pose proof (par_lt c ltac:(lia)) as Hic. rewrite Hpc in Hic.
      destruct (IH (<[i := y]> l) c) as [Hh Hp].
      * rewrite length_insert. lia.
      * rewrite length_insert. lia.
      * rewrite hole_swap by (done || lia). fold L.
        apply down_step; [lia|lia|done|done| |].
        -- rewrite Ei, Hch by (done || lia). done.
        -- intros j Hj Hpj. rewrite !Hch by (done || lia). apply Hmin; [lia|done].
      * split; [done|]. rewrite Hp, hole_swap by (done || lia). apply swap_Permutation.
  - split; [|done]. intros j Hj. apply Hd; [done|]. by apply (minChild_None l i j Em); [lia].
Qed.

(** ** The operations *)

(** An item that is not first in the order can be put at the end and sifted up. *)
Lemma siftUp_ok l x :
  heap l → (0 < when_ x)%Z →
  ∃ l' k, siftUp (l ++ [x]) (length l) = Some (l', k) ∧ heap l' ∧ l' ≡ₚ x :: l ∧ l' !! k = Some x.
Proof.
  intros Hh Hx. unfold siftUp. rewrite lookup_app_r, Nat.sub_diag by lia. cbn [lookup list_lookup].
  destruct (Z.leb_spec (when_ x) 0); [lia|].
  assert (∀ j, j < length l → at_ (l ++ [x]) j = at_ l j) as Hat.
  { intros j Hj. unfold at_. by rewrite lookup_app_l. }
  destruct (siftUp_loop_ok (S (length l)) (l ++ [x]) (length l) x) as (l'&k&->&Hh'&Hp&Hk).
  - lia.
  - rewrite length_app. simpl. lia.
  - rewrite list_insert_id by (by rewrite lookup_app_r, Nat.sub_diag by lia).
    split; intros j; rewrite length_app; cbn [length]; intros Hj Hne; pose proof (par_lt j ltac:(lia)).
    + rewrite !Hat by lia. apply Hh. lia.
    + lia.
  - exists l', k. split_and!; [done..| |done]. rewrite Hp, list_insert_id
      by (by rewrite lookup_app_r, Nat.sub_diag by lia). by rewrite <- Permutation_cons_append.
Qed.

(** Replacing the first item of a heap and sifting down. *)
Lemma siftDown_root l x y :
  heap (y :: l) → (0 < when_ x)%Z →
  ∃ l', siftDown (x :: l) 0 = Some l' ∧ heap l' ∧ l' ≡ₚ x :: l.
Proof.
  intros Hh Hx. unfold siftDown. cbn [lookup list_lookup].
  destruct (Z.leb_spec (when_ x) 0); [lia|].
  destruct (siftDown_loop_ok (length (x :: l)) (x :: l) 0 x) as [Hh' Hp]; [lia|simpl; lia| |by eauto].
  split; intros j Hj Hne; [|lia]. destruct j as [|j]; [lia|].
  destruct (par (S j)) as [|p] eqn:E; [done|].
  specialize (Hh (S j) Hj). rewrite E in Hh. exact Hh.
Qed.

(** The first item of a heap is the earliest. *)
Lemma heap_min l j : heap l → j < length l → (at_ l 0 ≤ at_ l j)%Z.
Proof.
  intros Hh. induction j as [j IH] using lt_wf_ind. intros Hj. destruct j as [|j]; [lia|].
  pose proof (par_lt (S j) ltac:(lia)). pose proof (Hh (S j) ltac:(lia)).
  pose proof (IH (par (S j)) ltac:(lia) ltac:(lia)). lia.
Qed.

Lemma heap_take l n : heap l → heap (take n l).
Proof.
  intros Hh j. rewrite length_take. intros Hj. pose proof (par_lt j ltac:(lia)).
  unfold at_. rewrite !lookup_take_lt by lia. apply Hh. lia.
Qed.
End heap.

(** * The cleaner *)

Section cleaner.
Context (NanoTime : nat → Z) (Clean : nat → nat → Z * bool).

(** A clock that does not run backwards, and pauses that stay within its range. *)
Context (minDuration : Z).
Definition pause (c t : nat) : Z := Z.max minDuration (Clean c t).1.

Record sane_world : Prop := {
  clock_mono i j : i ≤ j → (NanoTime i ≤ NanoTime j)%Z;
  clock_pos i : (0 < NanoTime i)%Z;
  clock_range c t i : (NanoTime i + pause c t < 2 ^ 63)%Z;
  min_pos : (0 < minDuration)%Z
}.
Context (Hworld : sane_world).

(** The order of the heap, due times that are positive, the number of items, and a first
    due time that is not put too late. *)
Record cleaner_ok (cc : DurationCleaner) : Prop := {
  ok_heap : heap (cc_items cc);
  ok_when : Forall (λ x, 0 < when_ x < 2 ^ 63)%Z (cc_items cc);
  ok_num : cc_numItems cc = uint32 (Z.of_nat (length (cc_items cc)));
  ok_zero : cc_items cc ≠ [] → (cc_zeroWhen cc ≤ at_ (cc_items cc) 0)%Z;
  ok_empty : cc_items cc = [] → cc_zeroWhen cc = 0%Z;
  ok_min : cc_minDuration cc = minDuration
}.

Lemma update0When_frame cc :
  let cc' := update0When NanoTime cc in
  cc_items cc' = cc_items cc ∧ cc_numItems cc' = cc_numItems cc ∧
  cc_minDuration cc' = cc_minDuration cc ∧ cc_log cc' = cc_log cc ∧ cc_ticks cc ≤ cc_ticks cc' ∧
  (cc_items cc ≠ [] → cc_zeroWhen cc' = at_ (cc_items cc) 0) ∧
  (cc_items cc = [] → cc_zeroWhen cc' = 0%Z).
Proof.
  unfold update0When. destruct (cc_items cc) as [|x l] eqn:E; cbn.
  - by split_and!; [..|lia| |].
  - case_bool_decide as Hz; cbn.
    + by split_and!; [..|lia| |].
    + rewrite E. split_and!; [done..|lia| |done]. intros _. unfold at_. cbn. lia.
Qed.

Lemma uint32_succ n : uint32 (uint32 (Z.of_nat n) + 1) = uint32 (Z.of_nat (S n)).
Proof. unfold wrapU. rewrite Zplus_mod_idemp_l. f_equal. lia. Qed.

Lemma uint32_pred n : uint32 (uint32 (Z.of_nat (S n)) + 4294967295) = uint32 (Z.of_nat n).
Proof.
  unfold wrapU. rewrite Zplus_mod_idemp_l.
  replace (Z.of_nat (S n) + 4294967295)%Z with (Z.of_nat n + 1 * 2 ^ 32)%Z by lia.
  apply Z.mod_add. lia.
Qed.

Lemma at_elem l j : j < length l → ∃ x, x ∈ l ∧ at_ l j = when_ x.
Proof.
  intros [x Hx]%lookup_lt_is_Some_2. exists x. split; [by eapply list_elem_of_lookup_2|].
  unfold at_. by rewrite Hx.
Qed.

Lemma heap_elem_min l x : heap l → x ∈ l → (at_ l 0 ≤ when_ x)%Z.
Proof.
  intros Hh [j Hj]%list_elem_of_lookup. pose proof (lookup_lt_Some _ _ _ Hj) as Hlt.
  pose proof (heap_min l j Hh Hlt) as Hm. unfold at_ in Hm at 2. by rewrite Hj in Hm.
Qed.

(** Registering a client adds it. *)
Lemma Register_ok cc c duration :
  cleaner_ok cc → (0 < NanoTime (cc_ticks cc) + duration < 2 ^ 63)%Z →
  ∃ cc', Register NanoTime cc c duration = Some cc' ∧ cleaner_ok cc' ∧
    cc_items cc' ≡ₚ mkItem c (NanoTime (cc_ticks cc) + duration) :: cc_items cc ∧ cc_log cc' = cc_log cc.
Proof.
  intros [Hh Hw Hn Hz He Hm] Hd. unfold Register. rewrite int64_small by lia.
  set (x := mkItem c _). unfold doAdd. cbn. rewrite length_app, Nat.add_sub.
  destruct (siftUp_ok (cc_items cc) x Hh) as (l'&k&->&Hh'&Hp&Hk); [cbn; lia|]. cbn.
  match goal with |- context [update0When _ ?c] => set (c1 := c) end.
  assert (Forall (λ x, 0 < when_ x < 2 ^ 63)%Z l') as Hw'.
  { rewrite Hp. constructor; [cbn; lia|done]. }
  assert (cc_numItems c1 = uint32 (Z.of_nat (length l'))) as Hn'.
  { cbn. rewrite Hn, uint32_succ. by rewrite (Permutation_length Hp). }
  assert (l' ≠ []) as Hne by (intros ->; by apply Permutation_nil_cons in Hp).
  case_bool_decide as Hk0.
  - destruct (update0When_frame c1) as (E1&E2&E3&E4&_&E6&_).
    eexists. split; [done|]. rewrite E1, E4. split; [|done]. split; rewrite ?E1, ?E2, ?E3; try done.
    cbn. rewrite E6 by done. cbn. lia.
  - eexists. split; [done|]. split; [|done]. split; try done. intros _. cbn.
    destruct l' as [|y l2]; [done|]. destruct k as [|k]; [done|]. cbn in Hk.
    apply list_elem_of_lookup_2, elem_of_Permutation in Hk as [l3 Hl3].
    assert (cc_items cc ≡ₚ y :: l3) as Hitems.
    { apply (Permutation_cons_inv (a := x)). by rewrite <- Hp, Hl3, Permutation_swap. }
    assert (y ∈ cc_items cc) as Hy by (rewrite Hitems; by left).
    pose proof (heap_elem_min _ _ Hh Hy). pose proof (Hz ltac:(by intros E; rewrite E in Hy; inversion Hy)).
    unfold at_ at 1. cbn. lia.
Qed.

Definition due (now : Z) (x : CleanItem) : Prop := (when_ x ≤ now)%Z.
#[global] Instance due_dec now x : Decision (due now x) := decide (_ ≤ _)%Z.

(** Deleting the first item. *)
Lemma doDel0_ok cc x l :
  cc_items cc = x :: l → heap (x :: l) ∨ (∃ t, heap (t :: l)) →
  Forall (λ x, 0 < when_ x < 2 ^ 63)%Z l →
  cc_numItems cc = uint32 (Z.of_nat (S (length l))) → cc_minDuration cc = minDuration →
  ∃ cc', doDel0 NanoTime cc = Some cc' ∧ cleaner_ok cc' ∧ cc_items cc' ≡ₚ l ∧
         cc_log cc' = cc_log cc ∧ cc_ticks cc ≤ cc_ticks cc'.
Proof.
  intros Hit Hh Hw Hn Hm.
  assert (∃ t, heap (t :: l)) as [t Ht] by (destruct Hh; eauto).
  unfold doDel0. rewrite Hit. cbn [length]. rewrite Nat.sub_succ, Nat.sub_0_r.
  destruct (decide (l = [])) as [->|Hne].
  - eexists. split; [done|]. cbn. split_and!; [|done..]. split; cbn; try done.
    rewrite Hn. apply (uint32_pred 0).
  - destruct (exists_last Hne) as (ini&y&->). rewrite length_app. cbn [length].
    rewrite Nat.add_1_r. change ((x :: ini ++ [y]) !! S (length ini)) with ((ini ++ [y]) !! length ini).
    rewrite lookup_app_r, Nat.sub_diag by lia. cbn [list_lookup lookup mbind option_bind].
    change (take (S (length ini)) (<[0 := y]> (x :: ini ++ [y])))
      with (y :: take (length ini) (ini ++ [y])). rewrite take_app_length.
    destruct (Nat.ltb_spec 0 (S (length ini))); [|lia].
    apply Forall_app in Hw as [Hwi Hwy]. rewrite Forall_singleton in Hwy.
    destruct (siftDown_root ini y t) as (l'&->&Hh'&Hp); [|lia|].
    { apply (heap_take _ (S (length ini))) in Ht. cbn [take] in Ht. by rewrite take_app_length in Ht. }
    cbn. match goal with |- context [update0When _ ?c] => destruct (update0When_frame c)
      as (E1&E2&E3&E4&E5&E6&_); set (c1 := c) in * end. cbn in E1, E2, E3, E4, E5, E6.
    assert (l' ≠ []) as Hl' by (intros ->; by apply Permutation_nil_cons in Hp).
    eexists. split; [done|]. cbn. rewrite E1, E4. split_and!; [|by rewrite Hp, Permutation_cons_append|done|done].
    split; cbn; rewrite ?E1, ?E2, ?E3, ?Hn; try done.
    + rewrite Hp. by constructor.
    + rewrite (Permutation_length Hp), length_app, Nat.add_1_r. apply uint32_pred.
    + intros _. rewrite E6 by done. lia.
Qed.

(** Running the first item takes it from those due. *)
Lemma runOne_ok cc now t l :
  cleaner_ok cc → cc_items cc = t :: l → due now t → (now ≤ NanoTime (cc_ticks cc))%Z →
  ∃ cc', runOne NanoTime Clean cc t = Some cc' ∧ cleaner_ok cc' ∧
    cc_log cc' = cc_log cc ++ [client t] ∧ cc_ticks cc ≤ cc_ticks cc' ∧
    (cc_items cc' ≡ₚ l ∨
     ∃ x, client x = client t ∧ (now < when_ x)%Z ∧ cc_items cc' ≡ₚ x :: l).
Proof.
  intros [Hh Hw Hn Hz He Hm] Hit Hdue Hnow. unfold runOne. rewrite Hm, Hit.
  destruct (Clean (client t) (cc_ticks cc)) as [d stop] eqn:Ec.
  set (du := if (d <? minDuration)%Z then minDuration else d).
  assert (du = pause (client t) (cc_ticks cc)) as Edu.
  { unfold pause, du. rewrite Ec. cbn [fst]. destruct (Z.ltb_spec d minDuration); lia. }
  pose proof (clock_range Hworld (client t) (cc_ticks cc) (cc_ticks cc)) as Hr.
  pose proof (clock_pos Hworld (cc_ticks cc)). pose proof (min_pos Hworld).
  assert (minDuration ≤ du)%Z by (unfold du; destruct (Z.ltb_spec d minDuration); lia).
  rewrite int64_small by lia. set (x := mkItem (client t) (du + NanoTime (cc_ticks cc))).
  assert (now < when_ x ∧ 0 < when_ x < 2 ^ 63)%Z as [Hxn Hxw] by (cbn; lia).
  rewrite Hit in Hh, Hw, Hz. apply Forall_cons in Hw as [Hwt Hwl].
  specialize (Hz ltac:(done)). unfold at_ in Hz. cbn in Hz. unfold due in Hdue.
  assert (∀ y, y ∈ l → when_ t ≤ when_ y)%Z as Hmin.
  { intros y Hy. pose proof (heap_elem_min (t :: l) y Hh ltac:(by right)) as Hy'. done. }
  cbn [list_insert insert]. destruct stop.
  - match goal with |- context [doDel0 _ ?c] => destruct (doDel0_ok c x l) as (cc'&->&Hok&Hp&Hlog&Htk) end;
      [done|right; by exists t|done|cbn; by rewrite Hn, Hit|done|].
    eexists. split; [done|]. cbn in Hlog, Htk. split_and!; [done|done|lia|by left].
  - match goal with |- context [siftDown ?a 0] => change a with (x :: l) end.
    destruct (siftDown_root l x t Hh) as (l'&->&Hh'&Hp); [lia|]. cbn.
    assert (l' ≠ []) as Hl' by (intros ->; by apply Permutation_nil_cons in Hp).
    eexists. split; [done|]. cbn. split_and!; [|done|lia|right; exists x; by split_and!].
    split; cbn; try done.
    + rewrite Hp. by constructor.
    + rewrite Hn, Hit. by rewrite (Permutation_length Hp).
    + intros _. destruct (at_elem l' 0) as (y&Hy&->); [destruct l'; [done|simpl; lia]|].
      rewrite Hp in Hy. apply elem_of_cons in Hy as [->|Hy]; [lia|]. specialize (Hmin y Hy). lia.
Qed.

(** The loop cleans every item that is due, each once, and stops. *)
Lemma checkItems_loop_ok fuel cc now ran :
  cleaner_ok cc → (0 < now ≤ NanoTime (cc_ticks cc))%Z →
  length (filter (due now) (cc_items cc)) < fuel →
  ∃ poll ran' cc' cleaned, checkItems_loop NanoTime Clean fuel cc now ran = Some (inl (poll, ran', cc')) ∧
    cleaner_ok cc' ∧ Forall (λ x, now < when_ x)%Z (cc_items cc') ∧
    cc_log cc' = cc_log cc ++ cleaned ∧ cleaned ≡ₚ client <$> filter (due now) (cc_items cc) ∧
    (cc_items cc' = [] ∧ poll = 0%Z ∨ cc_items cc' ≠ [] ∧ poll = at_ (cc_items cc') 0).
Proof.
  revert cc ran. induction fuel as [|fuel IH]; intros cc ran Hok Hnow Hf; [lia|].
  cbn [checkItems_loop]. destruct (cc_items cc) as [|t l] eqn:Hit.
  { eexists _, _, _, []. split; [done|]. rewrite Hit, app_nil_r. by split_and!; [..|by left]. }
  unfold run. rewrite Hit. cbn [lookup list_lookup mbind option_bind].
  pose proof (ok_heap _ Hok) as Hh. rewrite Hit in Hh.
  destruct (Z.gtb_spec (when_ t) now) as [Hgt|Hle].
  - cbn [mbind option_bind]. rewrite bool_decide_true by lia. destruct (Z.gtb_spec (when_ t) 0); [|lia].
    assert (Forall (λ x, now < when_ x)%Z (t :: l)) as Hall.
    { apply Forall_forall. intros y Hy. pose proof (heap_elem_min _ y Hh Hy) as Hm.
      unfold at_ in Hm. cbn in Hm. lia. }
    eexists _, _, _, []. split; [done|]. rewrite Hit, app_nil_r. split_and!; [done..| |by right].
    assert (filter (due now) (t :: l) = []) as ->; [|done]. apply elem_of_nil_inv.
    intros y [Hd Hy]%list_elem_of_filter. apply (proj1 (Forall_forall _ _) Hall) in Hy.
    unfold due in Hd. lia.
  - destruct (runOne_ok cc now t l Hok Hit) as (cc1&->&Hok1&Hlog1&Htk&Hcase); [done|lia|].
    cbn [mbind option_bind]. rewrite bool_decide_false by (by intros []).
    assert (filter (due now) (cc_items cc1) ≡ₚ filter (due now) l) as Hfil.
    { destruct Hcase as [->|(x&_&Hx&->)]; [done|]. rewrite filter_cons_False; [done|].
      unfold due. lia. }
    rewrite filter_cons_True in Hf by done. cbn [length] in Hf.
    destruct (IH cc1 true Hok1) as (poll&ran'&cc'&cl&->&Hok'&Hall&Hlog&Hcl&Hpoll).
    + pose proof (clock_mono Hworld _ _ Htk). lia.
    + rewrite Hfil. lia.
    + exists poll, ran', cc', (client t :: cl). split; [done|]. split_and!; [done..| | |done].
      * by rewrite Hlog, Hlog1, <- app_assoc.
      * rewrite filter_cons_True by done. cbn. by rewrite Hcl, Hfil.
Qed.

(** A tick of the timer. *)
Lemma onTimer_ok cc :
  cleaner_ok cc →
  let now := NanoTime (cc_ticks cc) in
  ∃ cc' cleaned, onTimer NanoTime Clean cc = Some (inl cc') ∧ cleaner_ok cc' ∧
    Forall (λ x, now < when_ x)%Z (cc_items cc') ∧
    cc_log cc' = cc_log cc ++ cleaned ∧ cleaned ≡ₚ client <$> filter (due now) (cc_items cc) ∧
    (cc_items cc' ≠ [] → ∃ d, cc_timer cc' = Some d ∧ (0 < d ∧ now + d ≤ at_ (cc_items cc') 0)%Z).
Proof.
  intros Hok now. unfold onTimer. fold now. set (c1 := upd cc_ticks _ _).
  assert (cleaner_ok c1) as Hok1 by (by destruct Hok).
  pose proof (clock_pos Hworld (cc_ticks cc)) as Hpos. fold now in Hpos.
  assert (∀ l, heap l → Forall (λ x, 0 < when_ x < 2 ^ 63)%Z l → l ≠ [] → (0 < at_ l 0 < 2 ^ 63)%Z) as Hat.
  { intros [|y l] _ Hw Hne; [done|]. by apply Forall_cons in Hw as [? _]. }
  unfold checkItems. destruct (Z.ltb_spec now (cc_zeroWhen c1)) as [Hlt|Hge].
  - cbn [mbind option_bind]. destruct (Z.gtb_spec (cc_zeroWhen c1) 0); [|lia].
    assert (cc_items c1 ≠ []) as Hne by (intros E; pose proof (ok_empty _ Hok1 E); lia).
    pose proof (ok_zero _ Hok1 Hne) as Hz. pose proof (Hat _ (ok_heap _ Hok1) (ok_when _ Hok1) Hne).
    rewrite int64_small by lia. destruct (Z.leb_spec (cc_zeroWhen c1 - now) 0); [lia|].
    assert (Forall (λ x, now < when_ x)%Z (cc_items c1)) as Hall.
    { apply Forall_forall. intros y Hy. pose proof (heap_elem_min _ _ (ok_heap _ Hok1) Hy). lia. }
    eexists _, []. split; [done|]. split_and!; [by destruct Hok1|done|by rewrite app_nil_r| |].
    + assert (filter (due now) (cc_items cc) = []) as ->; [|done]. apply elem_of_nil_inv.
      intros y [Hd Hy]%list_elem_of_filter. apply (proj1 (Forall_forall _ _) Hall) in Hy.
      unfold due in Hd. lia.
    + intros _. eexists. split; [done|]. unfold c1 in *. cbn in *. lia.
  - destruct (checkItems_loop_ok (S (length (cc_items c1))) c1 now false Hok1)
      as (poll&ran&cc'&cl&->&Hok'&Hall&Hlog&Hcl&Hpoll).
    + split; [lia|]. apply (clock_mono Hworld). cbn. lia.
    + pose proof (length_filter (due now) (cc_items c1)). lia.
    + cbn [mbind option_bind]. destruct Hpoll as [[Hnil ->]|[Hne ->]].
      * eexists cc', cl. split; [done|]. by split_and!.
      * pose proof (Hat _ (ok_heap _ Hok') (ok_when _ Hok') Hne).
        destruct (Z.gtb_spec (at_ (cc_items cc') 0) 0); [|lia].
        destruct (at_elem (cc_items cc') 0) as (y&Hy&E); [destruct (cc_items cc'); [done|simpl; lia]|].
        apply (proj1 (Forall_forall _ _) Hall) in Hy.
        rewrite int64_small by lia. destruct (Z.leb_spec (at_ (cc_items cc') 0 - now) 0); [lia|].
        eexists _, cl. split; [done|]. split_and!; [by destruct Hok'|done|done|done|].
        intros _. eexists. split; [done|]. cbn. lia.
Qed.
(** ** Reachable states: registrations and timers, in any order *)

Definition cleaner_init : DurationCleaner := mkCleaner [] 0 0 minDuration 0 None [].

Inductive cleaner_step (cc : DurationCleaner) : DurationCleaner → Prop :=
  | step_register c duration cc' :
      (0 < NanoTime (cc_ticks cc) + duration < 2 ^ 63)%Z →
      Register NanoTime cc c duration = Some cc' → cleaner_step cc cc'
  | step_timer cc' : onTimer NanoTime Clean cc = Some (inl cc') → cleaner_step cc cc'.

Lemma cleaner_init_ok : cleaner_ok cleaner_init.
Proof. by split. Qed.

Lemma cleaner_step_ok cc cc' : cleaner_step cc cc' → cleaner_ok cc → cleaner_ok cc'.
Proof.
  intros [c d cc2 Hd E|cc2 E] Hok.
  - destruct (Register_ok cc c d Hok Hd) as (?&E'&?&_). by simplify_eq.
  - destruct (onTimer_ok cc Hok) as (?&?&E'&?&_). by simplify_eq.
Qed.

Lemma cleaner_reachable_ok cc : rtc cleaner_step cleaner_init cc → cleaner_ok cc.
Proof. apply rtc_invariant; [apply cleaner_init_ok|eauto using cleaner_step_ok]. Qed.
End cleaner.
