(* ===== verification/HostClient.v ===== *)
(** client.go: the connection pool of a [HostClient] - idle connections, the queue of
    callers that wait for one, dialing on their behalf, and the cleaner of idle ones. *)

From Stdlib Require Import ZArith Strings.Byte.
From stdpp Require Import prelude strings list gmap.
From S2P Require Import Prelude Bufio Body.

(** * Connections and waiters *)

(** A pooled connection; [cc_c] identifies the [net.Conn]. *)
Record clientConn := mkConn { cc_c : nat; cc_createdTime : Z; cc_lastUseTime : Z }.

#[global] Instance clientConn_eq_decision : EqDecision clientConn.
Proof. solve_decision. Defined.

(** [w_closed] is that the channel [ready] is closed. *)
Record wantConn := mkWant {
  w_err : option client_error;
  w_closed : bool;
  w_conn : option clientConn
}.

#[global] Instance wantConn_etable : Etable wantConn :=
  λ w, mkWant (w_err w) (w_closed w) (w_conn w).

Definition newWantConn : wantConn := mkWant None false None.

Definition waiting (w : wantConn) : bool := negb (w_closed w).

(** [None] is a panic: nothing to deliver, or a channel closed twice. *)
Definition tryDeliver (w : wantConn) (conn : option clientConn) (err : option client_error)
    : option (bool * wantConn) :=
  if bool_decide (is_Some (w_conn w)) || bool_decide (is_Some (w_err w)) then Some (false, w)
  else
    let w := w <| w_conn := conn |> <| w_err := err |> in
    if bool_decide (conn = None) && bool_decide (err = None) then None
    else if w_closed w then None
    else Some (true, w <| w_closed := true |>).

(** The connection that is to be released. *)
Definition cancel_want (w : wantConn) (err : client_error) : option (option clientConn * wantConn) :=
  w1 ← (if bool_decide (w_conn w = None) && bool_decide (w_err w = None) then
          if w_closed w then None else Some (w <| w_closed := true |>)
        else Some w);
  Some (w_conn w1, w1 <| w_conn := None |> <| w_err := Some err |>).

(** * The queue of waiters

    A waiter is known by its address; slots that were popped are nil. *)
Record wantConnQueue := mkQueue {
  q_head : list (option nat);
  q_tail : list nat;
  q_headPos : nat;
  q_failedWaiters : Z
}.

#[global] Instance wantConnQueue_etable : Etable wantConnQueue :=
  λ q, mkQueue (q_head q) (q_tail q) (q_headPos q) (q_failedWaiters q).

Module wantConnQueue.
Definition zero : wantConnQueue := mkQueue [] [] 0 0.

Definition len (q : wantConnQueue) : Z :=
  (Z.of_nat (length (q_head q)) - Z.of_nat (q_headPos q) + Z.of_nat (length (q_tail q))
   - q_failedWaiters q)%Z.

Definition pushBack (q : wantConnQueue) (w : nat) : wantConnQueue := q <| q_tail := q_tail q ++ [w] |>.

(** The swap picks up the tail as the new head. *)
Definition pop_head (q : wantConnQueue) : option nat * wantConnQueue :=
  (mjoin (q_head q !! q_headPos q),
   q <| q_head := <[q_headPos q := None]> (q_head q) |> <| q_headPos := S (q_headPos q) |>).

Definition popFront (q : wantConnQueue) : option nat * wantConnQueue :=
  if length (q_head q) <=? q_headPos q then
    if bool_decide (q_tail q = []) then (None, q)
    else pop_head (q <| q_head := Some <$> q_tail q |> <| q_headPos := 0 |> <| q_tail := [] |>)
  else pop_head q.

Definition peekFront (q : wantConnQueue) : option nat :=
  if q_headPos q <? length (q_head q) then mjoin (q_head q !! q_headPos q)
  else q_tail q !! 0.

Definition addFailed (q : wantConnQueue) (n : Z) : wantConnQueue :=
  q <| q_failedWaiters := (q_failedWaiters q + n)%Z |>.

(** As many rounds as there are waiters are enough. *)
Fixpoint clearFront_loop (fuel : nat) (ws : gmap nat wantConn) (q : wantConnQueue) (cleaned : bool)
    : option (bool * wantConnQueue) :=
  match fuel with
  | O => Some (cleaned, q)
  | S fuel =>
      match peekFront q with
      | None => Some (cleaned, q)
      | Some w =>
          want ← ws !! w;
          if waiting want then Some (cleaned, q)
          else clearFront_loop fuel ws (addFailed (popFront q).2 (-1)) true
      end
  end.

Definition clearFront (ws : gmap nat wantConn) (q : wantConnQueue) : option (bool * wantConnQueue) :=
  clearFront_loop (S (length (q_head q) + length (q_tail q))) ws q false.
End wantConnQueue.

(** * The pool *)

Inductive ConnPoolStrategyType := LIFO | FIFO.

(** [hc_wants] is the store of the waiters, [hc_dialing] the waiters a goroutine dials for,
    [hc_closed] the connections that were closed and [hc_registered] how often the pool
    was given to the cleaner. *)
Record HostClient := mkHostClient {
  hc_conns : list clientConn;
  hc_connsCount : Z;
  hc_connsWait : option wantConnQueue;
  hc_connsCleanerRun : bool;
  hc_maxConns : Z;
  hc_maxIdleConnDuration : Z;
  hc_waitFreeConnTimeout : Z;
  hc_connPoolStrategy : ConnPoolStrategyType;
  hc_addrs : list bytes;
  hc_addrIdx : Z;
  hc_wants : gmap nat wantConn;
  hc_dialing : list nat;
  hc_closed : list nat;
  hc_registered : nat
}.

#[global] Instance HostClient_etable : Etable HostClient := λ c,
  mkHostClient (hc_conns c) (hc_connsCount c) (hc_connsWait c) (hc_connsCleanerRun c) (hc_maxConns c)
    (hc_maxIdleConnDuration c) (hc_waitFreeConnTimeout c) (hc_connPoolStrategy c) (hc_addrs c)
    (hc_addrIdx c) (hc_wants c) (hc_dialing c) (hc_closed c) (hc_registered c).

Module HostClient.
Import wantConnQueue.

Definition SetMaxConns (c : HostClient) (newMaxConns : Z) : HostClient := c <| hc_maxConns := newMaxConns |>.
Definition ConnsCount (c : HostClient) : Z := hc_connsCount c.

(** What the first part of [acquireConn], under the lock, decides. *)
Inductive acquired :=
  | gotConn (cc : clientConn)
  | createConn
  | noConn.

Definition takeConn (c : HostClient) : option (clientConn * list clientConn) :=
  match hc_connPoolStrategy c with
  | LIFO => cc ← last (hc_conns c); Some (cc, take (length (hc_conns c) - 1) (hc_conns c))
  | FIFO => cc ← hc_conns c !! 0; Some (cc, drop 1 (hc_conns c))
  end.

Definition acquireConn (c : HostClient) (connectionClose : bool) : acquired * HostClient :=
  match takeConn c with
  | Some (cc, conns) => (gotConn cc, c <| hc_conns := conns |>)
  | None =>
      if (hc_connsCount c <? hc_maxConns c)%Z || (hc_maxConns c <? 0)%Z then
        let c := c <| hc_connsCount := (hc_connsCount c + 1)%Z |> in
        (createConn,
         if negb (hc_connsCleanerRun c) && negb connectionClose && (hc_maxIdleConnDuration c >? 0)%Z
         then c <| hc_registered := S (hc_registered c) |> <| hc_connsCleanerRun := true |>
         else c)
      else (noConn, c)
  end.

(** [w] is a waiter that was just made. *)
Definition queueForIdle (c : HostClient) (w : nat) : option HostClient :=
  let c := c <| hc_wants := <[w := newWantConn]> (hc_wants c) |> in
  '(_, q) ← clearFront (hc_wants c) (default zero (hc_connsWait c));
  Some (c <| hc_connsWait := Some (pushBack q w) |>).

(** The loop of [decConnsCount]: the waiter to dial for. Every round pops one. *)
Fixpoint popWaiting (fuel : nat) (ws : gmap nat wantConn) (q : wantConnQueue)
    : option (option nat * wantConnQueue) :=
  match fuel with
  | O => Some (None, q)
  | S fuel =>
      if (len q >? 0)%Z then
        let '(ow, q) := popFront q in
        w ← ow;
        want ← ws !! w;
        if waiting want then Some (Some w, q) else popWaiting fuel ws (addFailed q (-1))
      else Some (None, q)
  end.

Definition queue_fuel (q : wantConnQueue) : nat := S (length (q_head q) + length (q_tail q)).

Definition decConnsCount (c : HostClient) : option HostClient :=
  let dec c := c <| hc_connsCount := (hc_connsCount c - 1)%Z |> in
  if (hc_waitFreeConnTimeout c =? 0)%Z then Some (dec c)
  else
    match hc_connsWait c with
    | None => Some (dec c)
    | Some q =>
        '(ow, q) ← popWaiting (queue_fuel q) (hc_wants c) q;
        let c := c <| hc_connsWait := Some q |> in
        Some (match ow with
              | Some w => c <| hc_dialing := hc_dialing c ++ [w] |>
              | None => dec c
              end)
    end.

Definition closeConn (c : HostClient) (cc : clientConn) : option HostClient :=
  c ← decConnsCount c; Some (c <| hc_closed := hc_closed c ++ [cc_c cc] |>).

(** The loop of [releaseConn]: whether a waiter took the connection. *)
Fixpoint deliver_loop (fuel : nat) (ws : gmap nat wantConn) (q : wantConnQueue) (cc : clientConn)
    : option (bool * gmap nat wantConn * wantConnQueue) :=
  match fuel with
  | O => Some (false, ws, q)
  | S fuel =>
      if (len q >? 0)%Z then
        let '(ow, q) := popFront q in
        w ← ow;
        want ← ws !! w;
        '(delivered, want) ← (if waiting want then tryDeliver want (Some cc) None else Some (false, want));
        let ws := <[w := want]> ws in
        if delivered : bool then Some (true, ws, q) else deliver_loop fuel ws (addFailed q (-1)) cc
      else Some (false, ws, q)
  end.

Definition releaseConn (c : HostClient) (cc : clientConn) (now : Z) : option HostClient :=
  let cc := mkConn (cc_c cc) (cc_createdTime cc) now in
  let idle c := c <| hc_conns := hc_conns c ++ [cc] |> in
  if (hc_waitFreeConnTimeout c =? 0)%Z then Some (idle c)
  else
    match hc_connsWait c with
    | None => Some (idle c)
    | Some q =>
        '(delivered, ws, q) ← deliver_loop (queue_fuel q) (hc_wants c) q cc;
        let c := c <| hc_wants := ws |> <| hc_connsWait := Some q |> in
        Some (if delivered : bool then c else idle c)
    end.

(** [dialConnFor], given what dialing returned. *)
Definition dialConnFor (c : HostClient) (w : nat) (res : clientConn + client_error) (now : Z)
    : option HostClient :=
  want ← hc_wants c !! w;
  match res with
  | inr err =>
      '(_, want) ← tryDeliver want None (Some err);
      decConnsCount (c <| hc_wants := <[w := want]> (hc_wants c) |>)
  | inl cc =>
      '(delivered, want) ← tryDeliver want (Some cc) None;
      let c := c <| hc_wants := <[w := want]> (hc_wants c) |> in
      if delivered : bool then Some c else releaseConn c cc now
  end.

(** The part of [cancel] under the waiter's lock; the connection it returns is passed to
    [releaseConn]. *)
Definition cancel (c : HostClient) (w : nat) (err : client_error) : option (option clientConn * HostClient) :=
  want ← hc_wants c !! w;
  '(conn, want) ← cancel_want want err;
  Some (conn, c <| hc_wants := <[w := want]> (hc_wants c) |>).

(** A timeout is counted before the waiter is cancelled; there is a queue by then. *)
Definition countTimeout (c : HostClient) : option HostClient :=
  q ← hc_connsWait c; Some (c <| hc_connsWait := Some (addFailed q 1) |>).

(** ** Idle connections *)

Definition closeAll (c : HostClient) (ccs : list clientConn) : option HostClient :=
  foldl (λ oc cc, c ← oc; closeConn c cc) (Some c) ccs.

Definition CloseIdleConnections (c : HostClient) : option HostClient :=
  closeAll (c <| hc_conns := [] |>) (hc_conns c).

(** The binary search of [Clean]: [l] and [r + 1], the connections before [l] have been
    idle for too long. *)
Fixpoint expired_search (fuel : nat) (currentTime maxIdle : Z) (conns : list clientConn) (l r1 : nat)
    : nat * nat :=
  match fuel with
  | O => (l, r1)
  | S fuel =>
      if l <? r1 then
        let mid := (l + (r1 - 1)) / 2 in
        match conns !! mid with
        | Some cc =>
            if (int64 (currentTime - cc_lastUseTime cc) >? maxIdle)%Z
            then expired_search fuel currentTime maxIdle conns (S mid) r1
            else expired_search fuel currentTime maxIdle conns l mid
        | None => (l, r1)
        end
      else (l, r1)
  end.

(** [currentTime] and [laterTime] are the two readings of the clock. *)
Definition Clean (c : HostClient) (currentTime laterTime : Z) : option (Z * bool * HostClient) :=
  let conns := hc_conns c in
  let n := length conns in
  let maxIdle := hc_maxIdleConnDuration c in
  let i := (expired_search (S n) currentTime maxIdle conns 0 n).2 in
  if bool_decide (n = 0) || bool_decide (i = 0) then Some (0%Z, false, c)
  else
    sleep ← (if i <? n then
               cr ← conns !! (i - 1); Some (int64 (maxIdle - int64 (laterTime - cc_lastUseTime cr) + 1))
             else Some maxIdle);
    c ← closeAll (c <| hc_conns := drop i conns |>) (take i conns);
    let stop := (hc_connsCount c =? 0)%Z in
    Some (sleep, stop, if stop then c <| hc_connsCleanerRun := false |> else c).

(** ** Addresses *)

(** An empty list of addresses is an index out of range. *)
Definition nextAddr (c : HostClient) : option (bytes * HostClient) :=
  addr ← hc_addrs c !! 0;
  if 1 <? length (hc_addrs c) then
    addr ← hc_addrs c !! Z.to_nat (hc_addrIdx c mod uint32 (Z.of_nat (length (hc_addrs c))));
    Some (addr, c <| hc_addrIdx := uint32 (hc_addrIdx c + 1) |>)
  else Some (addr, c).

(** Dials up to [n] addresses until one answers; [dial] is what dialing an address gives. *)
Fixpoint dialHostHard_loop (n : nat) (dial : bytes → clientConn + client_error) (c : HostClient)
    (err : client_error) : option ((clientConn + client_error) * HostClient) :=
  match n with
  | O => Some (inr err, c)
  | S n =>
      '(addr, c) ← nextAddr c;
      match dial addr with
      | inl conn => Some (inl conn, c)
      | inr err => dialHostHard_loop n dial c err
      end
  end.

Definition dialHostHard (dial : bytes → clientConn + client_error) (c : HostClient)
    : option ((clientConn + client_error) * HostClient) :=
  let n := length (hc_addrs c) in
  dialHostHard_loop (if bool_decide (n = 0) then 1 else n) dial c (errDial 0).
End HostClient.

Definition AddMissingPort (addr : bytes) (isTLS : bool) : bytes :=
  match addr with
  | [] => addr
  | c :: _ =>
      let port := if isTLS then bs ":443" else bs ":80" in
      if bool_decide (c = "["%byte) then
        if bool_decide (last addr ≠ Some "]"%byte) then addr else addr ++ port
      else
        match LastIndexByte addr ":"%byte with
        | Some (S _) => addr
        | _ => addr ++ port
        end
  end.

(** * The pool and its callers

    The rest of [acquireConn] runs outside the lock: dialing, waiting for the channel or
    the timer, and cancelling. A state has the pool and where every caller is. *)
Record Pool := mkPool {
  po_c : HostClient;
  po_inUse : list clientConn;      (* held by requests *)
  po_dials : nat;                  (* callers that dial for themselves *)
  po_wanting : nat;                (* callers that found nothing and will queue *)
  po_waiters : list nat;           (* callers blocked on their waiter *)
  po_timedOut : list nat;          (* callers whose timer fired, about to cancel *)
  po_held : list clientConn;       (* taken back by a cancellation, about to be released *)
  po_closing : list clientConn     (* taken out of the idle ones, about to be closed *)
}.

#[global] Instance Pool_etable : Etable Pool := λ p,
  mkPool (po_c p) (po_inUse p) (po_dials p) (po_wanting p) (po_waiters p) (po_timedOut p)
    (po_held p) (po_closing p).

(** The connections delivered to callers that have not woken up yet. *)
Definition delivered (p : Pool) : list clientConn :=
  omap (λ w, hc_wants (po_c p) !! w ≫= w_conn) (po_waiters p ++ po_timedOut p).

Definition all_conns (p : Pool) : list clientConn :=
  hc_conns (po_c p) ++ po_inUse p ++ po_held p ++ po_closing p ++ delivered p.

(** A connection that was just dialed. *)
Definition fresh_conn (p : Pool) (cc : clientConn) : Prop :=
  cc_c cc ∉ hc_closed (po_c p) ++ (cc_c <$> all_conns p).

Inductive pool_step (p : Pool) : Pool → Prop :=
  | acquire_idle b cc c :
      HostClient.acquireConn (po_c p) b = (HostClient.gotConn cc, c) →
      pool_step p (p <| po_c := c |> <| po_inUse := cc :: po_inUse p |>)
  | acquire_create b c :
      HostClient.acquireConn (po_c p) b = (HostClient.createConn, c) →
      pool_step p (p <| po_c := c |> <| po_dials := S (po_dials p) |>)
  | acquire_none b c :
      HostClient.acquireConn (po_c p) b = (HostClient.noConn, c) → hc_waitFreeConnTimeout (po_c p) ≠ 0%Z →
      pool_step p (p <| po_c := c |> <| po_wanting := S (po_wanting p) |>)
  | dial_ok n cc :
      po_dials p = S n → fresh_conn p cc →
      pool_step p (p <| po_dials := n |> <| po_inUse := cc :: po_inUse p |>)
  | dial_fails n c :
      po_dials p = S n → HostClient.decConnsCount (po_c p) = Some c →
      pool_step p (p <| po_dials := n |> <| po_c := c |>)
  | queue_up n w c :
      po_wanting p = S n → hc_wants (po_c p) !! w = None → HostClient.queueForIdle (po_c p) w = Some c →
      pool_step p (p <| po_wanting := n |> <| po_waiters := w :: po_waiters p |> <| po_c := c |>)
  | dial_for w ws res now c :
      hc_dialing (po_c p) ≡ₚ w :: ws → (∀ cc, res = inl cc → fresh_conn p cc) →
      HostClient.dialConnFor ((po_c p) <| hc_dialing := ws |>) w res now = Some c →
      pool_step p (p <| po_c := c |>)
  | receive_conn w ws want cc :
      po_waiters p ≡ₚ w :: ws → hc_wants (po_c p) !! w = Some want → waiting want = false →
      w_conn want = Some cc →
      pool_step p (p <| po_waiters := ws |> <| po_inUse := cc :: po_inUse p |>)
  | receive_error w ws want err c oc :
      po_waiters p ≡ₚ w :: ws → hc_wants (po_c p) !! w = Some want → waiting want = false →
      w_conn want = None → w_err want = Some err → HostClient.cancel (po_c p) w err = Some (oc, c) →
      pool_step p (p <| po_waiters := ws |> <| po_c := c |>)
  | timer_fires w ws c :
      po_waiters p ≡ₚ w :: ws → (hc_waitFreeConnTimeout (po_c p) > 0)%Z →
      HostClient.countTimeout (po_c p) = Some c →
      pool_step p (p <| po_waiters := ws |> <| po_timedOut := w :: po_timedOut p |> <| po_c := c |>)
  | cancel_waiter w ws c oc :
      po_timedOut p ≡ₚ w :: ws → HostClient.cancel (po_c p) w ErrNoFreeConns = Some (oc, c) →
      pool_step p (p <| po_timedOut := ws |> <| po_c := c |> <| po_held := option_list oc ++ po_held p |>)
  | release_held cc ccs now c :
      po_held p ≡ₚ cc :: ccs → HostClient.releaseConn (po_c p) cc now = Some c →
      pool_step p (p <| po_held := ccs |> <| po_c := c |>)
  | release cc ccs now c :
      po_inUse p ≡ₚ cc :: ccs → HostClient.releaseConn (po_c p) cc now = Some c →
      pool_step p (p <| po_inUse := ccs |> <| po_c := c |>)
  | close cc ccs c :
      po_inUse p ≡ₚ cc :: ccs → HostClient.closeConn (po_c p) cc = Some c →
      pool_step p (p <| po_inUse := ccs |> <| po_c := c |>)
  | take_idle n :
      pool_step p (p <| po_c := (po_c p) <| hc_conns := drop n (hc_conns (po_c p)) |> |>
                     <| po_closing := take n (hc_conns (po_c p)) ++ po_closing p |>)
  | close_idle cc ccs c :
      po_closing p ≡ₚ cc :: ccs → HostClient.closeConn (po_c p) cc = Some c →
      pool_step p (p <| po_closing := ccs |> <| po_c := c |>)
  | stop_cleaner :
      hc_connsCount (po_c p) = 0%Z →
      pool_step p (p <| po_c := (po_c p) <| hc_connsCleanerRun := false |> |>).

Definition pool_init (maxConns maxIdle wait : Z) (strategy : ConnPoolStrategyType) (addrs : list bytes) : Pool :=
  mkPool (mkHostClient [] 0 None false maxConns maxIdle wait strategy addrs 0 ∅ [] [] 0)
    [] 0 0 [] [] [] [].
