(* ===== verification/HostClientFacts.v ===== *)
(** Laws of the connection pool: the queue of waiters refines a first-in first-out list,
    and the accounting of connections holds whatever the callers, dialers, timeouts and
    cleaners do, in any order. *)

From Stdlib Require Import ZArith.
From stdpp Require Import prelude list gmap.
From S2P Require Import Prelude Body HostClient.

(** * The queue as a list *)

Section queue.
Import wantConnQueue.
Implicit Types (q : wantConnQueue) (l : list nat) (w : nat) (ws : gmap nat wantConn).

Definition queue_is q l : Prop :=
  ∃ hs, q_headPos q ≤ length (q_head q) ∧ drop (q_headPos q) (q_head q) = Some <$> hs ∧
        l = hs ++ q_tail q.

Lemma zero_is : queue_is zero [].
Proof. by exists []. Qed.

Lemma pushBack_is q l w : queue_is q l → queue_is (pushBack q w) (l ++ [w]).
Proof. intros (hs&Hp&Hd&->). exists hs. cbn. by rewrite app_assoc. Qed.

Lemma len_is q l : queue_is q l → len q = (Z.of_nat (length l) - q_failedWaiters q)%Z.
Proof.
  intros (hs&Hp&Hd&->). unfold len. apply (f_equal length) in Hd.
  rewrite length_drop, length_fmap in Hd. rewrite length_app. lia.
Qed.

Lemma pop_head_is q hs w l :
  q_headPos q ≤ length (q_head q) → drop (q_headPos q) (q_head q) = Some <$> w :: hs →
  l = hs ++ q_tail q →
  ∃ q', pop_head q = (Some w, q') ∧ queue_is q' l ∧ q_failedWaiters q' = q_failedWaiters q.
Proof.
  intros Hp Hd ->. unfold pop_head.
  assert (q_head q !! q_headPos q = Some (Some w)) as ->.
  { rewrite <- (Nat.add_0_r (q_headPos q)), <- lookup_drop, Hd. done. }
  eexists. split; [reflexivity|]. split; [|done]. exists hs. cbn.
  apply (f_equal length) in Hd as Hl. rewrite length_drop, length_fmap in Hl. cbn in Hl.
  rewrite length_insert. split; [lia|]. split; [|done].
  rewrite drop_insert_lt by lia. rewrite <- Nat.add_1_r, <- drop_drop, Hd. done.
Qed.

Lemma popFront_nil q : queue_is q [] → popFront q = (None, q).
Proof.
  intros (hs&Hp&Hd&E). symmetry in E. apply app_nil in E as [-> Ht]. unfold popFront.
  apply (f_equal length) in Hd. rewrite length_drop in Hd. cbn in Hd.
  destruct (Nat.leb_spec (length (q_head q)) (q_headPos q)); [|lia]. by rewrite Ht.
Qed.

Lemma popFront_cons q w l :
  queue_is q (w :: l) →
  ∃ q', popFront q = (Some w, q') ∧ queue_is q' l ∧ q_failedWaiters q' = q_failedWaiters q.
Proof.
  intros (hs&Hp&Hd&E). unfold popFront. apply (f_equal length) in Hd as Hl.
  rewrite length_drop, length_fmap in Hl.
  destruct hs as [|x hs]; cbn in Hl, E.
  - destruct (Nat.leb_spec (length (q_head q)) (q_headPos q)); [|lia]. rewrite <- E.
    rewrite bool_decide_false by done. set (q1 := q <| q_head := _ |> <| q_headPos := _ |> <| q_tail := _ |>).
    destruct (pop_head_is q1 l w l) as (q'&->&?&?); [cbn; lia|done|cbn; by rewrite app_nil_r|].
    by exists q'.
  - injection E as <- ->. destruct (Nat.leb_spec (length (q_head q)) (q_headPos q)); [lia|].
    by apply (pop_head_is q hs w).
Qed.

Lemma peekFront_is q l : queue_is q l → peekFront q = head l.
Proof.
  intros (hs&Hp&Hd&->). unfold peekFront. apply (f_equal length) in Hd as Hl.
  rewrite length_drop, length_fmap in Hl. destruct hs as [|x hs]; cbn in Hl.
  - destruct (Nat.ltb_spec (q_headPos q) (length (q_head q))); [lia|]. cbn. by destruct (q_tail q).
  - destruct (Nat.ltb_spec (q_headPos q) (length (q_head q))); [|lia].
    by rewrite <- (Nat.add_0_r (q_headPos q)), <- lookup_drop, Hd.
Qed.

Lemma addFailed_is q l n : queue_is q l → queue_is (addFailed q n) l.
Proof. done. Qed.

(** The waiters that do not wait any more. *)
Definition gone ws w : Prop := match ws !! w with Some want => waiting want = false | None => False end.
#[global] Instance gone_dec ws w : Decision (gone ws w).
Proof. unfold gone. destruct (ws !! w); apply _. Defined.

Definition stored ws l : Prop := Forall (λ w, is_Some (ws !! w)) l.

Lemma clearFront_is ws q l :
  queue_is q l → stored ws l →
  ∃ q' dead l' b, clearFront ws q = Some (b, q') ∧ l = dead ++ l' ∧ queue_is q' l' ∧
    Forall (gone ws) dead ∧ match l' with w :: _ => ¬ gone ws w | [] => True end ∧
    q_failedWaiters q' = (q_failedWaiters q - Z.of_nat (length dead))%Z.
Proof.
  unfold clearFront. intros Hq Hst.
  assert (length l < S (length (q_head q) + length (q_tail q))) as Hf.
  { destruct Hq as (hs&Hp&Hd&->). apply (f_equal length) in Hd. rewrite length_drop, length_fmap in Hd.
    rewrite length_app. lia. }
  revert Hf. generalize (S (length (q_head q) + length (q_tail q))) as fuel, false as b. intros fuel.
  revert q l Hq Hst. induction fuel as [|fuel IH]; intros q l Hq Hst b Hf; [lia|]. cbn [clearFront_loop].
  rewrite (peekFront_is q l Hq). destruct Hst as [|w l [want Hw] Hst].
  - exists q, [], [], b. split_and!; [done..|constructor|done|cbn; lia].
  - cbn [head]. rewrite Hw. cbn [mbind option_bind]. destruct (waiting want) eqn:Ew.
    + exists q, [], (w :: l), b. split_and!; [done..|constructor| |cbn; lia].
      unfold gone. by rewrite Hw, Ew.
    + destruct (popFront_cons q w l Hq) as (q1&->&Hq1&Hf1). cbn [snd].
      destruct (IH (addFailed q1 (-1)) l) with (b := true) as (q'&dead&l'&b'&->&->&?&?&?&Hf');
        [done|done|cbn in Hf; lia|].
      exists q', (w :: dead), l', b'. split_and!; [done..| |done|].
      * constructor; [|done]. unfold gone. by rewrite Hw.
      * rewrite Hf'. cbn. lia.
Qed.

(** A queue's bookkeeping is right when no more waiters are gone than are counted. *)
Definition counted ws q l : Prop :=
  (Z.of_nat (length (filter (gone ws) l)) ≤ q_failedWaiters q)%Z.

Lemma popWaiting_is ws q l :
  queue_is q l → stored ws l → counted ws q l →
  ∃ ow q' dead l', HostClient.popWaiting (HostClient.queue_fuel q) ws q = Some (ow, q') ∧
    queue_is q' l' ∧ Forall (gone ws) dead ∧
    q_failedWaiters q' = (q_failedWaiters q - Z.of_nat (length dead))%Z ∧
    match ow with
    | Some w => l = dead ++ w :: l' ∧ ¬ gone ws w
    | None => l = dead ++ l' ∧ (Z.of_nat (length l') ≤ q_failedWaiters q')%Z
    end.
Proof.
  intros Hq Hst Hc. assert (length l < HostClient.queue_fuel q) as Hf.
  { destruct Hq as (hs&Hp&Hd&->). apply (f_equal length) in Hd. rewrite length_drop, length_fmap in Hd.
    unfold HostClient.queue_fuel. rewrite length_app. lia. }
  revert Hf. generalize (HostClient.queue_fuel q) as fuel. intros fuel.
  revert q l Hq Hst Hc. induction fuel as [|fuel IH]; intros q l Hq Hst Hc Hf; [lia|].
  cbn [HostClient.popWaiting]. rewrite (len_is q l Hq).
  destruct (Z.gtb_spec (Z.of_nat (length l) - q_failedWaiters q) 0) as [Hl|Hl].
  - destruct Hst as [|w l [want Hw] Hst]; [unfold counted in Hc; cbn in *; lia|].
    destruct (popFront_cons q w l Hq) as (q1&->&Hq1&Hf1). cbn [mbind option_bind]. rewrite Hw.
    cbn [mbind option_bind]. destruct (waiting want) eqn:Ew.
    + exists (Some w), q1, [], l. split_and!; [done..|constructor|cbn; lia|done|].
      unfold gone. by rewrite Hw, Ew.
    + assert (gone ws w) as Hg by (unfold gone; by rewrite Hw).
      unfold counted in Hc. rewrite filter_cons_True in Hc by done. cbn [length] in Hc, Hf.
      destruct (IH (addFailed q1 (-1)) l) as (ow&q'&dead&l'&->&?&?&Hf'&Hl');
        [done|done|unfold counted; cbn; lia|lia|].
      exists ow, q', (w :: dead), l'. split_and!; [done..|by constructor| |].
      * rewrite Hf'. cbn. lia.
      * destruct ow; destruct Hl' as [-> ?]; by split.
  - exists None, q, [], l. split_and!; [done..|constructor|cbn; lia|done|lia].
Qed.
End queue.

(** * Waiters *)

Section wants.
Implicit Types (want : wantConn) (ws : gmap nat wantConn).

(** The channel is closed once there is a result, and only then. *)
Definition want_ok want : Prop := waiting want = true ↔ w_conn want = None ∧ w_err want = None.

Lemma tryDeliver_waiting want conn err :
  want_ok want → waiting want = true → conn ≠ None ∨ err ≠ None →
  tryDeliver want conn err = Some (true, mkWant err true conn).
Proof.
  intros [Hok _] Hw Hne. destruct (Hok Hw) as [Hc He]. unfold tryDeliver. rewrite Hc, He.
  rewrite !bool_decide_false by (by intros []). cbn [orb].
  unfold waiting in Hw. cbn. destruct (w_closed want); [done|].
  destruct conn, err; cbn; rewrite ?bool_decide_false by done; try done. naive_solver.
Qed.

Lemma tryDeliver_gone want conn err :
  want_ok want → waiting want = false → tryDeliver want conn err = Some (false, want).
Proof.
  intros [_ Hok] Hw. unfold tryDeliver. destruct (w_conn want) eqn:Hc; [done|].
  destruct (w_err want) eqn:He; [done|]. rewrite Hok in Hw by done. done.
Qed.

Lemma cancel_want_ok want err :
  want_ok want → cancel_want want err = Some (w_conn want, mkWant (Some err) true None).
Proof.
  intros Hok. unfold cancel_want. unfold want_ok, waiting in Hok.
  destruct (w_conn want) as [cc|] eqn:Hc, (w_err want) as [e|] eqn:He; cbn; rewrite ?Hc.
  all: destruct (w_closed want) eqn:Hcl; cbn in *; rewrite ?Hc, ?Hcl; try done.
  all: exfalso; naive_solver.
Qed.
End wants.

(** Everything waits in the queue or is dialed for at most once, is known to the store, and
    has no connection yet; whoever still waits is a caller. The waiters that are gone or
    whose timer fired are counted. *)
Record waiting_ok (c : HostClient) (procs timedOut : list nat) : Prop := {
  wo_wants : map_Forall (λ _, want_ok) (hc_wants c);
  wo_queue : ∃ l, queue_is (default wantConnQueue.zero (hc_connsWait c)) l ∧
    NoDup (l ++ hc_dialing c) ∧
    (∀ w, w ∈ l ++ hc_dialing c → ∃ want, hc_wants c !! w = Some want ∧ w_conn want = None ∧
       (waiting want = true → w ∈ procs)) ∧
    (Z.of_nat (length (filter (λ w, gone (hc_wants c) w ∨ w ∈ timedOut) l))
     ≤ q_failedWaiters (default wantConnQueue.zero (hc_connsWait c)))%Z
}.

(** The settings. *)
Definition same_config (c c' : HostClient) : Prop :=
  hc_maxConns c' = hc_maxConns c ∧ hc_waitFreeConnTimeout c' = hc_waitFreeConnTimeout c ∧
  (hc_connsWait c ≠ None → hc_connsWait c' ≠ None).

Lemma length_filter_impl {A} (P Q : A → Prop) `{∀ x, Decision (P x), ∀ x, Decision (Q x)} (l : list A) :
  (∀ x, x ∈ l → P x → Q x) → length (filter P l) ≤ length (filter Q l).
Proof.
  induction l as [|x l IH]; intros HPQ; [done|]. rewrite !filter_cons.
  specialize (IH ltac:(intros; apply HPQ; [by right|done])).
  destruct (decide (P x)), (decide (Q x)); cbn; [lia|exfalso; naive_solver set_solver|lia|lia].
Qed.

Lemma length_filter_all {A} (P : A → Prop) `{∀ x, Decision (P x)} (l : list A) :
  Forall P l → length (filter P l) = length l.
Proof. induction 1; [done|]. rewrite filter_cons_True by done. cbn. congruence. Qed.

Section pool_ops.
Import wantConnQueue.
Implicit Types (c : HostClient) (procs timedOut : list nat).

(** Taking the first live waiter off the queue. *)
Lemma popWaiting_ok c q procs timedOut :
  waiting_ok c procs timedOut → hc_connsWait c = Some q →
  ∃ ow q', HostClient.popWaiting (HostClient.queue_fuel q) (hc_wants c) q = Some (ow, q') ∧
    match ow with
    | Some w => (∃ want, hc_wants c !! w = Some want ∧ waiting want = true ∧ w_conn want = None) ∧
        w ∈ procs ∧ ∀ c', hc_wants c' = hc_wants c → hc_connsWait c' = Some q' →
        hc_dialing c' ≡ₚ w :: hc_dialing c → waiting_ok c' procs timedOut
    | None => ∀ c', hc_wants c' = hc_wants c → hc_connsWait c' = Some q' →
        hc_dialing c' = hc_dialing c → waiting_ok c' procs timedOut
    end.
Proof.
  intros [Hws (l&Hq&Hnd&Hl&Hf)] Hqs. rewrite Hqs in Hq, Hf. cbn [default from_option id] in Hq, Hf.
  assert (stored (hc_wants c) l) as Hst.
  { apply Forall_forall. intros w Hw. destruct (Hl w) as (want&->&_); [set_solver|done]. }
  destruct (popWaiting_is (hc_wants c) q l Hq Hst) as (ow&q'&dead&l'&->&Hq'&Hdead&Hf'&Hl').
  { unfold counted. etrans; [|exact Hf]. apply inj_le, length_filter_impl. tauto. }
  exists ow, q'. split; [done|].
  assert (∀ k, filter (λ w, gone (hc_wants c) w ∨ w ∈ timedOut) (dead ++ k)
    = dead ++ filter (λ w, gone (hc_wants c) w ∨ w ∈ timedOut) k) as Hfd.
  { clear -Hdead. intros k. induction Hdead as [|x dead Hx Hdead IH]; [done|].
    cbn [app]. rewrite filter_cons_True by (by left). by rewrite IH. }
  destruct ow as [w|]; destruct Hl' as [-> Hl'].
  - destruct (Hl w) as (want&Hw&Hc&Hp); [set_solver|].
    assert (waiting want = true) as Hwait.
    { unfold gone in Hl'. rewrite Hw in Hl'. by destruct (waiting want). }
    split; [by eauto|]. split; [by apply Hp|]. intros c' Ews Eq Ed. split; [by rewrite Ews|].
    exists l'. rewrite Eq, Ews. cbn [default from_option id]. split_and!; [done| | |].
    + rewrite Ed. rewrite <- app_assoc in Hnd. apply NoDup_app in Hnd as (_&_&Hnd).
      by rewrite <- Permutation_middle.
    + intros w' Hw'. rewrite Ed in Hw'. apply Hl. set_solver.
    + rewrite Hfd, length_app in Hf. rewrite Hf'.
      assert (length (filter (λ w, gone (hc_wants c) w ∨ w ∈ timedOut) l') ≤
        length (filter (λ w, gone (hc_wants c) w ∨ w ∈ timedOut) (w :: l'))).
      { rewrite filter_cons. case_decide; cbn; lia. }
      lia.
  - intros c' Ews Eq Ed. split; [by rewrite Ews|].
    exists l'. rewrite Eq, Ews, Ed. cbn [default from_option id]. split_and!; [done| | |].
    + rewrite <- app_assoc in Hnd. by apply NoDup_app in Hnd as (_&_&Hnd).
    + intros w' Hw'. apply Hl. set_solver.
    + rewrite Hfd, length_app in Hf. rewrite Hf'. lia.
Qed.
(** Delivering is popping the first live waiter and closing its channel. *)
Lemma deliver_loop_eq fuel ws q cc :
  map_Forall (λ _, want_ok) ws →
  HostClient.deliver_loop fuel ws q cc =
  ('(ow, q) ← HostClient.popWaiting fuel ws q;
   Some (match ow with
         | Some w => (true, <[w := mkWant None true (Some cc)]> ws, q)
         | None => (false, ws, q)
         end)).
Proof.
  intros Hws. revert q. induction fuel as [|fuel IH]; intros q; [done|].
  cbn [HostClient.deliver_loop HostClient.popWaiting].
  destruct (len q >? 0)%Z; [|done]. destruct (popFront q) as [[w|] q1]; [|done]. cbn [mbind option_bind].
  destruct (ws !! w) as [want|] eqn:Hw; [|done]. cbn [mbind option_bind].
  pose proof (Hws w want Hw) as Hok. cbn in Hok. destruct (waiting want) eqn:Ew.
  - rewrite tryDeliver_waiting by (done || by left). done.
  - cbn [mbind option_bind]. rewrite insert_id by done. apply IH.
Qed.

Lemma decConnsCount_ok c procs timedOut :
  waiting_ok c procs timedOut →
  ∃ c', HostClient.decConnsCount c = Some c' ∧ waiting_ok c' procs timedOut ∧ same_config c c' ∧
    hc_conns c' = hc_conns c ∧ hc_wants c' = hc_wants c ∧ hc_closed c' = hc_closed c ∧
    (hc_connsCount c' - Z.of_nat (length (hc_dialing c'))
     = hc_connsCount c - Z.of_nat (length (hc_dialing c)) - 1 ∧ hc_connsCount c' ≤ hc_connsCount c)%Z.
Proof.
  intros Hok. unfold HostClient.decConnsCount.
  assert (waiting_ok (c <| hc_connsCount := (hc_connsCount c - 1)%Z |>) procs timedOut) as Hdec
    by (destruct Hok; by split).
  destruct (Z.eqb_spec (hc_waitFreeConnTimeout c) 0).
  { eexists. split; [reflexivity|]. split; [done|]. split_and!; try done; cbn; lia. }
  destruct (hc_connsWait c) as [q|] eqn:Hq.
  - destruct (popWaiting_ok c q procs timedOut Hok Hq) as ([w|]&q'&->&Hr); cbn [mbind option_bind].
    + destruct Hr as (_&_&Hr). eexists. split; [reflexivity|]. split; [apply Hr; [done..|]|].
      * cbn. by rewrite (Permutation_app_comm _ [w]).
      * split_and!; try done; cbn; rewrite ?length_app; cbn; lia.
    + eexists. split; [reflexivity|]. split; [by apply Hr|]. split_and!; try done; cbn; lia.
  - eexists. split; [reflexivity|]. split; [done|]. split_and!; try done; cbn; try lia; by rewrite ?Hq.
Qed.

(** The result of a waiter that is neither queued nor dialed for is its own. *)
Lemma waiting_ok_insert c procs procs' timedOut timedOut' w want c' :
  waiting_ok c procs timedOut → want_ok want →
  hc_wants c' = <[w := want]> (hc_wants c) → hc_connsWait c' = hc_connsWait c →
  hc_dialing c' = hc_dialing c →
  (∀ l, queue_is (default zero (hc_connsWait c)) l → w ∉ l ++ hc_dialing c) →
  (∀ x, x ∈ procs → x ≠ w → x ∈ procs') → (∀ x, x ∈ timedOut' → x ∈ timedOut ∨ x = w) →
  waiting_ok c' procs' timedOut'.
Proof.
  intros [Hws (l&Hq&Hnd&Hl&Hf)] Hok Ews Eq Ed Hw Hp Ht. specialize (Hw l Hq). split.
  { rewrite Ews. apply map_Forall_insert_2; done. }
  exists l. rewrite Eq, Ed, Ews. split_and!; [done..| |].
  - intros x Hx. destruct (Hl x Hx) as (wx&E&Hc&Hwx). assert (x ≠ w) as Hne by (by intros ->).
    exists wx. rewrite lookup_insert_ne by done. split_and!; [done..|]. intros Hwait. by apply Hp; [apply Hwx|].
  - etrans; [|exact Hf]. apply inj_le, length_filter_impl. intros x Hx.
    assert (x ≠ w) as Hne by (intros ->; set_solver).
    unfold gone. rewrite lookup_insert_ne by done. intros [?|?%Ht]; [by left|]. naive_solver.
Qed.

Definition used (cc : clientConn) (now : Z) : clientConn := mkConn (cc_c cc) (cc_createdTime cc) now.

Lemma releaseConn_ok c cc now procs timedOut :
  waiting_ok c procs timedOut →
  ∃ c', HostClient.releaseConn c cc now = Some c' ∧ waiting_ok c' procs timedOut ∧ same_config c c' ∧
    hc_connsCount c' = hc_connsCount c ∧ hc_closed c' = hc_closed c ∧ hc_dialing c' = hc_dialing c ∧
    (hc_conns c' = hc_conns c ++ [used cc now] ∧ hc_wants c' = hc_wants c ∨
     hc_conns c' = hc_conns c ∧ ∃ w want, w ∈ procs ∧ hc_wants c !! w = Some want ∧ w_conn want = None ∧
       hc_wants c' = <[w := mkWant None true (Some (used cc now))]> (hc_wants c)).
Proof.
  intros Hok. unfold HostClient.releaseConn. fold (used cc now).
  assert (waiting_ok (c <| hc_conns := hc_conns c ++ [used cc now] |>) procs timedOut) as Hidle
    by (destruct Hok; by split).
  destruct (Z.eqb_spec (hc_waitFreeConnTimeout c) 0).
  { eexists. split; [reflexivity|]. split; [done|]. split_and!; try done. by left. }
  destruct (hc_connsWait c) as [q|] eqn:Hq.
  2: { eexists. split; [reflexivity|]. split; [done|]. split_and!; try done; by left. }
  rewrite deliver_loop_eq by apply Hok.
  destruct (popWaiting_ok c q procs timedOut Hok Hq) as ([w|]&q'&->&Hr); cbn [mbind option_bind].
  - destruct Hr as ((want&Hw&Hwait&Hc)&Hp&Hr). eexists. split; [reflexivity|].
    split; [|split_and!; try done; right; split; [done|]; by exists w, want].
    set (c1 := c <| hc_connsWait := Some q' |> <| hc_dialing := w :: hc_dialing c |>).
    assert (waiting_ok c1 procs timedOut) as Hc1 by (by apply Hr).
    set (c2 := c1 <| hc_dialing := hc_dialing c |>).
    assert (waiting_ok c2 procs timedOut) as Hc2.
    { destruct Hc1 as [H1 (l&H2&H3&H4&H5)]. split; [done|]. exists l. split_and!; [done| | |done].
      - cbn in H3. rewrite <- Permutation_middle in H3. by apply NoDup_cons in H3 as [_ H3].
      - intros x Hx. apply H4. cbn in *. set_solver. }
    eapply (waiting_ok_insert c2 procs procs timedOut timedOut w); [done| |done|done|done| |done|by left].
    + split; cbn; [done|]. by intros [? _].
    + intros l Hl. destruct Hc1 as [_ (l'&H2&H3&_)]. cbn in Hl, H2, H3.
      assert (l' = l) as ->. { destruct Hl as (h1&_&E1&->), H2 as (h2&_&E2&->). rewrite E1 in E2.
        by apply (inj (fmap Some)) in E2 as ->. }
      rewrite <- Permutation_middle in H3. by apply NoDup_cons in H3 as [H3 _].
  - eexists. split; [reflexivity|]. split; [by apply Hr|]. split_and!; try done. by left.
Qed.
End pool_ops.

(** * Permutations by counting *)

Section counting.
Implicit Types (x : nat) (l k : list nat).

Definition cnt x l : nat := count_occ Nat.eq_dec l x.
Definition one x (y : nat) : nat := if decide (y = x) then 1 else 0.

Lemma cnt_nil x : cnt x [] = 0.
Proof. done. Qed.

Lemma cnt_cons x y l : cnt x (y :: l) = one x y + cnt x l.
Proof. unfold cnt, one. cbn. destruct (Nat.eq_dec y x); by case_decide. Qed.

Lemma cnt_app x l k : cnt x (l ++ k) = cnt x l + cnt x k.
Proof. apply count_occ_app. Qed.

Lemma perm_cnt x l k : l ≡ₚ k → cnt x l = cnt x k.
Proof. intros H. by apply (proj1 (Permutation_count_occ Nat.eq_dec l k)). Qed.

Lemma cnt_perm l k : (∀ x, cnt x l = cnt x k) → l ≡ₚ k.
Proof. apply (Permutation_count_occ Nat.eq_dec). Qed.
End counting.

Lemma fmap_perm {A B} (f : A → B) (l k : list A) : l ≡ₚ k → f <$> l ≡ₚ f <$> k.
Proof. by intros ->. Qed.

Lemma option_list_Some {A} (x : A) : option_list (Some x) = [x].
Proof. done. Qed.
Lemma option_list_None {A} : option_list (@None A) = [].
Proof. done. Qed.

Create Rewrite HintDb counting.
#[export] Hint Rewrite @fmap_app @fmap_cons @fmap_nil cnt_app cnt_cons cnt_nil @option_list_Some @option_list_None : counting.

(** Solves permutations of appended lists of connections from permutations among the
    hypotheses. *)
Ltac perm_solver :=
  apply cnt_perm; let x := fresh "x" in intros x;
  repeat match goal with
         | H : @Permutation clientConn _ _ |- _ => apply (fmap_perm cc_c), (perm_cnt x) in H
         | H : @Permutation nat _ _ |- _ => apply (perm_cnt x) in H
         end;
  autorewrite with counting in *; cbn [cc_c used] in *; lia.

(** * The accounting of connections *)

Section delivery.
Implicit Types (ws : gmap nat wantConn) (procs : list nat).

Definition delivered_of ws procs : list clientConn := omap (λ w, ws !! w ≫= w_conn) procs.

Lemma delivered_of_perm ws procs procs' : procs ≡ₚ procs' → delivered_of ws procs ≡ₚ delivered_of ws procs'.
Proof. intros H. unfold delivered_of. by rewrite H. Qed.

Lemma delivered_of_cons ws w procs :
  delivered_of ws (w :: procs) = option_list (ws !! w ≫= w_conn) ++ delivered_of ws procs.
Proof. unfold delivered_of. cbn. by destruct (ws !! w ≫= w_conn). Qed.

Lemma delivered_of_notin ws w want procs : w ∉ procs → delivered_of (<[w := want]> ws) procs = delivered_of ws procs.
Proof.
  intros Hw. unfold delivered_of. induction procs as [|x procs IH]; [done|]. cbn.
  rewrite lookup_insert_ne by (intros ->; set_solver). rewrite IH by set_solver. done.
Qed.

(** Giving a caller its connection, or taking it back. *)
Lemma delivered_of_insert ws w want procs :
  NoDup procs → w ∈ procs →
  delivered_of (<[w := want]> ws) procs ++ option_list (ws !! w ≫= w_conn)
  ≡ₚ option_list (w_conn want) ++ delivered_of ws procs.
Proof.
  intros Hnd (l1&l2&->)%list_elem_of_split. apply NoDup_app in Hnd as (_&H1&[H2 _]%NoDup_cons).
  unfold delivered_of. rewrite !omap_app. fold (delivered_of ws l1).
  fold (delivered_of ws (w :: l2)) (delivered_of (<[w:=want]> ws) l1) (delivered_of (<[w:=want]> ws) (w :: l2)).
  rewrite !delivered_of_cons, !delivered_of_notin by set_solver. rewrite lookup_insert_eq. cbn [mbind option_bind].
  set (a := option_list (w_conn want)). set (b := option_list (ws !! w ≫= w_conn)).
  rewrite (Permutation_app_comm b (delivered_of ws l2)). rewrite !app_assoc. f_equiv. f_equiv.
  apply Permutation_app_comm.
Qed.
End delivery.

Section pool.
Import wantConnQueue.
Implicit Types (p : Pool) (c : HostClient).

Definition procs p : list nat := po_waiters p ++ po_timedOut p.

(** Every connection there was: the closed ones, and those in the pool and with callers. *)
Definition conn_ids p : list nat := hc_closed (po_c p) ++ (cc_c <$> all_conns p).

Record pool_ok p : Prop := {
  ok_count : hc_connsCount (po_c p)
    = Z.of_nat (length (all_conns p) + po_dials p + length (hc_dialing (po_c p)));
  ok_unique : NoDup (conn_ids p);
  ok_procs : NoDup (procs p);
  ok_known : Forall (λ w, is_Some (hc_wants (po_c p) !! w)) (procs p);
  ok_waiting : waiting_ok (po_c p) (procs p) (po_timedOut p);
  ok_queue : procs p ≠ [] → hc_connsWait (po_c p) ≠ None;
  ok_max : (hc_maxConns (po_c p) < 0 ∨ hc_connsCount (po_c p) ≤ hc_maxConns (po_c p))%Z
}.

Definition balance p : Z :=
  (hc_connsCount (po_c p) - Z.of_nat (po_dials p) - Z.of_nat (length (hc_dialing (po_c p)))
   + Z.of_nat (length (hc_closed (po_c p))))%Z.

Lemma length_conn_ids p : length (conn_ids p) = length (hc_closed (po_c p)) + length (all_conns p).
Proof. unfold conn_ids. by rewrite length_app, length_fmap. Qed.

(** A step that brings in new connections, or none, and keeps the balance. *)
Lemma pool_ok_step p p' (new : option nat) :
  pool_ok p → waiting_ok (po_c p') (procs p') (po_timedOut p') → NoDup (procs p') →
  Forall (λ w, is_Some (hc_wants (po_c p') !! w)) (procs p') →
  (procs p' ≠ [] → hc_connsWait (po_c p') ≠ None) →
  conn_ids p' ≡ₚ option_list new ++ conn_ids p → (∀ x, new = Some x → x ∉ conn_ids p) →
  (balance p' = balance p + Z.of_nat (length (option_list new)))%Z →
  hc_maxConns (po_c p') = hc_maxConns (po_c p) →
  (hc_maxConns (po_c p) < 0 ∨ hc_connsCount (po_c p') ≤ Z.max (hc_connsCount (po_c p)) (hc_maxConns (po_c p)))%Z →
  pool_ok p'.
Proof.
  intros [Hc Hu Hp Hk Hw Hq Hm] Hw' Hp' Hk' Hq' Hids Hnew Hbal Hmax Hle.
  split; try done; [| |rewrite Hmax; lia].
  - pose proof (Permutation_length Hids) as Hlen. rewrite length_app, !length_conn_ids in Hlen.
    unfold balance in Hbal. lia.
  - rewrite Hids. apply NoDup_app. split_and!; [|intros x Hx|done].
    + destruct new; cbn; [apply NoDup_singleton|constructor].
    + destruct new as [y|]; cbn in Hx; [|by apply not_elem_of_nil in Hx].
      apply list_elem_of_singleton in Hx as ->. by apply Hnew.
Qed.

Lemma waiting_ok_same c c' ps timedOut :
  waiting_ok c ps timedOut → hc_wants c' = hc_wants c → hc_connsWait c' = hc_connsWait c →
  hc_dialing c' = hc_dialing c → waiting_ok c' ps timedOut.
Proof. intros [? ?] E1 E2 E3. split; by rewrite ?E1, ?E2, ?E3. Qed.

Lemma waiting_ok_procs c ps ps' timedOut :
  waiting_ok c ps timedOut →
  (∀ w want, hc_wants c !! w = Some want → waiting want = true → w ∈ ps → w ∈ ps') →
  waiting_ok c ps' timedOut.
Proof.
  intros [? (l&?&?&Hl&?)] Hp. split; [done|]. exists l. split_and!; [done..| |done].
  intros w Hw. destruct (Hl w Hw) as (want&E&?&?). exists want. split_and!; [done..|]. by eauto.
Qed.

(** A caller whose timer fired is counted. *)
Lemma waiting_ok_timeout c ps timedOut w q c' :
  waiting_ok c ps timedOut → hc_connsWait c = Some q → hc_wants c' = hc_wants c →
  hc_connsWait c' = Some (addFailed q 1) → hc_dialing c' = hc_dialing c →
  waiting_ok c' ps (w :: timedOut).
Proof.
  intros [Hws (l&Hq&Hnd&Hl&Hf)] Eq E1 E2 E3. rewrite Eq in *. cbn [default from_option id] in *.
  split; [by rewrite E1|]. exists l. rewrite E2, E1, E3. cbn [default from_option id].
  split_and!; [done..|]. cbn. apply NoDup_app in Hnd as (Hnd&_&_).
  set (P x := gone (hc_wants c) x ∨ x ∈ timedOut). set (Q x := gone (hc_wants c) x ∨ x ∈ w :: timedOut).
  assert (length (filter Q l) ≤ S (length (filter P l))) as Hle; [|unfold P, Q in *; lia].
  clear -Hnd. induction Hnd as [|x l Hx Hnd IH]; [cbn; lia|]. rewrite !filter_cons.
  destruct (decide (Q x)) as [HQ|HQ], (decide (P x)) as [HP|HP]; cbn; try lia.
  assert (x = w) as -> by (unfold P, Q in *; set_solver).
  assert (length (filter Q l) ≤ length (filter P l)); [|lia].
  apply length_filter_impl. unfold P, Q. set_solver.
Qed.

(** Cancelling a waiter that was counted. *)
Lemma waiting_ok_cancel c ps ps' timedOut timedOut' w err c' :
  waiting_ok c ps timedOut → hc_wants c' = <[w := mkWant (Some err) true None]> (hc_wants c) →
  hc_connsWait c' = hc_connsWait c → hc_dialing c' = hc_dialing c → gone (hc_wants c) w ∨ w ∈ timedOut →
  (∀ x, x ∈ ps → x ≠ w → x ∈ ps') → (∀ x, x ∈ timedOut' → x ∈ timedOut) →
  waiting_ok c' ps' timedOut'.
Proof.
  intros [Hws (l&Hq&Hnd&Hl&Hf)] E1 E2 E3 Hw Hp Ht. split.
  { rewrite E1. apply map_Forall_insert_2; [|done]. split; cbn; [done|]. by intros []. }
  exists l. rewrite E1, E2, E3. split_and!; [done..| |].
  - intros x Hx. destruct (decide (x = w)) as [->|Hne].
    + rewrite lookup_insert_eq. by eexists.
    + rewrite lookup_insert_ne by done. destruct (Hl x Hx) as (want&?&?&?). exists want. naive_solver.
  - etrans; [|exact Hf]. apply inj_le, length_filter_impl. intros x Hx.
    destruct (decide (x = w)) as [->|Hne]; [done|]. unfold gone. rewrite lookup_insert_ne by done.
    intros [?|?%Ht]; [by left|by right].
Qed.

(** Queueing a new waiter. *)
Lemma queueForIdle_ok c ps timedOut w :
  waiting_ok c ps timedOut → hc_wants c !! w = None → w ∉ timedOut →
  ∃ c', HostClient.queueForIdle c w = Some c' ∧ waiting_ok c' (w :: ps) timedOut ∧
    hc_wants c' = <[w := newWantConn]> (hc_wants c) ∧ hc_connsWait c' ≠ None ∧ hc_conns c' = hc_conns c ∧
    hc_connsCount c' = hc_connsCount c ∧ hc_dialing c' = hc_dialing c ∧ hc_closed c' = hc_closed c ∧
    hc_maxConns c' = hc_maxConns c.
Proof.
  intros [Hws (l&Hq&Hnd&Hl&Hf)] Hw Ht. unfold HostClient.queueForIdle.
  set (c1 := c <| hc_wants := _ |>). change (hc_wants c1) with (<[w := newWantConn]> (hc_wants c)).
  change (hc_connsWait c1) with (hc_connsWait c).
  assert (w ∉ l ++ hc_dialing c) as Hwl. { intros Hin. destruct (Hl w Hin) as (?&?&_). congruence. }
  assert (∀ x, x ∈ l ++ hc_dialing c → (<[w := newWantConn]> (hc_wants c)) !! x = hc_wants c !! x) as Hsame.
  { intros x Hx. apply lookup_insert_ne. by intros ->. }
  assert (stored (<[w := newWantConn]> (hc_wants c)) l) as Hst.
  { apply Forall_forall. intros x Hx. rewrite Hsame by set_solver.
    destruct (Hl x) as (?&->&_); [set_solver|done]. }
  destruct (clearFront_is _ _ l Hq Hst) as (q'&dead&l'&b&->&->&Hq'&Hdead&_&Hf'). cbn [mbind option_bind].
  eexists. split; [reflexivity|]. split; [|done]. split.
  { apply map_Forall_insert_2; [|done]. split; [done|]. by intros []. }
  exists (l' ++ [w]). cbn -[pushBack]. split_and!; [by apply pushBack_is| | |].
  - assert ((l' ++ [w]) ++ hc_dialing c ≡ₚ w :: (l' ++ hc_dialing c)) as -> by perm_solver.
    rewrite <- app_assoc in Hnd. apply NoDup_app in Hnd as (_&_&Hnd).
    apply NoDup_cons. split; [set_solver|done].
  - intros x Hx. destruct (decide (x = w)) as [->|Hne].
    + rewrite lookup_insert_eq. eexists. split_and!; [done|done|by left].
    + rewrite lookup_insert_ne by done. destruct (Hl x) as (want&?&?&?); [set_solver|].
      exists want. split_and!; [done..|]. intros. right. by auto.
  - cbn. rewrite Hf', filter_app, length_app.
    assert (length (filter (λ x, gone (<[w := newWantConn]> (hc_wants c)) x ∨ x ∈ timedOut) [w]) = 0) as ->.
    { rewrite filter_cons_False; [done|]. unfold gone. rewrite lookup_insert_eq. by intros [?|?]. }
    rewrite filter_app, length_app in Hf.
    assert (length dead ≤ length (filter (λ x, gone (hc_wants c) x ∨ x ∈ timedOut) dead)) as H1.
    { etrans; [|apply (length_filter_impl (λ x, gone (<[w := newWantConn]> (hc_wants c)) x))].
      - by rewrite (length_filter_all _ dead).
      - intros x Hx. unfold gone. rewrite Hsame by set_solver. tauto. }
    assert (length (filter (λ x, gone (<[w := newWantConn]> (hc_wants c)) x ∨ x ∈ timedOut) l')
      ≤ length (filter (λ x, gone (hc_wants c) x ∨ x ∈ timedOut) l')) as H2.
    { apply length_filter_impl. intros x Hx. unfold gone. rewrite Hsame by set_solver. tauto. }
    lia.
Qed.

Lemma conn_ids_eq p :
  conn_ids p = hc_closed (po_c p) ++ (cc_c <$> hc_conns (po_c p)) ++ (cc_c <$> po_inUse p) ++
    (cc_c <$> po_held p) ++ (cc_c <$> po_closing p) ++ (cc_c <$> delivered_of (hc_wants (po_c p)) (procs p)).
Proof. unfold conn_ids, all_conns. by rewrite !fmap_app. Qed.

Lemma takeConn_perm c cc conns : HostClient.takeConn c = Some (cc, conns) → hc_conns c ≡ₚ cc :: conns.
Proof.
  unfold HostClient.takeConn. destruct (hc_connPoolStrategy c).
  - destruct (last (hc_conns c)) as [x|] eqn:E; [|done]. intros [= <- <-].
    apply last_Some in E as [l ->]. rewrite length_app, take_app_le by (cbn; lia).
    rewrite take_ge by (cbn; lia). apply Permutation_app_comm.
  - destruct (hc_conns c); [done|]. intros [= <- <-]. by rewrite drop_0.
Qed.

Lemma acquireConn_frame c b res c' :
  HostClient.acquireConn c b = (res, c') →
  hc_wants c' = hc_wants c ∧ hc_connsWait c' = hc_connsWait c ∧ hc_dialing c' = hc_dialing c ∧
  hc_closed c' = hc_closed c ∧ hc_maxConns c' = hc_maxConns c ∧
  match res with
  | HostClient.gotConn cc => hc_conns c ≡ₚ cc :: hc_conns c' ∧ hc_connsCount c' = hc_connsCount c
  | HostClient.createConn => hc_conns c' = hc_conns c ∧ hc_connsCount c' = (hc_connsCount c + 1)%Z ∧
      (hc_maxConns c < 0 ∨ hc_connsCount c < hc_maxConns c)%Z
  | HostClient.noConn => c' = c
  end.
Proof.
  unfold HostClient.acquireConn. destruct (HostClient.takeConn c) as [[cc conns]|] eqn:E.
  - intros [= <- <-]. apply takeConn_perm in E. by split_and!.
  - destruct (Z.ltb_spec (hc_connsCount c) (hc_maxConns c)), (Z.ltb_spec (hc_maxConns c) 0); cbn [orb].
    4: by intros [= <- <-].
    all: intros [= <- <-]; case_match; split_and!; try done; lia.
Qed.

Ltac keep Hok := destruct Hok; first [assumption|by split].

(** Steps that leave the waiters and their callers alone. *)
Lemma pool_ok_same p p' (new : option nat) :
  pool_ok p → hc_wants (po_c p') = hc_wants (po_c p) → hc_connsWait (po_c p') = hc_connsWait (po_c p) →
  hc_dialing (po_c p') = hc_dialing (po_c p) → po_waiters p' = po_waiters p → po_timedOut p' = po_timedOut p →
  hc_closed (po_c p') = hc_closed (po_c p) →
  cc_c <$> hc_conns (po_c p') ++ po_inUse p' ++ po_held p' ++ po_closing p'
  ≡ₚ option_list new ++ (cc_c <$> hc_conns (po_c p) ++ po_inUse p ++ po_held p ++ po_closing p) →
  (∀ x, new = Some x → x ∉ conn_ids p) →
  (hc_connsCount (po_c p') - Z.of_nat (po_dials p')
   = hc_connsCount (po_c p) - Z.of_nat (po_dials p) + Z.of_nat (length (option_list new)))%Z →
  hc_maxConns (po_c p') = hc_maxConns (po_c p) →
  (hc_maxConns (po_c p) < 0 ∨ hc_connsCount (po_c p') ≤ Z.max (hc_connsCount (po_c p)) (hc_maxConns (po_c p)))%Z →
  pool_ok p'.
Proof.
  intros Hok E1 E2 E3 E4 E5 E6 Hperm Hnew Hbal.
  assert (procs p' = procs p) as Ep by (unfold procs; by rewrite E4, E5).
  apply (pool_ok_step p p' new); try done; rewrite ?Ep, ?E5; try apply Hok.
  - by apply (waiting_ok_same (po_c p)), E3; [apply Hok|..].
  - rewrite E1. apply Hok.
  - rewrite E2. apply Hok.
  - rewrite !conn_ids_eq, Ep, E1, E6. clear -Hperm. perm_solver.
  - unfold balance. rewrite E3, E6. lia.
Qed.

(** What the operations that can wake a waiter do to the connections. *)
Lemma release_ok p ccs cc now c p' :
  pool_ok p → HostClient.releaseConn (po_c p) cc now = Some c →
  po_c p' = c → po_waiters p' = po_waiters p → po_timedOut p' = po_timedOut p → po_dials p' = po_dials p →
  po_closing p' = po_closing p →
  (po_inUse p ≡ₚ cc :: ccs ∧ po_inUse p' = ccs ∧ po_held p' = po_held p ∨
   po_held p ≡ₚ cc :: ccs ∧ po_held p' = ccs ∧ po_inUse p' = po_inUse p) →
  pool_ok p'.
Proof.
  intros Hok Hr Ec E1 E2 E3 E4 Hfrom.
  destruct (releaseConn_ok (po_c p) cc now (procs p) (po_timedOut p)) as
    (c'&Hr'&Hw&(Hmax&_&Hsome)&Hcnt&Hcl&Hd&Hres); [apply Hok|].
  simplify_eq. assert (procs p' = procs p) as Ep by (unfold procs; by rewrite E1, E2).
  apply (pool_ok_step p p' None); rewrite ?Ep, ?E2; try done; try apply Hok.
  - eapply Forall_impl; [apply Hok|]. intros w [want Hwant].
    destruct Hres as [[_ ->]|(_&w'&wt&_&_&_&->)]; [by eexists|].
    destruct (decide (w' = w)) as [->|]; [by rewrite lookup_insert_eq|]. by rewrite lookup_insert_ne.
  - intros Hne. apply Hsome. by apply Hok.
  - cbn [option_list app]. rewrite !conn_ids_eq, Ep, Hcl, E4.
    destruct Hres as [[Hc Hws]|(Hc&w&want&Hin&Hlook&Hnone&Hws)]; rewrite Hc, Hws.
    + destruct Hfrom as [(H1&H2&H3)|(H1&H2&H3)]; rewrite H2, H3; clear -H1; perm_solver.
    + pose proof (delivered_of_insert (hc_wants (po_c p)) w (mkWant None true (Some (used cc now)))
        (procs p) (ok_procs _ Hok) Hin) as Hdel.
      rewrite Hlook in Hdel. cbn [mbind option_bind] in Hdel. rewrite Hnone in Hdel. cbn [w_conn option_list] in Hdel.
      destruct Hfrom as [(H1&H2&H3)|(H1&H2&H3)]; rewrite H2, H3; clear -H1 Hdel; perm_solver.
  - unfold balance. rewrite E3, Hcnt, Hd, Hcl. cbn. lia.
  - rewrite Hcnt. lia.
Qed.

Lemma dec_ok p c p' (out : option clientConn) :
  pool_ok p → HostClient.decConnsCount (po_c p) = Some c →
  po_waiters p' = po_waiters p → po_timedOut p' = po_timedOut p →
  po_c p' = c <| hc_closed := hc_closed c ++ option_list (cc_c <$> out) |> →
  (cc_c <$> po_inUse p) ++ (cc_c <$> po_held p) ++ (cc_c <$> po_closing p)
  ≡ₚ option_list (cc_c <$> out) ++ (cc_c <$> po_inUse p') ++ (cc_c <$> po_held p') ++ (cc_c <$> po_closing p') →
  po_dials p = po_dials p' + 1 - length (option_list out) → length (option_list out) ≤ po_dials p' + 1 →
  pool_ok p'.
Proof.
  intros Hok Hd E1 E2 Ec Hperm Hdials Hlt.
  destruct (decConnsCount_ok (po_c p) (procs p) (po_timedOut p)) as
    (c'&Hd'&Hw&(Hmax&_&Hsome)&Hconns&Hws&Hcl&Hbal&Hle); [apply Hok|].
  simplify_eq. assert (procs p' = procs p) as Ep by (unfold procs; by rewrite E1, E2).
  apply (pool_ok_step p p' None); rewrite ?Ep, ?E2, ?Ec; cbn -[conn_ids balance]; try done; try apply Hok.
  - by apply (waiting_ok_same c).
  - rewrite Hws. apply Hok.
  - intros Hne. apply Hsome. by apply Hok.
  - rewrite !conn_ids_eq, Ep, Ec. cbn. rewrite Hconns, Hws, Hcl. clear -Hperm. perm_solver.
  - unfold balance. rewrite Ec. cbn. rewrite Hcl, length_app.
    destruct out; cbn in *; lia.
  - lia.
Qed.

Lemma receive_ok p w ws want p' cc oc err c :
  pool_ok p → po_waiters p ≡ₚ w :: ws → hc_wants (po_c p) !! w = Some want → waiting want = false →
  po_waiters p' = ws → po_timedOut p' = po_timedOut p → po_dials p' = po_dials p →
  po_held p' = po_held p → po_closing p' = po_closing p →
  (w_conn want = Some cc ∧ po_c p' = po_c p ∧ po_inUse p' = cc :: po_inUse p ∨
   w_conn want = None ∧ po_c p' = c ∧ po_inUse p' = po_inUse p ∧
   HostClient.cancel (po_c p) w err = Some (oc, c)) →
  pool_ok p'.
Proof.
  intros Hok Hperm Hw Hwait E1 E2 E3 E4 E5 Hres.
  assert (procs p ≡ₚ w :: procs p') as Hp.
  { unfold procs. rewrite E1, E2. clear -Hperm. perm_solver. }
  pose proof (ok_procs _ Hok) as Hnd. rewrite Hp in Hnd. apply NoDup_cons in Hnd as [Hnin Hnd].
  pose proof (ok_known _ Hok) as Hk. rewrite Hp in Hk. apply Forall_cons in Hk as [_ Hk].
  assert (procs p ≠ []) as Hne. { intros E. rewrite E in Hp. by apply Permutation_nil_cons in Hp. }
  assert (conn_ids p ≡ₚ hc_closed (po_c p) ++ (cc_c <$> hc_conns (po_c p)) ++ (cc_c <$> po_inUse p) ++
    (cc_c <$> po_held p) ++ (cc_c <$> po_closing p) ++ (cc_c <$> option_list (w_conn want)) ++
    (cc_c <$> delivered_of (hc_wants (po_c p)) (procs p'))) as Hids.
  { rewrite conn_ids_eq. apply (delivered_of_perm (hc_wants (po_c p))) in Hp as Hdel.
    rewrite delivered_of_cons, Hw in Hdel. cbn [mbind option_bind] in Hdel. clear -Hdel. perm_solver. }
  destruct Hres as [(Hc&Ec&Eu)|(Hc&Ec&Eu&Hcan)].
  - apply (pool_ok_step p p' None); rewrite ?Ec; try done; try apply Hok.
    + rewrite E2. apply (waiting_ok_procs _ (procs p)); [apply Hok|]. intros x wx Hx Hwx Hin.
      rewrite Hp in Hin. apply elem_of_cons in Hin as [->|]; [congruence|done].
    + intros _. by apply Hok.
    + rewrite Hids, conn_ids_eq, Ec, Eu, E4, E5, Hc. clear. perm_solver.
    + unfold balance. rewrite Ec, E3. cbn. lia.
    + lia.
  - unfold HostClient.cancel in Hcan. rewrite Hw in Hcan. cbn [mbind option_bind] in Hcan.
    rewrite cancel_want_ok in Hcan by (by apply (wo_wants _ _ _ (ok_waiting _ Hok) w)).
    cbn [mbind option_bind] in Hcan. injection Hcan as <- <-.
    apply (pool_ok_step p p' None); rewrite ?Ec; try done; try apply Hok.
    + rewrite E2. eapply (waiting_ok_cancel (po_c p) (procs p)); [apply Hok|done..| | |done].
      * left. unfold gone. by rewrite Hw.
      * intros x Hx Hne'. rewrite Hp in Hx. by apply elem_of_cons in Hx as [->|].
    + eapply Forall_impl; [exact Hk|]. cbn. intros x Hx.
      destruct (decide (w = x)) as [->|]; [by rewrite lookup_insert_eq|by rewrite lookup_insert_ne].
    + intros _. by apply Hok.
    + rewrite Hids, conn_ids_eq, Ec, Eu, E4, E5, Hc. cbn. rewrite delivered_of_notin by done.
      clear. perm_solver.
    + unfold balance. rewrite Ec, E3. cbn. lia.
    + cbn. lia.
Qed.

Lemma timer_ok p w ws c :
  pool_ok p → po_waiters p ≡ₚ w :: ws → HostClient.countTimeout (po_c p) = Some c →
  pool_ok (p <| po_waiters := ws |> <| po_timedOut := w :: po_timedOut p |> <| po_c := c |>).
Proof.
  intros Hok Hperm Hc. unfold HostClient.countTimeout in Hc.
  destruct (hc_connsWait (po_c p)) as [q|] eqn:Hq; [|done]. injection Hc as <-.
  set (p' := upd po_c _ _).
  assert (procs p' ≡ₚ procs p) as Hp. { unfold procs, p'. cbn. clear -Hperm. perm_solver. }
  apply (pool_ok_step p p' None); try done.
  - eapply (waiting_ok_timeout (po_c p) _ (po_timedOut p)); try done.
    apply (waiting_ok_procs _ (procs p)); [apply Hok|]. intros x wx _ _. by rewrite Hp.
  - rewrite Hp. apply Hok.
  - rewrite Hp. apply Hok.
  - apply (delivered_of_perm (hc_wants (po_c p))) in Hp. rewrite !conn_ids_eq.
    cbn [option_list app]. clear -Hp. unfold p' in *. cbn in *. perm_solver.
  - unfold balance, p'. cbn. lia.
  - cbn. lia.
Qed.

Lemma cancel_ok p w ws c oc :
  pool_ok p → po_timedOut p ≡ₚ w :: ws → HostClient.cancel (po_c p) w ErrNoFreeConns = Some (oc, c) →
  pool_ok (p <| po_timedOut := ws |> <| po_c := c |> <| po_held := option_list oc ++ po_held p |>).
Proof.
  intros Hok Hperm Hcan. set (p' := upd po_held _ _).
  unfold HostClient.cancel in Hcan. destruct (hc_wants (po_c p) !! w) as [want|] eqn:Hw; [|done].
  cbn [mbind option_bind] in Hcan.
  rewrite cancel_want_ok in Hcan by (by apply (wo_wants _ _ _ (ok_waiting _ Hok) w)).
  cbn [mbind option_bind] in Hcan. injection Hcan as <- <-.
  assert (procs p ≡ₚ w :: procs p') as Hp. { unfold procs, p'. cbn. clear -Hperm. perm_solver. }
  pose proof (ok_procs _ Hok) as Hnd. rewrite Hp in Hnd. apply NoDup_cons in Hnd as [Hnin Hnd].
  pose proof (ok_known _ Hok) as Hk. rewrite Hp in Hk. apply Forall_cons in Hk as [_ Hk].
  assert (procs p ≠ []) as Hne. { intros E. rewrite E in Hp. by apply Permutation_nil_cons in Hp. }
  apply (pool_ok_step p p' None); try done.
  - eapply (waiting_ok_cancel (po_c p) (procs p) _ (po_timedOut p)); [apply Hok|done..| | |].
    + right. rewrite Hperm. by left.
    + intros x Hx Hne'. rewrite Hp in Hx. by apply elem_of_cons in Hx as [->|].
    + intros x Hx. rewrite Hperm. by right.
  - eapply Forall_impl; [exact Hk|]. cbn. intros x Hx.
    destruct (decide (w = x)) as [->|]; [by rewrite lookup_insert_eq|by rewrite lookup_insert_ne].
  - intros _. by apply Hok.
  - apply (delivered_of_perm (hc_wants (po_c p))) in Hp as Hdel.
    rewrite delivered_of_cons, Hw in Hdel. cbn [mbind option_bind] in Hdel.
    rewrite !conn_ids_eq. cbn [option_list app]. unfold p' at 1 2 3 4 5 6. cbn -[procs].
    rewrite delivered_of_notin by done. clear -Hdel. perm_solver.
  - unfold balance, p'. cbn. lia.
  - cbn. lia.
Qed.

Lemma queue_up_ok p n w c :
  pool_ok p → hc_wants (po_c p) !! w = None → HostClient.queueForIdle (po_c p) w = Some c →
  pool_ok (p <| po_wanting := n |> <| po_waiters := w :: po_waiters p |> <| po_c := c |>).
Proof.
  intros Hok Hw Hc.
  assert (w ∉ procs p) as Hnin.
  { intros Hin. apply (proj1 (Forall_forall _ _) (ok_known _ Hok)) in Hin as [??]. congruence. }
  destruct (queueForIdle_ok (po_c p) (procs p) (po_timedOut p) w) as (c'&Hc'&Hwo&Hws&?&Hcn&Hct&Hd&Hcl&Hm);
    [apply Hok|done|unfold procs in Hnin; set_solver|]. simplify_eq.
  set (p' := upd po_c _ _). assert (procs p' = w :: procs p) as Hp by done.
  apply (pool_ok_step p p' None); rewrite ?Hp; try done.
  - apply NoDup_cons. split; [done|apply Hok].
  - cbn. rewrite Hws. constructor; [by rewrite lookup_insert_eq|].
    eapply Forall_impl; [apply Hok|]. cbn. intros x Hx.
    destruct (decide (w = x)) as [->|]; [by rewrite lookup_insert_eq|by rewrite lookup_insert_ne].
  - rewrite !conn_ids_eq, Hp. unfold p'. cbn -[procs delivered_of]. rewrite Hcl, Hcn, Hws.
    rewrite delivered_of_cons, lookup_insert_eq, delivered_of_notin by done. done.
  - unfold balance, p'. cbn. rewrite Hct, Hd, Hcl. lia.
  - cbn. lia.
Qed.

Lemma queue_is_fun q l l' : queue_is q l → queue_is q l' → l = l'.
Proof.
  intros (h1&_&E1&->) (h2&_&E2&->). rewrite E1 in E2. by apply (inj (fmap Some)) in E2 as ->.
Qed.

(** A waiter that is dialed for is known, has no connection, and is nowhere else. *)
Lemma dialing_taken c ps timedOut w ws :
  waiting_ok c ps timedOut → hc_dialing c ≡ₚ w :: ws →
  waiting_ok (c <| hc_dialing := ws |>) ps timedOut ∧
  (∀ l, queue_is (default zero (hc_connsWait c)) l → w ∉ l ++ ws) ∧
  ∃ want, hc_wants c !! w = Some want ∧ want_ok want ∧ w_conn want = None ∧ (waiting want = true → w ∈ ps).
Proof.
  intros [Hws (l&Hq&Hnd&Hl&Hf)] Hd. rewrite Hd in Hnd.
  rewrite <- Permutation_middle in Hnd. apply NoDup_cons in Hnd as [Hnin Hnd].
  split_and!.
  - split; [done|]. exists l. split_and!; [done..| |done]. intros x Hx. apply Hl. rewrite Hd. cbn in Hx. set_solver.
  - intros l' Hl'. by rewrite <- (queue_is_fun _ _ _ Hq Hl').
  - destruct (Hl w) as (want&Hw&?&?); [rewrite Hd; set_solver|].
    exists want. split_and!; [done|by apply (Hws w)|done..].
Qed.

Lemma lookup_insert_is_Some_any (ws : gmap nat wantConn) w want x :
  is_Some (ws !! x) → is_Some (<[w := want]> ws !! x).
Proof.
  intros Hx. destruct (decide (w = x)) as [->|]; [by rewrite lookup_insert_eq|by rewrite lookup_insert_ne].
Qed.

Lemma delivered_of_none ws w want ps :
  ws !! w ≫= w_conn = None → w_conn want = None → delivered_of (<[w := want]> ws) ps = delivered_of ws ps.
Proof.
  intros Hw Hc. induction ps as [|x ps IH]; [done|]. rewrite !delivered_of_cons, IH.
  destruct (decide (w = x)) as [->|]; [|by rewrite lookup_insert_ne].
  rewrite lookup_insert_eq, Hw. cbn [mbind option_bind]. by rewrite Hc.
Qed.

(** A dial for a waiter that succeeded or failed, taken as one of a caller. *)
Lemma taken_conn_ok p w ws cc :
  pool_ok p → hc_dialing (po_c p) ≡ₚ w :: ws → fresh_conn p cc →
  pool_ok (p <| po_c := (po_c p) <| hc_dialing := ws |> |> <| po_inUse := cc :: po_inUse p |>).
Proof.
  intros Hok Hd Hfresh. apply Permutation_length in Hd as Hlen. cbn in Hlen.
  destruct (dialing_taken (po_c p) (procs p) (po_timedOut p) w ws) as (Hw0&_&_); [apply Hok|done|].
  set (p1 := upd po_inUse _ _). assert (procs p1 = procs p) as Hp by done.
  apply (pool_ok_step p p1 (Some (cc_c cc))); rewrite ?Hp; try done; try apply Hok.
  - rewrite !conn_ids_eq, Hp. unfold p1. cbn -[procs]. clear. perm_solver.
  - by intros x [= <-].
  - unfold balance, p1. cbn. lia.
  - cbn. lia.
Qed.

Lemma taken_error_ok p w ws want :
  pool_ok p → hc_dialing (po_c p) ≡ₚ w :: ws → want_ok want → w_conn want = None →
  pool_ok (p <| po_c := (po_c p) <| hc_dialing := ws |> <| hc_wants := <[w := want]> (hc_wants (po_c p)) |> |>
             <| po_dials := S (po_dials p) |>).
Proof.
  intros Hok Hd Hwant Hnone. apply Permutation_length in Hd as Hlen. cbn in Hlen.
  destruct (dialing_taken (po_c p) (procs p) (po_timedOut p) w ws) as (Hw0&Hnin&want0&Hw&_&Hnone0&_);
    [apply Hok|done|].
  set (p1 := upd po_dials _ _). assert (procs p1 = procs p) as Hp by done.
  apply (pool_ok_step p p1 None); rewrite ?Hp; try done; try apply Hok.
  - by eapply (waiting_ok_insert ((po_c p) <| hc_dialing := ws |>) (procs p) _ (po_timedOut p)); try done; left.
  - eapply Forall_impl; [apply Hok|]. intros x. apply lookup_insert_is_Some_any.
  - rewrite !conn_ids_eq, Hp. unfold p1. cbn -[procs]. rewrite delivered_of_none; [done|by rewrite Hw|done].
  - unfold balance, p1. cbn. lia.
  - cbn. lia.
Qed.

Lemma dial_for_ok p w ws res now c :
  pool_ok p → hc_dialing (po_c p) ≡ₚ w :: ws → (∀ cc, res = inl cc → fresh_conn p cc) →
  HostClient.dialConnFor ((po_c p) <| hc_dialing := ws |>) w res now = Some c →
  pool_ok (p <| po_c := c |>).
Proof.
  intros Hok Hd Hfresh Hc.
  destruct (dialing_taken (po_c p) (procs p) (po_timedOut p) w ws) as
    (Hw0&Hnin&want&Hw&Hwant&Hnone&Hproc); [apply Hok|done|].
  unfold HostClient.dialConnFor in Hc. set (c0 := upd hc_dialing _ _) in *.
  change (hc_wants c0) with (hc_wants (po_c p)) in Hc. rewrite Hw in Hc. cbn [mbind option_bind] in Hc.
  destruct res as [cc|err].
  - pose proof (taken_conn_ok p w ws cc Hok Hd (Hfresh cc eq_refl)) as Hok1. fold c0 in Hok1.
    destruct (waiting want) eqn:Ew.
    + rewrite tryDeliver_waiting in Hc by (done || by left). cbn [mbind option_bind] in Hc. injection Hc as <-.
      set (p1 := upd po_inUse _ _) in Hok1. set (p' := upd po_c _ _).
      apply (pool_ok_step p1 p' None); try done; try apply Hok.
      * eapply (waiting_ok_insert c0 (procs p) _ (po_timedOut p)); [done| |done..|by left].
        split; cbn; [done|]. by intros [].
      * eapply Forall_impl; [apply Hok|]. intros x. apply lookup_insert_is_Some_any.
      * pose proof (delivered_of_insert (hc_wants (po_c p)) w (mkWant None true (Some cc)) (procs p)
          (ok_procs _ Hok) (Hproc eq_refl)) as Hdel.
        rewrite Hw in Hdel. cbn [mbind option_bind] in Hdel. rewrite Hnone in Hdel. cbn [w_conn] in Hdel.
        rewrite !conn_ids_eq. change (procs p') with (procs p). change (procs p1) with (procs p).
        unfold p', p1. cbn -[procs]. clear -Hdel. perm_solver.
      * unfold balance, p', p1. cbn. lia.
      * cbn. lia.
    + rewrite tryDeliver_gone in Hc by done. cbn [mbind option_bind] in Hc. rewrite insert_id in Hc by done.
      eapply (release_ok _ (po_inUse p) cc now c); [exact Hok1|..]; try done. by left.
  - set (want' := if waiting want then mkWant (Some err) true None else want).
    assert (tryDeliver want None (Some err) = Some (waiting want, want')) as Hdel.
    { unfold want'. destruct (waiting want) eqn:Ew; [apply tryDeliver_waiting; [done..|by right]|].
      by apply tryDeliver_gone. }
    rewrite Hdel in Hc. cbn [mbind option_bind] in Hc.
    eapply (dec_ok _ c _ None); [apply (taken_error_ok p w ws want' Hok Hd)|exact Hc|..]; try done.
    + unfold want'. destruct (waiting want); [|done]. split; cbn; [done|by intros []].
    + unfold want'. by destruct (waiting want).
    + cbn. rewrite app_nil_r. by destruct c.
    + cbn. lia.
    + cbn. lia.
Qed.

(** Every step keeps the accounts, and from the empty pool on they are right. *)
Lemma pool_step_ok p p' : pool_step p p' → pool_ok p → pool_ok p'.
Proof.
  intros Hs Hok. destruct Hs as
    [b cc c Ha|b c Ha|b c Ha _|n cc Hn Hf|n c Hn Hc|n w c Hn Hw Hc|w ws res now c Hd Hf Hc
    |w ws want cc Hp Hw Hwt Hcn|w ws want err c oc Hp Hw Hwt Hcn He Hc|w ws c Hp _ Hc|w ws c oc Hp Hc
    |cc ccs now c Hp Hc|cc ccs now c Hp Hc|cc ccs c Hp Hc|n|cc ccs c Hp Hc|Hz].
  - apply acquireConn_frame in Ha as (?&?&?&?&?&Hc&Hn).
    apply (pool_ok_same p _ None); cbn; try done; [clear -Hc; perm_solver|lia..].
  - apply acquireConn_frame in Ha as (?&?&?&?&?&Hc&Hn&?).
    apply (pool_ok_same p _ None); cbn; try done; [by rewrite Hc|lia..].
  - apply acquireConn_frame in Ha as (_&_&_&_&_&->). apply (pool_ok_same p _ None); cbn; try done; lia.
  - apply (pool_ok_same p _ (Some (cc_c cc))); cbn; try done; [clear; perm_solver|by intros x [= <-]|lia..].
  - apply (dec_ok p c _ None); try done; [by cbn; rewrite app_nil_r; destruct c|cbn; lia..].
  - by apply queue_up_ok.
  - by apply (dial_for_ok p w ws res now).
  - eapply (receive_ok p w ws want _ cc None ErrNoFreeConns (po_c p)); try done. by left.
  - eapply (receive_ok p w ws want _ (mkConn 0 0 0) oc err c); try done. by right.
  - by apply timer_ok.
  - by apply (cancel_ok p w).
  - eapply (release_ok p ccs cc now c); try done. by right.
  - eapply (release_ok p ccs cc now c); try done. by left.
  - unfold HostClient.closeConn in Hc. destruct (HostClient.decConnsCount (po_c p)) as [c1|] eqn:E; [|done].
    injection Hc as <-. apply (dec_ok p c1 _ (Some cc)); try done; [cbn; clear -Hp; perm_solver|cbn; lia..].
  - apply (pool_ok_same p _ None); cbn; try done; [|lia..].
    rewrite <- (take_drop n (hc_conns (po_c p))) at 3. clear. perm_solver.
  - unfold HostClient.closeConn in Hc. destruct (HostClient.decConnsCount (po_c p)) as [c1|] eqn:E; [|done].
    injection Hc as <-. apply (dec_ok p c1 _ (Some cc)); try done; [cbn; clear -Hp; perm_solver|cbn; lia..].
  - apply (pool_ok_same p _ None); cbn; try done; lia.
Qed.

Lemma pool_init_ok maxConns maxIdle wait strategy addrs :
  pool_ok (pool_init maxConns maxIdle wait strategy addrs).
Proof.
  split; try done; [constructor|constructor| |cbn; lia].
  split; [done|]. exists []. split_and!; [apply zero_is|constructor|by intros ? ?%not_elem_of_nil|done].
Qed.

Lemma pool_reachable_ok maxConns maxIdle wait strategy addrs p :
  rtc pool_step (pool_init maxConns maxIdle wait strategy addrs) p → pool_ok p.
Proof. apply rtc_invariant; [apply pool_init_ok|eauto using pool_step_ok]. Qed.

(** The limit is not touched. *)
Lemma decConnsCount_max c c' : HostClient.decConnsCount c = Some c' → hc_maxConns c' = hc_maxConns c.
Proof.
  unfold HostClient.decConnsCount. destruct (_ =? _)%Z; [by intros [= <-]|].
  destruct (hc_connsWait c) as [q|]; [|by intros [= <-]].
  destruct (HostClient.popWaiting _ _ _) as [[[w|] q']|]; [| |done]; by intros [= <-].
Qed.

Lemma releaseConn_max c cc now c' : HostClient.releaseConn c cc now = Some c' → hc_maxConns c' = hc_maxConns c.
Proof.
  unfold HostClient.releaseConn. destruct (_ =? _)%Z; [by intros [= <-]|].
  destruct (hc_connsWait c) as [q|]; [|by intros [= <-]].
  destruct (HostClient.deliver_loop _ _ _ _) as [[[[] ws] q']|]; [| |done]; by intros [= <-].
Qed.

Lemma dialConnFor_max c w res now c' : HostClient.dialConnFor c w res now = Some c' → hc_maxConns c' = hc_maxConns c.
Proof.
  unfold HostClient.dialConnFor. destruct (hc_wants c !! w) as [want|]; [|done]. cbn [mbind option_bind].
  destruct res; (destruct (tryDeliver _ _ _) as [[[] want']|]; [| |done]); cbn [mbind option_bind].
  - by intros [= <-].
  - by intros ->%releaseConn_max.
  - by intros ->%decConnsCount_max.
  - by intros ->%decConnsCount_max.
Qed.

Lemma cancel_max c w err oc c' : HostClient.cancel c w err = Some (oc, c') → hc_maxConns c' = hc_maxConns c.
Proof.
  unfold HostClient.cancel. destruct (hc_wants c !! w) as [want|]; [|done]. cbn [mbind option_bind].
  destruct (cancel_want want err) as [[o want']|]; [|done]. by intros [= _ <-].
Qed.

Lemma closeConn_max c cc c' : HostClient.closeConn c cc = Some c' → hc_maxConns c' = hc_maxConns c.
Proof.
  unfold HostClient.closeConn. destruct (HostClient.decConnsCount c) as [c1|] eqn:E; [|done].
  intros [= <-]. by apply decConnsCount_max in E.
Qed.

Lemma pool_step_max p p' : pool_ok p → pool_step p p' → hc_maxConns (po_c p') = hc_maxConns (po_c p).
Proof.
  intros Hok Hs. destruct Hs as
    [b cc c Ha|b c Ha|b c Ha _|n cc Hn Hf|n c Hn Hc|n w c Hn Hw' Hc|w ws res now c Hd Hf Hc
    |w ws want cc Hp Hw' Hwt Hcn|w ws want err c oc Hp Hw' Hwt Hcn He Hc|w ws c Hp _ Hc|w ws c oc Hp Hc
    |cc ccs now c Hp Hc|cc ccs now c Hp Hc|cc ccs c Hp Hc|n|cc ccs c Hp Hc|Hz]; cbn; try done.
  1-3: by apply acquireConn_frame in Ha as (_&_&_&_&?&_).
  - by apply decConnsCount_max.
  - edestruct (queueForIdle_ok (po_c p) (procs p) (po_timedOut p) w) as (c'&Hc'&_&_&_&_&_&_&_&?);
      [apply Hok|done| |by simplify_eq].
    intros Hin. assert (w ∈ procs p) as Hp by (unfold procs; set_solver).
    apply (proj1 (Forall_forall _ _) (ok_known _ Hok)) in Hp as [??]. congruence.
  - by apply dialConnFor_max in Hc.
  - by apply cancel_max in Hc.
  - unfold HostClient.countTimeout in Hc. by destruct (hc_connsWait (po_c p)); simplify_eq/=.
  - by apply cancel_max in Hc.
  - by apply releaseConn_max in Hc.
  - by apply releaseConn_max in Hc.
  - by apply closeConn_max in Hc.
  - by apply closeConn_max in Hc.
Qed.

Lemma reachable_maxConns maxConns maxIdle wait strategy addrs p :
  rtc pool_step (pool_init maxConns maxIdle wait strategy addrs) p → hc_maxConns (po_c p) = maxConns.
Proof.
  intros Hr. pose proof (pool_init_ok maxConns maxIdle wait strategy addrs) as Hok.
  assert (hc_maxConns (po_c (pool_init maxConns maxIdle wait strategy addrs)) = maxConns) as E by done.
  revert Hok E. induction Hr as [|p1 p2 p3 Hs _ IH]; intros Hok E; [done|].
  apply IH; [by apply (pool_step_ok p1)|]. by rewrite (pool_step_max p1 p2).
Qed.

(** Every operation a caller may use gives a result. *)
Lemma pool_ok_progress p :
  pool_ok p →
  (∀ cc now, is_Some (HostClient.releaseConn (po_c p) cc now)) ∧
  (∀ cc, is_Some (HostClient.closeConn (po_c p) cc)) ∧
  (∀ w, hc_wants (po_c p) !! w = None → is_Some (HostClient.queueForIdle (po_c p) w)) ∧
  (∀ w err, w ∈ procs p → is_Some (HostClient.cancel (po_c p) w err)) ∧
  (procs p ≠ [] → is_Some (HostClient.countTimeout (po_c p))) ∧
  (∀ w ws res now, hc_dialing (po_c p) ≡ₚ w :: ws →
     is_Some (HostClient.dialConnFor ((po_c p) <| hc_dialing := ws |>) w res now)).
Proof.
  intros Hok. pose proof (ok_waiting _ Hok) as Hw. split_and!.
  - intros cc now. destruct (releaseConn_ok _ cc now _ _ Hw) as (c&->&_). done.
  - intros cc. unfold HostClient.closeConn. destruct (decConnsCount_ok _ _ _ Hw) as (c&->&_). done.
  - intros w Hnone. destruct (queueForIdle_ok _ _ _ w Hw Hnone) as (c&->&_); [|done].
    intros Hin. assert (w ∈ procs p) as Hp by (unfold procs; set_solver).
    apply (proj1 (Forall_forall _ _) (ok_known _ Hok)) in Hp as [??]. congruence.
  - intros w err Hin. apply (proj1 (Forall_forall _ _) (ok_known _ Hok)) in Hin as [want Hwant].
    unfold HostClient.cancel. rewrite Hwant. cbn [mbind option_bind].
    rewrite cancel_want_ok by (by apply (wo_wants _ _ _ Hw w)). done.
  - intros Hne. unfold HostClient.countTimeout. pose proof (ok_queue _ Hok Hne).
    by destruct (hc_connsWait (po_c p)).
  - intros w ws res now Hd.
    destruct (dialing_taken _ _ _ w ws Hw Hd) as (Hw0&Hnin&want&Hwant&Hwok&Hnone&Hproc).
    unfold HostClient.dialConnFor. set (c0 := upd hc_dialing _ _) in *.
    change (hc_wants c0) with (hc_wants (po_c p)). rewrite Hwant. cbn [mbind option_bind].
    destruct res as [cc|err]; destruct (waiting want) eqn:Ew.
    + rewrite tryDeliver_waiting by (done || by left). done.
    + rewrite tryDeliver_gone by done. cbn [mbind option_bind]. rewrite insert_id by done.
      change (upd hc_wants c0 (hc_wants (po_c p))) with c0.
      destruct (releaseConn_ok _ cc now _ _ Hw0) as (c&->&_). done.
    + rewrite tryDeliver_waiting by (done || by right). cbn [mbind option_bind].
      edestruct (decConnsCount_ok (c0 <| hc_wants := <[w := mkWant (Some err) true None]> (hc_wants (po_c p)) |>))
        as (c&->&_); [|done].
      eapply (waiting_ok_insert c0); [exact Hw0| |done..|by left]. split; cbn; [done|by intros []].
    + rewrite tryDeliver_gone by done. cbn [mbind option_bind]. rewrite insert_id by done.
      change (upd hc_wants c0 (hc_wants (po_c p))) with c0.
      destruct (decConnsCount_ok _ _ _ Hw0) as (c&->&_). done.
Qed.
End pool.

(** * Fairness *)

Section fairness.
Import wantConnQueue.
Implicit Types (c : HostClient).

Lemma first_live_unique {A} (P : A → Prop) (d1 d2 l1 l2 : list A) x y :
  d1 ++ x :: l1 = d2 ++ y :: l2 → Forall P d1 → Forall P d2 → ¬ P x → ¬ P y → d1 = d2 ∧ x = y ∧ l1 = l2.
Proof.
  revert d2. induction d1 as [|a d1 IH]; intros [|b d2] E H1 H2 Hx Hy; simplify_eq/=; try done.
  - by apply Forall_cons in H2 as [? _].
  - by apply Forall_cons in H1 as [? _].
  - apply Forall_cons in H1 as [_ H1], H2 as [_ H2]. edestruct (IH d2) as (->&->&->); [done..|]. done.
Qed.

(** With an exact count of the waiters that are gone, the oldest live one is popped. *)
Lemma popWaiting_oldest ws q dead w l :
  queue_is q (dead ++ w :: l) → stored ws (dead ++ w :: l) → Forall (gone ws) dead → ¬ gone ws w →
  q_failedWaiters q = Z.of_nat (length (filter (gone ws) (dead ++ w :: l))) →
  ∃ q', HostClient.popWaiting (HostClient.queue_fuel q) ws q = Some (Some w, q') ∧ queue_is q' l ∧
    q_failedWaiters q' = Z.of_nat (length (filter (gone ws) l)).
Proof.
  intros Hq Hst Hdead Hw Hf.
  destruct (popWaiting_is ws q _ Hq Hst) as (ow&q'&d&l'&->&Hq'&Hd&Hf'&Hres); [unfold counted; lia|].
  exists q'. destruct ow as [w'|].
  - destruct Hres as [E Hw']. destruct (first_live_unique _ _ _ _ _ _ _ E Hdead Hd Hw Hw') as (<-&<-&<-).
    split_and!; [done..|]. rewrite Hf', Hf, filter_app, length_app, filter_cons_False by done.
    rewrite (length_filter_all _ dead) by done. lia.
  - exfalso. destruct Hres as [E Hle]. rewrite Hf', Hf, E, filter_app, length_app in Hle.
    rewrite (length_filter_all _ d) in Hle by done.
    assert (w ∈ l') as Hin.
    { assert (w ∈ d ++ l') as [Hin|Hin]%elem_of_app by (rewrite <- E; set_solver); [|done].
      by apply (proj1 (Forall_forall _ _) Hd) in Hin. }
    apply list_elem_of_split in Hin as (k1&k2&->). rewrite filter_app, filter_cons_False, !length_app in Hle by done.
    pose proof (length_filter (gone ws) k1). pose proof (length_filter (gone ws) k2). cbn in Hle. lia.
Qed.

Lemma releaseConn_oldest c cc now q dead w l :
  map_Forall (λ _, want_ok) (hc_wants c) →
  hc_waitFreeConnTimeout c ≠ 0%Z → hc_connsWait c = Some q → queue_is q (dead ++ w :: l) →
  stored (hc_wants c) (dead ++ w :: l) → Forall (gone (hc_wants c)) dead → ¬ gone (hc_wants c) w →
  q_failedWaiters q = Z.of_nat (length (filter (gone (hc_wants c)) (dead ++ w :: l))) →
  ∃ c' q', HostClient.releaseConn c cc now = Some c' ∧ hc_conns c' = hc_conns c ∧
    hc_wants c' !! w = Some (mkWant None true (Some (used cc now))) ∧
    hc_connsWait c' = Some q' ∧ queue_is q' l.
Proof.
  intros Hok Hwait Hq Hl Hst Hdead Hw Hf. unfold HostClient.releaseConn. fold (used cc now).
  destruct (Z.eqb_spec (hc_waitFreeConnTimeout c) 0); [done|]. rewrite Hq, deliver_loop_eq by done.
  destruct (popWaiting_oldest (hc_wants c) q dead w l) as (q'&->&Hq'&_); [done..|]. cbn [mbind option_bind].
  eexists _, q'. split; [reflexivity|]. split_and!; [done| |done|done]. apply lookup_insert_eq.
Qed.
End fairness.

(** * Idle connections *)

Section idle.
Implicit Types (c : HostClient) (conns : list clientConn).

Definition expired (now maxIdle : Z) (cc : clientConn) : Prop := (now - cc_lastUseTime cc > maxIdle)%Z.
#[global] Instance expired_dec now maxIdle cc : Decision (expired now maxIdle cc) := decide (_ > _)%Z.

Definition oldest_first conns : Prop :=
  ∀ i j x y, conns !! i = Some x → conns !! j = Some y → i ≤ j → (cc_lastUseTime x ≤ cc_lastUseTime y)%Z.

Definition in_range (now : Z) conns : Prop :=
  Forall (λ cc, - 2 ^ 63 ≤ now - cc_lastUseTime cc < 2 ^ 63)%Z conns.

(** Before [l] everything is expired, from [r1] on nothing is. *)
Lemma expired_search_ok fuel now maxIdle conns l r1 :
  oldest_first conns → in_range now conns → l ≤ r1 → r1 ≤ length conns → r1 - l < fuel →
  (∀ i x, conns !! i = Some x → i < l → expired now maxIdle x) →
  (∀ i x, conns !! i = Some x → r1 ≤ i → ¬ expired now maxIdle x) →
  ∃ m, HostClient.expired_search fuel now maxIdle conns l r1 = (m, m) ∧ m ≤ length conns ∧
    (∀ i x, conns !! i = Some x → i < m ↔ expired now maxIdle x).
Proof.
  intros Hs Hr. revert l r1. induction fuel as [|fuel IH]; intros l r1 Hlr Hn Hf Hbelow Habove; [lia|].
  cbn [HostClient.expired_search]. destruct (Nat.ltb_spec l r1) as [Hlt|Hge].
  - set (mid := (l + (r1 - 1)) / 2).
    assert (l ≤ mid < r1) as Hmid.
    { unfold mid. split; [apply Nat.div_le_lower_bound; lia|apply Nat.Div0.div_lt_upper_bound; lia]. }
    destruct (lookup_lt_is_Some_2 conns mid) as [x Hx]; [lia|]. rewrite Hx.
    rewrite int64_small by (by apply (Forall_lookup_1 _ _ _ _ Hr Hx)).
    destruct (Z.gtb_spec (now - cc_lastUseTime x) maxIdle).
    + apply IH; [lia..| |done]. intros i y Hy Hi. pose proof (Hs i mid y x Hy Hx ltac:(lia)). unfold expired. lia.
    + apply IH; [lia..|done|]. intros i y Hy Hi. pose proof (Hs mid i x y Hx Hy ltac:(lia)). unfold expired. lia.
  - assert (l = r1) as -> by lia. exists r1. split_and!; [done..|]. intros i x Hx. split; [by eauto|].
    intros He. destruct (decide (i < r1)); [done|]. by destruct (Habove i x Hx ltac:(lia)).
Qed.

Lemma closeAll_ok c ccs procs timedOut :
  waiting_ok c procs timedOut →
  ∃ c', HostClient.closeAll c ccs = Some c' ∧ hc_conns c' = hc_conns c ∧
    hc_closed c' = hc_closed c ++ (cc_c <$> ccs).
Proof.
  revert c. induction ccs as [|cc ccs IH]; intros c Hok.
  - exists c. split_and!; try done. by rewrite app_nil_r.
  - unfold HostClient.closeAll. cbn [foldl mbind option_bind]. unfold HostClient.closeConn at 2.
    destruct (decConnsCount_ok c procs timedOut Hok) as (c1&Hd&Hok1&_&Hc&_&Hcl&_). rewrite Hd. cbn [mbind option_bind].
    set (c2 := upd hc_closed _ _). fold (HostClient.closeAll c2 ccs).
    destruct (IH c2) as (c'&->&Hc'&Hcl'); [by apply (waiting_ok_same c1)|].
    exists c'. split; [done|]. rewrite Hc', Hcl'. unfold c2. cbn. rewrite Hcl, <- app_assoc. by split.
Qed.

Lemma filter_prefix {A} (P : A → Prop) `{∀ x, Decision (P x)} (l : list A) m :
  (∀ i x, l !! i = Some x → i < m ↔ P x) → filter P l = take m l ∧ filter (λ x, ¬ P x) l = drop m l.
Proof.
  revert m. induction l as [|x l IH]; intros m Hm; [by rewrite take_nil, drop_nil|].
  pose proof (Hm 0 x eq_refl) as H0. destruct m as [|m].
  - assert (∀ i y, l !! i = Some y → i < 0 ↔ P y) as Hl.
    { intros i y Hy. rewrite <- (Hm (S i) y Hy). lia. }
    destruct (IH 0 Hl) as [E1 E2]. assert (¬ P x) by (rewrite <- H0; lia).
    rewrite filter_cons_False, filter_cons_True by done. by rewrite E1, E2.
  - assert (∀ i y, l !! i = Some y → i < m ↔ P y) as Hl.
    { intros i y Hy. rewrite <- (Hm (S i) y Hy). lia. }
    destruct (IH m Hl) as [E1 E2]. assert (P x) by (rewrite <- H0; lia).
    rewrite filter_cons_True, filter_cons_False by naive_solver. cbn. by rewrite E1, E2.
Qed.

(** The cleaner closes what is expired and nothing else; the pause it asks for when it
    leaves connections open is over at once. *)
Lemma Clean_ok c now now2 procs timedOut :
  waiting_ok c procs timedOut → oldest_first (hc_conns c) → in_range now (hc_conns c) →
  let maxIdle := hc_maxIdleConnDuration c in
  ∃ sleep stop c', HostClient.Clean c now now2 = Some (sleep, stop, c') ∧
    hc_conns c' = filter (λ cc, ¬ expired now maxIdle cc) (hc_conns c) ∧
    hc_closed c' = hc_closed c ++ (cc_c <$> filter (expired now maxIdle) (hc_conns c)) ∧
    ((now ≤ now2)%Z → in_range now2 (hc_conns c) → (0 ≤ maxIdle < 2 ^ 63)%Z →
     hc_conns c' ≠ [] → (sleep ≤ 0)%Z).
Proof.
  intros Hok Hs Hr maxIdle. unfold HostClient.Clean. fold maxIdle.
  destruct (expired_search_ok (S (length (hc_conns c))) now maxIdle (hc_conns c) 0 (length (hc_conns c)))
    as (m&->&Hm&Hexp); [done|done|lia..|intros; lia| |].
  { intros i x Hx%lookup_lt_Some Hi. lia. }
  destruct (filter_prefix _ _ _ Hexp) as [-> ->]. cbn [snd].
  case_bool_decide as Hn.
  { apply nil_length_inv in Hn. rewrite Hn in *. eexists _, _, c. split; [reflexivity|].
    rewrite take_nil, drop_nil, app_nil_r. by split_and!. }
  case_bool_decide as Hz; cbn [orb].
  { subst m. eexists _, _, c. split; [reflexivity|]. rewrite app_nil_r. by split_and!. }
  set (sl := if m <? length (hc_conns c) then _ else _).
  assert (∃ sleep, sl = Some sleep ∧ ((now ≤ now2)%Z → in_range now2 (hc_conns c) → (0 ≤ maxIdle < 2 ^ 63)%Z →
    m < length (hc_conns c) → (sleep ≤ 0)%Z)) as (sleep&->&Hsleep).
  { unfold sl. destruct (Nat.ltb_spec m (length (hc_conns c))); [|by eexists; split; [done|lia]].
    destruct (lookup_lt_is_Some_2 (hc_conns c) (m - 1)) as [x Hx]; [lia|]. rewrite Hx. cbn [mbind option_bind].
    eexists. split; [reflexivity|]. intros Hnow Hr2 Hmi _.
    pose proof (proj1 (Hexp _ _ Hx) ltac:(lia)) as He. unfold expired in He.
    pose proof (Forall_lookup_1 _ _ _ _ Hr2 Hx) as Hx2. cbn in Hx2.
    rewrite (int64_small (now2 - _)) by done. rewrite int64_small by lia. lia. }
  cbn [mbind option_bind]. set (c1 := upd hc_conns _ _).
  destruct (closeAll_ok c1 (take m (hc_conns c)) procs timedOut) as (c'&->&Hc'&Hcl'); [by apply (waiting_ok_same c)|].
  cbn [mbind option_bind]. eexists _, _, _. split; [reflexivity|].
  assert (∀ b : bool, hc_conns (if b then c' <| hc_connsCleanerRun := false |> else c') = drop m (hc_conns c)) as E1
    by (by intros []).
  assert (∀ b : bool, hc_closed (if b then c' <| hc_connsCleanerRun := false |> else c') = hc_closed c') as E2
    by (by intros []).
  rewrite E1, E2. split_and!; [done..|]. intros. apply Hsleep; try done.
  destruct (decide (m < length (hc_conns c))); [done|]. rewrite drop_ge in * by lia. done.
Qed.
End idle.
