(* ===== verification/Client.v ===== *)
(** client.go: a request through a [HostClient] - attempts and retries, one exchange over a
    pooled connection, redirects - and the hosts of a [Client]. *)

From Stdlib Require Import ZArith Strings.Byte.
From stdpp Require Import prelude strings list gmap.
From S2P Require Import Prelude Tables Bufio Bytesconv Args Uri Headers HeaderScan Body ReqHeader RespHeader Http HttpResp HostClient.

Definition second : Z := 1000000000.
Definition defaultReadBufferSize : Z := 4096.
Definition defaultWriteBufferSize : Z := 4096.
Definition DefaultDialTimeout : Z := 3 * second.
Definition DefaultMaxConnsPerHost : Z := 512.
Definition DefaultMaxIdleConnDuration : Z := 10 * second.
Definition DefaultMaxIdemponentCallAttempts : Z := 5.
Definition defaultMaxRedirectsCount : Z := 16.
Definition defaultUserAgent : bytes := bs "fasthttp".
Definition strLocation : bytes := bs "Location".

(** * Configuration *)

(** The strategy is [None] for a number that stands for none. *)
Record Config := mkConfig {
  cf_DialTimeout : Z; cf_ReadTimeout : Z; cf_WriteTimeout : Z; cf_MaxConnDuration : Z;
  cf_MaxIdleConnDuration : Z; cf_MaxConnWaitTimeout : Z; cf_MaxConns : Z;
  cf_MaxIdemponentCallAttempts : Z; cf_RetryIf : option RetryIfErrFunc;
  cf_MaxResponseBodySize : Z; cf_ReadBufferSize : Z; cf_WriteBufferSize : Z;
  cf_Addrs : list bytes; cf_ConnPoolStrategy : option ConnPoolStrategyType; cf_Name : bytes;
  cf_NoDefaultUserAgentHeader : bool; cf_IsTLS : bool; cf_DisableHeaderNamesNormalizing : bool;
  cf_DisablePathNormalizing : bool; cf_SecureErrorLogMessage : bool; cf_StreamResponseBody : bool;
  cf_DifferentHostRedirect : bool
}.

#[global] Instance Config_etable : Etable Config := λ c,
  mkConfig (cf_DialTimeout c) (cf_ReadTimeout c) (cf_WriteTimeout c) (cf_MaxConnDuration c)
    (cf_MaxIdleConnDuration c) (cf_MaxConnWaitTimeout c) (cf_MaxConns c) (cf_MaxIdemponentCallAttempts c)
    (cf_RetryIf c) (cf_MaxResponseBodySize c) (cf_ReadBufferSize c) (cf_WriteBufferSize c) (cf_Addrs c)
    (cf_ConnPoolStrategy c) (cf_Name c) (cf_NoDefaultUserAgentHeader c) (cf_IsTLS c)
    (cf_DisableHeaderNamesNormalizing c) (cf_DisablePathNormalizing c) (cf_SecureErrorLogMessage c)
    (cf_StreamResponseBody c) (cf_DifferentHostRedirect c).

(** The settings of a [HostClient] and its pool. [hs_readBuffer] and [hs_writeBuffer] are
    the sizes its buffer pools are asked for. *)
Record HostSettings := mkSettings {
  hs_config : Config;
  hs_readBuffer : Z;
  hs_writeBuffer : Z;
  hs_pool : HostClient;
  hs_pendingRequests : Z;
  hs_pendingClientRequests : Z
}.

#[global] Instance HostSettings_etable : Etable HostSettings := λ h,
  mkSettings (hs_config h) (hs_readBuffer h) (hs_writeBuffer h) (hs_pool h) (hs_pendingRequests h)
    (hs_pendingClientRequests h).

(** The defaults [NewHostClient] fills in, in its order. The second test of the buffer sizes
    is on the read buffer again. *)
Definition bufferDefaults (config : Config) : Config :=
  let config := if (cf_ReadBufferSize config <=? 0)%Z
                then config <| cf_ReadBufferSize := defaultReadBufferSize |> else config in
  if (cf_ReadBufferSize config <=? 0)%Z
  then config <| cf_ReadBufferSize := defaultWriteBufferSize |> else config.

Definition nameDefault (hc : Config) : Config :=
  if bool_decide (cf_Name hc = []) && negb (cf_NoDefaultUserAgentHeader hc)
  then hc <| cf_Name := defaultUserAgent |> else hc.

Definition dialDefault (hc : Config) : Config :=
  if (cf_DialTimeout hc <? 0)%Z then hc <| cf_DialTimeout := 0%Z |>
  else if (cf_DialTimeout hc =? 0)%Z then hc <| cf_DialTimeout := DefaultDialTimeout |> else hc.

Definition idleDefault (hc : Config) : Config :=
  if (cf_MaxIdleConnDuration hc =? 0)%Z
  then hc <| cf_MaxIdleConnDuration := DefaultMaxIdleConnDuration |> else hc.

Definition attemptsDefault (hc : Config) : Config :=
  if (cf_MaxIdemponentCallAttempts hc <=? 0)%Z
  then hc <| cf_MaxIdemponentCallAttempts := DefaultMaxIdemponentCallAttempts |> else hc.

Definition connsDefault (hc : Config) : Config :=
  if (cf_MaxConns hc =? 0)%Z then hc <| cf_MaxConns := DefaultMaxConnsPerHost |> else hc.

Definition NewHostClient (config : Config) : HostSettings * option client_error :=
  let config := bufferDefaults config in
  let hc := connsDefault (attemptsDefault (idleDefault (dialDefault (nameDefault config)))) in
  (mkSettings hc (cf_ReadBufferSize config) (cf_WriteBufferSize config)
     (mkHostClient [] 0 None false (cf_MaxConns hc) (cf_MaxIdleConnDuration hc) (cf_MaxConnWaitTimeout hc)
        (default FIFO (cf_ConnPoolStrategy hc)) (cf_Addrs hc) 0 ∅ [] [] 0) 0 0,
   match cf_ConnPoolStrategy hc with Some _ => None | None => Some ErrUnSupportConnPoolStrategy end).

(** * One exchange *)

Section exchange.
Context `{ByteBufferOps} `{MultipartOps} (poolSizeLimit : Z).

(** What becomes of the connection of an exchange. *)
Inductive disposal :=
  | notAcquired
  | released (cc : clientConn)
  | closed (cc : clientConn)
  | heldByStream (cc : clientConn) (closeConn setDeadline : bool).

(** What the exchange meets outside: the connection it gets, its addresses, whether its
    deadlines can be set, how much it takes to write, what it reads, the clock, and which
    errors are timeouts. *)
Record exchange_env := mkEnv {
  ev_acquired : clientConn + client_error;
  ev_remoteAddr : bytes;
  ev_localAddr : bytes;
  ev_setWriteDeadline : option body_error;
  ev_setReadDeadline : option body_error;
  ev_clearDeadline : option body_error;
  ev_room : option (nat * ioerror);
  ev_flush : option body_error;
  ev_reader : Reader;
  ev_age : Z;                                   (* absoluteNano() - createdTime *)
  ev_isTimeout : body_error → bool
}.

(** What closing the body stream of a response does with its connection. *)
Definition closeResponseStream (env : exchange_env) (cc : clientConn) (closeConn setDeadline : bool)
    (wErr : option body_error) : disposal :=
  if closeConn || bool_decide (is_Some wErr) then closed cc
  else
    match (if setDeadline then ev_clearDeadline env else None) with
    | None => released cc
    | Some _ => closed cc
    end.

(** [RoundTrip] of the default transport: whether to retry, the error, what was written,
    what is left to read, and the connection's fate. *)
Definition RoundTrip (hc : Config) (env : exchange_env) (req : Request) (resp : Response)
    : bool * option body_error * Request * Response * Writer * Reader * disposal :=
  let w0 := mkWriter [] (ev_room env) in
  let r0 := ev_reader env in
  let customSkipBody := re_SkipBody resp in
  let customStreamBody := re_StreamBody resp in
  let writeTimeout := Request.WriteTimeout req in
  let writeTimeout := if (writeTimeout =? 0)%Z then
                        let t := cf_WriteTimeout hc in
                        if (t =? 0)%Z then rq_timeout req else t
                      else writeTimeout in
  match ev_acquired env with
  | inr err => (false, Some (bodyClient err), req, resp, w0, r0, notAcquired)
  | inl cc =>
      let resp := resp <| re_raddr := Some (ev_remoteAddr env) |> <| re_laddr := Some (ev_localAddr env) |> in
      let setDeadline := (writeTimeout >? 0)%Z in
      match (if setDeadline then ev_setWriteDeadline env else None) with
      | Some err => (true, Some err, req, resp, w0, r0, closed cc)
      | None =>
          let resetConnection := (cf_MaxConnDuration hc >? 0)%Z && (ev_age env >? cf_MaxConnDuration hc)%Z
                                 && negb (Request.ConnectionClose req) in
          let req := if resetConnection then Request.SetConnectionClose req else req in
          let '(err, w, req, r) := Request.Write w0 req r0 in
          let req := if resetConnection
                     then req <| rq_Header := RequestHeader.ResetConnectionClose (rq_Header req) |> else req in
          let err := match err with None => ev_flush env | e => e end in
          let err := match err with
                     | Some e => Some (if ev_isTimeout env e then bodyClient ErrTimeout else e)
                     | None => None
                     end in
          match err with
          | Some e => (true, Some e, req, resp, w, r, closed cc)
          | None =>
              let readTimeout := Request.ReadTimeout req in
              let readTimeout := if (readTimeout =? 0)%Z then cf_ReadTimeout hc else readTimeout in
              let readDeadline := (readTimeout >? 0)%Z || ((readTimeout =? 0)%Z && (rq_timeout req >? 0)%Z) in
              let setDeadline := setDeadline || readDeadline in
              match (if readDeadline then ev_setReadDeadline env else None) with
              | Some e => (true, Some e, req, resp, w, r, closed cc)
              | None =>
                  let resp := if customSkipBody || RequestHeader.IsHead (rq_Header req)
                              then resp <| re_Header := (re_Header resp) <| p_headMethod := true |> |>
                                        <| re_SkipBody := true |>
                              else resp in
                  let resp := if cf_DisableHeaderNamesNormalizing hc
                              then resp <| re_Header := ResponseHeader.DisableNormalizing (re_Header resp) |>
                              else resp in
                  let '(closeConn, err, resp, r) :=
                    Response.ReadLimitIfClose resp r (cf_MaxResponseBodySize hc) in
                  match err with
                  | Some e => (negb (bool_decide (e = ErrBodyTooLarge)), Some e, req, resp, w, r, closed cc)
                  | None =>
                      let closeConn := closeConn || Request.ConnectionClose req
                                       || Response.ConnectionClose resp in
                      if customStreamBody && bool_decide (is_Some (re_bodyStream resp))
                      then (false, None, req, resp, w, r, heldByStream cc closeConn setDeadline)
                      else (false, None, req, resp, w, r, closeResponseStream env cc closeConn setDeadline None)
                  end
              end
          end
      end
  end.

(** [doNonNilReqResp], over any transport. *)
Definition doNonNilReqResp {W : Type} (hc : Config)
    (transport : W → Request → Response → bool * option body_error * W * Request * Response)
    (w : W) (req : Request) (resp : Response) : bool * option body_error * W * Request * Response :=
  let secure := cf_SecureErrorLogMessage hc in
  let resp := resp <| re_secureErrorLogMessage := secure |>
                   <| re_Header := (re_Header resp) <| p_secureErrorLogMessage := secure |> |> in
  let req := req <| rq_secureErrorLogMessage := secure |>
                 <| rq_Header := (rq_Header req) <| q_secureErrorLogMessage := secure |> |> in
  let '(u, req) := Request.URI req in
  if xorb (cf_IsTLS hc) (URI.isHTTPS u)
  then (false, Some (bodyClient ErrHostClientRedirectToDifferentScheme), w, req, resp)
  else
    let customSkipBody := re_SkipBody resp in
    let customStreamBody := re_StreamBody resp || cf_StreamResponseBody hc in
    let resp := Response.Reset poolSizeLimit resp in
    let resp := resp <| re_SkipBody := customSkipBody |> <| re_StreamBody := customStreamBody |> in
    let req := req <| rq_uri := (rq_uri req) <| DisablePathNormalizing := cf_DisablePathNormalizing hc |> |> in
    let req := match RequestHeader.UserAgent (rq_Header req) with
               | [] => req <| rq_Header := (rq_Header req) <| q_userAgent := cf_Name hc |> |>
               | _ => req
               end in
    transport w req resp.
End exchange.

(** * Attempts *)

Definition isIdempotent (req : Request) : bool :=
  RequestHeader.IsGet (rq_Header req) || RequestHeader.IsHead (rq_Header req)
  || RequestHeader.IsPut (rq_Header req).

(** [call_now] reads the clock, [call_sleep] pauses and [call_do] is [HostClient.do]. *)
Section attempts.
Context {W : Type} (call_now : W → Z * W) (call_sleep : W → Z → W).
Context (call_do : W → Request → Response → bool * option body_error * W * Request * Response).

(** The loop of [HostClient.Do]: one round per attempt. *)
Fixpoint Do_loop (fuel : nat) (hc : Config) (maxAttempts timeout : Z) (hasBodyStream : bool)
    (w : W) (deadline attempts : Z) (req : Request) (resp : Response)
    : option (option body_error * W * Request * Response) :=
  match fuel with
  | O => None
  | S fuel =>
      let '(expired, w, req) :=
        if (timeout >? 0)%Z then
          let '(t, w) := call_now w in
          let req := req <| rq_timeout := (deadline - t)%Z |> in
          ((rq_timeout req <=? 0)%Z, w, req)
        else (false, w, req) in
      if expired : bool then Some (Some (bodyClient ErrTimeout), w, req, resp)
      else
        let '(_, err, w, req, resp) := call_do w req resp in
        match err with
        | None => Some (None, w, req, resp)
        | Some e =>
            if hasBodyStream then Some (Some e, w, req, resp)
            else
              let attempts := (attempts + 1)%Z in
              if (attempts >=? maxAttempts)%Z then Some (Some e, w, req, resp)
              else
                let '(sleepDuration, resetReqTimeout, retry) :=
                  match cf_RetryIf hc with
                  | Some f => f attempts e
                  | None => (0%Z, false, isIdempotent req)
                  end in
                if retry : bool then
                  let w := if (sleepDuration >? 0)%Z then call_sleep w sleepDuration else w in
                  let '(deadline, w) := if (resetReqTimeout : bool) && (timeout >? 0)%Z
                                        then let '(t, w) := call_now w in ((t + timeout)%Z, w)
                                        else (deadline, w) in
                  Do_loop fuel hc maxAttempts timeout hasBodyStream w deadline attempts req resp
                else Some (Some e, w, req, resp)
        end
  end.

(** The retry function of the request is looked up and not used; [None] does not happen,
    since there is at most one attempt more than [maxAttempts]. *)
Definition Do (hc : Config) (w : W) (req : Request) (resp : Response)
    : option (option body_error * W * Request * Response) :=
  let maxAttempts := Request.MaxAttempts req in
  let maxAttempts := if (maxAttempts <=? 0)%Z then cf_MaxIdemponentCallAttempts hc else maxAttempts in
  let retryIf := match Request.RetryIf req with Some f => Some f | None => cf_RetryIf hc end in
  let hasBodyStream := Request.IsBodyStream req in
  let timeout := rq_timeout req in
  let '(deadline, w) := if (timeout >? 0)%Z then let '(t, w) := call_now w in ((t + timeout)%Z, w)
                        else (0%Z, w) in
  '(err, w, req, resp) ←
    Do_loop (S (Z.to_nat maxAttempts)) hc maxAttempts timeout hasBodyStream w deadline 0 req resp;
  let req := req <| rq_timeout := timeout |> in
  let err := if bool_decide (err = Some (bodyIO EOF)) then Some (bodyClient ErrConnectionClosed) else err in
  Some (err, w, req, resp).
End attempts.

(** * Redirects *)

Definition StatusCodeIsRedirect (statusCode : Z) : bool :=
  (statusCode =? StatusMovedPermanently)%Z || (statusCode =? StatusFound)%Z
  || (statusCode =? StatusSeeOther)%Z || (statusCode =? StatusTemporaryRedirect)%Z
  || (statusCode =? StatusPermanentRedirect)%Z.

(** What a slice of [old] reads after [new] was written over the start of its array. *)
Definition overwritten (old new : bytes) : bytes := take (length old) (new ++ drop (length new) old).

(** [oldScheme] is a slice of the buffer the new scheme is written to. [None] is a panic:
    of [Update], or of slicing a base shorter than its scheme. *)
Definition getRedirectURL (baseURL location : bytes) (disablePathNormalizing hostSchemeSameCheck : bool)
    : option (bytes + client_error) :=
  u0 ← URI.Update URI_zero baseURL;
  u ← URI.UpdateBytes u0 location;
  let oldScheme := match scheme u0 with [] => strHTTP | s => overwritten s (scheme u) end in
  if hostSchemeSameCheck && negb (Equal (URI.Scheme u) oldScheme)
  then Some (inr ErrHostClientRedirectToDifferentScheme)
  else
    let n := length (URI.Scheme u) + length strColonSlashSlash in
    if hostSchemeSameCheck && (length baseURL <? n) then None
    else if hostSchemeSameCheck && negb (HasPrefix (drop n baseURL) (URI.Host u))
    then Some (inr ErrHostClientRedirectToDifferentHost)
    else Some (inl (URI.String (u <| DisablePathNormalizing := disablePathNormalizing |>)).1).

Section redirects.
Context {W : Type} (call_Do : W → Request → Response → option body_error * W * Request * Response).

(** One round per redirect; [None] is a panic. *)
Fixpoint follow_loop (fuel : nat) (hostSchemeSameCheck : bool) (maxRedirectsCount redirectsCount : Z)
    (url : bytes) (statusCode : Z) (w : W) (req : Request) (resp : Response)
    : option (Z * option body_error * W * Request * Response) :=
  match fuel with
  | O => None
  | S fuel =>
      let req := Request.SetRequestURI req url in
      let '(req, perr) := Request.parseURI req in
      match perr with
      | Some e => Some (0%Z, Some (bodyURI e), w, req, resp)
      | None =>
          let '(err, w, req, resp) := call_Do w req resp in
          match err with
          | Some e => Some (statusCode, Some e, w, req, resp)
          | None =>
              let statusCode := Response.StatusCode resp in
              if negb (StatusCodeIsRedirect statusCode) then Some (statusCode, None, w, req, resp)
              else
                let redirectsCount := (redirectsCount + 1)%Z in
                if (redirectsCount >? maxRedirectsCount)%Z
                then Some (statusCode, Some (bodyClient ErrTooManyRedirects), w, req, resp)
                else
                  let '(location, h) := ResponseHeader.peek (re_Header resp) strLocation in
                  let resp := resp <| re_Header := h |> in
                  match location with
                  | [] => Some (statusCode, Some (bodyClient ErrMissingLocation), w, req, resp)
                  | _ =>
                      res ← getRedirectURL url location (rq_DisableRedirectPathNormalizing req)
                              hostSchemeSameCheck;
                      match res with
                      | inr e => Some (statusCode, Some (bodyClient e), w, req, resp)
                      | inl url =>
                          follow_loop fuel hostSchemeSameCheck maxRedirectsCount redirectsCount url
                            statusCode w req resp
                      end
                  end
          end
      end
  end.

Definition doRequestFollowRedirects (hostSchemeSameCheck : bool) (w : W) (req : Request) (resp : Response)
    (url : bytes) (maxRedirectsCount : Z) : option (Z * option body_error * W * Request * Response) :=
  follow_loop (S (S (Z.to_nat maxRedirectsCount))) hostSchemeSameCheck maxRedirectsCount 0 url 0 w req resp.

(** [DoRedirects] of both clients. *)
Definition DoRedirects (hostSchemeSameCheck : bool) (w : W) (req : Request) (resp : Response)
    (maxRedirectsCount : Z) : option (Z * option body_error * W * Request * Response) :=
  let '(u, req) := Request.URI req in
  let '(url, u) := URI.String u in
  doRequestFollowRedirects hostSchemeSameCheck w (req <| rq_uri := u |>) resp url maxRedirectsCount.
End redirects.

(** * The hosts of a client *)

(** [cl_registered] counts how often the client was given to the cleaner; the maps are
    [None] before they are made. *)
Record Client := mkClient {
  cl_config : Config;
  cl_m : option (gmap bytes HostSettings);
  cl_ms : option (gmap bytes HostSettings);
  cl_cleanStart : bool;
  cl_registered : nat
}.

#[global] Instance Client_etable : Etable Client :=
  λ c, mkClient (cl_config c) (cl_m c) (cl_ms c) (cl_cleanStart c) (cl_registered c).

Module Client.
(** [mOnce] makes both maps. *)
Definition init (c : Client) : Client :=
  c <| cl_m := Some (default ∅ (cl_m c)) |> <| cl_ms := Some (default ∅ (cl_ms c)) |>.

Definition hosts (c : Client) (isTLS : bool) : gmap bytes HostSettings :=
  default ∅ (if isTLS then cl_ms c else cl_m c).

Definition setHosts (c : Client) (isTLS : bool) (m : gmap bytes HostSettings) : Client :=
  if isTLS then c <| cl_ms := Some m |> else c <| cl_m := Some m |>.

Definition HostClient (c : Client) (host : bytes) (isTls : bool) : option HostSettings :=
  hosts c isTls !! host.

(** Registers the client with the cleaner, once per start. *)
Definition startCleaner (c : Client) : Client :=
  if negb (cl_cleanStart c) && (0 <=? cf_MaxIdleConnDuration (cl_config c))%Z
  then c <| cl_registered := S (cl_registered c) |> <| cl_cleanStart := true |> else c.

(** [configure] is [ConfigureClient]. *)
Definition createHostClient (configure : option (HostSettings → HostSettings * option client_error))
    (c : Client) (host : bytes) (isTLS : bool) : (HostSettings + client_error) * Client :=
  let c := init c in
  match hosts c isTLS !! host with
  | Some hc => (inl hc, c)
  | None =>
      let c := c <| cl_config := (cl_config c) <| cf_Addrs := [AddMissingPort host isTLS] |>
                                               <| cf_IsTLS := isTLS |> |> in
      match NewHostClient (cl_config c) with
      | (_, Some err) => (inr err, c)
      | (hc, None) =>
          let c := startCleaner c in
          match configure with
          | Some f =>
              match f hc with
              | (_, Some err) => (inr err, c)
              | (hc, None) => (inl hc, setHosts c isTLS (<[host := hc]> (hosts c isTLS)))
              end
          | None => (inl hc, setHosts c isTLS (<[host := hc]> (hosts c isTLS)))
          end
      end
  end.

Definition AddHostClient (c : Client) (host : bytes) (hc : HostSettings) : Client :=
  let c := init c in
  let isTLS := cf_IsTLS (hs_config hc) in
  startCleaner (setHosts c isTLS (<[host := hc]> (hosts c isTLS))).

(** A host is dropped when it has no connections and no requests. *)
Definition idleHost (hc : HostSettings) : bool :=
  (hc_connsCount (hs_pool hc) =? 0)%Z && (hs_pendingClientRequests hc =? 0)%Z.

Definition cleanMap (m : option (gmap bytes HostSettings)) : option (gmap bytes HostSettings) :=
  filter (λ kv, idleHost kv.2 = false) <$> m.

Definition Clean (c : Client) : Z * bool * Client :=
  let du := cf_MaxIdleConnDuration (cl_config c) in
  let du := if (du =? 0)%Z then DefaultMaxIdleConnDuration else du in
  let du := if (du <? second)%Z then second else du in
  let c := c <| cl_m := cleanMap (cl_m c) |> <| cl_ms := cleanMap (cl_ms c) |> in
  let stop := bool_decide (hosts c false = ∅) && bool_decide (hosts c true = ∅) in
  (du, stop, c <| cl_cleanStart := false |>).

(** Which host client [Client.Do] asks. *)
Definition pickHost (configure : option (HostSettings → HostSettings * option client_error))
    (c : Client) (req : Request) : (HostSettings + client_error) * Client * Request :=
  let '(uri, req) := Request.URI req in
  let host := URI.Host uri in
  if bool_decide (is_Some (IndexByte host ","%byte)) then (inr (errInvalidHost host), c, req)
  else if negb (URI.isHTTPS uri) && negb (URI.isHTTP uri)
  then (inr (errUnsupportedProtocol (URI.Scheme uri)), c, req)
  else let '(res, c) := createHostClient configure c host (URI.isHTTPS uri) in (res, c, req).
End Client.
