(* ===== verification/ClientFacts.v ===== *)
(** Laws of the attempts, redirects and exchanges of a client. *)

From Stdlib Require Import ZArith Strings.Byte.
From stdpp Require Import prelude strings list gmap.
From S2P Require Import Prelude Tables Bufio Bytesconv Args Uri PathFacts Headers HeaderScan Body ReqHeader RespHeader Http HttpResp HostClient Client.

(** * Counting calls *)

Section counting.
Context {W : Type}.

(** The world with the number of calls made in it. *)
Definition counted (f : W → Request → Response → bool * option body_error * W * Request * Response)
    (nw : nat * W) (q : Request) (p : Response) : bool * option body_error * (nat * W) * Request * Response :=
  let '(b, e, w, q, p) := f nw.2 q p in (b, e, (S nw.1, w), q, p).

Definition counted_now (now : W → Z * W) (nw : nat * W) : Z * (nat * W) :=
  let '(t, w) := now nw.2 in (t, (nw.1, w)).

Definition counted_sleep (sleep : W → Z → W) (nw : nat * W) (d : Z) : nat * W := (nw.1, sleep nw.2 d).

Definition counted_Do (f : W → Request → Response → option body_error * W * Request * Response)
    (nw : nat * W) (q : Request) (p : Response) : option body_error * (nat * W) * Request * Response :=
  let '(e, w, q, p) := f nw.2 q p in (e, (S nw.1, w), q, p).
End counting.

(** * Attempts *)

Section attempts.
Context {W : Type} (now : W → Z * W) (sleep : W → Z → W).
Context (do_ : W → Request → Response → bool * option body_error * W * Request * Response).

(** The loop ends here, after [n] calls. *)
Ltac leave n := eexists _, n, _, _, _; split; [reflexivity|]; split_and!; solve [cbn; lia|done].

Let loop := Do_loop (counted_now now) (counted_sleep sleep) (counted do_).

Definition attempts_left (maxAttempts attempts : Z) : nat := Z.to_nat (Z.max 1 (maxAttempts - attempts)).

Lemma Do_loop_bound fuel hc maxAttempts timeout stream nw deadline attempts req resp :
  attempts_left maxAttempts attempts ≤ fuel →
  ∃ err n' w' req' resp',
    loop fuel hc maxAttempts timeout stream nw deadline attempts req resp = Some (err, (n', w'), req', resp') ∧
    nw.1 ≤ n' ≤ nw.1 + attempts_left maxAttempts attempts ∧ (stream = true → n' ≤ nw.1 + 1) ∧
    (n' = nw.1 → err = Some (bodyClient ErrTimeout)).
Proof.
  unfold loop, attempts_left. revert nw deadline attempts req resp.
  induction fuel as [|fuel IH]; intros [n w] deadline attempts req resp Hf; [lia|]. cbn [Do_loop fst snd] in *.
  set (start := if (timeout >? 0)%Z then _ else _).
  assert (start.1.2.1 = n) as Hn.
  { unfold start, counted_now. destruct (timeout >? 0)%Z; [|done]. cbn. by destruct (now w). }
  destruct start as [[expired [n1 w1]] req1]. cbn in Hn. subst n1.
  destruct expired; [leave n|].
  unfold counted at 1. cbn [fst snd]. destruct (do_ w1 req1 resp) as [[[[b [e|]] w2] req2] resp2].
  2: leave (S n).
  destruct stream; [leave (S n)|].
  destruct (Z.geb_spec (attempts + 1) maxAttempts) as [Hge|Hlt].
  { leave (S n). }
  set (decision := match cf_RetryIf hc with Some f => _ | None => _ end).
  destruct decision as [[pause reset] [|]]; [|leave (S n)].
  set (w3 := if (pause >? 0)%Z then _ else _).
  assert (w3.1 = S n) as Hn3 by (unfold w3; by destruct (pause >? 0)%Z).
  set (again := if reset && (timeout >? 0)%Z then _ else _).
  assert (again.2.1 = S n) as Hn4.
  { unfold again, counted_now. destruct (reset && _); [|done]. by destruct (now w3.2). }
  destruct again as [deadline4 [n4 w4]]. cbn in Hn4. subst n4.
  destruct (IH (S n, w4) deadline4 (attempts + 1)%Z req2 resp2) as (err&n'&w'&req'&resp'&->&Hle&_&He); [lia|].
  cbn in Hle, He. exists err, n', w', req', resp'. split_and!; [done|cbn; lia..|done|].
  intros E. cbn in E. lia.
Qed.

Definition max_attempts (hc : Config) (req : Request) : Z :=
  if (Request.MaxAttempts req <=? 0)%Z then cf_MaxIdemponentCallAttempts hc else Request.MaxAttempts req.

Lemma Do_bound hc w req resp :
  ∃ err n w' req' resp',
    Do (counted_now now) (counted_sleep sleep) (counted do_) hc (0, w) req resp = Some (err, (n, w'), req', resp') ∧
    (Z.of_nat n ≤ Z.max 1 (max_attempts hc req))%Z ∧ (Request.IsBodyStream req = true → n ≤ 1) ∧
    (n = 0 → err = Some (bodyClient ErrTimeout)) ∧ rq_timeout req' = rq_timeout req ∧ err ≠ Some (bodyIO EOF).
Proof.
  unfold Do. fold (max_attempts hc req).
  set (start := if (rq_timeout req >? 0)%Z then _ else _).
  assert (start.2.1 = 0) as Hn.
  { unfold start, counted_now. destruct (_ >? 0)%Z; [|done]. cbn. by destruct (now w). }
  destruct start as [deadline [n0 w0]]. cbn in Hn. subst n0.
  destruct (Do_loop_bound (S (Z.to_nat (max_attempts hc req))) hc (max_attempts hc req) (rq_timeout req)
    (Request.IsBodyStream req) (0, w0) deadline 0 req resp) as (err&n'&w'&req'&resp'&E&Hle&Hs&He);
    [unfold attempts_left; lia|].
  unfold loop in E. rewrite E. cbn [mbind option_bind].
  eexists _, n', w', _, resp'. split; [reflexivity|]. unfold attempts_left in Hle. cbn in *.
  split_and!; [lia|done| |done|].
  - intros ->. by rewrite (He eq_refl), bool_decide_false.
  - by case_bool_decide.
Qed.
End attempts.

(** A transport that always fails the same way: the number of attempts depends on the
    method and the limit alone. *)
Section failing.
Context {W : Type} (now : W → Z * W) (sleep : W → Z → W) (b : bool) (e : body_error).

Definition failing (w : W) (q : Request) (p : Response) : bool * option body_error * W * Request * Response :=
  (b, Some e, w, q, p).

Ltac same_count :=
  match goal with |- Some (_, (?a, _), _, _) = Some (_, (?b, _), _, _) => by replace b with a by lia end.

Lemma Do_loop_failing fuel hc maxAttempts timeout n w deadline attempts req resp :
  cf_RetryIf hc = None → (timeout ≤ 0)%Z → attempts_left maxAttempts attempts ≤ fuel →
  Do_loop (counted_now now) (counted_sleep sleep) (counted failing) fuel hc maxAttempts timeout false (n, w)
    deadline attempts req resp
  = Some (Some e, (n + (if isIdempotent req then attempts_left maxAttempts attempts else 1), w), req, resp).
Proof.
  intros Hr Ht. unfold attempts_left. revert n w deadline attempts.
  induction fuel as [|fuel IH]; intros n w deadline attempts Hf; [lia|]. cbn [Do_loop].
  destruct (Z.gtb_spec timeout 0); [lia|]. unfold counted at 1. cbn [fst snd failing].
  destruct (Z.geb_spec (attempts + 1) maxAttempts) as [Hge|Hlt].
  { destruct (isIdempotent req); same_count. }
  rewrite Hr. cbv beta iota. destruct (isIdempotent req); [|same_count].
  change (0 >? 0)%Z with false. cbn [andb]. rewrite (IH (S n) w deadline (attempts + 1)%Z) by lia.
  same_count.
Qed.
End failing.

(** * Configuration *)

Lemma defaults_strategy config :
  cf_ConnPoolStrategy (connsDefault (attemptsDefault (idleDefault (dialDefault (nameDefault (bufferDefaults config))))))
  = cf_ConnPoolStrategy config.
Proof.
  assert (∀ c, cf_ConnPoolStrategy (connsDefault c) = cf_ConnPoolStrategy c) as ->
    by (intros; unfold connsDefault; by case_match).
  assert (∀ c, cf_ConnPoolStrategy (attemptsDefault c) = cf_ConnPoolStrategy c) as ->
    by (intros; unfold attemptsDefault; by case_match).
  assert (∀ c, cf_ConnPoolStrategy (idleDefault c) = cf_ConnPoolStrategy c) as ->
    by (intros; unfold idleDefault; by case_match).
  assert (∀ c, cf_ConnPoolStrategy (dialDefault c) = cf_ConnPoolStrategy c) as ->
    by (intros; unfold dialDefault; by repeat case_match).
  assert (∀ c, cf_ConnPoolStrategy (nameDefault c) = cf_ConnPoolStrategy c) as ->
    by (intros; unfold nameDefault; by case_match).
  unfold bufferDefaults. destruct (cf_ReadBufferSize config <=? 0)%Z; by case_match.
Qed.

Lemma NewHostClient_ok config :
  is_Some (cf_ConnPoolStrategy config) → (NewHostClient config).2 = None.
Proof. intros [s Hs]. unfold NewHostClient. cbn [snd]. by rewrite defaults_strategy, Hs. Qed.

(** * Redirects *)

Section redirects.

(** A path that is empty or was normalized. *)
Definition rooted (u : URI) : Prop := path u = [] ∨ ∃ src, path u = normalizePath src.

Lemma normalizePath_slash src : LastIndexByte (normalizePath src) "/" ≠ None.
Proof.
  destruct (normalizePath_segments src) as (I&t&E&_). rewrite E.
  rewrite (PathFacts.path_of_app I [t]). intros HN.
  assert ("/"%byte ∈ path_of I ++ path_of [t]) as Hin by (apply elem_of_app; right; by left).
  by apply LastIndexByte_None in HN.
Qed.

Lemma rooted_slash u : rooted u → LastIndexByte (URI.Path u) "/" ≠ None.
Proof.
  intros [E|[src E]]; unfold URI.Path; rewrite E; [done|].
  destruct (normalizePath src) eqn:En; [done|]. rewrite <- En. apply normalizePath_slash.
Qed.

Lemma parsePath_rooted u b : rooted (URI.parsePath u b).
Proof. unfold URI.parsePath. right. repeat case_match; by eexists. Qed.

Lemma Parse_rooted u h uri : rooted (URI.Parse u h uri).1.
Proof.
  unfold URI.Parse, URI.parse. destruct (stringContainsCTLByte uri); [by left|].
  set (start := if _ || _ then _ else _).
  assert (path start.1.1 = []) as Hp.
  { unfold start. destruct (_ || _); [|done]. by destruct (splitHostURI _ _) as [[? ?] ?]. }
  destruct start as [[u1 h1] uri1]. cbn in Hp. cbn [fst].
  assert (path (URI.parseAuth u1 h1).1 = []) as Ha.
  { unfold URI.parseAuth. repeat case_match; done. }
  destruct (URI.parseAuth u1 h1) as [u2 h2]. cbn [fst] in Ha.
  destruct (parseHost h2); [apply parsePath_rooted|]. left. done.
Qed.

Lemma UpdateBytes_total u loc : rooted u → ∃ u', URI.UpdateBytes u loc = Some u' ∧ rooted u'.
Proof.
  intros Hr. unfold URI.UpdateBytes, URI.updateBytes. destruct loc as [|c rest]; [by eexists|].
  assert (∀ b, rooted (URI.Parse u [] b).1) as Hp by (intros; apply Parse_rooted).
  destruct (Index (c :: rest) strSlashSlash).
  { specialize (Hp (c :: rest)). destruct (URI.Parse u [] (c :: rest)) as [u1 [err|]]; cbn [mbind option_bind];
      eexists; (split; [reflexivity|]); [done|]. by destruct (_ && _). }
  assert (∀ b, ∃ u', ('(b, u) ← (let '(u, err) := URI.Parse u [] b in
     Some (match err with Some _ => [] | None => b end, u)); Some (u <| requestURI := b |>)) = Some u' ∧ rooted u') as Hre.
  { intros b. specialize (Hp b). destruct (URI.Parse u [] b) as [u1 err]. cbn [mbind option_bind]. by eexists. }
  case_bool_decide; [apply Hre|]. case_bool_decide; [by eexists|]. case_bool_decide; [by eexists|].
  pose proof (rooted_slash u Hr) as Hs. destruct (LastIndexByte (URI.Path u) "/"); [apply Hre|done].
Qed.

Lemma getRedirectURL_total base loc disable :
  is_Some (getRedirectURL base loc disable false).
Proof.
  unfold getRedirectURL, URI.Update.
  destruct (UpdateBytes_total URI_zero base) as (u0&->&H0); [by left|]. cbn [mbind option_bind].
  destruct (UpdateBytes_total u0 loc H0) as (u&->&_). cbn [mbind option_bind andb]. done.
Qed.

Context {W : Type} (do_ : W → Request → Response → option body_error * W * Request * Response).

Definition redirects_left (maxRedirects count : Z) : nat := Z.to_nat (maxRedirects - count).

Lemma follow_loop_bound fuel maxRedirects count url code nw req resp :
  redirects_left maxRedirects count < fuel →
  ∃ code' err n' w' req' resp',
    follow_loop (counted_Do do_) fuel false maxRedirects count url code nw req resp
    = Some (code', err, (n', w'), req', resp') ∧ n' ≤ nw.1 + S (redirects_left maxRedirects count).
Proof.
  unfold redirects_left. revert count url code nw req resp.
  induction fuel as [|fuel IH]; intros count url code [n w] req resp Hf; [lia|]. cbn [follow_loop fst].
  destruct (Request.parseURI _) as [req1 [e|]].
  { eexists _, _, n, _, _, _. split; [reflexivity|lia]. }
  unfold counted_Do at 1. cbn [fst snd]. destruct (do_ w req1 resp) as [[[[e|] w1] req2] resp1].
  { eexists _, _, (S n), _, _, _. split; [reflexivity|lia]. }
  destruct (StatusCodeIsRedirect _); cbn [negb]; [|eexists _, _, (S n), _, _, _; split; [reflexivity|lia]].
  destruct (Z.gtb_spec (count + 1) maxRedirects) as [Hgt|Hle].
  { eexists _, _, (S n), _, _, _. split; [reflexivity|lia]. }
  destruct (ResponseHeader.peek _ _) as [[|c loc] h].
  { eexists _, _, (S n), _, _, _. split; [reflexivity|lia]. }
  destruct (getRedirectURL_total url (c :: loc) (rq_DisableRedirectPathNormalizing req2)) as [res ->].
  cbn [mbind option_bind]. destruct res as [url'|e]; [|eexists _, _, (S n), _, _, _; split; [reflexivity|lia]].
  destruct (IH (count + 1)%Z url' (Response.StatusCode resp1) (S n, w1) req2 (resp1 <| re_Header := h |>))
    as (code'&err&n'&w'&req'&resp'&->&Hn); [lia|].
  eexists _, _, n', _, _, _. split; [reflexivity|]. cbn in Hn. lia.
Qed.
End redirects.

(** * Exchanges *)

Section stream_close.
Context (env : exchange_env) (cc : clientConn).

Lemma closeResponseStream_released (b1 b2 b3 s : bool) wErr :
  closeResponseStream env cc (b1 || b2 || b3) s wErr = released cc → wErr = None ∧ b2 = false ∧ b3 = false.
Proof. unfold closeResponseStream. by destruct b1, b2, b3, wErr. Qed.

Lemma closeResponseStream_one close s wErr :
  closeResponseStream env cc close s wErr = closed cc ∨ closeResponseStream env cc close s wErr = released cc.
Proof.
  unfold closeResponseStream. destruct (close || bool_decide (is_Some wErr)); [by left|].
  destruct (if s then ev_clearDeadline env else None); [by left|by right].
Qed.
End stream_close.
