(* ===== verification/UserData.v ===== *)
(** userdata.go: the values a handler attaches to a request, a slice of key-value pairs, and
    the map it implements. *)

From Stdlib Require Import ZArith Strings.Byte.
From stdpp Require Import prelude strings list gmap.
From S2P Require Import Prelude.

(** * Keys and values *)

(** The dynamic types of a key that the code tells apart: a string, a byte slice, another
    comparable value, and a value whose type [ty] cannot be compared. *)
Inductive anyKey :=
  | keyString (s : bytes)
  | keyBytes (b : bytes)
  | keyOther (n : nat)
  | keyUncomparable (ty n : nat).

#[global] Instance anyKey_eq_decision : EqDecision anyKey.
Proof. solve_decision. Defined.

(** A value that is not nil: its identity, and whether it is an [io.Closer]. *)
Record anyValue := mkValue { v_id : nat; v_closer : bool }.

#[global] Instance anyValue_eq_decision : EqDecision anyValue.
Proof. solve_decision. Defined.

(** [==] on interfaces; [None] is the panic on two values of the same uncomparable type. *)
Definition any_eq (a b : option anyKey) : option bool :=
  match a, b with
  | Some (keyBytes _), Some (keyBytes _) => None
  | Some (keyUncomparable t _), Some (keyUncomparable t' _) => if bool_decide (t = t') then None else Some false
  | _, _ => Some (bool_decide (a = b))
  end.

(** * The slice *)

(** Keys and values can be nil; the elements behind the length are stale. *)
Record userDataKV := mkKV { kv_key : option anyKey; kv_value : option anyValue }.
Record userData := mkUserData { ud_live : list userDataKV; ud_stale : list userDataKV }.

Definition userData_zero : userData := mkUserData [] [].

(** The conversion of a byte-slice key that [Set], [Get] and [Remove] start with. *)
Definition stringKey (key : option anyKey) : option anyKey :=
  match key with Some (keyBytes b) => Some (keyString b) | k => k end.

(** The index of the first element with the key. *)
Fixpoint find_key (key : option anyKey) (l : list userDataKV) : option (option nat) :=
  match l with
  | [] => Some None
  | kv :: l =>
      b ← any_eq (kv_key kv) key;
      if b : bool then Some (Some 0) else option_map (option_map S) (find_key key l)
  end.

Module userData.
(** The two ways to grow, into a stale element and by [append], leave the same slice. *)
Definition Set_ (d : userData) (key : option anyKey) (value : option anyValue) : option userData :=
  let key := stringKey key in
  found ← find_key key (ud_live d);
  Some match found with
       | Some i => mkUserData (<[i := mkKV key value]> (ud_live d)) (ud_stale d)
       | None =>
           match value with
           | None => d
           | Some _ => mkUserData (ud_live d ++ [mkKV key value]) (tail (ud_stale d))
           end
       end.

Definition SetBytes (d : userData) (key : bytes) (value : option anyValue) : option userData :=
  Set_ d (Some (keyBytes key)) value.

Definition Get (d : userData) (key : option anyKey) : option (option anyValue) :=
  let key := stringKey key in
  found ← find_key key (ud_live d);
  Some match found with
       | Some i => ud_live d !! i ≫= kv_value
       | None => None
       end.

Definition GetBytes (d : userData) (key : bytes) : option (option anyValue) := Get d (Some (keyBytes key)).

(** [Reset] closes the values that are closers, in order, and clears every element. *)
Definition Reset (d : userData) : list nat * userData :=
  (omap (λ kv, v ← kv_value kv; if v_closer v then Some (v_id v) else None) (ud_live d),
   mkUserData [] ((λ _, mkKV None None) <$> ud_live d ++ ud_stale d)).

(** [Remove] swaps the element with the last one and shortens the slice. *)
Definition Remove (d : userData) (key : option anyKey) : option userData :=
  let key := stringKey key in
  found ← find_key key (ud_live d);
  Some match found with
       | Some i =>
           let n := length (ud_live d) - 1 in
           match ud_live d !! i, ud_live d !! n with
           | Some x, Some y =>
               mkUserData (take n (<[i := y]> (ud_live d))) (mkKV (kv_key x) None :: ud_stale d)
           | _, _ => d
           end
       | None => d
       end.

Definition RemoveBytes (d : userData) (key : bytes) : option userData := Remove d (Some (keyBytes key)).
End userData.

(** * The map *)

(** What the operations promise: each key once, no byte slices among them. *)
Definition userData_ok (d : userData) : Prop :=
  NoDup (kv_key <$> ud_live d) ∧ Forall (λ k, stringKey k = k) (kv_key <$> ud_live d).

(** A key that can be compared with every key of the slice. *)
Definition comparable (key : option anyKey) : Prop :=
  match key with Some (keyUncomparable _ _) => False | _ => True end.

(** The map a slice stands for: the value of the element with the key, nil otherwise. *)
Fixpoint assoc (key : option anyKey) (l : list userDataKV) : option anyValue :=
  match l with
  | [] => None
  | kv :: l => if decide (kv_key kv = key) then kv_value kv else assoc key l
  end.

Definition value_of (d : userData) (key : option anyKey) : option anyValue :=
  assoc (stringKey key) (ud_live d).

Section facts.
Implicit Types (d : userData) (l : list userDataKV) (key : option anyKey).

Definition keys_ok l : Prop := Forall (λ k, stringKey k = k) (kv_key <$> l).

Lemma stringKey_idem key : stringKey (stringKey key) = stringKey key.
Proof. by destruct key as [[]|]. Qed.

Lemma any_eq_spec a key :
  stringKey a = a → comparable key → any_eq a (stringKey key) = Some (bool_decide (a = stringKey key)).
Proof. by destruct a as [[]|], key as [[]|]. Qed.

(** The search cannot panic, and finds the first element with the key. *)
Lemma find_key_spec l key :
  keys_ok l → comparable key →
  (∃ l1 kv l2, l = l1 ++ kv :: l2 ∧ kv_key kv = stringKey key ∧ stringKey key ∉ kv_key <$> l1 ∧
     find_key (stringKey key) l = Some (Some (length l1))) ∨
  (stringKey key ∉ kv_key <$> l ∧ find_key (stringKey key) l = Some None).
Proof.
  intros Hl Hk. induction l as [|kv l IH]; [right; split; [apply not_elem_of_nil|done]|].
  unfold keys_ok in *. cbn in Hl. apply Forall_cons in Hl as [Hkv Hl]. cbn [find_key].
  rewrite any_eq_spec by done. cbn. case_bool_decide as E.
  - left. exists [], kv, l. split_and!; [done|done|apply not_elem_of_nil|done].
  - destruct (IH Hl) as [(l1&kv'&l2&->&?&?&->)|[? ->]].
    + left. exists (kv :: l1), kv', l2. split_and!; [done|done| |done]. cbn. set_solver.
    + right. split; [|done]. set_solver.
Qed.

Lemma assoc_app key l1 l2 : key ∉ kv_key <$> l1 → assoc key (l1 ++ l2) = assoc key l2.
Proof.
  induction l1 as [|kv l1 IH]; cbn; [done|]. intros H. rewrite decide_False by set_solver.
  apply IH. set_solver.
Qed.

Lemma assoc_None key l : key ∉ kv_key <$> l → assoc key l = None.
Proof. intros H. rewrite <- (app_nil_r l), assoc_app; done. Qed.

(** Where keys are unique the order of the elements does not matter. *)
Lemma assoc_perm key l l' : NoDup (kv_key <$> l) → l ≡ₚ l' → assoc key l = assoc key l'.
Proof.
  intros Hnd Hp. induction Hp as [|kv l l' _ IH|kv kv' l|l l' l'' H1 IH1 _ IH2]; cbn in *.
  - done.
  - apply NoDup_cons in Hnd as [_ ?]. by rewrite IH.
  - apply NoDup_cons in Hnd as [Hni _].
    repeat case_decide; try done. set_solver.
  - rewrite IH1 by done. apply IH2. by rewrite <- H1.
Qed.

(** The element at an index swapped with the last one and cut off. *)
Lemma swap_remove l1 (kv : userDataKV) l2 :
  let l := l1 ++ kv :: l2 in let n := length l - 1 in
  ∃ y, l !! n = Some y ∧ kv :: take n (<[length l1 := y]> l) ≡ₚ l.
Proof.
  cbv zeta. destruct (exists_last (l := kv :: l2)) as (m&y&E); [done|]. rewrite !E.
  exists y. rewrite length_app, length_app. cbn [length].
  replace (length l1 + (length m + 1) - 1) with (length (l1 ++ m)) by (rewrite length_app; lia).
  rewrite (app_assoc l1 m). rewrite lookup_app_r, Nat.sub_diag by done. split; [done|].
  rewrite <- app_assoc. rewrite insert_app_r_alt, Nat.sub_diag by done.
  destruct m as [|kv' m]; cbn in E; simplify_eq.
  - cbn. rewrite take_app_le, take_ge by (rewrite length_app; cbn; lia).
    rewrite (Permutation_cons_append l1). done.
  - change (<[0 := y]> ((kv' :: m) ++ [y])) with ((y :: m) ++ [y]).
    rewrite (app_assoc l1 (y :: m)), take_app_length' by (rewrite !length_app; done).
    cbn [app]. rewrite <- (Permutation_middle l1 m y), <- (Permutation_middle l1 (m ++ [y]) kv').
    f_equiv. rewrite (app_assoc l1). apply Permutation_cons_append.
Qed.
End facts.

(** * Refinement *)

(** Every operation keeps the slice well formed and acts on the map it stands for as the
    operation of a map does. *)
Section refinement.
Context (d : userData) (key : option anyKey) (Hd : userData_ok d) (Hkey : comparable key).

Lemma Get_value_of : userData.Get d key = Some (value_of d key).
Proof.
  unfold userData.Get, value_of. destruct Hd as [_ Hk].
  destruct (find_key_spec (ud_live d) key Hk Hkey) as [(l1&kv&l2&->&E&Hni&->)|[Hni ->]]; cbn.
  - rewrite list_lookup_middle, assoc_app by done. cbn. by rewrite decide_True.
  - by rewrite assoc_None.
Qed.

Lemma Set_value_of v :
  ∃ d', userData.Set_ d key v = Some d' ∧ userData_ok d' ∧
    ∀ k, value_of d' k = if decide (stringKey k = stringKey key) then v else value_of d k.
Proof.
  unfold userData.Set_, value_of. destruct d as [l st], Hd as [Hnd Hk]. cbn [ud_live ud_stale] in *.
  destruct (find_key_spec l key Hk Hkey) as [(l1&kv&l2&->&E&Hni&->)|[Hni ->]]; cbn [mbind option_bind].
  - eexists. split; [done|]. cbn [ud_live]. rewrite insert_app_r_alt, Nat.sub_diag by done. cbn.
    rewrite fmap_app in Hnd, Hk. split.
    + split; cbn [ud_live]; rewrite fmap_app; cbn [fmap list_fmap kv_key]; by rewrite <- E.
    + intros k. case_decide as Ek.
      * rewrite Ek, assoc_app by done. cbn. by rewrite decide_True.
      * clear Hnd Hk Hni. induction l1 as [|x l1 IH]; cbn; [by rewrite !decide_False by congruence|].
        by case_decide.
  - destruct v as [v|].
    + eexists. split; [done|]. cbn [ud_live]. split.
      * split; cbn [ud_live]; rewrite fmap_app; cbn.
        -- apply NoDup_app. split_and!; [done|set_solver|apply NoDup_singleton].
        -- apply Forall_app. split; [done|]. constructor; [apply stringKey_idem|done].
      * intros k. case_decide as Ek.
        -- rewrite Ek, assoc_app by done. cbn. by rewrite decide_True.
        -- clear Hnd Hk Hni. induction l as [|x l IH]; cbn; [by rewrite decide_False by congruence|].
           by case_decide.
    + exists (mkUserData l st). split; [done|]. split; [done|]. intros k. cbn. case_decide as Ek; [|done].
      rewrite Ek. by apply assoc_None.
Qed.

Lemma Remove_value_of :
  ∃ d', userData.Remove d key = Some d' ∧ userData_ok d' ∧
    ∀ k, value_of d' k = if decide (stringKey k = stringKey key) then None else value_of d k.
Proof.
  unfold userData.Remove, value_of. destruct d as [l st], Hd as [Hnd Hk]. cbn [ud_live ud_stale] in *.
  destruct (find_key_spec l key Hk Hkey) as [(l1&kv&l2&El&E&Hni&->)|[Hni ->]]; cbn [mbind option_bind].
  - destruct (swap_remove l1 kv l2) as (y&Hy&Hp). rewrite <- El in Hy, Hp. rewrite Hy.
    assert (l !! length l1 = Some kv) as -> by (by rewrite El, list_lookup_middle).
    eexists. split; [done|]. cbn [ud_live]. set (l' := take _ _) in *.
    assert (NoDup (kv_key <$> kv :: l')) as Hnd' by (by rewrite Hp).
    pose proof Hnd' as Hnd''. cbn in Hnd''. apply NoDup_cons in Hnd'' as [Hkv Hnd''].
    split; [split; [done|]|].
    + cbn [ud_live]. rewrite <- Hp in Hk. cbn in Hk. by apply Forall_cons in Hk as [_ ?].
    + intros k. rewrite <- (assoc_perm _ _ _ Hnd' Hp). cbn. rewrite E.
      case_decide as Ek; [rewrite Ek, assoc_None by (by rewrite <- E); done|].
      by rewrite decide_False.
  - exists (mkUserData l st). split; [done|]. split; [done|]. intros k. cbn. case_decide as Ek; [|done].
    rewrite Ek. by apply assoc_None.
Qed.
End refinement.

(** [Reset] closes every closer exactly once and leaves an empty map. *)
Lemma Reset_value_of d :
  userData_ok (userData.Reset d).2 ∧ (∀ k, value_of (userData.Reset d).2 k = None).
Proof. split; [split; [apply NoDup_nil_2|apply Forall_nil_2]|done]. Qed.
