(* ===== verification/PerIP.v ===== *)
(** peripconn.go: the connections of each address, counted, and the accounting of the
    counters when connections come and go concurrently. *)

From Stdlib Require Import ZArith Strings.Byte.
From stdpp Require Import prelude strings list gmap.
From S2P Require Import Prelude Bytesconv.

(** * Addresses *)

(** What the code tells apart of a remote address: a [*net.TCPAddr] with its [IP], or another
    kind. *)
Inductive netAddr :=
  | TCPAddr (ip : bytes)
  | otherAddr (what : bytes).

#[global] Instance netAddr_eq_decision : EqDecision netAddr.
Proof. solve_decision. Defined.

(** [net.IPv4zero] has the sixteen-byte form. *)
Definition IPv4zero : bytes := replicate 10 x00 ++ [xff; xff; x00; x00; x00; x00].

Definition getConnIP4 (addr : netAddr) : bytes :=
  match addr with
  | TCPAddr ip => default [] (To4 ip)
  | otherAddr _ => IPv4zero
  end.

Definition ip2uint32 (ip : bytes) : Z :=
  match ip with
  | [a; b; c; d] =>
      Z.lor (Z.lor (Z.lor (uint32 (Z.shiftl (bz a) 24)) (uint32 (Z.shiftl (bz b) 16)))
               (uint32 (Z.shiftl (bz c) 8))) (bz d)
  | _ => 0
  end.

Definition uint322ip (ip : Z) : bytes :=
  [zb (Z.shiftr ip 24); zb (Z.shiftr ip 16); zb (Z.shiftr ip 8); zb ip].

Definition getUint32IP (addr : netAddr) : Z := ip2uint32 (getConnIP4 addr).

(** * Counters *)

(** The map is [None] before the first [Register]. *)
Record perIPConnCounter := mkCounter { pi_m : option (gmap Z Z) }.

Definition perIP_count (cc : perIPConnCounter) (ip : Z) : Z := default 0%Z (default ∅ (pi_m cc) !! ip).

Module perIPConnCounter.
Definition Register (cc : perIPConnCounter) (ip : Z) : Z * perIPConnCounter :=
  let m := default ∅ (pi_m cc) in
  let n := (default 0 (m !! ip) + 1)%Z in
  (n, mkCounter (Some (<[ip := n]> m))).

(** [None] is the panic of a counter that never saw a [Register]. *)
Definition Unregister (cc : perIPConnCounter) (ip : Z) : option perIPConnCounter :=
  m ← pi_m cc;
  let n := (default 0 (m !! ip) - 1)%Z in
  let n := if (n <? 0)%Z then 0%Z else n in
  Some (mkCounter (Some (<[ip := n]> m))).
End perIPConnCounter.

(** * Counted connections *)

(** A connection wrapped for its address. The TLS variant has the same fields; [pc_conn] is
    nil after [Close]. *)
Record perIPConn := mkPerIPConn { pc_conn : option nat; pc_tls : bool; pc_ip : Z }.

(** The wrapper comes from a pool, which leaves nothing of its last use. *)
Definition acquirePerIPConn (conn : nat) (isTLS : bool) (ip : Z) : perIPConn :=
  mkPerIPConn (Some conn) isTLS ip.

(** [Close] of both kinds; [None] is a panic, the second [Close] of a wrapper among them. *)
Definition closePerIPConn (cc : perIPConnCounter) (c : perIPConn)
    : option (nat * perIPConn * perIPConnCounter) :=
  conn ← pc_conn c;
  cc ← perIPConnCounter.Unregister cc (pc_ip c);
  Some (conn, mkPerIPConn None (pc_tls c) (pc_ip c), cc).

(** * Round trips *)

Lemma ip2uint32_range a b c d : (0 ≤ ip2uint32 [a; b; c; d] < 2 ^ 32)%Z ∧
  ip2uint32 [a; b; c; d] = (bz a * 2 ^ 24 + bz b * 2 ^ 16 + bz c * 2 ^ 8 + bz d)%Z.
Proof.
  pose proof (bz_range a). pose proof (bz_range b). pose proof (bz_range c). pose proof (bz_range d).
  assert (ip2uint32 [a; b; c; d] = (bz a * 2 ^ 24 + bz b * 2 ^ 16 + bz c * 2 ^ 8 + bz d)%Z) as E; [|lia].
  unfold ip2uint32, wrapU. rewrite !Z.shiftl_mul_pow2 by done. rewrite !Z.mod_small by lia.
  rewrite <- !Z.shiftl_mul_pow2 by done. rewrite <- !Z.lor_assoc.
  rewrite (lor_shiftl_add (bz c) (bz d)) by lia.
  rewrite (lor_shiftl_add (bz b) (bz c * 2 ^ 8 + bz d)) by lia.
  rewrite lor_shiftl_add, !Z.shiftl_mul_pow2 by lia. lia.
Qed.

Lemma uint322ip_roundtrip n : (0 ≤ n < 2 ^ 32)%Z → ip2uint32 (uint322ip n) = n.
Proof.
  intros Hn. unfold uint322ip. rewrite (proj2 (ip2uint32_range _ _ _ _)), !bz_zb.
  rewrite !Z.shiftr_div_pow2 by done. change (2 ^ 24)%Z with (256 * 65536)%Z.
  change (2 ^ 16)%Z with (256 * 256)%Z. change (2 ^ 8)%Z with 256%Z. change 65536%Z with (256 * 256)%Z.
  rewrite !Z.mod_eq by done. rewrite !Z.div_div by done.
  assert (n / (256 * (256 * 256) * 256) = 0)%Z by (apply Z.div_small; lia).
  replace (256 * (256 * 256))%Z with (256 * 256 * 256)%Z in * by done.
  lia.
Qed.

Lemma ip2uint32_roundtrip ip : length ip = 4 → uint322ip (ip2uint32 ip) = ip.
Proof.
  destruct ip as [|a [|b [|c [|d [|]]]]]; try done. intros _.
  unfold uint322ip. rewrite (proj2 (ip2uint32_range _ _ _ _)).
  pose proof (bz_range a). pose proof (bz_range b). pose proof (bz_range c). pose proof (bz_range d).
  rewrite !Z.shiftr_div_pow2 by done.
  change (2 ^ 24)%Z with 16777216%Z. change (2 ^ 16)%Z with 65536%Z. change (2 ^ 8)%Z with 256%Z.
  repeat f_equal; apply bz_inj; rewrite bz_zb; Z.div_mod_to_equations; lia.
Qed.

(** * Accounting *)

(** The connections of a server with a limit, as [wrapPerIPConn] and [Close] drive them from
    many goroutines: a connection is registered, then either served until its [Close], or
    refused and unregistered. *)
Record perIP := mkPerIP { ps_counter : perIPConnCounter; ps_live : list Z; ps_refused : list Z }.

Inductive perIP_step (max : Z) : perIP → perIP → Prop :=
  | perIP_admit s ip n cc :
      perIPConnCounter.Register (ps_counter s) ip = (n, cc) → (n ≤ max)%Z →
      perIP_step max s (mkPerIP cc (ip :: ps_live s) (ps_refused s))
  | perIP_refuse s ip n cc :
      perIPConnCounter.Register (ps_counter s) ip = (n, cc) → (max < n)%Z →
      perIP_step max s (mkPerIP cc (ps_live s) (ip :: ps_refused s))
  | perIP_forget s ip l1 l2 cc :
      ps_refused s = l1 ++ ip :: l2 → perIPConnCounter.Unregister (ps_counter s) ip = Some cc →
      perIP_step max s (mkPerIP cc (ps_live s) (l1 ++ l2))
  | perIP_close s ip l1 l2 cc :
      ps_live s = l1 ++ ip :: l2 → perIPConnCounter.Unregister (ps_counter s) ip = Some cc →
      perIP_step max s (mkPerIP cc (l1 ++ l2) (ps_refused s)).

Definition perIP_init : perIP := mkPerIP (mkCounter None) [] [].

Definition of_ip (ip : Z) (l : list Z) : Z := Z.of_nat (count_occ Z.eq_dec l ip).

(** The counter of an address counts its connections, of which no more than the limit are
    served; an address has been counted once the counter exists. *)
Definition perIP_ok (max : Z) (s : perIP) : Prop :=
  (∀ ip, perIP_count (ps_counter s) ip = of_ip ip (ps_live s) + of_ip ip (ps_refused s))%Z ∧
  (∀ ip, of_ip ip (ps_live s) ≤ Z.max 0 max)%Z ∧
  (ps_live s ++ ps_refused s ≠ [] → is_Some (pi_m (ps_counter s))).

Lemma of_ip_cons ip x l : of_ip ip (x :: l) = (of_ip ip l + if decide (x = ip) then 1 else 0)%Z.
Proof.
  unfold of_ip. destruct (decide (x = ip)) as [->|?].
  - rewrite count_occ_cons_eq by done. lia.
  - rewrite count_occ_cons_neq by done. lia.
Qed.

Lemma of_ip_app ip l1 l2 : of_ip ip (l1 ++ l2) = (of_ip ip l1 + of_ip ip l2)%Z.
Proof. unfold of_ip. rewrite count_occ_app. lia. Qed.

Lemma of_ip_nonneg ip l : (0 ≤ of_ip ip l)%Z.
Proof. unfold of_ip. lia. Qed.

Lemma Register_count cc ip n cc' :
  perIPConnCounter.Register cc ip = (n, cc') →
  n = (perIP_count cc ip + 1)%Z ∧ is_Some (pi_m cc') ∧
  ∀ ip', perIP_count cc' ip' = (perIP_count cc ip' + if decide (ip = ip') then 1 else 0)%Z.
Proof.
  unfold perIPConnCounter.Register, perIP_count. intros [= <- <-].
  split_and!; [done|by eexists|]. intros ip'. cbn.
  destruct (decide (ip = ip')) as [->|?].
  - by rewrite lookup_insert_eq.
  - rewrite lookup_insert_ne by done. lia.
Qed.

Lemma Unregister_count cc ip :
  is_Some (pi_m cc) → (0 < perIP_count cc ip)%Z →
  ∃ cc', perIPConnCounter.Unregister cc ip = Some cc' ∧ is_Some (pi_m cc') ∧
    ∀ ip', perIP_count cc' ip' = (perIP_count cc ip' - if decide (ip = ip') then 1 else 0)%Z.
Proof.
  destruct cc as [[m|]]; intros [? [=]] Hn. unfold perIPConnCounter.Unregister, perIP_count in *. cbn in *.
  destruct (Z.ltb_spec (default 0 (m !! ip) - 1) 0)%Z; [lia|].
  eexists. split; [done|]. split; [by eexists|]. intros ip'. cbn.
  destruct (decide (ip = ip')) as [->|?].
  - by rewrite lookup_insert_eq.
  - rewrite lookup_insert_ne by done. lia.
Qed.

Lemma perIP_step_ok max s s' : perIP_ok max s → perIP_step max s s' → perIP_ok max s'.
Proof.
  intros (Hc&Hl&Hs) Hstep.
  assert (∀ ip l1 l2, (ps_refused s = l1 ++ ip :: l2 ∨ ps_live s = l1 ++ ip :: l2) →
    is_Some (pi_m (ps_counter s)) ∧ 0 < perIP_count (ps_counter s) ip)%Z as Hun.
  { intros ip l1 l2 [E|E]; (split; [apply Hs; rewrite E; by destruct (ps_live s), l1|]);
      rewrite Hc, E, of_ip_app, of_ip_cons, decide_True by done;
      pose proof (of_ip_nonneg ip (ps_live s)); pose proof (of_ip_nonneg ip (ps_refused s));
      pose proof (of_ip_nonneg ip l1); pose proof (of_ip_nonneg ip l2); lia. }
  destruct Hstep as [s ip n cc E Hn|s ip n cc E Hn|s ip l1 l2 cc El E|s ip l1 l2 cc El E].
  1, 2: destruct (Register_count _ _ _ _ E) as (->&Hm&Hr); split_and!; cbn [ps_counter ps_live ps_refused];
    [intros ip'; rewrite Hr, Hc, of_ip_cons; destruct (decide (ip = ip')); lia| |done].
  - intros ip'. pose proof (Hl ip'). rewrite Hc in Hn. pose proof (of_ip_nonneg ip (ps_refused s)).
    rewrite of_ip_cons. destruct (decide (ip = ip')) as [->|]; lia.
  - apply Hl.
  - destruct (Hun ip l1 l2) as [Hm Hp]; [by left|].
    destruct (Unregister_count _ _ Hm Hp) as (cc'&E'&Hm'&Hc'). rewrite E in E'. injection E' as ->.
    split_and!; cbn [ps_counter ps_live ps_refused]; [intros ip'|apply Hl|done].
    rewrite Hc', Hc, El, !of_ip_app, of_ip_cons. destruct (decide (ip = ip')); lia.
  - destruct (Hun ip l1 l2) as [Hm Hp]; [by right|].
    destruct (Unregister_count _ _ Hm Hp) as (cc'&E'&Hm'&Hc'). rewrite E in E'. injection E' as ->.
    split_and!; cbn [ps_counter ps_live ps_refused]; [intros ip'|intros ip'|done];
      [rewrite Hc', Hc, El|specialize (Hl ip'); rewrite El in Hl]; rewrite ?of_ip_app, ?of_ip_cons in *;
      destruct (decide (ip = ip')); lia.
Qed.

Lemma perIP_reachable_ok max s : rtc (perIP_step max) perIP_init s → perIP_ok max s.
Proof.
  apply rtc_invariant; [|apply perIP_step_ok]. split_and!; [done|intros; unfold of_ip; cbn; lia|done].
Qed.
