(* ===== verification/WorkerPool.v ===== *)
(** workerpool.go: the pool of workers that serve the connections of a listener, each fed
    through its own channel, and the steps of its goroutines. *)

From Stdlib Require Import ZArith Strings.Byte.
From stdpp Require Import prelude strings list.
From S2P Require Import Prelude.

(** * The pool *)

(** A channel is known by a number; [lastUseTime] is in nanoseconds. *)
Record workerChan := mkChan { wc_id : nat; wc_lastUseTime : Z }.

#[global] Instance workerChan_eq_decision : EqDecision workerChan.
Proof. solve_decision. Defined.

(** [wp_running] says that [stopCh] is not nil. *)
Record workerPool := mkWorkerPool {
  wp_MaxWorkersCount : Z;
  wp_LogAllErrors : bool;
  wp_mustStop : bool;
  wp_MaxIdleWorkerDuration : Z;
  wp_workersCount : Z;
  wp_ready : list workerChan;
  wp_running : bool
}.

#[global] Instance workerPool_etable : Etable workerPool := λ p,
  mkWorkerPool (wp_MaxWorkersCount p) (wp_LogAllErrors p) (wp_mustStop p) (wp_MaxIdleWorkerDuration p)
    (wp_workersCount p) (wp_ready p) (wp_running p).

Definition DefaultCleanThresholdFunc (now t1 t2 t3 t4 readyLen maxWorkersCount maxIdleWorkerDuration : Z) : Z :=
  if (readyLen <=? Z.shiftr 2 10)%Z then 0
  else if (readyLen <=? Z.shiftr maxWorkersCount 2)%Z then
    if (now - t3 >? maxIdleWorkerDuration)%Z then Z.shiftr readyLen 2
    else if (now - t4 >? maxIdleWorkerDuration)%Z then Z.shiftr readyLen 1
    else 0
  else if (readyLen <=? Z.shiftr maxWorkersCount 1)%Z then
    if (now - t2 >? maxIdleWorkerDuration)%Z then Z.shiftr readyLen 2
    else if (now - t3 >? maxIdleWorkerDuration)%Z then Z.shiftr readyLen 1
    else 0
  else if (readyLen <=? maxWorkersCount)%Z then
    if (now - t3 >? maxIdleWorkerDuration)%Z then Z.shiftr readyLen 1 else 0
  else 0.

(** What a pool is configured with to choose how many workers to stop: the four times, the
    number of idle workers, the limit, the idle duration. *)
Abbreviation CleanThresholdFunc := (Z → Z → Z → Z → Z → Z → Z → Z).

Definition contains_any (msg : bytes) (l : list bytes) : bool := existsb (Contains msg) l.

(** The outcome of serving a connection: no error, [errHijacked], or another error, with its
    text and whether it is [ErrBadTrailer]. *)
Inductive served :=
  | servedOK
  | servedHijacked
  | servedError (msg : bytes) (badTrailer : bool).

Module workerPool.
Definition getMaxIdleWorkerDuration (wp : workerPool) : Z :=
  if (wp_MaxIdleWorkerDuration wp <=? 0)%Z then 10 * 1000000000 else wp_MaxIdleWorkerDuration wp.

(** Starting an already started pool does nothing. *)
Definition Start (wp : workerPool) : workerPool := wp <| wp_running := true |>.

(** The channels that are sent nil, and the pool. *)
Definition Stop (wp : workerPool) : list workerChan * workerPool :=
  if negb (wp_running wp) then ([], wp)
  else (wp_ready wp, wp <| wp_running := false |> <| wp_ready := [] |> <| wp_mustStop := true |>).

(** The critical section of [clean]: the channels to be sent nil, and the pool. [None] is a
    panic: of a threshold outside the list. *)
Definition clean (threshold : CleanThresholdFunc) (wp : workerPool) : option (list workerChan * workerPool) :=
  let ready := wp_ready wp in
  let n := length ready in
  let time i := default 0%Z (wc_lastUseTime <$> ready !! i) in
  let cleanNum :=
    if 0 <? n then
      threshold (time (n / 8)) (time (n / 4)) (time (n / 2)) (time (n * 3 / 4)) (Z.of_nat n)
        (wp_MaxWorkersCount wp) (wp_MaxIdleWorkerDuration wp)
    else 0%Z in
  if (cleanNum =? 0)%Z then Some ([], wp)
  else if (cleanNum <? 0)%Z || (Z.of_nat n <? cleanNum)%Z then None
  else
    let k := Z.to_nat cleanNum in
    Some (take k ready, wp <| wp_ready := drop k ready |>).

(** The critical section of [getCh]: the most recently used idle worker, or whether to
    start a new one. *)
Definition getCh (wp : workerPool) : option workerChan * bool * workerPool :=
  match last (wp_ready wp) with
  | None =>
      if (wp_workersCount wp <? wp_MaxWorkersCount wp)%Z
      then (None, true, wp <| wp_workersCount := (wp_workersCount wp + 1)%Z |>)
      else (None, false, wp)
  | Some ch => (Some ch, false, wp <| wp_ready := take (length (wp_ready wp) - 1) (wp_ready wp) |>)
  end.

Definition release (wp : workerPool) (ch : nat) (now : Z) : bool * workerPool :=
  if wp_mustStop wp then (false, wp)
  else (true, wp <| wp_ready := wp_ready wp ++ [mkChan ch now] |>).

(** Whether [workerFunc] logs the outcome of a connection. *)
Definition logsError (wp : workerPool) (res : served) : bool :=
  match res with
  | servedError msg badTrailer =>
      wp_LogAllErrors wp
      || negb (contains_any msg [bs "broken pipe"; bs "reset by peer";
                                 bs "request headers: small read buffer"; bs "unexpected EOF";
                                 bs "i/o timeout"] || badTrailer)
  | _ => false
  end.

(** What a worker that ends does to the pool. *)
Definition workerExit (wp : workerPool) : workerPool := wp <| wp_workersCount := (wp_workersCount wp - 1)%Z |>.
End workerPool.

(** * The goroutines *)

(** Where a worker is in [workerFunc]: at the channel, serving a connection, after the
    connection was dealt with, or past the loop. *)
Inductive wpc :=
  | Waiting
  | Serving (c : nat)
  | Releasing
  | Exiting.

(** A worker with what its channel holds: connections, and [None] for nil. *)
Record worker := mkWorker { wk_id : nat; wk_ch : list (option nat); wk_pc : wpc }.

(** What happens to a connection, in order. *)
Inductive conn_event :=
  | evNew (c : nat)
  | evClose (c : nat)
  | evHijacked (c : nat).

#[global] Instance conn_event_eq_decision : EqDecision conn_event.
Proof. solve_decision. Defined.

(** The pool, the workers, the messages on their way into a channel, the channels of workers
    that ended, with what they hold, for reuse, and the counters shared with the server. *)
Record workers := mkWorkers {
  ws_pool : workerPool;
  ws_workers : list worker;
  ws_sending : list (nat * option nat);
  ws_free : list (nat * list (option nat));
  ws_next : nat;
  ws_open : Z;
  ws_concurrency : Z;
  ws_accepted : list nat;
  ws_refused : list nat;
  ws_log : list conn_event
}.

#[global] Instance workers_etable : Etable workers := λ s,
  mkWorkers (ws_pool s) (ws_workers s) (ws_sending s) (ws_free s) (ws_next s) (ws_open s) (ws_concurrency s)
    (ws_accepted s) (ws_refused s) (ws_log s).

(** A new worker takes a recycled channel, as the pool of channels left it, or makes one. *)
Definition newWorker (s : workers) (recycle : bool) : nat * workers :=
  match recycle, ws_free s with
  | true, (id, ch) :: free =>
      (id, s <| ws_workers := mkWorker id ch Waiting :: ws_workers s |> <| ws_free := free |>)
  | _, _ =>
      (ws_next s, s <| ws_workers := mkWorker (ws_next s) [] Waiting :: ws_workers s |>
                    <| ws_next := S (ws_next s) |>)
  end.

(** [Serve] up to the send, which happens on its own. *)
Definition Serve (s : workers) (recycle : bool) (c : nat) : bool * workers :=
  let '(ch, createWorker, wp) := workerPool.getCh (ws_pool s) in
  let s := s <| ws_pool := wp |> in
  match ch with
  | Some ch => (true, s <| ws_sending := (wc_id ch, Some c) :: ws_sending s |>)
  | None =>
      if createWorker : bool then
        let '(id, s) := newWorker s recycle in (true, s <| ws_sending := (id, Some c) :: ws_sending s |>)
      else (false, s)
  end.

(** What the accept loop of the server does with the connection [c]: it is open from before
    the pool sees it; one the pool refuses is answered and closed. *)
Definition accept (s : workers) (recycle : bool) (c : nat) : workers :=
  let s := s <| ws_open := (ws_open s + 1)%Z |> in
  let '(ok, s) := Serve s recycle c in
  if ok : bool then s <| ws_accepted := c :: ws_accepted s |>
  else s <| ws_refused := c :: ws_refused s |> <| ws_open := (ws_open s - 1)%Z |>.

Definition setWorker (s : workers) (l1 : list worker) (w : worker) (l2 : list worker) : workers :=
  s <| ws_workers := l1 ++ w :: l2 |>.

(** The head of the loop of [workerFunc]: a connection is served, nil ends the loop. *)
Definition receive (s : workers) (l1 l2 : list worker) (id : nat) (m : option nat) (ch : list (option nat)) : workers :=
  match m with
  | None => setWorker s l1 (mkWorker id ch Exiting) l2
  | Some c => (setWorker s l1 (mkWorker id ch (Serving c)) l2)
                <| ws_concurrency := (ws_concurrency s + 1)%Z |> <| ws_log := ws_log s ++ [evNew c] |>
  end.

(** The end of its body, up to [release]. *)
Definition finish (s : workers) (l1 l2 : list worker) (id c : nat) (ch : list (option nat)) (res : served) : workers :=
  (setWorker s l1 (mkWorker id ch Releasing) l2)
    <| ws_open := (ws_open s - 1)%Z |> <| ws_concurrency := (ws_concurrency s - 1)%Z |>
    <| ws_log := ws_log s ++ [match res with servedHijacked => evHijacked c | _ => evClose c end] |>.

Definition toRelease (s : workers) (l1 l2 : list worker) (id : nat) (ch : list (option nat)) (now : Z) : workers :=
  let '(ok, wp) := workerPool.release (ws_pool s) id now in
  (setWorker s l1 (mkWorker id ch (if ok then Waiting else Exiting)) l2) <| ws_pool := wp |>.

(** The end of [workerFunc], and the channel back to its pool. *)
Definition exit (s : workers) (l1 l2 : list worker) (id : nat) (ch : list (option nat)) : workers :=
  s <| ws_workers := l1 ++ l2 |> <| ws_pool := workerPool.workerExit (ws_pool s) |>
    <| ws_free := (id, ch) :: ws_free s |>.

Definition nils (l : list workerChan) : list (nat * option nat) := (λ ch, (wc_id ch, None)) <$> l.

(** A message that arrives, or one step of a worker. A message enters a channel of capacity
    one when it is empty, and one of capacity zero when besides the worker waits for it. *)
Inductive worker_step (chanCap : nat) : workers → workers → Prop :=
  | step_send s s1 s2 id m l1 w l2 :
      ws_sending s = s1 ++ (id, m) :: s2 → ws_workers s = l1 ++ w :: l2 → wk_id w = id →
      wk_ch w = [] → (chanCap = 1 ∨ wk_pc w = Waiting) →
      worker_step chanCap s
        ((setWorker s l1 (mkWorker id [m] (wk_pc w)) l2) <| ws_sending := s1 ++ s2 |>)
  | step_receive s l1 id m ch l2 :
      ws_workers s = l1 ++ mkWorker id (m :: ch) Waiting :: l2 →
      worker_step chanCap s (receive s l1 l2 id m ch)
  | step_finish s l1 id c ch l2 res :
      ws_workers s = l1 ++ mkWorker id ch (Serving c) :: l2 →
      worker_step chanCap s (finish s l1 l2 id c ch res)
  | step_release s l1 id ch l2 now :
      ws_workers s = l1 ++ mkWorker id ch Releasing :: l2 →
      worker_step chanCap s (toRelease s l1 l2 id ch now)
  | step_exit s l1 id ch l2 :
      ws_workers s = l1 ++ mkWorker id ch Exiting :: l2 →
      worker_step chanCap s (exit s l1 l2 id ch).

(** One step of a goroutine: of a worker, the acceptor, the cleaner, or [Stop], whose sends
    happen later here, when others may already hold the lock again. *)
Inductive workers_step (threshold : Z → CleanThresholdFunc) (chanCap : nat) : workers → workers → Prop :=
  | step_worker s s' :
      worker_step chanCap s s' → workers_step threshold chanCap s s'
  | step_accept s recycle c :
      workers_step threshold chanCap s (accept s recycle c)
  | step_clean s now l wp :
      workerPool.clean (threshold now) (ws_pool s) = Some (l, wp) →
      workers_step threshold chanCap s (s <| ws_pool := wp |> <| ws_sending := nils l ++ ws_sending s |>)
  | step_stop s l wp :
      workerPool.Stop (ws_pool s) = (l, wp) →
      workers_step threshold chanCap s (s <| ws_pool := wp |> <| ws_sending := nils l ++ ws_sending s |>).

(** A pool as [Serve] makes it. *)
Definition workers_init (maxWorkers maxIdle : Z) (logAll : bool) : workers :=
  mkWorkers (workerPool.Start (mkWorkerPool maxWorkers logAll false maxIdle 0 [] false)) [] [] [] 0 0 0 [] [] [].
