(* ===== verification/WorkerPoolFacts.v ===== *)
(** The worker pool: its accounting in every interleaving of its goroutines, and what its
    cleaner stops. *)

From Stdlib Require Import ZArith ZifyNat Strings.Byte.
From stdpp Require Import prelude strings list.
From S2P Require Import Prelude WorkerPool.

(** * The tokens of a worker *)

(** How often a worker's channel is in the hands of someone: in the list of idle workers,
    about to be sent to, holding a message, or at a worker that is busy. *)
Definition busy (p : wpc) : nat := match p with Waiting => 0 | _ => 1 end.

Definition tokens (s : workers) (id : nat) : nat :=
  total (λ ch, is_id id (wc_id ch)) (wp_ready (ws_pool s))
  + total (λ m, is_id id m.1) (ws_sending s)
  + total (λ w, is_id id (wk_id w) * (length (wk_ch w) + busy (wk_pc w))) (ws_workers s).

Definition alive (s : workers) (id : nat) : nat := total (λ w, is_id id (wk_id w)) (ws_workers s).
Definition freed (s : workers) (id : nat) : nat := total (λ f, is_id id f.1) (ws_free s).

(** Where a connection is. *)
Definition is_msg (c : nat) (m : option nat) : nat := match m with Some c' => is_id c c' | None => 0 end.
Definition pc_msg (c : nat) (p : wpc) : nat := match p with Serving c' => is_id c c' | _ => 0 end.

Definition pending (s : workers) (c : nat) : nat :=
  total (λ m, is_msg c m.2) (ws_sending s)
  + total (λ w, total (is_msg c) (wk_ch w) + pc_msg c (wk_pc w)) (ws_workers s).

Definition ended (s : workers) (c : nat) : nat :=
  total (λ e, match e with evNew _ => 0 | evClose c' | evHijacked c' => is_id c c' end) (ws_log s).
Definition started (s : workers) (c : nat) : nat :=
  total (λ e, match e with evNew c' => is_id c c' | _ => 0 end) (ws_log s).
Definition serving (s : workers) : nat :=
  total (λ w, match wk_pc w with Serving _ => 1 | _ => 0 end) (ws_workers s).
Definition in_flight (s : workers) : nat :=
  total (λ m, match m.2 with Some _ => 1 | None => 0 end) (ws_sending s)
  + total (λ w, total (λ m : option nat, match m with Some _ => 1 | None => 0 end) (wk_ch w)) (ws_workers s).

(** ** The invariant *)

(** Every worker has exactly one token, so that its channel never gets a second message; its
    identity is not among the free channels, which are empty; the counters count; and every
    accepted connection is on its way or ended, and ends once. *)
Record workers_ok (s : workers) : Prop := {
  wo_tokens id : tokens s id = alive s id;
  wo_alive id : alive s id + freed s id ≤ if decide (id < ws_next s) then 1 else 0;
  wo_free : Forall (λ f, f.2 = []) (ws_free s);
  wo_count : wp_workersCount (ws_pool s) = Z.of_nat (length (ws_workers s));
  wo_max : (wp_workersCount (ws_pool s) ≤ Z.max 0 (wp_MaxWorkersCount (ws_pool s)))%Z;
  wo_concurrency : ws_concurrency s = Z.of_nat (serving s);
  wo_open : ws_open s = Z.of_nat (serving s + in_flight s);
  wo_conns c : total (is_id c) (ws_accepted s) = pending s c + ended s c;
  wo_started c : started s c = ended s c + total (λ w, pc_msg c (wk_pc w)) (ws_workers s)
}.

Lemma is_id_refl id : is_id id id = 1.
Proof. unfold is_id. by rewrite decide_True. Qed.

Lemma workers_init_ok maxWorkers maxIdle logAll : workers_ok (workers_init maxWorkers maxIdle logAll).
Proof. constructor; try done; intros; cbn; try case_decide; lia. Qed.

Ltac unfold_counts :=
  unfold tokens, alive, freed, pending, ended, started, serving, in_flight in *.

(** Each part of the invariant after a step follows from the same part before it, by
    counting. *)
Ltac recount Hok :=
  lazymatch goal with
  | |- tokens _ ?id = _ => generalize (wo_tokens _ Hok id)
  | |- alive _ ?id + _ ≤ _ => generalize (wo_alive _ Hok id)
  | |- total _ (ws_accepted _) = pending _ ?c + _ => generalize (wo_conns _ Hok c)
  | |- started _ ?c = _ => generalize (wo_started _ Hok c)
  | |- _ => generalize (wo_count _ Hok) (wo_max _ Hok) (wo_concurrency _ Hok) (wo_open _ Hok)
  end;
  unfold_counts; cbn;
  repeat match goal with
  | E : ws_workers _ = _ |- _ => rewrite !E; clear E
  | E : ws_sending _ = _ |- _ => rewrite !E; clear E
  end;
  rewrite ?length_app; autorewrite with totals; cbn; try lia.

(** Moving the list of idle workers into the messages to send. *)
Lemma nils_tokens l id : total (λ m, is_id id m.1) (nils l) = total (λ ch, is_id id (wc_id ch)) l.
Proof. unfold nils. by rewrite total_fmap. Qed.

Lemma nils_none l c : total (λ m, is_msg c m.2) (nils l) = 0.
Proof. unfold nils. rewrite total_fmap. by apply total_0. Qed.

Lemma nils_flight l : total (λ m : nat * option nat, match m.2 with Some _ => 1 | None => 0 end) (nils l) = 0.
Proof. unfold nils. rewrite total_fmap. by apply total_0. Qed.

(** Taking channels off the list and promising them nil. *)
Lemma dismiss_ok s wp l :
  workers_ok s → (∀ id, total (λ ch, is_id id (wc_id ch)) (wp_ready (ws_pool s)) =
                        total (λ ch, is_id id (wc_id ch)) l + total (λ ch, is_id id (wc_id ch)) (wp_ready wp)) →
  wp_workersCount wp = wp_workersCount (ws_pool s) → wp_MaxWorkersCount wp = wp_MaxWorkersCount (ws_pool s) →
  workers_ok (s <| ws_pool := wp |> <| ws_sending := nils l ++ ws_sending s |>).
Proof.
  intros [] Hl Hc Hm. constructor; try done; intros; cbn; rewrite ?Hc, ?Hm; try done.
  - specialize (wo_tokens0 id). specialize (Hl id). unfold_counts. cbn. rewrite total_app, nils_tokens. lia.
  - unfold_counts. cbn. by rewrite total_app, nils_flight.
  - unfold_counts. cbn. by rewrite total_app, nils_none.
Qed.

Lemma clean_ok f s l wp :
  workers_ok s → workerPool.clean f (ws_pool s) = Some (l, wp) →
  workers_ok (s <| ws_pool := wp |> <| ws_sending := nils l ++ ws_sending s |>).
Proof.
  intros Hok E. apply dismiss_ok; [done|..]; unfold workerPool.clean in E; cbv zeta in E;
    (destruct (_ =? 0)%Z; [|destruct (_ || _); [done|]]); simplify_eq/=; try done; intros id.
  by rewrite <- total_app, take_drop.
Qed.

Lemma Stop_ok s l wp :
  workers_ok s → workerPool.Stop (ws_pool s) = (l, wp) →
  workers_ok (s <| ws_pool := wp |> <| ws_sending := nils l ++ ws_sending s |>).
Proof.
  intros Hok E. apply dismiss_ok; [done|..]; unfold workerPool.Stop in E;
    destruct (negb _); simplify_eq/=; try done; intros; lia.
Qed.

Lemma send_ok s s1 s2 id m l1 w l2 :
  workers_ok s → ws_sending s = s1 ++ (id, m) :: s2 → ws_workers s = l1 ++ w :: l2 → wk_id w = id →
  wk_ch w = [] →
  workers_ok ((setWorker s l1 (mkWorker id [m] (wk_pc w)) l2) <| ws_sending := s1 ++ s2 |>).
Proof.
  intros Hok Es Ew Hid Hch. destruct w as [i ch p]. cbn in Hid, Hch. subst i ch.
  constructor; intros; try apply Hok; recount Hok.
Qed.

(** Only a message in the channel of a worker that waits is received, so no second one is
    behind it. *)
Lemma worker_receive_ok s l1 id m ch l2 :
  workers_ok s → ws_workers s = l1 ++ mkWorker id (m :: ch) Waiting :: l2 →
  workers_ok (receive s l1 l2 id m ch).
Proof.
  intros Hok Ew. destruct m; (constructor; intros; try apply Hok; recount Hok).
Qed.

Lemma finish_ok s l1 id c ch l2 res :
  workers_ok s → ws_workers s = l1 ++ mkWorker id ch (Serving c) :: l2 →
  workers_ok (finish s l1 l2 id c ch res).
Proof.
  intros Hok Ew. destruct res; (constructor; intros; try apply Hok; recount Hok).
Qed.

Lemma toRelease_ok s l1 id ch l2 now :
  workers_ok s → ws_workers s = l1 ++ mkWorker id ch Releasing :: l2 →
  workers_ok (toRelease s l1 l2 id ch now).
Proof.
  intros Hok Ew. unfold toRelease, workerPool.release.
  destruct (wp_mustStop _); (constructor; intros; try apply Hok; recount Hok).
Qed.

(** The channel of a worker has one token, so a worker that ends leaves it empty, and nobody
    else has it. *)
Lemma alive_tokens s l1 w l2 :
  workers_ok s → ws_workers s = l1 ++ w :: l2 →
  length (wk_ch w) + busy (wk_pc w) ≤ 1 ∧ alive s (wk_id w) = 1 ∧ freed s (wk_id w) = 0 ∧
  wk_id w < ws_next s.
Proof.
  intros Hok Ew. generalize (wo_tokens _ Hok (wk_id w)) (wo_alive _ Hok (wk_id w)).
  unfold_counts. rewrite Ew. autorewrite with totals. rewrite !is_id_refl. case_decide; lia.
Qed.

Lemma exit_ok s l1 id ch l2 :
  workers_ok s → ws_workers s = l1 ++ mkWorker id ch Exiting :: l2 → workers_ok (exit s l1 l2 id ch).
Proof.
  intros Hok Ew. destruct (alive_tokens _ _ _ _ Hok Ew) as (Ht&Ha&_&_). cbn in Ht.
  destruct ch as [|]; cbn in Ht; [|lia].
  constructor; intros; try apply Hok; try recount Hok.
  constructor; [done|]. apply Hok.
Qed.

(** A new worker on an empty channel that nobody has: a free one, or one never seen. *)
Lemma addWorker_ok s id free next c :
  workers_ok s → (wp_workersCount (ws_pool s) < wp_MaxWorkersCount (ws_pool s))%Z →
  (∀ i, total (λ f, is_id i f.1) free + is_id i id ≤ freed s i + if decide (ws_next s ≤ i < next) then 1 else 0) →
  Forall (λ f, f.2 = []) free → ws_next s ≤ next →
  workers_ok (s <| ws_pool := (ws_pool s) <| wp_workersCount := (wp_workersCount (ws_pool s) + 1)%Z |> |>
                <| ws_workers := mkWorker id [] Waiting :: ws_workers s |> <| ws_free := free |>
                <| ws_next := next |> <| ws_open := (ws_open s + 1)%Z |>
                <| ws_sending := (id, Some c) :: ws_sending s |> <| ws_accepted := c :: ws_accepted s |>).
Proof.
  intros Hok Hlt Hfr Hf Hn. constructor; intros; try done; try recount Hok.
  specialize (Hfr id0). revert Hfr. unfold_counts. repeat case_decide; lia.
Qed.

Lemma accept_ok s recycle c : workers_ok s → workers_ok (accept s recycle c).
Proof.
  intros Hok. unfold accept, Serve, workerPool.getCh. change (ws_pool (s <| ws_open := _ |>)) with (ws_pool s).
  destruct (last (wp_ready (ws_pool s))) as [ch|] eqn:El.
  - apply last_Some in El as [l El]. rewrite El, length_app. cbn [length].
    rewrite Nat.add_sub, take_app_length.
    constructor; intros; try apply Hok; recount Hok; rewrite El; autorewrite with totals; cbn; lia.
  - destruct (Z.ltb_spec (wp_workersCount (ws_pool s)) (wp_MaxWorkersCount (ws_pool s))) as [Hlt|Hge].
    2: { constructor; intros; try apply Hok; recount Hok. }
    pose proof (wo_free _ Hok) as Hf.
    pose proof (addWorker_ok s (ws_next s) (ws_free s) (S (ws_next s)) c Hok Hlt) as Hnew.
    assert (Hn : ∀ i, total (λ f, is_id i f.1) (ws_free s) + is_id i (ws_next s)
                      ≤ freed s i + if decide (ws_next s ≤ i < S (ws_next s)) then 1 else 0).
    { intros i. unfold freed, is_id. repeat case_decide; lia. }
    specialize (Hnew Hn Hf (Nat.le_succ_diag_r _)). destruct s as [wp ws ss fr nx op co ac re lo].
    cbn in Hf, Hlt, Hnew. destruct recycle, fr as [|[id ch] free]; try exact Hnew.
    apply Forall_cons in Hf as [Hch Hf]. cbn in Hch. subst ch.
    apply (addWorker_ok _ id free nx c Hok Hlt); [|done|done]. intros i. unfold freed. cbn. lia.
Qed.

Lemma worker_step_ok chanCap s s' : workers_ok s → worker_step chanCap s s' → workers_ok s'.
Proof.
  intros Hok Hs. destruct Hs;
    [by eapply send_ok|by apply worker_receive_ok|by apply finish_ok|by apply toRelease_ok|by apply exit_ok].
Qed.

Lemma workers_step_ok threshold chanCap s s' :
  workers_ok s → workers_step threshold chanCap s s' → workers_ok s'.
Proof.
  intros Hok Hs. destruct Hs;
    [by eapply worker_step_ok|by apply accept_ok|by eapply clean_ok|by apply Stop_ok].
Qed.

Lemma workers_reachable_ok threshold chanCap maxWorkers maxIdle logAll s :
  rtc (workers_step threshold chanCap) (workers_init maxWorkers maxIdle logAll) s → workers_ok s.
Proof. apply rtc_invariant; [apply workers_init_ok|apply workers_step_ok]. Qed.

(** A message on its way finds the channel empty: a send to a channel of capacity one does
    not block. *)
Lemma sending_ready s id m :
  workers_ok s → (id, m) ∈ ws_sending s →
  ∃ l1 w l2, ws_workers s = l1 ++ w :: l2 ∧ wk_id w = id ∧ wk_ch w = [] ∧ wk_pc w = Waiting.
Proof.
  intros Hok (s1&s2&Es)%list_elem_of_split.
  generalize (wo_tokens _ Hok id) (wo_alive _ Hok id). unfold tokens. rewrite Es.
  autorewrite with totals. cbn. rewrite is_id_refl. intros Ht Ha.
  assert (alive s id = 1) as Ha1 by (destruct (decide (id < ws_next s)); lia).
  destruct (decide (id ∈ wk_id <$> ws_workers s)) as [Hin|Hni].
  2: { exfalso. revert Ha1. unfold alive. rewrite total_0; [done|]. intros w Hw. unfold is_id.
       rewrite decide_False; [done|]. intros ->. apply Hni, list_elem_of_fmap. eauto. }
  apply list_elem_of_fmap in Hin as (w&->&(l1&l2&Ew)%list_elem_of_split).
  exists l1, w, l2. split_and!; [done|done|..];
    (revert Ht Ha1; unfold alive; rewrite Ew; autorewrite with totals; rewrite is_id_refl; intros Ht Ha1;
     destruct w as [i [|? ?] []]; cbn in *; try done; lia).
Qed.

(** * Progress *)

(** Nothing is left to do for the workers. *)
Definition quiescent (s : workers) : Prop :=
  ws_sending s = [] ∧ Forall (λ w, wk_ch w = [] ∧ wk_pc w = Waiting) (ws_workers s).

Lemma quiescent_step chanCap s : workers_ok s → quiescent s ∨ ∃ s', worker_step chanCap s s'.
Proof.
  intros Hok. destruct (ws_sending s) as [|[id m] rest] eqn:Es.
  2: { right. destruct (sending_ready s id m Hok) as (l1&w&l2&Ew&?&?&?);
         [rewrite Es; apply elem_of_cons; by left|].
       eexists. apply (step_send _ _ [] rest id m l1 w l2); auto. }
  destruct (decide (Forall (λ w, wk_ch w = [] ∧ busy (wk_pc w) = 0) (ws_workers s))) as [Hall|Hex].
  { left. split; [done|]. eapply Forall_impl; [done|]. intros [? ? []]; cbn; intros [? ?]; done. }
  right. apply not_Forall_Exists in Hex; [|apply _].
  apply Exists_exists in Hex as (w&(l1&l2&Ew)%list_elem_of_split&Hw).
  destruct w as [id ch [|c| |]].
  - destruct ch as [|m ch]; [by destruct Hw|]. eexists. by eapply step_receive.
  - eexists. by apply (step_finish _ _ l1 id c ch l2 servedOK).
  - eexists. by apply (step_release _ _ l1 id ch l2 0%Z).
  - eexists. by eapply step_exit.
Qed.

(** The work left: every step of a worker takes some of it. *)
Definition pc_work (p : wpc) : nat :=
  match p with Waiting => 0 | Exiting => 1 | Releasing => 2 | Serving _ => 3 end.

Definition work (s : workers) : nat :=
  5 * length (ws_sending s) + total (λ w, 4 * length (wk_ch w) + pc_work (wk_pc w)) (ws_workers s).

Lemma worker_step_work chanCap s s' : worker_step chanCap s s' → work s' < work s.
Proof.
  unfold work. intros [s1 s2 s3 id m l1 w l2 Es Ew <- Hch _|s1 l1 id m ch l2 Ew|s1 l1 id c ch l2 res Ew|s1 l1 id ch l2 now Ew|s1 l1 id ch l2 Ew];
    rewrite Ew, ?Es; [|destruct m|destruct res|unfold toRelease, workerPool.release; destruct (wp_mustStop _)|];
    cbn; rewrite ?length_app; autorewrite with totals; cbn; rewrite ?Hch; cbn; lia.
Qed.

Lemma worker_steps_bound chanCap n s s' : nsteps (worker_step chanCap) n s s' → n + work s' ≤ work s.
Proof.
  induction 1 as [|n s1 s2 s3 Hs _ IH]; [lia|]. apply worker_step_work in Hs. lia.
Qed.

Lemma quiescent_pending s c : quiescent s → pending s c = 0.
Proof.
  intros [Es Hall]. unfold pending. rewrite Es. cbn. apply total_0. intros w Hw.
  apply (proj1 (Forall_forall _ _) Hall) in Hw as [-> ->]. done.
Qed.

(** * Cleaning *)

(** The idle workers, the longest idle first. *)
Definition by_age (l : list workerChan) : Prop :=
  ∀ i j x y, i ≤ j → l !! i = Some x → l !! j = Some y → (wc_lastUseTime x ≤ wc_lastUseTime y)%Z.

(** The threshold of the default function as a number of idle workers: none, a quarter or a
    half, and then a worker at least that far from the oldest is idle too long. *)
Lemma threshold_cases now t1 t2 t3 t4 n max idle :
  0 < n → (t2 ≤ t3 ≤ t4)%Z →
  let k := DefaultCleanThresholdFunc now t1 t2 t3 t4 (Z.of_nat n) max idle in
  k = 0%Z ∨ k = Z.of_nat (n / 4) ∧ (idle < now - t2)%Z
  ∨ k = Z.of_nat (n / 2) ∧ (idle < now - t3)%Z ∧ (Z.shiftr max 1 < Z.of_nat n)%Z.
Proof.
  intros Hn Ht. cbv zeta. unfold DefaultCleanThresholdFunc. rewrite !Z.gtb_ltb.
  assert (Z.shiftr (Z.of_nat n) 2 = Z.of_nat (n / 4)) as ->.
  { rewrite Z.shiftr_div_pow2, Nat2Z.inj_div by done. done. }
  assert (Z.shiftr (Z.of_nat n) 1 = Z.of_nat (n / 2)) as ->.
  { rewrite Z.shiftr_div_pow2, Nat2Z.inj_div by done. done. }
  destruct (Z.leb_spec (Z.of_nat n) (Z.shiftr 2 10)); [by left|].
  destruct (Z.leb_spec (Z.of_nat n) (Z.shiftr max 2)).
  - destruct (Z.ltb_spec idle (now - t3)); [right; left; split; [done|lia]|].
    destruct (Z.ltb_spec idle (now - t4)); [lia|by left].
  - destruct (Z.leb_spec (Z.of_nat n) (Z.shiftr max 1)).
    + destruct (Z.ltb_spec idle (now - t2)); [right; left; done|].
      destruct (Z.ltb_spec idle (now - t3)); [lia|by left].
    + destruct (Z.leb_spec (Z.of_nat n) max); [|by left].
      destruct (Z.ltb_spec idle (now - t3)); [by right; right|by left].
Qed.

(** With the default function [clean] does not panic; it stops at most half of the idle
    workers, the longest idle ones, and only workers idle longer than the configured time. *)
Lemma clean_default now wp :
  by_age (wp_ready wp) →
  ∃ k, workerPool.clean (DefaultCleanThresholdFunc now) wp
       = Some (take k (wp_ready wp), wp <| wp_ready := drop k (wp_ready wp) |>) ∧
    2 * k ≤ length (wp_ready wp) ∧
    Forall (λ ch, wp_MaxIdleWorkerDuration wp < now - wc_lastUseTime ch)%Z (take k (wp_ready wp)).
Proof.
  intros Hs. unfold workerPool.clean. set (ready := wp_ready wp) in *. set (n := length ready).
  destruct (Nat.ltb_spec 0 n) as [Hn|Hn].
  2: { exists 0. split; [by destruct wp|]. split; [lia|constructor]. }
  set (time i := default 0%Z (wc_lastUseTime <$> ready !! i)). cbv zeta.
  assert (∀ i j, i ≤ j → j < n → (time i ≤ time j)%Z) as Htime.
  { intros i j Hij Hj. unfold time. destruct (lookup_lt_is_Some_2 ready i) as [x Hx]; [fold n; lia|].
    destruct (lookup_lt_is_Some_2 ready j) as [y Hy]; [done|]. rewrite Hx, Hy. exact (Hs i j x y Hij Hx Hy). }
  assert (n / 4 ≤ n / 2 ∧ n / 2 ≤ n * 3 / 4 ∧ n * 3 / 4 < n ∧ 2 * (n / 2) ≤ n) as (H4&H2&H3&Hhalf).
  { split_and!; zify; Z.div_mod_to_equations; lia. }
  assert (∀ k, k ≤ n / 2 → (wp_MaxIdleWorkerDuration wp < now - time k)%Z →
    Forall (λ ch, wp_MaxIdleWorkerDuration wp < now - wc_lastUseTime ch)%Z (take k ready)) as Hidle.
  { intros k Hk Ht. apply Forall_lookup. intros i x Hx. apply lookup_take_Some in Hx as [Hx Hi].
    pose proof (Htime i k) as Hle. unfold time in Hle at 1. rewrite Hx in Hle. cbn in Hle. lia. }
  destruct (threshold_cases now (time (n / 8)) (time (n / 4)) (time (n / 2)) (time (n * 3 / 4)) n
    (wp_MaxWorkersCount wp) (wp_MaxIdleWorkerDuration wp) Hn) as [E|[[E Ht]|[E [Ht _]]]];
    [split; apply Htime; lia|..]; unfold time in E; rewrite E.
  1: { exists 0. split; [by destruct wp|]. split; [lia|constructor]. }
  all: lazymatch goal with |- context [(Z.of_nat ?k =? 0)%Z] => set (m := k) in * end;
    rewrite Nat2Z.id; (destruct (Z.eqb_spec (Z.of_nat m) 0) as [E0|E0];
    [exists 0; split; [by destruct wp|]; split; [lia|constructor]|]);
    (rewrite (proj2 (orb_false_iff _ _)) by (split; apply Z.ltb_ge; lia));
    (exists m; split; [done|]; split; [lia|apply Hidle; done]).
Qed.
