(* ===== verification/LbClient.v ===== *)
(** lbclient.go: the load balancer - which client a request goes to, how unhealthy clients are
    penalised, and the accounting of penalties. *)

From Stdlib Require Import ZArith Strings.Byte.
From stdpp Require Import prelude strings list.
From S2P Require Import Prelude.

Definition maxPenalty : Z := 300.
Definition penaltyDuration : Z := 3 * 1000000000.
Definition DefaultLBClientTimeout : Z := 1000000000.

(** * Clients *)

(** A balanced client is known by a number; [penalty] is a [uint32] and [total] a [uint64]. *)
Record lbClient := mkLb { lb_c : nat; lb_penalty : Z; lb_total : Z }.

#[global] Instance lbClient_eq_decision : EqDecision lbClient.
Proof. solve_decision. Defined.

#[global] Instance lbClient_etable : Etable lbClient := λ c, mkLb (lb_c c) (lb_penalty c) (lb_total c).

Module lbClient.
(** [pending] is what the [PendingRequests] of the clients return. *)
Definition PendingRequests (pending : nat → Z) (c : lbClient) : Z := (pending (lb_c c) + lb_penalty c)%Z.

(** The check that is configured, or none. *)
Definition isHealthy {R E : Type} (healthCheck : option (R → option E → bool)) (resp : R) (err : option E) : bool :=
  match healthCheck with
  | None => match err with None => true | Some _ => false end
  | Some f => f resp err
  end.

Definition decPenalty (c : lbClient) : lbClient :=
  c <| lb_penalty := uint32 (lb_penalty c + (2 ^ 32 - 1)) |>.

(** The increment of [incPenalty], and what it finds. *)
Definition addPenalty (c : lbClient) : Z * lbClient :=
  let m := uint32 (lb_penalty c + 1) in (m, c <| lb_penalty := m |>).

Definition incPenalty (c : lbClient) : bool * lbClient :=
  let '(m, c) := addPenalty c in
  if (m >? maxPenalty)%Z then (false, decPenalty c) else (true, c).

(** [DoDeadline] after the client returned: whether the penalty is to be taken back after
    [penaltyDuration]. *)
Definition DoDeadline (healthy : bool) (c : lbClient) : bool * lbClient :=
  let '(penalised, c) := if negb healthy then incPenalty c else (false, c) in
  if penalised : bool then (true, c) else (false, c <| lb_total := uint64 (lb_total c + 1) |>).
End lbClient.

(** * The balancer *)

(** [lc_once] says that [init] was called. *)
Record LBClient := mkLBClient {
  lc_Clients : list nat;
  lc_Timeout : Z;
  lc_cs : list lbClient;
  lc_once : bool
}.

#[global] Instance LBClient_etable : Etable LBClient := λ c,
  mkLBClient (lc_Clients c) (lc_Timeout c) (lc_cs c) (lc_once c).

Module LBClient.
Definition newClients (l : list nat) : list lbClient := (λ c, mkLb c 0 0) <$> l.

(** [None] is the panic for no clients. *)
Definition init (cc : LBClient) : option LBClient :=
  match lc_Clients cc with
  | [] => None
  | l => Some (cc <| lc_cs := lc_cs cc ++ newClients l |>)
  end.

(** [sync.Once.Do]: a call that panics counts. *)
Definition once (cc : LBClient) : option LBClient * LBClient :=
  if lc_once cc then (Some cc, cc)
  else
    let cc := cc <| lc_once := true |> in
    match init cc with Some cc => (Some cc, cc) | None => (None, cc) end.

Definition AddClient (cc : LBClient) (c : nat) : nat * LBClient :=
  let cc := cc <| lc_cs := lc_cs cc ++ [mkLb c 0 0] |> in (length (lc_cs cc), cc).

(** The loop of [RemoveClients]: what it keeps, moved to the front. *)
Fixpoint keep (rc : nat → bool) (cs : list lbClient) : list lbClient :=
  match cs with
  | [] => []
  | c :: cs => if rc (lb_c c) then keep rc cs else c :: keep rc cs
  end.

Definition RemoveClients (cc : LBClient) (rc : nat → bool) : nat * LBClient :=
  let cc := cc <| lc_cs := keep rc (lc_cs cc) |> in (length (lc_cs cc), cc).

(** The loop of [get]: the client of the least load seen so far. *)
Fixpoint get_loop (pending : nat → Z) (minC : lbClient) (minN minT : Z) (cs : list lbClient) : lbClient :=
  match cs with
  | [] => minC
  | c :: cs =>
      let n := lbClient.PendingRequests pending c in
      let t := lb_total c in
      if (n <? minN)%Z || ((n =? minN)%Z && (t <? minT)%Z)
      then get_loop pending c n t cs
      else get_loop pending minC minN minT cs
  end.

(** [None] is a panic: of [init], or of the index into an empty list. *)
Definition get (pending : nat → Z) (cc : LBClient) : option lbClient * LBClient :=
  match once cc with
  | (None, cc) => (None, cc)
  | (Some cc, _) =>
      (match lc_cs cc with
       | [] => None
       | minC :: cs => Some (get_loop pending minC (lbClient.PendingRequests pending minC) (lb_total minC) cs)
       end, cc)
  end.

(** The deadline of [Do]. *)
Definition timeout (cc : LBClient) : Z :=
  if (lc_Timeout cc <=? 0)%Z then DefaultLBClientTimeout else lc_Timeout cc.
End LBClient.

(** * The least loaded client *)

(** Load first, then the number of requests handled. *)
Definition lighter_eq (pending : nat → Z) (c c' : lbClient) : Prop :=
  let n := lbClient.PendingRequests pending c in
  let n' := lbClient.PendingRequests pending c' in
  (n < n' ∨ n = n' ∧ lb_total c ≤ lb_total c')%Z.

#[global] Instance lighter_eq_preorder pending : PreOrder (lighter_eq pending).
Proof. split; [intros ?; unfold lighter_eq; lia|intros ???; unfold lighter_eq; lia]. Qed.

(** Of the clients with the least load the first one is chosen. *)
Lemma get_loop_least pending m cs :
  let c := LBClient.get_loop pending m (lbClient.PendingRequests pending m) (lb_total m) cs in
  (c = m ∨ c ∈ cs) ∧ lighter_eq pending c m ∧ Forall (lighter_eq pending c) cs.
Proof.
  revert m. induction cs as [|x cs IH]; intros m; cbn [LBClient.get_loop].
  { cbv zeta. split; [by left|]. split; [done|constructor]. }
  destruct (_ || _) eqn:E; cbv zeta.
  - assert (lighter_eq pending x m) as Hx.
    { unfold lighter_eq. apply orb_true_iff in E as [E|E]; [left; lia|right].
      apply andb_true_iff in E as [? ?]. lia. }
    specialize (IH x) as (Hin&Hle&Hall). split_and!; [|by etrans|by constructor].
    right. apply elem_of_cons. destruct Hin as [->|]; [by left|by right].
  - assert (lighter_eq pending m x) as Hx.
    { unfold lighter_eq. apply orb_false_iff in E as [E1 E2]. apply Z.ltb_ge in E1.
      apply andb_false_iff in E2 as [E2|E2]; [left|]; lia. }
    specialize (IH m) as (Hin&Hle&Hall). split_and!; [|done|constructor; [by etrans|done]].
    destruct Hin as [->|]; [by left|right]. apply elem_of_cons. by right.
Qed.

Lemma keep_filter rc cs : LBClient.keep rc cs = filter (λ c, rc (lb_c c) = false) cs.
Proof.
  induction cs as [|c cs IH]; [done|]. cbn [LBClient.keep]. rewrite filter_cons, IH.
  by destruct (rc (lb_c c)).
Qed.

(** * Penalties *)

(** One client under concurrent requests: the penalties to be taken back by a timer, and
    the increments found to be too many and not yet taken back. *)
Record penalties := mkPenalties { pn_client : lbClient; pn_timers : nat; pn_excess : nat }.

(** Fewer than [2^31] requests are at this point at once. *)
Inductive penalty_step : penalties → penalties → Prop :=
  | penalty_add s m c :
      lbClient.addPenalty (pn_client s) = (m, c) → (m ≤ maxPenalty)%Z →
      penalty_step s (mkPenalties c (S (pn_timers s)) (pn_excess s))
  | penalty_excess s m c :
      lbClient.addPenalty (pn_client s) = (m, c) → (maxPenalty < m)%Z → (Z.of_nat (pn_excess s) < 2 ^ 31)%Z →
      penalty_step s (mkPenalties c (pn_timers s) (S (pn_excess s)))
  | penalty_undo s n :
      pn_excess s = S n →
      penalty_step s (mkPenalties (lbClient.decPenalty (pn_client s)) (pn_timers s) n)
  | penalty_expire s n :
      pn_timers s = S n →
      penalty_step s (mkPenalties (lbClient.decPenalty (pn_client s)) n (pn_excess s)).

(** The penalty counts the timers and the excess, and there are never too many timers. *)
Definition penalties_ok (s : penalties) : Prop :=
  lb_penalty (pn_client s) = Z.of_nat (pn_timers s + pn_excess s) ∧
  (Z.of_nat (pn_timers s) ≤ maxPenalty)%Z ∧ (Z.of_nat (pn_excess s) ≤ 2 ^ 31)%Z.

Lemma decPenalty_ok c n :
  (0 ≤ n)%Z → (n < 2 ^ 32 - 1)%Z → lb_penalty c = (n + 1)%Z → lb_penalty (lbClient.decPenalty c) = n.
Proof.
  intros H0 Hn E. unfold lbClient.decPenalty. cbn. rewrite E. unfold wrapU.
  replace (n + 1 + (2 ^ 32 - 1))%Z with (n + 1 * 2 ^ 32)%Z by lia. rewrite Z.mod_add by done.
  apply Z.mod_small. lia.
Qed.

Lemma addPenalty_ok c m c' n :
  (0 ≤ n)%Z → (n < 2 ^ 32 - 1)%Z → lb_penalty c = n → lbClient.addPenalty c = (m, c') →
  m = (n + 1)%Z ∧ lb_penalty c' = (n + 1)%Z.
Proof.
  intros H0 Hn E [= <- <-]. cbn. rewrite E. unfold wrapU. by rewrite Z.mod_small by lia.
Qed.

Lemma penalty_step_ok s s' : penalties_ok s → penalty_step s s' → penalties_ok s'.
Proof.
  unfold penalties_ok, maxPenalty. intros (Hp&Ht&He) Hs.
  destruct Hs as [s m c E Hm|s m c E Hm Hlt|s n En|s n En]; cbn [pn_client pn_timers pn_excess] in *.
  1, 2: destruct (addPenalty_ok _ _ _ (Z.of_nat (pn_timers s + pn_excess s)) ltac:(lia) ltac:(lia) Hp E) as [-> ->]; unfold maxPenalty in *; lia.
  all: rewrite (decPenalty_ok _ (lb_penalty (pn_client s) - 1)) by lia; lia.
Qed.

Lemma penalty_reachable_ok c s :
  lb_penalty c = 0%Z → rtc penalty_step (mkPenalties c 0 0) s → penalties_ok s.
Proof.
  intros Hc. apply rtc_invariant; [|apply penalty_step_ok]. unfold penalties_ok, maxPenalty. cbn. lia.
Qed.
