(* ===== verification/RequestCtx.v ===== *)
(** server.go, [RequestCtx]: what a handler gets of a request and does with its response. *)

From Stdlib Require Import ZArith Strings.Byte.
From stdpp Require Import prelude strings list.
From S2P Require Import Prelude Tables Bufio Bytesconv Args Uri Headers HeaderScan Body ReqHeader RespHeader Http HttpResp.
From S2P Require Import UserData PerIP.

(** A hijack handler is known by a number. Times are in nanoseconds, and 0 is the zero
    time. [cx_c] holds the addresses of the connection, remote and local, [None] for nil. The
    reader of the first byte is part of the reader's input. *)
Record RequestCtx := mkCtx {
  cx_Request : Request;
  cx_Response : Response;
  cx_userValues : userData;
  cx_connID : Z;
  cx_connRequestNum : Z;
  cx_connTime : Z;
  cx_remoteAddr : option netAddr;
  cx_time : Z;
  cx_c : option (option netAddr * option netAddr);
  cx_hijackHandler : option nat;
  cx_hijackNoResponse : bool;
  cx_hijacked : bool;
  cx_isTLS : bool
}.

#[global] Instance RequestCtx_etable : Etable RequestCtx := λ x,
  mkCtx (cx_Request x) (cx_Response x) (cx_userValues x) (cx_connID x) (cx_connRequestNum x) (cx_connTime x)
    (cx_remoteAddr x) (cx_time x) (cx_c x) (cx_hijackHandler x) (cx_hijackNoResponse x) (cx_hijacked x)
    (cx_isTLS x).

Definition RequestCtx_zero : RequestCtx :=
  mkCtx Request_zero Response_zero userData_zero 0 0 0 None 0 None None false false false.

Definition zeroTCPAddr : netAddr := TCPAddr IPv4zero.

Definition addrToIP (addr : netAddr) : bytes :=
  match addr with TCPAddr ip => ip | otherAddr _ => IPv4zero end.

(** The codes in between are left as they are. *)
Definition getRedirectStatusCode (statusCode : Z) : Z :=
  if (statusCode <? StatusMovedPermanently)%Z || (StatusPermanentRedirect <? statusCode)%Z
  then StatusFound else statusCode.

Definition strLocationHeader : bytes := bs "Location".

Module RequestCtx.
Definition Hijack (x : RequestCtx) (handler : option nat) : RequestCtx := x <| cx_hijackHandler := handler |>.
Definition HijackSetNoResponse (x : RequestCtx) (noResponse : bool) : RequestCtx :=
  x <| cx_hijackNoResponse := noResponse |>.
Definition Hijacked (x : RequestCtx) : bool := bool_decide (is_Some (cx_hijackHandler x)).
Definition HijackConn (x : RequestCtx) : RequestCtx := x <| cx_hijacked := true |>.

(** ** User values; [None] is a panic *)

Definition SetUserValue (x : RequestCtx) (key : option anyKey) (v : option anyValue) : option RequestCtx :=
  d ← userData.Set_ (cx_userValues x) key v; Some (x <| cx_userValues := d |>).
Definition SetUserValueBytes (x : RequestCtx) (key : bytes) (v : option anyValue) : option RequestCtx :=
  d ← userData.SetBytes (cx_userValues x) key v; Some (x <| cx_userValues := d |>).
Definition UserValue (x : RequestCtx) (key : option anyKey) : option (option anyValue) :=
  userData.Get (cx_userValues x) key.
Definition UserValueBytes (x : RequestCtx) (key : bytes) : option (option anyValue) :=
  userData.GetBytes (cx_userValues x) key.
Definition VisitUserValues (x : RequestCtx) : list (bytes * option anyValue) :=
  omap (λ kv, match kv_key kv with Some (keyString s) => Some (s, kv_value kv) | _ => None end)
    (ud_live (cx_userValues x)).
Definition VisitUserValuesAll (x : RequestCtx) : list (option anyKey * option anyValue) :=
  (λ kv, (kv_key kv, kv_value kv)) <$> ud_live (cx_userValues x).
Definition ResetUserValues (x : RequestCtx) : RequestCtx :=
  x <| cx_userValues := (userData.Reset (cx_userValues x)).2 |>.
Definition RemoveUserValue (x : RequestCtx) (key : option anyKey) : option RequestCtx :=
  d ← userData.Remove (cx_userValues x) key; Some (x <| cx_userValues := d |>).
Definition RemoveUserValueBytes (x : RequestCtx) (key : bytes) : option RequestCtx :=
  d ← userData.RemoveBytes (cx_userValues x) key; Some (x <| cx_userValues := d |>).
Definition Value (x : RequestCtx) (key : option anyKey) : option (option anyValue) := UserValue x key.

(** ** The request and its connection *)

Definition IsTLS (x : RequestCtx) : bool := cx_isTLS x.
Definition ID (x : RequestCtx) : Z := Z.lor (uint64 (Z.shiftl (cx_connID x) 32)) (cx_connRequestNum x).
Definition ConnID (x : RequestCtx) : Z := cx_connID x.
Definition Time (x : RequestCtx) : Z := cx_time x.
Definition ConnTime (x : RequestCtx) : Z := cx_connTime x.
Definition ConnRequestNum (x : RequestCtx) : Z := cx_connRequestNum x.
Definition RequestURI (x : RequestCtx) : bytes := RequestHeader.RequestURI (rq_Header (cx_Request x)).
Definition URI (x : RequestCtx) : URI * RequestCtx :=
  let '(u, q) := Request.URI (cx_Request x) in (u, x <| cx_Request := q |>).
Definition Referer (x : RequestCtx) : bytes := RequestHeader.Referer (rq_Header (cx_Request x)).
Definition UserAgent (x : RequestCtx) : bytes := RequestHeader.UserAgent (rq_Header (cx_Request x)).
Definition Path (x : RequestCtx) : bytes * RequestCtx := let '(u, x) := URI x in (Uri.URI.Path u, x).
Definition Host (x : RequestCtx) : bytes * RequestCtx := let '(u, x) := URI x in (Uri.URI.Host u, x).
Definition QueryArgs (x : RequestCtx) : Args * RequestCtx :=
  let '(u, x) := URI x in
  let '(a, u) := Uri.URI.QueryArgs u in
  (a, x <| cx_Request := (cx_Request x) <| rq_uri := u |> |>).
Definition Method (x : RequestCtx) : bytes := RequestHeader.Method (rq_Header (cx_Request x)).
Definition IsGet (x : RequestCtx) : bool := RequestHeader.IsGet (rq_Header (cx_Request x)).
Definition IsPost (x : RequestCtx) : bool := RequestHeader.IsPost (rq_Header (cx_Request x)).
Definition IsPut (x : RequestCtx) : bool := RequestHeader.IsPut (rq_Header (cx_Request x)).
Definition IsDelete (x : RequestCtx) : bool := RequestHeader.IsDelete (rq_Header (cx_Request x)).
Definition IsConnect (x : RequestCtx) : bool := RequestHeader.IsConnect (rq_Header (cx_Request x)).
Definition IsOptions (x : RequestCtx) : bool := RequestHeader.IsOptions (rq_Header (cx_Request x)).
Definition IsTrace (x : RequestCtx) : bool := RequestHeader.IsTrace (rq_Header (cx_Request x)).
Definition IsPatch (x : RequestCtx) : bool := RequestHeader.IsPatch (rq_Header (cx_Request x)).
Definition IsHead (x : RequestCtx) : bool := RequestHeader.IsHead (rq_Header (cx_Request x)).

Definition RemoteAddr (x : RequestCtx) : netAddr :=
  match cx_remoteAddr x with
  | Some a => a
  | None => match cx_c x with Some (Some a, _) => a | _ => zeroTCPAddr end
  end.
Definition SetRemoteAddr (x : RequestCtx) (a : option netAddr) : RequestCtx := x <| cx_remoteAddr := a |>.
Definition LocalAddr (x : RequestCtx) : netAddr :=
  match cx_c x with Some (_, Some a) => a | _ => zeroTCPAddr end.
Definition RemoteIP (x : RequestCtx) : bytes := addrToIP (RemoteAddr x).
Definition LocalIP (x : RequestCtx) : bytes := addrToIP (LocalAddr x).

(** ** The response *)

Definition onResponse (x : RequestCtx) (f : Response → Response) : RequestCtx :=
  x <| cx_Response := f (cx_Response x) |>.
Definition SetConnectionClose (x : RequestCtx) : RequestCtx := onResponse x Response.SetConnectionClose.
Definition SetStatusCode (x : RequestCtx) (n : Z) : RequestCtx := onResponse x (λ p, Response.SetStatusCode p n).
Definition SetContentType (x : RequestCtx) (v : bytes) : RequestCtx :=
  onResponse x (λ p, p <| re_Header := ResponseHeader.SetContentType (re_Header p) v |>).
Definition SetContentTypeBytes := SetContentType.
Definition IsBodyStream (x : RequestCtx) : bool := Response.IsBodyStream (cx_Response x).

Section body.
Context `{ByteBufferOps}.
Definition SetBody (x : RequestCtx) (b : bytes) : RequestCtx := onResponse x (λ p, Response.SetBody p b).
Definition SetBodyString := SetBody.
Definition ResetBody (x : RequestCtx) : RequestCtx := onResponse x Response.ResetBody.
Definition Write (x : RequestCtx) (p : bytes) : RequestCtx := onResponse x (λ r, Response.AppendBody r p).
Definition WriteString := Write.
Definition SetBodyStream (x : RequestCtx) (s : option BodyStream) (size : Z) : RequestCtx :=
  onResponse x (λ p, Response.SetBodyStream p s size).
Definition Success (x : RequestCtx) (contentType body : bytes) : RequestCtx :=
  SetBody (SetContentType x contentType) body.
Definition SuccessString := Success.

Definition redirect (x : RequestCtx) (uri : bytes) (statusCode : Z) : RequestCtx :=
  onResponse x (λ p,
    Response.SetStatusCode
      (p <| re_Header := ResponseHeader.setNonSpecial (re_Header p) strLocationHeader uri |>)
      (getRedirectStatusCode statusCode)).

(** [None] is a panic of [Update]. *)
Definition Redirect (x : RequestCtx) (uri : bytes) (statusCode : Z) : option RequestCtx :=
  let '(u, x) := URI x in
  u ← Uri.URI.Update (Uri.URI.CopyTo u URI_zero) uri;
  Some (redirect x (Uri.URI.FullURI u).1 statusCode).
Definition RedirectBytes := Redirect.

Context (requestLimit responseLimit : Z).

Definition Error (x : RequestCtx) (msg : bytes) (statusCode : Z) : RequestCtx :=
  let x := onResponse x (Response.resetForKeepAlive responseLimit) in
  SetBodyString (SetContentTypeBytes (SetStatusCode x statusCode) defaultContentType) msg.
Definition NotModified (x : RequestCtx) : RequestCtx :=
  SetStatusCode (onResponse x (Response.resetForKeepAlive responseLimit)) StatusNotModified.
Definition NotFound (x : RequestCtx) : RequestCtx :=
  SetBodyString (SetStatusCode (onResponse x (Response.resetForKeepAlive responseLimit)) StatusNotFound)
    (bs "404 Page not found").

(** Between two uses. Resetting the request can read from the connection. *)
Definition reset (x : RequestCtx) (r : Reader) : RequestCtx * Reader :=
  let x := ResetUserValues x in
  let '(q, r) := Request.Reset requestLimit (cx_Request x) r in
  (x <| cx_Request := q |> <| cx_Response := Response.Reset responseLimit (cx_Response x) |>
     <| cx_connID := 0%Z |> <| cx_connRequestNum := 0%Z |> <| cx_connTime := 0%Z |>
     <| cx_remoteAddr := None |> <| cx_time := 0%Z |> <| cx_c := None |> <| cx_isTLS := false |>
     <| cx_hijackHandler := None |> <| cx_hijackNoResponse := false |> <| cx_hijacked := false |>, r).
End body.
End RequestCtx.
