(* ===== verification/Server.v ===== *)
(** server.go: the life of a connection - [serveConn] and its loop over requests, with the
    responses it writes when it refuses one. *)

From Stdlib Require Import ZArith Strings.Byte.
From stdpp Require Import prelude strings list gmap.
From S2P Require Import Prelude Tables Bufio Bytesconv Args Uri Headers HeaderScan Body ReqHeader RespHeader Http HttpResp.
From S2P Require Import UserData PerIP RequestCtx.

(** * Canned responses *)

Definition errorHeaders : bytes :=
  strCRLF ++ bs "Content-Type: text/plain; charset=utf-8" ++ strCRLF ++ bs "Connection: close" ++ strCRLF ++ strCRLF.

(** [http.StatusText] is the table of status.go for the codes used here. *)
Definition errHTTPResponseStr (statusCode : Z) (body : bytes) (extraHeaders : list bytes) : bytes :=
  let text := StatusMessage statusCode in
  let body := match body with [] => text | b => b end in
  let extra := concat ((λ h, strCRLF ++ h) <$> extraHeaders) in
  bs "HTTP/1.1 " ++ AppendInt [] statusCode ++ bs " " ++ text ++ extra ++ errorHeaders
    ++ AppendInt [] statusCode ++ bs " " ++ body.

Definition concurrencyLimitErr : bytes :=
  errHTTPResponseStr StatusServiceUnavailable (bs "The server is currently temporary overloading")
    [bs "Retry-After: 10"].
Definition conPerIpLimitErr : bytes :=
  errHTTPResponseStr StatusTooManyRequests (bs "The number of connections from your ip over limit") [].
Definition commonRequestErr : bytes := errHTTPResponseStr StatusBadRequest [] [].
Definition httpToHttpsErr : bytes :=
  errHTTPResponseStr StatusBadRequest (bs "Client sent an HTTP request to an HTTPS server.") [].
Definition statusHTTPVersionNotSupportedErr : bytes := errHTTPResponseStr StatusHTTPVersionNotSupported [] [].
Definition statusNotImplementedErr : bytes :=
  errHTTPResponseStr StatusNotImplemented (bs "Unsupported transfer encoding") [].
Definition statusRequestEntityTooLargeErr : bytes := errHTTPResponseStr StatusRequestEntityTooLarge [] [].
Definition statusRequestHeaderFieldsTooLargeErr : bytes :=
  errHTTPResponseStr StatusRequestHeaderFieldsTooLarge [] [].
Definition statusMethodNotAllowedErr : bytes := errHTTPResponseStr StatusMethodNotAllowed [] [].
Definition strResponseContinue : bytes := bs "HTTP/1.1 100 Continue" ++ strCRLF ++ strCRLF.
Definition strResponseContinueFail : bytes :=
  bs "HTTP/1.1 417 Expectation Failed" ++ strCRLF ++ bs "Connection: close" ++ strCRLF
    ++ bs "Content-Length: 0" ++ strCRLF ++ strCRLF.

(** * Settings *)

(** The states of a connection. *)
Inductive ConnState :=
  | StateNew
  | StateActiveR
  | StateActiveW
  | StateIdle
  | StateHijacked
  | StateClosed.

#[global] Instance ConnState_eq_decision : EqDecision ConnState.
Proof. solve_decision. Defined.

Definition ConnState_num (s : ConnState) : Z :=
  match s with
  | StateNew => 0 | StateActiveR => 1 | StateActiveW => 2 | StateIdle => 3 | StateHijacked => 4 | StateClosed => 5
  end.

Definition stateName (s : ConnState) : bytes :=
  match s with
  | StateNew => bs "new" | StateActiveR => bs "active read" | StateActiveW => bs "active write"
  | StateIdle => bs "idle" | StateHijacked => bs "hijacked" | StateClosed => bs "closed"
  end.

Record RequestConfig := mkRequestConfig {
  rc_ReadTimeout : Z; rc_WriteTimeout : Z; rc_MaxRequestBodySize : Z
}.

(** The fields [serveConn] and [ServeConn] look at. The callbacks that get the header can
    change it; of the error handler and the state hook only that they are set matters. *)
Record Server := mkServer {
  sv_ErrorHandler : bool;
  sv_HeaderReceived : option (RequestHeader → RequestConfig * RequestHeader);
  sv_ContinueHandler : option (RequestHeader → bool * RequestHeader);
  sv_Name : bytes;
  sv_Concurrency : Z;
  sv_ReadBufferSize : Z;
  sv_WriteBufferSize : Z;
  sv_ReadTimeout : Z;
  sv_WriteTimeout : Z;
  sv_IdleTimeout : Z;
  sv_MaxConnsPerIP : Z;
  sv_MaxRequestBodySize : Z;
  sv_DisableKeepalive : bool;
  sv_ReduceMemoryUsage : bool;
  sv_GetOnly : bool;
  sv_DisablePreParseMultipartForm : bool;
  sv_DisableHeaderNamesNormalizing : bool;
  sv_NoDefaultServerHeader : bool;
  sv_NoDefaultDate : bool;
  sv_NoDefaultContentType : bool;
  sv_KeepHijackedConns : bool;
  sv_CloseOnShutdown : bool;
  sv_StreamRequestBody : bool;
  sv_DiscardUnReadRequestBodyStream : bool;
  sv_ConnState : bool
}.

#[global] Instance Server_etable : Etable Server := λ s,
  mkServer (sv_ErrorHandler s) (sv_HeaderReceived s) (sv_ContinueHandler s) (sv_Name s) (sv_Concurrency s)
    (sv_ReadBufferSize s) (sv_WriteBufferSize s) (sv_ReadTimeout s) (sv_WriteTimeout s) (sv_IdleTimeout s)
    (sv_MaxConnsPerIP s) (sv_MaxRequestBodySize s) (sv_DisableKeepalive s) (sv_ReduceMemoryUsage s)
    (sv_GetOnly s) (sv_DisablePreParseMultipartForm s) (sv_DisableHeaderNamesNormalizing s)
    (sv_NoDefaultServerHeader s) (sv_NoDefaultDate s) (sv_NoDefaultContentType s) (sv_KeepHijackedConns s)
    (sv_CloseOnShutdown s) (sv_StreamRequestBody s) (sv_DiscardUnReadRequestBodyStream s) (sv_ConnState s).

Definition defaultServerName : bytes := bs "fasthttp".
Definition DefaultConcurrency : Z := 256 * 1024.
Definition DefaultMaxRequestBodySize : Z := 4 * 1024 * 1024.
Definition defaultReadBufferSize : Z := 4096.

Module Server.
Definition getServerName (s : Server) : bytes :=
  match sv_Name s with
  | [] => if sv_NoDefaultServerHeader s then [] else defaultServerName
  | n => n
  end.
Definition getConcurrency (s : Server) : Z :=
  if (sv_Concurrency s <=? 0)%Z then DefaultConcurrency else sv_Concurrency s.
Definition idleTimeout (s : Server) : Z :=
  if (sv_IdleTimeout s =? 0)%Z then sv_ReadTimeout s else sv_IdleTimeout s.
End Server.

(** * The connection *)

Inductive serve_error :=
  | serveErr (e : body_error)
  | ErrGetOnly
  | errHijacked
  | ErrPerIPConnLimit
  | ErrConcurrencyLimit.

#[global] Instance serve_error_eq_decision : EqDecision serve_error.
Proof. solve_decision. Defined.

(** What can be seen of a connection from outside: deadlines set, or cleared ([None]), the
    states stored and announced to the hook, the calls of the handlers, and the bytes that
    reach the peer: of the answer to [Expect], of a response, and of a canned one. *)
Inductive event :=
  | evReadDeadline (d : option Z)
  | evWriteDeadline (d : option Z)
  | evClearDeadlines
  | evState (st : ConnState)
  | evHook (st : ConnState)
  | evHandler (num : Z) (x : RequestCtx)
  | evContinue (b : bytes)
  | evResponse (b : bytes)
  | evRefusal (b : bytes)
  | evHijack (handler : nat) (buffered : option bytes)
  | evErrorHandler (err : option serve_error).

(** How a write of the connection goes: how much the writer takes before it fails, the
    error of the flush, and how much of a failed write reaches the peer. *)
Record write_outcome := mkOutcome {
  wo_room : option (nat * ioerror); wo_flush : option body_error; wo_sent : nat
}.

Definition write_ok : write_outcome := mkOutcome None None 0.

(** [cn_r] is the buffered reader over the connection, [cn_br] whether [br] is not nil. The
    deadline calls and the writes to come go as [cn_deadlines] and [cn_writes] say, and
    succeed when these are used up. *)
Record Conn := mkConn {
  cn_r : Reader;
  cn_br : bool;
  cn_deadlines : list (option body_error);
  cn_writes : list write_outcome;
  cn_log : list event
}.

#[global] Instance Conn_etable : Etable Conn := λ c,
  mkConn (cn_r c) (cn_br c) (cn_deadlines c) (cn_writes c) (cn_log c).

(** The variables of [serveConn] that its loop changes, and the setting it changes. *)
Record loop := mkLoop {
  lp_conn : Conn;
  lp_ctx : option RequestCtx;
  lp_num : Z;
  lp_err : option serve_error;
  lp_responseStr : bytes;
  lp_readTimeout : Z;
  lp_writeTimeout : Z;
  lp_maxRequestBodySize : Z;
  lp_continueReadingRequest : bool;
  lp_connectionClose : bool;
  lp_prevMethodIsPost : bool;
  lp_hijackHandler : option nat;
  lp_hijackNoResponse : bool;
  lp_shouldStop : bool;
  lp_keepHijacked : bool
}.

#[global] Instance loop_etable : Etable loop := λ l,
  mkLoop (lp_conn l) (lp_ctx l) (lp_num l) (lp_err l) (lp_responseStr l) (lp_readTimeout l) (lp_writeTimeout l)
    (lp_maxRequestBodySize l) (lp_continueReadingRequest l) (lp_connectionClose l) (lp_prevMethodIsPost l)
    (lp_hijackHandler l) (lp_hijackNoResponse l) (lp_shouldStop l) (lp_keepHijacked l).

(** ** A monad for the loop

    A statement continues, breaks out of the loop, returns from the function, or panics. *)
Inductive step (A : Type) :=
  | Next (a : A) (l : loop)
  | Break (l : loop)
  | Return (l : loop)
  | Panic.
Arguments Next {_} _ _.
Arguments Break {_} _.
Arguments Return {_} _.
Arguments Panic {_}.

Definition M (A : Type) : Type := loop → step A.

#[global] Instance M_ret : MRet M := λ A a l, Next a l.
#[global] Instance M_bind : MBind M := λ A B f m l,
  match m l with
  | Next a l => f a l
  | Break l => Break l
  | Return l => Return l
  | Panic => Panic
  end.

Definition get : M loop := λ l, Next l l.
Definition modify (f : loop → loop) : M unit := λ l, Next tt (f l).
Definition break_ : M unit := λ l, Break l.
Definition skip : M unit := mret tt.
Definition when (b : bool) (m : M unit) : M unit := if b then m else skip.

(** [if err = ...; err != nil { break }]. *)
Definition check (err : option serve_error) : M unit := λ l,
  let l := l <| lp_err := err |> in
  match err with None => Next tt l | Some _ => Break l end.

Definition return_ (err : option serve_error) : M unit := λ l, Return (l <| lp_err := err |>).

(** [if err = ...; err != nil { return }]. *)
Definition checkReturn (err : option serve_error) : M unit := λ l,
  let l := l <| lp_err := err |> in
  match err with None => Next tt l | Some _ => Return l end.

(** The context, which is not nil where it is used. *)
Definition theCtx : M RequestCtx := λ l,
  match lp_ctx l with Some x => Next x l | None => Panic end.
Definition setCtx (x : RequestCtx) : M unit := modify (λ l, l <| lp_ctx := Some x |>).

Definition onConn (f : Conn → Conn) : M unit := modify (λ l, l <| lp_conn := f (lp_conn l) |>).
Definition record (e : event) : M unit := onConn (λ c, c <| cn_log := cn_log c ++ [e] |>).
Definition theReader : M Reader := λ l, Next (cn_r (lp_conn l)) l.
Definition setReader (r : Reader) : M unit := onConn (λ c, c <| cn_r := r |>).

(** A call that sets or clears a deadline; its error is returned. *)
Definition deadlineCall (e : event) : M (option serve_error) := λ l,
  let c := lp_conn l in
  let c := c <| cn_log := cn_log c ++ [e] |> in
  match cn_deadlines c with
  | [] => Next None (l <| lp_conn := c |>)
  | err :: ds => Next (serveErr <$> err) (l <| lp_conn := c <| cn_deadlines := ds |> |>)
  end.

Definition setDeadline (e : event) : M unit := err ← deadlineCall e; check err.

(** The bytes that reached the peer. *)
Definition wire (log : list event) : bytes :=
  concat (omap (λ e, match e with evContinue b | evResponse b | evRefusal b => Some b | _ => None end) log).

(** [c.Write], as the event [ev] of the bytes that reach the peer: the error is returned. *)
Definition writeConn (ev : bytes → event) (b : bytes) : M (option serve_error) := λ l,
  let c := lp_conn l in
  let '(o, c) := match cn_writes c with
                 | [] => (write_ok, c)
                 | o :: os => (o, c <| cn_writes := os |>)
                 end in
  let '(err, w) := Body.Write (mkWriter [] (wo_room o)) b in
  Next (serveErr <$> err) (l <| lp_conn := c <| cn_log := cn_log c ++ [ev (w_out w)] |> |>).

(** * What a connection meets outside *)

(** The non-blocking read of a byte: not possible or nothing there, a byte, or an error. *)
Inductive quick_read :=
  | quickNothing
  | quickByte
  | quickError (e : ioerror).

(** A TLS handshake: the protocol agreed on, an error, or a record that is no TLS record, with
    its header, and whether the error carries the connection. *)
Inductive handshake :=
  | handshakeOK (proto : bytes)
  | handshakeError (e : body_error)
  | handshakeRecord (e : body_error) (hasConn : bool) (hdr : bytes).

(** What the calls for request number [n] on the connection find: what the handler does with
    the context and the connection, what the pool of contexts gives, whether the server is
    being stopped, the clock. [se_tls] is the handshake of a TLS connection, [se_nextProtos]
    the handlers of other protocols with the error each returns. *)
Record serve_env := mkServeEnv {
  se_handler : Z → RequestCtx → Reader → RequestCtx * Reader;
  se_pool : Z → option RequestCtx;
  se_quick : Z → quick_read;
  se_stop : Z → bool;
  se_now : Z → Z;
  se_connID : Z;
  se_addrs : option netAddr * option netAddr;
  se_tls : option handshake;
  se_nextProtos : bytes → option (option serve_error)
}.

Definition onReqHeader (x : RequestCtx) (f : RequestHeader → RequestHeader) : RequestCtx :=
  x <| cx_Request := (cx_Request x) <| rq_Header := f (rq_Header (cx_Request x)) |> |>.
Definition onRespHeader (x : RequestCtx) (f : ResponseHeader → ResponseHeader) : RequestCtx :=
  x <| cx_Response := (cx_Response x) <| re_Header := f (re_Header (cx_Response x)) |> |>.
Definition setTLS (x : RequestCtx) (isTLS : bool) : RequestCtx :=
  x <| cx_isTLS := isTLS |> <| cx_Request := (cx_Request x) <| rq_isTLS := isTLS |> |>.

(** [needFinish]: the body is a stream of the connection. *)
Definition needFinish (q : Request) : bool :=
  match rq_bodyStream q with Some (streamRequest _) => true | _ => false end.

(** [multipart.ErrMessageTooLarge] *)
Definition ErrMessageTooLarge : body_error := errMultipart (bs "multipart: message too large").

(** The response to an error of reading the header. [HeaderParseErr.Error] joins its parts
    with a colon. *)
Definition headerErrResponse (e : header_error) : bytes :=
  if bool_decide (e = HeaderBufferSmallErr) then statusRequestHeaderFieldsTooLargeErr
  else
    match e with
    | unsupportedTEError _ => statusNotImplementedErr
    | HeaderParseErr what val =>
        if Contains (what ++ bs ":" ++ val) (bs "unsupported HTTP version")
        then statusHTTPVersionNotSupportedErr else commonRequestErr
    | _ => commonRequestErr
    end.

(** The response to an error of reading the body. *)
Definition bodyErrResponse (e : body_error) : bytes :=
  if bool_decide (e = ErrBodyTooLarge) || bool_decide (e = ErrMessageTooLarge)
  then statusRequestEntityTooLargeErr else commonRequestErr.

(** How [serveConn] ends: with an error or none, the connection, and what [KeepHijackedConns]
    is afterwards; [stillOpen] when the rounds looked at are over, and it goes on from there. *)
Inductive serve_result :=
  | servedConn (err : option serve_error) (c : Conn) (keepHijacked : bool)
  | stillOpen (l : loop)
  | panicked.

Section serveConn.
Context `{ByteBufferOps} `{MultipartOps} (requestLimit responseLimit : Z) (serverDate : bytes).
Context (s : Server) (env : serve_env).

Definition isTLS : bool := bool_decide (is_Some (se_tls env)).
Definition serverName : bytes := Server.getServerName s.

(** ** Contexts and readers *)

Definition acquireCtx (n : Z) : RequestCtx :=
  let x := match se_pool env n with
           | None =>
               let keep := negb (sv_ReduceMemoryUsage s) in
               RequestCtx_zero <| cx_Request := Request_zero <| rq_keepBodyBuffer := keep |> |>
                               <| cx_Response := Response_zero <| re_keepBodyBuffer := keep |> |>
           | Some x => x
           end in
  x <| cx_c := Some (se_addrs env) |>.

(** A reader with nothing buffered over what the connection still delivers; a [bufio.Reader]
    holds at least 16 bytes. *)
Definition acquireReader (r : Reader) : Reader :=
  let n := if (sv_ReadBufferSize s <=? 0)%Z then defaultReadBufferSize else sv_ReadBufferSize s in
  mkReader [] (r_chunks r) (r_err r) (Nat.max 16 (Z.to_nat n)) None.

(** [firstByteReader]: the byte read ahead comes with what the next read of the connection
    delivers. *)
Definition withFirstByte (b : byte) (chunks : list bytes) : list bytes :=
  match chunks with
  | [] => [[b]]
  | c :: cs => (b :: c) :: cs
  end.

(** A read of one byte from the connection: what later reads deliver. [None] is the panic of a
    read without a byte and without an error. *)
Definition readOneByte (chunks : list bytes) : option (option (byte * list bytes)) :=
  match chunks with
  | [] => Some None
  | [] :: _ => None
  | [b] :: cs => Some (Some (b, cs))
  | (b :: c) :: cs => Some (Some (b, c :: cs))
  end.

(** The context is given back while the byte is waited for, unless it is already there. *)
Definition acquireByteReader : M unit := λ l,
  let n := lp_num l in
  let c := lp_conn l in
  match lp_ctx l with
  | None => Panic
  | Some x =>
      match se_quick env n, readOneByte (r_chunks (cn_r c)) with
      | quickError e, _ => Next tt (l <| lp_err := Some (serveErr (bodyIO e)) |>)
      | quickByte, Some (Some (b, cs)) =>
          let r := acquireReader ((cn_r c) <| r_chunks := withFirstByte b cs |>) in
          Next tt (l <| lp_conn := c <| cn_r := r |> <| cn_br := true |> |> <| lp_err := None |>)
      | _, first =>
          let '(_, r) := RequestCtx.reset requestLimit responseLimit x (cn_r c) in
          match first with
          | None => Panic
          | Some None =>
              Next tt (l <| lp_conn := c <| cn_r := r |> |> <| lp_ctx := None |>
                         <| lp_err := Some (serveErr (bodyIO (r_err r))) |>)
          | Some (Some (b, cs)) =>
              let r := acquireReader (r <| r_chunks := withFirstByte b cs |>) in
              Next tt (l <| lp_conn := c <| cn_r := r |> <| cn_br := true |> |>
                         <| lp_ctx := Some (acquireCtx n) |> <| lp_err := None |>)
          end
      end
  end.

(** ** The rounds of the loop *)

Definition storeState (st : ConnState) : M unit :=
  record (evState st) ;; when (sv_ConnState s) (record (evHook st)).

(** Waiting for the first byte of a request. *)
Definition waitRequest : M unit :=
  modify (λ l, l <| lp_num := (lp_num l + 1)%Z |>) ;;
  l ← get;
  let n := lp_num l in
  let d := Server.idleTimeout s in
  when ((1 <? n)%Z && (0 <? d)%Z) (setDeadline (evReadDeadline (Some d))) ;;
  (if negb (sv_ReduceMemoryUsage s) || cn_br (lp_conn l) then
     when (negb (cn_br (lp_conn l))) (onConn (λ c, c <| cn_r := acquireReader (cn_r c) |> <| cn_br := true |>)) ;;
     when (1 <? n)%Z
       (r ← theReader;
        let '(_, err, r) := Bufio.Peek r 1 in
        setReader r ;; modify (λ l, l <| lp_err := (serveErr ∘ bodyIO) <$> err |>))
   else
     when ((n =? 1)%Z && (0 <? lp_readTimeout l)%Z)
       (err ← deadlineCall (evReadDeadline (Some (lp_readTimeout l))); checkReturn err) ;;
     acquireByteReader ;;
     modify (λ l, l <| lp_ctx := (λ x, setTLS x isTLS) <$> lp_ctx l |>)) ;;
  l ← get; check (lp_err l).

(** From idle to active. *)
Definition beginRead : M unit :=
  storeState StateActiveR ;;
  l ← get;
  (if (0 <? lp_readTimeout l)%Z then
     when (negb (sv_ReduceMemoryUsage s) || negb (lp_num l =? 1)%Z)
       (setDeadline (evReadDeadline (Some (lp_readTimeout l))))
   else when ((0 <? sv_IdleTimeout s)%Z && (1 <? lp_num l)%Z) (setDeadline (evReadDeadline None))) ;;
  x ← theCtx;
  when (sv_DisableHeaderNamesNormalizing s)
    (setCtx (onRespHeader (onReqHeader x RequestHeader.DisableNormalizing) ResponseHeader.DisableNormalizing)).

Definition readHeader : M unit :=
  x ← theCtx; r ← theReader; l ← get;
  let '(h, r, err) := RequestHeader.readLoop (rq_Header (cx_Request x)) r true (lp_prevMethodIsPost l) true in
  setReader r ;; setCtx (onReqHeader x (λ _, h)) ;;
  (match err with
   | Some e => modify (λ l, l <| lp_responseStr := headerErrResponse e |>)
   | None => skip
   end) ;;
  check ((serveErr ∘ of_header) <$> err) ;;
  x ← theCtx;
  when (sv_GetOnly s && negb (RequestCtx.IsGet x) && negb (RequestCtx.IsHead x))
    (modify (λ l, l <| lp_responseStr := statusMethodNotAllowedErr |>) ;; check (Some ErrGetOnly)).

(** [HeaderReceived] and the settings it changes. *)
Definition configure : M unit :=
  match sv_HeaderReceived s with
  | None => skip
  | Some onHdrRecv =>
      x ← theCtx;
      let '(conf, h) := onHdrRecv (rq_Header (cx_Request x)) in
      setCtx (onReqHeader x (λ _, h)) ;;
      (if (0 <? rc_ReadTimeout conf)%Z then
         modify (λ l, l <| lp_readTimeout := rc_ReadTimeout conf |>) ;;
         setDeadline (evReadDeadline (Some (rc_ReadTimeout conf)))
       else modify (λ l, l <| lp_readTimeout := sv_ReadTimeout s |>)) ;;
      modify (λ l,
        l <| lp_maxRequestBodySize :=
               if (0 <? rc_MaxRequestBodySize conf)%Z then rc_MaxRequestBodySize conf
               else if (0 <? sv_MaxRequestBodySize s)%Z then sv_MaxRequestBodySize s
               else DefaultMaxRequestBodySize |>
          <| lp_writeTimeout := if (0 <? rc_WriteTimeout conf)%Z then rc_WriteTimeout conf
                                else sv_WriteTimeout s |>)
  end.

(** [Expect: 100-continue]. *)
Definition expectContinue : M unit :=
  x ← theCtx;
  when (Request.MayContinue (cx_Request x))
    ((match sv_ContinueHandler s with
      | None => skip
      | Some f =>
          let '(ok, h) := f (rq_Header (cx_Request x)) in
          setCtx (onReqHeader x (λ _, h)) ;; modify (λ l, l <| lp_continueReadingRequest := ok |>)
      end) ;;
     l ← get;
     let timeout := lp_writeTimeout l in
     when (0 <? timeout)%Z (setDeadline (evWriteDeadline (Some timeout))) ;;
     err ← writeConn evContinue (if lp_continueReadingRequest l then strResponseContinue else strResponseContinueFail);
     check err ;;
     when (0 <? timeout)%Z (setDeadline (evWriteDeadline None))) ;;
  l ← get;
  when (negb (lp_continueReadingRequest l)) break_.

Definition readRequestBody : M unit :=
  x ← theCtx; r ← theReader; l ← get;
  let x := onReqHeader x (λ h, h <| q_noDefaultContentType := sv_NoDefaultContentType s |>) in
  let q := cx_Request x in
  let max := lp_maxRequestBodySize l in
  let preParse := negb (sv_DisablePreParseMultipartForm s) in
  let '(err, q, r) :=
    if sv_StreamRequestBody s then
      Request.ReadBodyStream
        (q <| rq_StreamBody := true |> <| rq_DiscardUnReadBodyStream := sv_DiscardUnReadRequestBodyStream s |>
           <| rq_maxBodySize := max |>) r max preParse
    else Request.ReadBody q r max preParse in
  setReader r ;; setCtx (x <| cx_Request := q |>) ;;
  (match err with
   | Some e => modify (λ l, l <| lp_responseStr := bodyErrResponse e |>)
   | None => skip
   end) ;;
  check (serveErr <$> err) ;;
  when (sv_ReduceMemoryUsage s && negb (sv_StreamRequestBody s) && bool_decide (Buffered r = 0))
    (onConn (λ c, c <| cn_br := false |>)).

(** What the handler is told by the server. *)
Definition forHandler (n : Z) (x : RequestCtx) : RequestCtx :=
  let x := match serverName with [] => x | name => onRespHeader x (λ h, ResponseHeader.SetServer h name) end in
  let x := x <| cx_connID := se_connID env |> <| cx_connRequestNum := n |> <| cx_time := se_now env n |> in
  onRespHeader x (λ h, h <| p_noDefaultContentType := sv_NoDefaultContentType s |>
                         <| p_noDefaultDate := sv_NoDefaultDate s |>).

(** The call of the handler. *)
Definition callHandler : M unit :=
  x ← theCtx; r ← theReader; l ← get;
  let n := lp_num l in
  modify (λ l, l <| lp_connectionClose :=
    sv_DisableKeepalive s || RequestHeader.ConnectionClose (rq_Header (cx_Request x)) |>) ;;
  let x := forHandler n x in
  record (evHandler n x) ;;
  let '(x, r) := se_handler env n x r in
  setCtx x ;; setReader r.

(** A body stream the handler left is closed. *)
Definition finishBody : M unit :=
  x ← theCtx; r ← theReader; l ← get;
  let timeout := lp_readTimeout l in
  when (needFinish (cx_Request x))
    (when (0 <? timeout)%Z (setDeadline (evReadDeadline (Some timeout))) ;;
     let '(err, q, r) := Request.closeBodyStream (cx_Request x) r in
     setReader r ;; setCtx (x <| cx_Request := q |>) ;;
     check (serveErr <$> err) ;;
     when (0 <? timeout)%Z (setDeadline (evReadDeadline None))).

(** [HijackConn]: the server's setting is changed as well. *)
Definition handOver : M unit :=
  x ← theCtx; l ← get;
  when (cx_hijacked x)
    (modify (λ l, l <| lp_keepHijacked := true |>) ;;
     when (0 <? lp_readTimeout l)%Z (deadlineCall (evReadDeadline None) ;; skip) ;;
     check (Some errHijacked)).

(** The context after its hijack handler was taken; a HEAD request is answered without a
    body. *)
Definition forWriting (x : RequestCtx) : RequestCtx :=
  let x := x <| cx_hijackHandler := None |> <| cx_hijackNoResponse := false |> in
  if RequestCtx.IsHead x
  then x <| cx_Response := (cx_Response x)
              <| re_Header := (re_Header (cx_Response x)) <| p_headMethod := true |> |>
              <| re_SkipBody := true |> |>
  else x.

Definition beginWrite : M unit :=
  storeState StateActiveW ;;
  x ← theCtx;
  modify (λ l, l <| lp_hijackHandler := cx_hijackHandler x |>
                 <| lp_hijackNoResponse := cx_hijackNoResponse x && bool_decide (is_Some (cx_hijackHandler x)) |>) ;;
  setCtx (forWriting x) ;;
  l ← get;
  when (0 <? lp_writeTimeout l)%Z (setDeadline (evWriteDeadline (Some (lp_writeTimeout l)))).

(** Whether the connection is closed after the response, and the headers that say so. *)
Definition connectionHeaders (n : Z) (close : bool) (x : RequestCtx) : bool * RequestCtx :=
  let h := re_Header (cx_Response x) in
  let '(close, h) :=
    if ResponseHeader.ConnectionClose h then (true, h)
    else if close || sv_CloseOnShutdown s && se_stop env n then (true, ResponseHeader.SetConnectionClose h)
    else if negb (RequestHeader.IsHTTP11 (rq_Header (cx_Request x)))
    then (false, ResponseHeader.setNonSpecial h strConnection strKeepAlive)
    else (false, h) in
  let h := match ResponseHeader.Server h, serverName with
           | [], (_ :: _) as name => ResponseHeader.SetServer h name
           | _, _ => h
           end in
  (close, onRespHeader x (λ _, h)).

Definition setConnectionHeaders : M unit :=
  x ← theCtx; l ← get;
  let '(close, x) := connectionHeaders (lp_num l) (lp_connectionClose l) x in
  setCtx x ;;
  modify (λ l, l <| lp_connectionClose := close |> <| lp_shouldStop := se_stop env (lp_num l) |>).

(** [writeResponse] and the flush; a response [Response.Write] does not cover panics. *)
Definition sendResponse : M unit := λ l,
  match lp_ctx l with
  | None => Panic
  | Some x =>
      let c := lp_conn l in
      let '(o, c) := match cn_writes c with
                     | [] => (write_ok, c)
                     | o :: os => (o, c <| cn_writes := os |>)
                     end in
      match Response.Write serverDate (mkWriter [] (wo_room o)) (cx_Response x) (cn_r c) with
      | None => Panic
      | Some (err, w, p, r) =>
          let err := orErr err (wo_flush o) in
          let sent := match err with None => w_out w | Some _ => take (wo_sent o) (w_out w) end in
          check (serveErr <$> err)
            (l <| lp_ctx := Some (x <| cx_Response := p |>) |>
               <| lp_conn := c <| cn_r := r |> <| cn_log := cn_log c ++ [evResponse sent] |> |>)
      end
  end.

(** Line breaks after the body of a POST request. *)
Definition skipLineBreaks : M unit :=
  x ← theCtx; l ← get;
  when (RequestCtx.IsPost x && cn_br (lp_conn l))
    (r ← theReader;
     let '(p, _, r) := Bufio.Peek r (Nat.min 4 (Buffered r)) in
     setReader (Discard r (numLeadingCRorLF p))).

Definition respond : M unit :=
  l ← get;
  when (negb (lp_hijackNoResponse l))
    (when (0 <? lp_writeTimeout l)%Z (setDeadline (evWriteDeadline (Some (lp_writeTimeout l)))) ;;
     sendResponse ;;
     l ← get; when (lp_connectionClose l) break_ ;;
     skipLineBreaks).

(** A hijack handler takes the connection, with what is buffered. *)
Definition startHijack : M unit :=
  l ← get;
  match lp_hijackHandler l with
  | None => skip
  | Some handler =>
      let buffered := if cn_br (lp_conn l) then Some (r_buf (cn_r (lp_conn l))) else None in
      onConn (λ c, c <| cn_br := false |>) ;;
      when ((0 <? lp_writeTimeout l)%Z || (0 <? lp_readTimeout l)%Z) (setDeadline evClearDeadlines) ;;
      record (evHijack handler buffered) ;;
      check (Some errHijacked)
  end.

(** From active to idle. *)
Definition nextRequest : M unit :=
  l ← get;
  when (lp_shouldStop l) break_ ;;
  when (0 <? lp_writeTimeout l)%Z (setDeadline (evWriteDeadline None)) ;;
  when (0 <? lp_readTimeout l)%Z (setDeadline (evReadDeadline None)) ;;
  storeState StateIdle ;;
  x ← theCtx; r ← theReader;
  let post := RequestCtx.IsPost x in
  let x := RequestCtx.ResetUserValues x in
  let '(q, r) := Request.Reset requestLimit (cx_Request x) r in
  setReader r ;;
  setCtx (x <| cx_Request := q <| rq_isTLS := isTLS |> |>
            <| cx_Response := Response.Reset responseLimit (cx_Response x) |>) ;;
  modify (λ l, l <| lp_prevMethodIsPost := post |> <| lp_responseStr := [] |>).

Definition readRequest : M unit := waitRequest ;; beginRead ;; readHeader ;; configure ;; expectContinue ;; readRequestBody.
Definition handleRequest : M unit := callHandler ;; finishBody ;; handOver.
Definition answerRequest : M unit := beginWrite ;; setConnectionHeaders ;; respond ;; startHijack.
Definition round : M unit := readRequest ;; handleRequest ;; answerRequest ;; nextRequest.

(** The loop, for at most [rounds] rounds: it goes on where the result is [Next]. *)
Fixpoint serveLoop (rounds : nat) (l : loop) : step unit :=
  match rounds with
  | O => Next tt l
  | S rounds => match round l with Next _ l => serveLoop rounds l | res => res end
  end.

(** ** Before and after the loop *)

Definition tlsRecordHeaderLooksLikeHTTP (hdr : bytes) : bool :=
  existsb (Equal hdr) [bs "GET /"; bs "HEAD "; bs "POST "; bs "PUT /"; bs "OPTIO"].

(** The protocol agreed on; an error returns. *)
Definition getNextProto : M bytes :=
  match se_tls env with
  | None => mret []
  | Some hs =>
      when (0 <? sv_ReadTimeout s)%Z
        (err ← deadlineCall (evReadDeadline (Some (sv_ReadTimeout s))); checkReturn err) ;;
      when (0 <? sv_WriteTimeout s)%Z
        (err ← deadlineCall (evWriteDeadline (Some (sv_WriteTimeout s))); checkReturn err) ;;
      match hs with
      | handshakeOK proto => mret proto
      | handshakeError e => checkReturn (Some (serveErr e)) ;; mret []
      | handshakeRecord e hasConn hdr =>
          when (hasConn && tlsRecordHeaderLooksLikeHTTP hdr) (writeConn evRefusal httpToHttpsErr ;; skip) ;;
          checkReturn (Some (serveErr e)) ;; mret []
      end
  end.

Definition otherProtocol : M unit :=
  proto ← getNextProto;
  match se_nextProtos env proto with
  | None => skip
  | Some res =>
      when ((0 <? sv_ReadTimeout s)%Z || (0 <? sv_WriteTimeout s)%Z)
        (err ← deadlineCall evClearDeadlines; checkReturn err) ;;
      return_ res
  end.

Definition startLoop (c : Conn) : loop :=
  let x := setTLS ((acquireCtx 0) <| cx_connTime := se_now env 0 |>) isTLS in
  mkLoop (c <| cn_br := false |>) (Some x) 0 None [] (sv_ReadTimeout s) (sv_WriteTimeout s)
    (if (sv_MaxRequestBodySize s <=? 0)%Z then DefaultMaxRequestBodySize else sv_MaxRequestBodySize s)
    true false false None false false (sv_KeepHijackedConns s).

(** The canned response, if one is due. *)
Definition refuse : M unit :=
  l ← get;
  let timeout := lp_writeTimeout l in
  match lp_responseStr l with
  | [] => skip
  | str =>
      er ← (if (0 <? timeout)%Z then deadlineCall (evWriteDeadline (Some timeout)) else mret None);
      er ← (match er with None => writeConn evRefusal str | Some e => mret (Some e) end);
      when ((0 <? timeout)%Z && bool_decide (er = None)) (deadlineCall (evWriteDeadline None) ;; skip)
  end.

(** After the loop: the canned response, the error handler, and the context back to its pool,
    which resets it and can read from the connection. *)
Definition endLoop (l : loop) : option serve_error * Conn * bool :=
  let err := if bool_decide (lp_err l = Some (serveErr (bodyIO EOF))) then None else lp_err l in
  let l := match refuse l with Next _ l => l | _ => l end in
  let c := lp_conn l in
  let c := if sv_ErrorHandler s && bool_decide (is_Some (lp_ctx l))
           then c <| cn_log := cn_log c ++ [evErrorHandler err] |> else c in
  let c := match lp_hijackHandler l, lp_ctx l with
           | None, Some x => c <| cn_r := (RequestCtx.reset requestLimit responseLimit x (cn_r c)).2 |>
           | _, _ => c
           end in
  (err, c <| cn_br := false |>, lp_keepHijacked l).

(** [serveConn], for at most [rounds] requests of the connection. *)
Definition serveConn (rounds : nat) (c : Conn) : serve_result :=
  match otherProtocol (startLoop c) with
  | Return l => servedConn (lp_err l) (lp_conn l) (lp_keepHijacked l)
  | Next _ l =>
      match serveLoop rounds (startLoop (lp_conn l)) with
      | Next _ l => stillOpen l
      | Break l => let '(err, c, keep) := endLoop l in servedConn err c keep
      | Return l => servedConn (lp_err l) (lp_conn l) (lp_keepHijacked l)
      | Panic => panicked
      end
  | _ => panicked
  end.
End serveConn.
