(* ===== verification/ServerFacts.v ===== *)
(** The connection loop: the protocol its trace follows whatever the peer, the handler and the
    network do, and the requests of a connection served one after the other. *)

From Stdlib Require Import ZArith Strings.Byte.
From stdpp Require Import prelude strings list.
From S2P Require Import Prelude Tables Bufio Bytesconv Args Uri Headers HeaderScan CookieFacts Body BodyFacts.
From S2P Require Import ReqHeader RespHeader HeaderFacts ReqFacts ReqRoundtrip Http HttpFacts HttpResp UserData PerIP RequestCtx Server.

(** * A program logic for the loop *)

(** From a state in [P] a statement continues in [Q] or leaves the loop in [B]. *)
Definition triple {A} (P : loop → Prop) (m : M A) (Q : A → loop → Prop) (B : loop → Prop) : Prop :=
  ∀ l, P l → match m l with Next a l' => Q a l' | Break l' | Return l' => B l' | Panic => True end.

Section logic.
Context (B : loop → Prop).

Lemma triple_bind {A C} P (m : M A) (k : A → M C) Q R :
  triple P m Q B → (∀ a, triple (Q a) (k a) R B) → triple P (m ≫= k) R B.
Proof.
  intros Hm Hk l Hl. specialize (Hm l Hl). unfold mbind, M_bind. destruct (m l) as [a l'|l'|l'|]; try done.
  by apply Hk.
Qed.

Lemma triple_ret {A} (P : A → loop → Prop) (a : A) : triple (P a) (mret a) P B.
Proof. by intros l. Qed.

Lemma triple_get (P : loop → Prop) : triple P get (λ l l', P l ∧ l' = l) B.
Proof. by intros l. Qed.

Lemma triple_modify (P : loop → Prop) (Q : unit → loop → Prop) f :
  (∀ l, P l → Q tt (f l)) → triple P (modify f) Q B.
Proof. intros H l Hl. by apply H. Qed.

Lemma triple_when (P : loop → Prop) (Q : unit → loop → Prop) b m :
  (b = true → triple P m Q B) → (b = false → ∀ l, P l → Q tt l) → triple P (when b m) Q B.
Proof. intros Ht Hf. destruct b; [by apply Ht|]. intros l Hl. by apply Hf. Qed.

Lemma triple_weaken {A} (P P' : loop → Prop) (m : M A) (Q Q' : A → loop → Prop) :
  triple P' m Q' B → (∀ l, P l → P' l) → (∀ a l, Q' a l → Q a l) → triple P m Q B.
Proof.
  intros Hm HP HQ l Hl. specialize (Hm l (HP l Hl)). destruct (m l); try done. by apply HQ.
Qed.
End logic.

(** * The protocol of a connection *)

(** Where a connection is: new, between requests, reading a request, after an answer to
    [Expect], after the call of the handler, writing, after the response, and past the end. *)
Inductive phase := pNew | pWait | pRead | pAsked | pHandled | pWrite | pSent | pOver.

#[global] Instance phase_eq_decision : EqDecision phase.
Proof. solve_decision. Defined.

(** What may happen next, with the number of requests handled. *)
Definition protocol_step (st : phase * Z) (e : event) : option (phase * Z) :=
  let '(ph, k) := st in
  match e with
  | evReadDeadline _ | evWriteDeadline _ | evClearDeadlines | evHook _ => Some (ph, k)
  | evState StateActiveR => if bool_decide (ph ∈ [pNew; pWait]) then Some (pRead, k) else None
  | evContinue _ => if bool_decide (ph = pRead) then Some (pAsked, k) else None
  | evHandler n _ =>
      if bool_decide (ph ∈ [pRead; pAsked]) && (n =? k + 1)%Z then Some (pHandled, (k + 1)%Z) else None
  | evState StateActiveW => if bool_decide (ph = pHandled) then Some (pWrite, k) else None
  | evResponse _ => if bool_decide (ph = pWrite) then Some (pSent, k) else None
  | evState StateIdle => if bool_decide (ph = pSent) then Some (pWait, k) else None
  | evHijack _ _ => if bool_decide (ph ∈ [pWrite; pSent]) then Some (pOver, k) else None
  | evRefusal _ => if bool_decide (ph ∈ [pNew; pRead; pAsked]) then Some (pOver, k) else None
  | evErrorHandler _ => Some (pOver, k)
  | evState _ => None
  end.

Definition run_protocol (st : phase * Z) (log : list event) : option (phase * Z) :=
  foldl (λ o e, st ← o; protocol_step st e) (Some st) log.

(** The requests handed to the handler, with their numbers. *)
Definition handled (log : list event) : list (Z * RequestCtx) :=
  omap (λ e, match e with evHandler n x => Some (n, x) | _ => None end) log.

Lemma handled_app l1 l2 : handled (l1 ++ l2) = handled l1 ++ handled l2.
Proof. apply omap_app. Qed.

Lemma run_protocol_snoc st log e :
  run_protocol st (log ++ [e]) = (st ← run_protocol st log; protocol_step st e).
Proof. unfold run_protocol. by rewrite foldl_app. Qed.

(** What the handler said about hijacking. *)
Definition hijacking (l : loop) : option nat * bool := (lp_hijackHandler l, lp_hijackNoResponse l).

(** The trace of the loop so far leads to one of the phases, the request is number [k + d]
    when [k] were handled, no canned response is due, and [F] is known about hijacking. *)
Definition at_phase (phs : list phase) (d : Z) (F : option nat * bool → Prop) (l : loop) : Prop :=
  ∃ ph k, run_protocol (pNew, 0%Z) (cn_log (lp_conn l)) = Some (ph, k) ∧ ph ∈ phs ∧
    lp_num l = (k + d)%Z ∧ lp_responseStr l = [] ∧ F (hijacking l).

Definition anything (_ : option nat * bool) : Prop := True.

(** How the loop is left: a canned response is due only while a request is read. *)
Definition left_well (l : loop) : Prop :=
  ∃ ph k, run_protocol (pNew, 0%Z) (cn_log (lp_conn l)) = Some (ph, k) ∧
    (lp_responseStr l ≠ [] → ph ∈ [pRead; pAsked]).

(** A statement that does not change the phase. *)
Definition keeps {A} (m : M A) : Prop :=
  ∀ phs d F, triple (at_phase phs d F) m (λ _, at_phase phs d F) left_well.

Definition neutral (e : event) : Prop :=
  match e with evReadDeadline _ | evWriteDeadline _ | evClearDeadlines | evHook _ => True | _ => False end.

Lemma at_phase_left phs d F l : at_phase phs d F l → left_well l.
Proof. intros (ph&k&E&_&_&Hr&_). exists ph, k. by rewrite Hr. Qed.

Section keeps.
Lemma keeps_bind {A C} (m : M A) (k : A → M C) : keeps m → (∀ a, keeps (k a)) → keeps (m ≫= k).
Proof. intros Hm Hk phs d F. eapply triple_bind; [apply Hm|]. intros a. apply Hk. Qed.

Lemma keeps_ret {A} (a : A) : keeps (mret a).
Proof. by intros phs d F l. Qed.

Lemma keeps_get : keeps get.
Proof. by intros phs d F l. Qed.

Lemma keeps_theReader : keeps theReader.
Proof. by intros phs d F l. Qed.

Lemma keeps_theCtx : keeps theCtx.
Proof. intros phs d F l Hl. unfold theCtx. by destruct (lp_ctx l). Qed.

Lemma keeps_modify f :
  (∀ l, cn_log (lp_conn (f l)) = cn_log (lp_conn l) ∧ lp_num (f l) = lp_num l ∧
        lp_responseStr (f l) = lp_responseStr l ∧ hijacking (f l) = hijacking l) → keeps (modify f).
Proof. intros Hf phs d F l. destruct (Hf l) as (E1&E2&E3&E4). unfold at_phase. cbn. by rewrite E1, E2, E3, E4. Qed.

Lemma keeps_when b m : keeps m → keeps (when b m).
Proof. intros Hm. by destruct b; [|apply keeps_ret]. Qed.

Lemma keeps_break : keeps break_.
Proof. intros phs d F l. apply at_phase_left. Qed.

Lemma keeps_check err : keeps (check err).
Proof. intros phs d F l Hl. unfold check. destruct err; [by eapply at_phase_left|done]. Qed.

Lemma keeps_checkReturn err : keeps (checkReturn err).
Proof. intros phs d F l Hl. unfold checkReturn. destruct err; [by eapply at_phase_left|done]. Qed.

Lemma at_phase_neutral phs d F l c e :
  neutral e → cn_log c = cn_log (lp_conn l) ++ [e] → at_phase phs d F l → at_phase phs d F (l <| lp_conn := c |>).
Proof.
  intros He Hc (ph&k&E&?&?&?&?). exists ph, k. split_and!; try done. cbn. rewrite Hc, run_protocol_snoc, E.
  by destruct e.
Qed.

Lemma keeps_record e : neutral e → keeps (record e).
Proof. intros He phs d F l Hl. unfold record, onConn, modify. by eapply at_phase_neutral. Qed.

Lemma keeps_deadlineCall e : neutral e → keeps (deadlineCall e).
Proof.
  intros He phs d F l Hl. unfold deadlineCall. cbn. destruct (cn_deadlines (lp_conn l)); by eapply at_phase_neutral.
Qed.

Lemma keeps_setDeadline e : neutral e → keeps (setDeadline e).
Proof. intros He. apply keeps_bind; [by apply keeps_deadlineCall|apply keeps_check]. Qed.

(** A statement that moves to another phase. *)
Lemma triple_record phs d F e ph' d' :
  (∀ ph k n, ph ∈ phs → n = (k + d)%Z → ∃ k', protocol_step (ph, k) e = Some (ph', k') ∧ n = (k' + d')%Z) →
  triple (at_phase phs d F) (record e) (λ _, at_phase [ph'] d' F) left_well.
Proof.
  intros He l (ph&k&E&Hph&Hn&Hr&HF). destruct (He ph k _ Hph Hn) as (k'&Es&Hk').
  exists ph', k'. split_and!; [|by apply list_elem_of_singleton|done|done|done].
  change (run_protocol (pNew, 0%Z) (cn_log (lp_conn l) ++ [e]) = Some (ph', k')).
  by rewrite run_protocol_snoc, E.
Qed.
End keeps.

Ltac keeps_step :=
  lazymatch goal with
  | |- keeps (_ ≫= _) => apply keeps_bind; [|intros ?]
  | |- keeps (when _ _) => apply keeps_when
  | |- keeps (mret _) => apply keeps_ret
  | |- keeps skip => apply keeps_ret
  | |- keeps get => apply keeps_get
  | |- keeps theReader => apply keeps_theReader
  | |- keeps theCtx => apply keeps_theCtx
  | |- keeps (setDeadline _) => by apply keeps_setDeadline
  | |- keeps (deadlineCall _) => by apply keeps_deadlineCall
  | |- keeps (check _) => apply keeps_check
  | |- keeps (checkReturn _) => apply keeps_checkReturn
  | |- keeps break_ => apply keeps_break
  | |- keeps (modify _) => by apply keeps_modify
  | |- keeps (setCtx _) => by apply keeps_modify
  | |- keeps (setReader _) => by apply keeps_modify
  | |- keeps (onConn _) => by apply keeps_modify
  | |- keeps (match ?x with _ => _ end) => destruct x
  end.

Ltac keep := repeat keeps_step.

(** The rest of a statement keeps the phase. *)
Ltac keeping :=
  lazymatch goal with |- triple _ ?m _ _ =>
    let Hk := fresh "Hk" in assert (keeps m) as Hk; [keep|apply Hk] end.

(** ** The statements *)

Section protocol.
Context `{ByteBufferOps} `{MultipartOps} (requestLimit responseLimit : Z) (serverDate : bytes).
Context (s : Server) (env : serve_env).

Lemma keeps_acquireByteReader : keeps (acquireByteReader requestLimit responseLimit s env).
Proof.
  intros phs d F l Hl. unfold acquireByteReader.
  destruct (lp_ctx l) as [x|]; [|done]. destruct (RequestCtx.reset _ _ _ _) as [x' r'].
  destruct (se_quick env (lp_num l)); try done;
    by destruct (readOneByte _) as [[[b cs]|]|].
Qed.

Lemma triple_storeState phs d F st ph' d' :
  (∀ ph k n, ph ∈ phs → n = (k + d)%Z →
     ∃ k', protocol_step (ph, k) (evState st) = Some (ph', k') ∧ n = (k' + d')%Z) →
  triple (at_phase phs d F) (storeState s st) (λ _, at_phase [ph'] d' F) left_well.
Proof.
  intros Hst. unfold storeState. eapply triple_bind; [by apply triple_record|]. intros []. keeping.
  by apply keeps_record.
Qed.

Ltac ph_cases :=
  let ph := fresh "ph" in let k := fresh "k" in let n := fresh "n" in
  intros ph k n; destruct ph; rewrite ?elem_of_cons, ?list_elem_of_singleton, ?elem_of_nil;
  intros Hph ->; try (exfalso; naive_solver); (eexists; split; [cbn; rewrite ?Z.eqb_refl; reflexivity|lia]).

Lemma triple_waitRequest :
  triple (at_phase [pNew; pWait] 0 anything) (waitRequest requestLimit responseLimit s env)
    (λ _, at_phase [pNew; pWait] 1 anything) left_well.
Proof.
  unfold waitRequest. eapply triple_bind with (Q := λ _, at_phase [pNew; pWait] 1 anything).
  - apply triple_modify. intros l (ph&k&E&?&Hn&?&?). exists ph, k. split_and!; try done. cbn. lia.
  - intros []. keeping. apply keeps_acquireByteReader.
Qed.

Lemma triple_beginRead :
  triple (at_phase [pNew; pWait] 1 anything) (beginRead s) (λ _, at_phase [pRead] 1 anything) left_well.
Proof.
  unfold beginRead. eapply triple_bind; [apply (triple_storeState _ _ _ _ pRead 1); ph_cases|].
  intros []. keeping.
Qed.

(** A canned response set right before an error leaves the loop. *)
Lemma triple_refuse {A} phs str err (k : unit → M A) Q :
  phs ⊆ [pRead; pAsked] →
  triple (at_phase phs 1 anything) (modify (λ l, l <| lp_responseStr := str |>) ;; (check (Some err) ≫= k)) Q left_well.
Proof.
  intros Hsub l (ph&n&E&Hph&?&?&?). exists ph, n. split; [done|]. intros _. by apply Hsub.
Qed.

(** The same at the end of a statement. *)
Lemma triple_refuse_last phs str err Q :
  phs ⊆ [pRead; pAsked] →
  triple (at_phase phs 1 anything) (modify (λ l, l <| lp_responseStr := str |>) ;; check (Some err)) Q left_well.
Proof. apply (triple_refuse phs str err (λ _, mret tt)). Qed.

Lemma triple_keeps {A C} phs d F (m : M A) (k : A → M C) Q :
  keeps m → (∀ a, triple (at_phase phs d F) (k a) Q left_well) → triple (at_phase phs d F) (m ≫= k) Q left_well.
Proof. intros Hm Hk. eapply triple_bind; [apply Hm|done]. Qed.

Ltac pass := apply triple_keeps; [keep|intros ?].

Lemma triple_readHeader :
  triple (at_phase [pRead] 1 anything) (readHeader s) (λ _, at_phase [pRead] 1 anything) left_well.
Proof.
  unfold readHeader. do 3 pass. destruct (RequestHeader.readLoop _ _ _ _ _) as [[h r] [e|]]; do 2 pass.
  - apply triple_refuse. set_solver.
  - do 3 pass. apply triple_when; [|done]. intros _. apply triple_refuse_last. set_solver.
Qed.

Lemma triple_writeConn phs d F ev b ph' d' :
  (∀ ph k n b, ph ∈ phs → n = (k + d)%Z → ∃ k', protocol_step (ph, k) (ev b) = Some (ph', k') ∧ n = (k' + d')%Z) →
  triple (at_phase phs d F) (writeConn ev b) (λ _, at_phase [ph'] d' F) left_well.
Proof.
  intros He l Hl. unfold writeConn. cbn.
  destruct (cn_writes (lp_conn l)) as [|o os]; destruct (Body.Write _ _) as [err w];
    apply (triple_record phs d F (ev (w_out w)) ph' d') in Hl; by try (intros; apply He).
Qed.

Lemma keeps_configure : keeps (configure s).
Proof. unfold configure. keep. Qed.

Lemma at_phase_weaken phs phs' d F F' l :
  phs ⊆ phs' → (∀ h, F h → F' h) → at_phase phs d F l → at_phase phs' d F' l.
Proof. intros Hs HF (ph&k&?&?&?&?&?). exists ph, k. split_and!; try done; [by apply Hs|by apply HF]. Qed.

Lemma triple_expectContinue :
  triple (at_phase [pRead] 1 anything) (expectContinue s) (λ _, at_phase [pRead; pAsked] 1 anything) left_well.
Proof.
  unfold expectContinue. pass. eapply triple_bind with (Q := λ _, at_phase [pRead; pAsked] 1 anything).
  2: { intros []. keeping. }
  apply triple_when; intros _; [|intros l; apply at_phase_weaken; set_solver].
  do 3 pass. eapply triple_bind with (Q := λ _, at_phase [pAsked] 1 anything).
  - apply triple_writeConn. intros ph k n b' ->%list_elem_of_singleton ->. eexists. by split.
  - intros err. eapply triple_weaken with (P' := at_phase [pAsked] 1 anything)
      (Q' := λ _, at_phase [pAsked] 1 anything); [keeping|done|].
    intros [] l. apply at_phase_weaken; set_solver.
Qed.

Lemma triple_readRequestBody :
  triple (at_phase [pRead; pAsked] 1 anything) (readRequestBody s) (λ _, at_phase [pRead; pAsked] 1 anything)
    left_well.
Proof.
  unfold readRequestBody. do 3 pass.
  match goal with |- context [if sv_StreamRequestBody s then ?a else ?b] =>
    destruct (if sv_StreamRequestBody s then a else b) as [[[e|] q] r] end; do 2 pass.
  - by apply triple_refuse.
  - keeping.
Qed.

Lemma triple_readRequest :
  triple (at_phase [pNew; pWait] 0 anything) (readRequest requestLimit responseLimit s env)
    (λ _, at_phase [pRead; pAsked] 1 anything) left_well.
Proof.
  unfold readRequest. eapply triple_bind; [apply triple_waitRequest|intros []].
  eapply triple_bind; [apply triple_beginRead|intros []].
  eapply triple_bind; [apply triple_readHeader|intros []].
  apply triple_keeps; [apply keeps_configure|intros []].
  eapply triple_bind; [apply triple_expectContinue|intros []]. apply triple_readRequestBody.
Qed.

Lemma triple_callHandler :
  triple (at_phase [pRead; pAsked] 1 anything) (callHandler s env) (λ _, at_phase [pHandled] 0 anything) left_well.
Proof.
  unfold callHandler. do 2 pass.
  intros l Hl. unfold get. cbn [mbind M_bind]. unfold mbind, M_bind at 1.
  assert (triple (λ l', at_phase [pRead; pAsked] 1 anything l' ∧ lp_num l' = lp_num l)
    (record (evHandler (lp_num l) (forHandler s env (lp_num l) a)) ;;
     let '(x, r) := se_handler env (lp_num l) (forHandler s env (lp_num l) a) a0 in setCtx x ;; setReader r)
    (λ _, at_phase [pHandled] 0 anything) left_well) as Ht.
  { eapply triple_bind with (Q := λ _, at_phase [pHandled] 0 anything).
    - intros l' [(ph&k&E&Hph&Hn&Hr&HF) El]. exists pHandled, (k + 1)%Z.
      split_and!; [|by apply list_elem_of_singleton|cbn; lia|done|done].
      change (run_protocol (pNew, 0%Z) (cn_log (lp_conn l') ++ [evHandler (lp_num l) (forHandler s env (lp_num l) a)])
              = Some (pHandled, (k + 1)%Z)).
      rewrite run_protocol_snoc, E. cbn. rewrite bool_decide_true by done.
      destruct (Z.eqb_spec (lp_num l) (k + 1)); [done|lia].
    - intros []. keeping. }
  apply Ht. split; [|done]. by apply (keeps_modify (λ l, l <| lp_connectionClose := _ |>)).
Qed.

Lemma triple_handleRequest :
  triple (at_phase [pRead; pAsked] 1 anything) (handleRequest s env) (λ _, at_phase [pHandled] 0 anything) left_well.
Proof.
  unfold handleRequest. eapply triple_bind; [apply triple_callHandler|intros []].
  unfold finishBody, handOver. keeping.
Qed.

(** No response only for a hijack handler. *)
Definition silent_hijack (h : option nat * bool) : Prop := h.2 = true → is_Some h.1.

Lemma triple_beginWrite :
  triple (at_phase [pHandled] 0 anything) (beginWrite s) (λ _, at_phase [pWrite] 0 silent_hijack) left_well.
Proof.
  unfold beginWrite. eapply triple_bind; [apply (triple_storeState _ _ _ _ pWrite 0); ph_cases|intros []].
  pass. eapply triple_bind with (Q := λ _, at_phase [pWrite] 0 silent_hijack); [|intros []; keeping].
  apply triple_modify. intros l (ph&k&?&?&?&?&_). exists ph, k. split_and!; try done.
  unfold silent_hijack. cbn. destruct (cx_hijackNoResponse _); [|done]. apply bool_decide_eq_true.
Qed.

Lemma triple_sendResponse :
  triple (at_phase [pWrite] 0 silent_hijack) (sendResponse serverDate) (λ _, at_phase [pSent] 0 anything) left_well.
Proof.
  intros l (ph&k&E&Hph&Hn&Hr&_). apply list_elem_of_singleton in Hph as ->. unfold sendResponse.
  destruct (lp_ctx l) as [x|]; [|done].
  assert (∀ c b x', cn_log c = cn_log (lp_conn l) ++ [evResponse b] →
    at_phase [pSent] 0 anything (l <| lp_ctx := x' |> <| lp_conn := c |>)) as Hs.
  { intros c b x' Hc. exists pSent, k. split_and!; [|by apply list_elem_of_singleton|done|done|done].
    cbn. by rewrite Hc, run_protocol_snoc, E. }
  destruct (cn_writes (lp_conn l)) as [|o os]; destruct (Response.Write _ _ _ _) as [[[[[e|] w] p] r]|];
    try done; cbn [orErr fmap option_fmap option_map];
    [|destruct (wo_flush write_ok)| |destruct (wo_flush o)];
    apply (keeps_check _ [pSent] 0%Z anything); by eapply Hs.
Qed.

Lemma triple_respond :
  triple (at_phase [pWrite] 0 silent_hijack) (respond serverDate)
    (λ _ l, at_phase [pSent] 0 anything l ∨ at_phase [pWrite] 0 (λ h, is_Some h.1) l) left_well.
Proof.
  intros l Hl. unfold respond. cbn [mbind M_bind]. unfold mbind, M_bind at 1, get at 1.
  destruct (lp_hijackNoResponse l) eqn:Eno; cbn [negb when].
  - right. destruct Hl as (ph&k&?&?&?&?&Hh). exists ph, k. split_and!; try done. by apply Hh.
  - assert (triple (at_phase [pWrite] 0 silent_hijack)
      (when (0 <? lp_writeTimeout l)%Z (setDeadline (evWriteDeadline (Some (lp_writeTimeout l)))) ;;
       sendResponse serverDate ;; l ← get; when (lp_connectionClose l) break_ ;; skipLineBreaks)
      (λ _, at_phase [pSent] 0 anything) left_well) as Ht.
    { pass. eapply triple_bind; [apply triple_sendResponse|intros []]. unfold skipLineBreaks. keeping. }
    exact (triple_weaken _ _ _ _ _ _ Ht (λ _ H, H) (λ _ _ H, or_introl H) l Hl).
Qed.

Lemma triple_startHijack :
  triple (λ l, at_phase [pSent] 0 anything l ∨ at_phase [pWrite] 0 (λ h, is_Some h.1) l) startHijack
    (λ _, at_phase [pSent] 0 anything) left_well.
Proof.
  intros l Hl. unfold startHijack. cbn [mbind M_bind]. unfold mbind, M_bind at 1, get at 1.
  destruct (lp_hijackHandler l) as [handler|] eqn:Eh.
  - assert (at_phase [pWrite; pSent] 0 anything l) as Hl' by (destruct Hl; by eapply at_phase_weaken; [..|done]; [set_solver|]).
    set (buffered := if cn_br (lp_conn l) then _ else _).
    assert (triple (at_phase [pWrite; pSent] 0 anything)
      (onConn (λ c, c <| cn_br := false |>) ;;
       when ((0 <? lp_writeTimeout l)%Z || (0 <? lp_readTimeout l)%Z) (setDeadline evClearDeadlines) ;;
       record (evHijack handler buffered) ;; check (Some errHijacked))
      (λ _, at_phase [pOver] 0 anything) left_well) as Ht.
    { do 2 pass. eapply triple_bind with (Q := λ _, at_phase [pOver] 0 anything);
        [apply triple_record; ph_cases|intros []; keeping]. }
    specialize (Ht l Hl'). revert Ht. cbn. unfold mbind, M_bind, onConn, modify. cbn.
    destruct (when _ _ _) as [[] l'|l'|l'|]; cbn; done.
  - destruct Hl as [Hl|(ph&k&_&_&_&_&Hh)]; [done|]. cbn in Hh. rewrite Eh in Hh. by destruct Hh.
Qed.

Lemma triple_answerRequest :
  triple (at_phase [pHandled] 0 anything) (answerRequest serverDate s env) (λ _, at_phase [pSent] 0 anything) left_well.
Proof.
  unfold answerRequest. eapply triple_bind; [apply triple_beginWrite|intros []].
  apply triple_keeps; [unfold setConnectionHeaders; keep|intros []].
  eapply triple_bind; [apply triple_respond|intros []]. apply triple_startHijack.
Qed.

Lemma triple_nextRequest :
  triple (at_phase [pSent] 0 anything) (nextRequest requestLimit responseLimit s env)
    (λ _, at_phase [pNew; pWait] 0 anything) left_well.
Proof.
  unfold nextRequest. do 4 pass.
  eapply triple_bind; [apply (triple_storeState _ _ _ _ pWait 0); ph_cases|intros []].
  eapply triple_weaken with (P' := at_phase [pWait] 0 anything)
    (Q' := λ _, at_phase [pWait] 0 anything); [|done|intros [] l; apply at_phase_weaken; set_solver].
  do 2 pass. destruct (Request.Reset _ _ _) as [q r]. do 2 pass.
  apply triple_modify. intros l (ph&k&?&?&?&?&?). by exists ph, k.
Qed.

Lemma triple_round :
  triple (at_phase [pNew; pWait] 0 anything) (round requestLimit responseLimit serverDate s env)
    (λ _, at_phase [pNew; pWait] 0 anything) left_well.
Proof.
  unfold round. eapply triple_bind; [apply triple_readRequest|intros []].
  eapply triple_bind; [apply triple_handleRequest|intros []].
  eapply triple_bind; [apply triple_answerRequest|intros []]. apply triple_nextRequest.
Qed.

(** A trace that follows the protocol from a new connection. *)
Definition protocol_ok (log : list event) : Prop := is_Some (run_protocol (pNew, 0%Z) log).

Lemma triple_serveLoop rounds :
  triple (at_phase [pNew; pWait] 0 anything) (serveLoop requestLimit responseLimit serverDate s env rounds)
    (λ _, at_phase [pNew; pWait] 0 anything) left_well.
Proof.
  induction rounds as [|rounds IH]; intros l Hl; [done|]. cbn [serveLoop].
  pose proof (triple_round l Hl) as Hr. destruct (round _ _ _ _ _ l) as [a l'|l'|l'|]; try done. by apply (IH l').
Qed.

Lemma triple_otherProtocol :
  triple (at_phase [pNew] 0 anything) (otherProtocol s env) (λ _, at_phase [pNew] 0 anything) left_well.
Proof.
  unfold otherProtocol. eapply triple_bind with (Q := λ _, at_phase [pNew] 0 anything).
  - unfold getNextProto. destruct (se_tls env) as [hs|]; [|by intros l]. do 2 pass.
    destruct hs as [proto|e|e hasConn hdr]; [keeping|keeping|].
    eapply triple_bind with (Q := λ _, at_phase [pNew; pOver] 0 anything).
    + apply triple_when; intros _; [|intros l; apply at_phase_weaken; set_solver].
      eapply triple_bind with (Q := λ _, at_phase [pOver] 0 anything).
      * apply triple_writeConn. intros ph k n b' ->%list_elem_of_singleton ->. eexists. by split.
      * intros err. intros l. apply at_phase_weaken; set_solver.
    + intros [] l Hl. by eapply at_phase_left.
  - intros proto. destruct (se_nextProtos env proto) as [res|]; [|by intros l]. pass.
    intros l Hl. by eapply at_phase_left.
Qed.

Lemma left_neutral e c l :
  left_well l → neutral e → cn_log c = cn_log (lp_conn l) ++ [e] → left_well (l <| lp_conn := c |>).
Proof.
  intros (ph&k&E&Hr) He Hc. exists ph, k. split; [|done]. cbn. rewrite Hc, run_protocol_snoc, E. by destruct e.
Qed.

Lemma deadlineCall_left e l :
  left_well l → neutral e →
  ∃ err l', deadlineCall e l = Next err l' ∧ left_well l' ∧ lp_responseStr l' = lp_responseStr l.
Proof.
  intros Hl He. unfold deadlineCall. cbn. destruct (cn_deadlines (lp_conn l)); eexists _, _;
    (split; [done|]; split; [by eapply left_neutral|done]).
Qed.

Lemma writeConn_left b l :
  left_well l → lp_responseStr l ≠ [] →
  ∃ err l' k, writeConn evRefusal b l = Next err l' ∧
    run_protocol (pNew, 0%Z) (cn_log (lp_conn l')) = Some (pOver, k).
Proof.
  intros (ph&k&E&Hr) Hne. specialize (Hr Hne).
  assert (∀ w, run_protocol (pNew, 0%Z) (cn_log (lp_conn l) ++ [evRefusal w]) = Some (pOver, k)) as Hw.
  { intros w. rewrite run_protocol_snoc, E. cbn. rewrite bool_decide_true; [done|]. set_solver. }
  unfold writeConn. cbn. destruct (cn_writes (lp_conn l)) as [|o os]; destruct (Body.Write _ _) as [err w];
    eexists _, _, k; (split; [done|]); apply Hw.
Qed.

Lemma refuse_ok l :
  left_well l →
  ∃ l', refuse l = Next tt l' ∧ protocol_ok (cn_log (lp_conn l')).
Proof.
  intros Hl. unfold refuse. cbn [mbind M_bind]. unfold mbind, M_bind at 1, get at 1.
  destruct (lp_responseStr l) as [|c str] eqn:Es; [exists l; split; [done|]; destruct Hl as (?&?&?&_); by eexists|].
  set (timeout := lp_writeTimeout l).
  assert (∃ er l1, (if (0 <? timeout)%Z then deadlineCall (evWriteDeadline (Some timeout)) else mret None) l = Next er l1
    ∧ left_well l1 ∧ lp_responseStr l1 ≠ []) as (er&l1&E1&Hl1&Hne).
  { destruct (0 <? timeout)%Z; [|exists None, l; by rewrite Es].
    destruct (deadlineCall_left (evWriteDeadline (Some timeout)) l) as (er&l1&->&?&E); [done..|].
    exists er, l1. by rewrite E, Es. }
  unfold M_bind at 1. rewrite E1. unfold M_bind at 1.
  assert (∃ er' l2, (match er with None => writeConn evRefusal (c :: str) | Some e => mret (Some e) end) l1 = Next er' l2
    ∧ protocol_ok (cn_log (lp_conn l2))) as (er'&l2&->&Hl2).
  { destruct er as [e|]; [exists (Some e), l1; split; [done|]; destruct Hl1 as (?&?&?&_); by eexists|].
    destruct (writeConn_left (c :: str) l1 Hl1 Hne) as (er&l2&k&->&?). exists er, l2. split; [done|]. by eexists. }
  unfold when. destruct (_ && _); [|by exists l2].
  unfold deadlineCall, M_bind. cbn. destruct (cn_deadlines (lp_conn l2)); eexists; (split; [done|]);
    cbn; unfold protocol_ok; rewrite run_protocol_snoc; destruct Hl2 as [[ph k] ->]; by eexists.
Qed.

Lemma protocol_new log k : run_protocol (pNew, 0%Z) log = Some (pNew, k) → k = 0%Z.
Proof.
  revert k. induction log as [|e log IH] using rev_ind; intros k; [by intros [= ->]|].
  rewrite run_protocol_snoc. destruct (run_protocol _ log) as [[ph k']|]; [|done]. cbn.
  intros E. assert (ph = pNew ∧ k' = k) as [-> ->]; [|by apply IH].
  destruct e as [| | |st| | | | | | |]; cbn in E; try destruct st; repeat case_match; by simplify_eq.
Qed.

Lemma startLoop_new c : cn_log c = [] → at_phase [pNew] 0 anything (startLoop s env c).
Proof.
  intros E. exists pNew, 0%Z. split_and!; try done; [|by apply list_elem_of_singleton].
  unfold startLoop. cbn. by rewrite E.
Qed.

Lemma endLoop_log l :
  left_well l → protocol_ok (cn_log (endLoop requestLimit responseLimit s l).1.2).
Proof.
  intros Hl. unfold endLoop. destruct (refuse_ok l Hl) as (l2&->&Hok). cbn [fst snd].
  set (c := if _ && _ then _ else _).
  assert (protocol_ok (cn_log c)) as Hc.
  { unfold c. destruct (_ && _); [|done]. cbn. unfold protocol_ok. rewrite run_protocol_snoc.
    destruct Hok as [[ph k] ->]. by eexists. }
  by destruct (lp_hijackHandler l2), (lp_ctx l2).
Qed.

Lemma left_well_ok l : left_well l → protocol_ok (cn_log (lp_conn l)).
Proof. intros (ph&k&E&_). by eexists. Qed.

(** The trace of a connection, up to any number of requests. *)
Definition trace (res : serve_result) : list event :=
  match res with
  | servedConn _ c _ => cn_log c
  | stillOpen l => cn_log (lp_conn l)
  | panicked => []
  end.

Lemma serveConn_protocol rounds c :
  cn_log c = [] → protocol_ok (trace (serveConn requestLimit responseLimit serverDate s env rounds c)).
Proof.
  intros Hlog. unfold serveConn. pose proof (triple_otherProtocol _ (startLoop_new c Hlog)) as Ho.
  destruct (otherProtocol s env (startLoop s env c)) as [a l|l|l|];
    [|by eexists|by apply left_well_ok|by eexists].
  assert (at_phase [pNew; pWait] 0 anything (startLoop s env (lp_conn l))) as Hl.
  { destruct Ho as (ph&k&E&Hph&_). apply list_elem_of_singleton in Hph as ->.
    pose proof (protocol_new _ _ E) as ->. exists pNew, 0%Z. split_and!; try done. set_solver. }
  pose proof (triple_serveLoop rounds _ Hl) as Hr. destruct (serveLoop _ _ _ _ _ _ _) as [a' l'|l'|l'|].
  - by eapply left_well_ok, at_phase_left.
  - apply endLoop_log in Hr. by destruct (endLoop _ _ _ _) as [[? ?] ?].
  - by apply left_well_ok.
  - by eexists.
Qed.
End protocol.
