(* ===== verification/ServerClose.v ===== *)
(** When the connection loop stops: the last request handled is the only one that may have
    asked for the connection to be closed. *)

From Stdlib Require Import ZArith Strings.Byte.
From stdpp Require Import prelude strings list.
From S2P Require Import Prelude Tables Bufio Bytesconv Args Uri Headers HeaderScan Body.
From S2P Require Import ReqHeader RespHeader Http HttpResp UserData PerIP RequestCtx Server ServerFacts.

(** * Statements that neither call the handler nor decide about the connection *)

(** What decides: the requests handled, whether the connection is to be closed, and the
    hijacking. *)
Definition view (l : loop) : list (Z * RequestCtx) * bool * (option nat * bool) :=
  (handled (cn_log (lp_conn l)), lp_connectionClose l, hijacking l).

Lemma view_handled l l' :
  view l' = view l → handled (cn_log (lp_conn l')) = handled (cn_log (lp_conn l)).
Proof. by intros [= -> _ _]. Qed.

Definition frames {A} (m : M A) : Prop :=
  ∀ l, match m l with Next _ l' | Break l' | Return l' => view l' = view l | Panic => True end.

Definition silent (e : event) : Prop := match e with evHandler _ _ => False | _ => True end.

Lemma frames_bind {A C} (m : M A) (k : A → M C) : frames m → (∀ a, frames (k a)) → frames (m ≫= k).
Proof.
  intros Hm Hk l. specialize (Hm l). unfold mbind, M_bind. destruct (m l) as [a l'|l'|l'|]; try done.
  specialize (Hk a l'). destruct (k a l'); congruence.
Qed.

Lemma frames_modify f : (∀ l, view (f l) = view l) → frames (modify f).
Proof. intros Hf l. apply Hf. Qed.

Lemma frames_when b m : frames m → frames (when b m).
Proof. by destruct b. Qed.

Lemma frames_check err : frames (check err).
Proof. intros l. by destruct err. Qed.

Lemma frames_checkReturn err : frames (checkReturn err).
Proof. intros l. by destruct err. Qed.

Lemma frames_theCtx : frames theCtx.
Proof. intros l. unfold theCtx. by destruct (lp_ctx l). Qed.

Lemma view_silent l c e :
  silent e → cn_log c = cn_log (lp_conn l) ++ [e] → view (l <| lp_conn := c |>) = view l.
Proof.
  intros He Hc. unfold view, hijacking. cbn. rewrite Hc, handled_app. by destruct e; rewrite ?app_nil_r.
Qed.

Lemma frames_record e : silent e → frames (record e).
Proof. intros He l. by eapply view_silent. Qed.

Lemma frames_deadlineCall e : silent e → frames (deadlineCall e).
Proof. intros He l. unfold deadlineCall. cbn. by destruct (cn_deadlines (lp_conn l)); eapply view_silent. Qed.

Lemma frames_setDeadline e : silent e → frames (setDeadline e).
Proof. intros He. apply frames_bind; [by apply frames_deadlineCall|intros ?; apply frames_check]. Qed.

Lemma frames_writeConn ev b : (∀ b, silent (ev b)) → frames (writeConn ev b).
Proof.
  intros He l. unfold writeConn. cbv zeta. destruct (cn_writes _) as [|o os]; cbv beta iota;
    destruct (Body.Write _ _) as [err w]; by eapply view_silent.
Qed.

Ltac frames_step :=
  lazymatch goal with
  | |- frames (_ ≫= _) => apply frames_bind; [|intros ?]
  | |- frames (when _ _) => apply frames_when
  | |- frames (mret _) => by intros ?
  | |- frames skip => by intros ?
  | |- frames get => by intros ?
  | |- frames theReader => by intros ?
  | |- frames break_ => by intros ?
  | |- frames (return_ _) => by intros ?
  | |- frames theCtx => apply frames_theCtx
  | |- frames (record _) => by apply frames_record
  | |- frames (setDeadline _) => by apply frames_setDeadline
  | |- frames (deadlineCall _) => by apply frames_deadlineCall
  | |- frames (writeConn _ _) => by apply frames_writeConn
  | |- frames (check _) => apply frames_check
  | |- frames (checkReturn _) => apply frames_checkReturn
  | |- frames (modify _) => by apply frames_modify
  | |- frames (setCtx _) => by apply frames_modify
  | |- frames (setReader _) => by apply frames_modify
  | |- frames (onConn _) => by apply frames_modify
  | |- frames (match ?x with _ => _ end) => destruct x
  end.

Ltac framing := repeat frames_step.

(** * The rounds *)

Section closing.
Context `{ByteBufferOps} `{MultipartOps} (requestLimit responseLimit : Z) (serverDate : bytes).
Context (s : Server) (env : serve_env).

Lemma frames_acquireByteReader : frames (acquireByteReader requestLimit responseLimit s env).
Proof.
  intros l. unfold acquireByteReader. destruct (lp_ctx l) as [x|]; [|done].
  destruct (RequestCtx.reset _ _ _ _) as [x' r'].
  destruct (se_quick env (lp_num l)); try done; by destruct (readOneByte _) as [[[b cs]|]|].
Qed.

Lemma frames_storeState st : frames (storeState s st).
Proof. unfold storeState. framing. Qed.

Lemma frames_waitRequest : frames (waitRequest requestLimit responseLimit s env).
Proof. unfold waitRequest. framing. apply frames_acquireByteReader. Qed.

Lemma frames_beginRead : frames (beginRead s).
Proof. unfold beginRead. framing. apply frames_storeState. Qed.

Lemma frames_readHeader : frames (readHeader s).
Proof. unfold readHeader. framing. Qed.

Lemma frames_configure : frames (configure s).
Proof. unfold configure. framing. Qed.

Lemma frames_expectContinue : frames (expectContinue s).
Proof. unfold expectContinue. framing. Qed.

Lemma frames_readRequestBody : frames (readRequestBody s).
Proof. unfold readRequestBody. framing. Qed.

Lemma frames_readRequest : frames (readRequest requestLimit responseLimit s env).
Proof.
  unfold readRequest. framing; auto using frames_waitRequest, frames_beginRead,
    frames_readHeader, frames_configure, frames_expectContinue, frames_readRequestBody.
Qed.
(** The request does not ask for the connection to be closed, nor do the settings. *)
Definition keeps_open (z : Z * RequestCtx) : Prop :=
  sv_DisableKeepalive s || RequestHeader.ConnectionClose (rq_Header (cx_Request z.2)) = false.

Definition all_open (l : loop) : Prop := Forall keeps_open (handled (cn_log (lp_conn l))).

(** A request was handled in this round. *)
Definition one_more (F : option nat * bool → Prop) (l : loop) : Prop :=
  ∃ zs z, handled (cn_log (lp_conn l)) = zs ++ [z] ∧ Forall keeps_open zs ∧
    (lp_connectionClose l = false → keeps_open z) ∧ F (hijacking l).

(** All but the last. *)
Definition others_open (l : loop) : Prop :=
  ∀ zs z, handled (cn_log (lp_conn l)) = zs ++ [z] → Forall keeps_open zs.

Lemma all_open_others l : all_open l → others_open l.
Proof. intros Hl zs z E. unfold all_open in Hl. rewrite E in Hl. by apply Forall_app in Hl as [? _]. Qed.

Lemma one_more_others F l : one_more F l → others_open l.
Proof. intros (zs&z&E&Hz&_) zs' z' E'. rewrite E in E'. by apply app_inj_tail in E' as [-> ->]. Qed.

Lemma frames_all {A} (m : M A) : frames m → triple all_open m (λ _, all_open) others_open.
Proof.
  intros Hm l Hl. specialize (Hm l). unfold all_open in *.
  destruct (m l) as [a l'|l'|l'|]; [|apply all_open_others|apply all_open_others|done];
    unfold all_open; injection Hm as -> _ _; done.
Qed.

Lemma frames_one {A} F (m : M A) : frames m → triple (one_more F) m (λ _, one_more F) others_open.
Proof.
  intros Hm l Hl. specialize (Hm l).
  assert (∀ l', view l' = view l → one_more F l') as Hv.
  { intros l' [= E1 E2 E3 E4]. destruct Hl as (zs&z&E&?&?&?). exists zs, z. unfold hijacking.
    rewrite E1, E2, E3, E4. done. }
  destruct (m l) as [a l'|l'|l'|]; [auto|eapply one_more_others; auto|eapply one_more_others; auto|done].
Qed.

Definition unhijacked (hj : option nat * bool) : Prop := True.
Definition replied (hj : option nat * bool) : Prop := hj.2 = true → is_Some hj.1.

Lemma triple_callHandler_close :
  triple all_open (callHandler s env) (λ _, one_more unhijacked) others_open.
Proof.
  intros l Hl. unfold callHandler, mbind, M_bind, theCtx. destruct (lp_ctx l) as [x|]; [|done]. cbn.
  destruct (se_handler _ _ _ _) as [y r']. cbn. exists (handled (cn_log (lp_conn l))). eexists.
  split; [exact (handled_app _ _)|]. split; [done|]. split; [|done]. cbn. unfold keeps_open. cbn.
  intros E. unfold forHandler. destruct (serverName s); exact E.
Qed.

Lemma triple_beginWrite_close : triple (one_more unhijacked) (beginWrite s) (λ _, one_more replied) others_open.
Proof.
  unfold beginWrite. eapply triple_bind; [apply frames_one, frames_storeState|intros []].
  eapply triple_bind; [apply frames_one, frames_theCtx|intros x].
  eapply triple_bind with (Q := λ _, one_more replied).
  - apply triple_modify. intros l (zs&z&?&?&?&_). exists zs, z. split_and!; try done.
    unfold replied, hijacking. cbn. by intros [_ ?%bool_decide_eq_true_1]%andb_true_iff.
  - intros []. apply frames_one. framing.
Qed.

Lemma triple_setConnectionHeaders_close :
  triple (one_more replied) (setConnectionHeaders s env) (λ _, one_more replied) others_open.
Proof.
  unfold setConnectionHeaders. eapply triple_bind; [apply frames_one, frames_theCtx|intros x].
  eapply triple_bind; [apply triple_get|intros l]. intros l' [Hl ->].
  destruct (connectionHeaders _ _ _ _ _) as [close y] eqn:E. destruct Hl as (zs&z&?&?&Hc&?).
  exists zs, z. split_and!; try done. cbn. intros ->. apply Hc.
  unfold connectionHeaders in E. destruct (ResponseHeader.ConnectionClose _); [done|].
  destruct (lp_connectionClose l); [done|reflexivity].
Qed.

Lemma frames_sendResponse : frames (sendResponse serverDate).
Proof.
  intros l. unfold sendResponse. destruct (lp_ctx l) as [x|]; [|done].
  destruct (cn_writes (lp_conn l)) as [|o os]; cbv zeta beta iota;
    (destruct (Response.Write _ _ _ _) as [[[[err w] p] r]|]; [|done]);
    (destruct (orErr _ _); cbn; unfold view, hijacking; cbn; by rewrite omap_app, app_nil_r).
Qed.

Lemma frames_skipLineBreaks : frames skipLineBreaks.
Proof. unfold skipLineBreaks. framing. Qed.

Lemma frames_startHijack : frames startHijack.
Proof. unfold startHijack. framing. Qed.

Definition hijacked_or_open (l : loop) : Prop :=
  all_open l ∨ (one_more replied l ∧ is_Some (lp_hijackHandler l)).

Lemma one_more_open F l : one_more F l → lp_connectionClose l = false → all_open l.
Proof.
  intros (zs&z&E&Hzs&Hz&_) Hc. unfold all_open. rewrite E. apply Forall_app. split; [done|].
  apply Forall_singleton. auto.
Qed.

Lemma triple_respond_close :
  triple (one_more replied) (respond serverDate) (λ _, hijacked_or_open) others_open.
Proof.
  unfold respond. eapply triple_bind; [apply triple_get|intros l].
  apply triple_when; [intros _|intros Hn l' [Hl ->]].
  2: { right. split; [done|]. destruct Hl as (_&_&_&_&_&Hr). apply Hr. cbn. by destruct (lp_hijackNoResponse l). }
  eapply triple_weaken with (P' := one_more replied) (Q' := λ _, all_open); [|naive_solver|by left].
  eapply triple_bind; [apply frames_one; framing|intros []].
  eapply triple_bind; [apply frames_one, frames_sendResponse|intros []].
  eapply triple_bind; [apply triple_get|intros l1].
  eapply triple_bind with (Q := λ _, all_open); [|intros []; apply frames_all, frames_skipLineBreaks].
  apply triple_when; intros Hc l' [Hl ->]; [by eapply one_more_others|by eapply one_more_open].
Qed.

Lemma triple_startHijack_close : triple hijacked_or_open startHijack (λ _, all_open) others_open.
Proof.
  intros l [Hl|[Hl [hh Hh]]]; [by apply (frames_all _ frames_startHijack)|].
  pose proof (frames_one _ _ frames_startHijack l Hl) as Ho.
  destruct (startHijack l) as [a l'|l'|l'|] eqn:E; try done. exfalso. revert E.
  unfold startHijack, mbind, M_bind. cbn. rewrite Hh. cbn.
  destruct (_ || _); cbn; [destruct (cn_deadlines _) as [|[]]; cbn|]; done.
Qed.

Lemma triple_round_close :
  triple all_open (round requestLimit responseLimit serverDate s env) (λ _, all_open) others_open.
Proof.
  unfold round, handleRequest, answerRequest.
  eapply triple_bind; [apply frames_all, frames_readRequest|intros []].
  eapply triple_bind.
  { eapply triple_bind; [apply triple_callHandler_close|intros []]. apply frames_one. unfold finishBody, handOver. framing. }
  intros []. eapply triple_bind.
  { eapply triple_bind; [apply triple_beginWrite_close|intros []].
    eapply triple_bind; [apply triple_setConnectionHeaders_close|intros []].
    eapply triple_bind; [apply triple_respond_close|intros []]. apply triple_startHijack_close. }
  intros []. apply frames_all. unfold nextRequest. framing. apply frames_storeState.
Qed.

Lemma triple_serveLoop_close rounds :
  triple all_open (serveLoop requestLimit responseLimit serverDate s env rounds) (λ _, all_open) others_open.
Proof.
  induction rounds as [|rounds IH]; intros l Hl; [done|]. cbn [serveLoop].
  pose proof (triple_round_close l Hl) as Hr. destruct (round _ _ _ _ _ l) as [a l'|l'|l'|]; try done. by apply IH.
Qed.

Lemma frames_otherProtocol : frames (otherProtocol s env).
Proof. unfold otherProtocol, getNextProto. framing. Qed.

Lemma handled_endLoop l :
  handled (cn_log (endLoop requestLimit responseLimit s l).1.2) = handled (cn_log (lp_conn l)).
Proof.
  assert (frames refuse) as Hf by (unfold refuse; framing). specialize (Hf l).
  unfold endLoop. set (l2 := match refuse l with Next _ l => l | _ => l end).
  assert (handled (cn_log (lp_conn l2)) = handled (cn_log (lp_conn l))) as <-.
  { unfold l2. destruct (refuse l); try done. by apply view_handled in Hf. }
  clearbody l2. cbn [fst snd]. destruct (sv_ErrorHandler s && _); destruct (lp_hijackHandler l2), (lp_ctx l2); cbn;
    rewrite ?handled_app; cbn; by rewrite ?app_nil_r.
Qed.

Lemma startLoop_none c : handled (cn_log c) = [] → all_open (startLoop s env c).
Proof.
  intros E. unfold all_open. change (cn_log (lp_conn (startLoop s env c))) with (cn_log c). by rewrite E.
Qed.

(** No request is handled after one that closes the connection. *)
Lemma serveConn_close rounds c zs z :
  cn_log c = [] →
  handled (trace (serveConn requestLimit responseLimit serverDate s env rounds c)) = zs ++ [z] →
  Forall keeps_open zs.
Proof.
  intros Hlog. unfold serveConn. pose proof (frames_otherProtocol (startLoop s env c)) as Ho.
  assert (handled (cn_log (lp_conn (startLoop s env c))) = []) as Hz by (cbn; by rewrite Hlog).
  destruct (otherProtocol s env (startLoop s env c)) as [a l|l|l|]; cbn [trace];
    [|intros E; by destruct zs| |intros E; by destruct zs].
  - apply view_handled in Ho. rewrite Hz in Ho.
    pose proof (triple_serveLoop_close rounds _ (startLoop_none _ Ho)) as Hr.
    destruct (serveLoop _ _ _ _ _ _ _) as [a' l'|l'|l'|].
    + apply all_open_others in Hr. apply Hr.
    + intros E. apply (Hr zs z). rewrite <- E. rewrite <- (handled_endLoop l').
      by destruct (endLoop _ _ _ _) as [[? ?] ?].
    + apply Hr.
    + intros E. by destruct zs.
  - apply view_handled in Ho. rewrite Ho, Hz. intros E. by destruct zs.
Qed.
End closing.
