(* ===== verification/ServerPipeline.v ===== *)
(** The connection loop on a connection that carries well-formed requests: every request
    reaches the handler, in order, and every response reaches the peer, in order. *)

From Stdlib Require Import ZArith Strings.Byte.
From stdpp Require Import prelude strings list numbers.
From S2P Require Import Prelude Tables Bufio Bytesconv Args Uri Headers HeaderScan CookieFacts Body BodyFacts.
From S2P Require Import ReqHeader RespHeader HeaderFacts ReqFacts ReqRoundtrip Http HttpFacts HttpResp UserData PerIP RequestCtx Server ServerFacts.

(** * Statements of the loop on explicit states *)

Arguments onReqHeader : simpl never.
Arguments onRespHeader : simpl never.
Arguments forHandler : simpl never.
Arguments forWriting : simpl never.
Arguments connectionHeaders : simpl never.
Arguments setTLS : simpl never.
Arguments RequestCtx.ResetUserValues : simpl never.

Lemma bind_next {A C} (m : M A) (k : A → M C) l a l' : m l = Next a l' → (m ≫= k) l = k a l'.
Proof. intros E. unfold mbind, M_bind. by rewrite E. Qed.

Lemma bind_break {A C} (m : M A) (k : A → M C) l l' : m l = Break l' → (m ≫= k) l = Break l'.
Proof. intros E. unfold mbind, M_bind. by rewrite E. Qed.

Lemma bind_modify {C} f (k : unit → M C) l : (modify f ≫= k) l = k tt (f l).
Proof. done. Qed.
Lemma bind_get {C} (k : loop → M C) l : (get ≫= k) l = k l l.
Proof. done. Qed.
Lemma bind_theReader {C} (k : Reader → M C) l : (theReader ≫= k) l = k (cn_r (lp_conn l)) l.
Proof. done. Qed.
Lemma bind_theCtx {C} x (k : RequestCtx → M C) l : lp_ctx l = Some x → (theCtx ≫= k) l = k x l.
Proof. intros E. unfold mbind, M_bind, theCtx. by rewrite E. Qed.

Definition maybe_event (b : bool) (e : event) : list event := if b then [e] else [].

(** On a connection whose deadline calls succeed they only leave a trace. *)
Lemma when_deadline b e r br ws log x n str rt wt mx cont close post hh hn stop keep :
  when b (setDeadline e) (mkLoop (mkConn r br [] ws log) x n None str rt wt mx cont close post hh hn stop keep)
  = Next tt (mkLoop (mkConn r br [] ws (log ++ maybe_event b e)) x n None str rt wt mx cont close post hh hn stop keep).
Proof. destruct b; [done|]. cbn. by rewrite app_nil_r. Qed.

Lemma storeState_eq s st r br ws log x n err str rt wt mx cont close post hh hn stop keep :
  storeState s st (mkLoop (mkConn r br [] ws log) x n err str rt wt mx cont close post hh hn stop keep)
  = Next tt (mkLoop (mkConn r br [] ws (log ++ [evState st] ++ maybe_event (sv_ConnState s) (evHook st)))
      x n err str rt wt mx cont close post hh hn stop keep).
Proof.
  unfold storeState, mbind, M_bind, record, onConn, modify, when. rewrite app_assoc.
  destruct (sv_ConnState s); cbn; [done|]. by rewrite app_nil_r.
Qed.

(** * What the trace says *)

Definition responses (log : list event) : list bytes :=
  omap (λ e, match e with evResponse b => Some b | _ => None end) log.

(** Events that neither call the handler nor write. *)
Definition quiet (evs : list event) : Prop := handled evs = [] ∧ responses evs = [] ∧ wire evs = [].

Lemma quiet_nil : quiet [].
Proof. done. Qed.

Lemma wire_app l1 l2 : wire (l1 ++ l2) = wire l1 ++ wire l2.
Proof. unfold wire. by rewrite omap_app, concat_app. Qed.

Lemma quiet_app l1 l2 : quiet l1 → quiet l2 → quiet (l1 ++ l2).
Proof.
  intros (H1&H2&H3) (H4&H5&H6). unfold quiet, handled, responses in *.
  by rewrite !omap_app, wire_app, H1, H2, H3, H4, H5, H6.
Qed.

Lemma quiet_maybe b e : quiet [e] → quiet (maybe_event b e).
Proof. by destruct b. Qed.

#[export] Hint Resolve quiet_nil quiet_app quiet_maybe : go.

(** * Readers *)

Lemma numLeading_take k d : numLeadingCRorLF d = 0 → numLeadingCRorLF (take k d) = 0.
Proof. destruct d as [|c d], k as [|k]; cbn; try done. by destruct (_ || _). Qed.

Lemma numLeading_app d d' : d ≠ [] → numLeadingCRorLF d = 0 → numLeadingCRorLF (d ++ d') = 0.
Proof. destruct d as [|c d]; [done|]. cbn. intros _. by destruct (_ || _). Qed.

(** [Peek] returns the start of the data and loses nothing. *)
Lemma Peek_prefix r n :
  ∃ k err r', Bufio.Peek r n = (take k (r_data r), err, r') ∧ r_data r' = r_data r ∧ later r r' ∧
    (n ≤ length (r_buf r) → n ≤ r_size r → err = None).
Proof.
  pose proof (Peek_later r n) as Hl. unfold Bufio.Peek in *.
  pose proof (fill_until_data n (r_size r) (r_buf r) (r_chunks r)) as Hd.
  pose proof (fill_until_prefix n (r_size r) (r_buf r) (r_chunks r)) as Hp.
  destruct (fill_until _ _ _ _) as [buf chunks]. cbn [fst snd] in *. fold (r_data r) in Hd.
  assert (buf = take (length buf) (r_data r)) as Eb by (by rewrite <- Hd, take_app_length).
  destruct Hp as [z Hz]. assert (length (r_buf r) ≤ length buf) by (rewrite Hz, length_app; lia).
  destruct (Nat.ltb_spec (r_size r) n); [|destruct (Nat.ltb_spec (length buf) n)]; cbn [fst snd] in Hl.
  - exists (length buf). eexists _, _. split; [by rewrite <- Eb|]. split_and!; [done|done|lia].
  - exists (length buf). eexists _, _. split; [by rewrite <- Eb|]. split_and!; [done|done|lia].
  - assert (take n buf = take n (r_data r)) as -> by (by rewrite <- Hd, take_app_le).
    exists n. eexists _, _. split; [done|]. by split_and!.
Qed.

(** Line breaks are not skipped where there are none. *)
Lemma skip_none r n :
  numLeadingCRorLF (r_data r) = 0 →
  ∃ r', (let '(p, _, r) := Bufio.Peek r n in Discard r (numLeadingCRorLF p)) = r' ∧
        r_data r' = r_data r ∧ later r r'.
Proof.
  intros H0. destruct (Peek_prefix r n) as (k&err&r1&->&Hd&Hl&_). rewrite numLeading_take by done.
  eexists. split; [done|]. split; [exact Hd|]. by etrans; [|apply Discard_later].
Qed.

(** The header after a reset is read like by [Read]. *)
Lemma readLoop_next h r post :
  RequestHeader.resetSkipNormalize h = h → numLeadingCRorLF (r_data r) = 0 →
  ∃ r1, RequestHeader.readLoop h r true post true = RequestHeader.Read h r1 ∧
        r_data r1 = r_data r ∧ later r r1.
Proof.
  intros Hh H0. unfold RequestHeader.Read, RequestHeader.readLoop. rewrite Hh.
  destruct post; [|by exists r].
  destruct (skip_none r 4 H0) as (r1&E&?&?). rewrite E. by exists r1.
Qed.

(** * Contexts *)

(** A context with an in-memory response, no stream, and no plans to hijack. *)
Record ready_ctx (x : RequestCtx) : Prop := {
  rx_cookies : cookies_ok (q_cookies (rq_Header (cx_Request x)));
  rx_bodyStream : rq_bodyStream (cx_Request x) = None;
  rx_hijacked : cx_hijacked x = false;
  rx_handler : cx_hijackHandler x = None;
  rx_chunkedW : re_chunkedW (cx_Response x) = None;
  rx_compress : re_compressPool (cx_Response x) = None;
  rx_stream : re_bodyStream (cx_Response x) = None;
  rx_open : ResponseHeader.ConnectionClose (re_Header (cx_Response x)) = false
}.

(** A context between two requests. *)
Record idle_ctx (x : RequestCtx) : Prop := {
  ix_ready : ready_ctx x;
  ix_reset : RequestHeader.resetSkipNormalize (rq_Header (cx_Request x)) = rq_Header (cx_Request x);
  ix_normal : normal (rq_Header (cx_Request x));
  ix_body : Request.bodyBytes (cx_Request x) = []
}.

(** A response that is in memory is written whole, without the reader. *)
Lemma Write_memory serverDate p :
  re_chunkedW p = None → re_compressPool p = None → re_bodyStream p = None →
  ∃ b h, ∀ r, Response.Write serverDate (mkWriter [] None) p r
         = Some (None, mkWriter b None, p <| re_Header := h |>, r).
Proof.
  intros H1 H2 H3. unfold Response.Write. rewrite H1, H2, H3.
  unfold Response.WriteHeader. destruct (ResponseHeader.Header _ _ _) as [b h]. cbn [Body.Write w_room w_out app].
  destruct (negb (negb (Response.mustSkipBody p))).
  - by exists b, h.
  - exists (b ++ Response.bodyBytes (p <| re_Header := h |>)), h. done.
Qed.

(** * A server without special settings *)

Record plain_server (s : Server) (env : serve_env) : Prop := {
  ps_reduce : sv_ReduceMemoryUsage s = false;
  ps_getOnly : sv_GetOnly s = false;
  ps_received : sv_HeaderReceived s = None;
  ps_stream : sv_StreamRequestBody s = false;
  ps_normal : sv_DisableHeaderNamesNormalizing s = false;
  ps_keepalive : sv_DisableKeepalive s = false;
  ps_tls : se_tls env = None;
  ps_protos : se_nextProtos env [] = None;
  ps_running n : se_stop env n = false;
  ps_pool x : se_pool env 0 = Some x → idle_ctx x
}.

Definition bufferSize (s : Server) : nat :=
  Nat.max 16 (Z.to_nat (if (sv_ReadBufferSize s <=? 0)%Z then defaultReadBufferSize else sv_ReadBufferSize s)).

Definition maxBodySize (s : Server) : Z :=
  if (sv_MaxRequestBodySize s <=? 0)%Z then DefaultMaxRequestBodySize else sv_MaxRequestBodySize s.

(** A request that can be sent to the server and leaves the connection open. *)
Record deliverable (s : Server) (q : Request) : Prop := {
  dv_sendable : sendable q;
  dv_plain : plain (sent_header q);
  dv_open : RequestHeader.ConnectionClose (sent_header q)
     || negb (Equal (RequestHeader.Protocol (sent_header q)) strHTTP11)
     && negb (hasHeaderValue (bytes_of (peekArg_loop (sent_headers (sent_header q)) strConnection)) strKeepAlive)
     = false;
  dv_start : numLeadingCRorLF (RequestHeader.AppendBytes (sent_header q) []) = 0;
  dv_head : length (RequestHeader.AppendBytes (sent_header q) []) ≤ bufferSize s;
  dv_body : (Z.of_nat (length (payload q)) ≤ maxBodySize s)%Z
}.

Definition request_wire (q : Request) : bytes := RequestHeader.AppendBytes (sent_header q) [] ++ payload q.

Section pipeline.
Context `{ByteBufferLaws} `{MultipartOps} (requestLimit responseLimit : Z) (serverDate : bytes).
Context (s : Server) (env : serve_env) (Hs : plain_server s env).

(** The handler answers from memory, reads nothing from the connection itself, and leaves it
    open. *)
Definition in_memory : Prop :=
  ∀ n x r, ready_ctx x → ∃ y, se_handler env n x r = (y, r) ∧ ready_ctx y.

(** What is sent for the context the handler left. *)
Definition printed (n : Z) (y : RequestCtx) : bytes :=
  match Response.Write serverDate (mkWriter [] None) (cx_Response (connectionHeaders s env n false (forWriting y)).2)
          (mkReader [] [] EOF 16 None) with
  | Some (_, w, _, _) => w_out w
  | None => []
  end.

(** The loop between two requests. *)
Definition idle_loop (r : Reader) (br : bool) (log : list event) (x : RequestCtx) (n : Z) (post : bool) : loop :=
  mkLoop (mkConn r br [] [] log) (Some x) n None [] (sv_ReadTimeout s) (sv_WriteTimeout s) (maxBodySize s)
    true false post None false false (sv_KeepHijackedConns s).

(** The reader before the first request, or before a later one. *)
Definition reader_at (r : Reader) (br : bool) (n : Z) : Prop :=
  lively r ∧ (br = false ∧ n = 0%Z ∧ r_buf r = [] ∨ br = true ∧ (1 ≤ n)%Z ∧ r_size r = bufferSize s).

(** [r'] is the buffered reader of the connection [r]. *)
Definition usable (r r' : Reader) : Prop := lively r' ∧ r_size r' = bufferSize s ∧ r_err r' = r_err r.

Lemma usable_later r r1 r2 : usable r r1 → later r1 r2 → usable r r2.
Proof. intros (Hl&Hsz&He) (Hsz'&He'&Hl'). split_and!; [auto|congruence|congruence]. Qed.

Lemma waitRequest_eq r br log x n post :
  reader_at r br n → (br = false ∨ r_data r ≠ []) →
  ∃ r' evs, waitRequest requestLimit responseLimit s env (idle_loop r br log x n post)
            = Next tt (idle_loop r' true (log ++ evs) x (n + 1) post) ∧
    r_data r' = r_data r ∧ usable r r' ∧ quiet evs.
Proof.
  intros [Hl Hr] Hd. unfold waitRequest, idle_loop. rewrite (ps_reduce _ _ Hs).
  rewrite bind_modify, bind_get. cbn [lp_num lp_conn upd setter cn_br negb orb].
  rewrite (bind_next _ _ _ tt _ (when_deadline _ _ _ _ _ _ _ _ _ _ _ _ _ _ _ _ _ _ _)).
  destruct Hr as [(->&->&Hb)|(->&Hn&Hsz)].
  - eexists (acquireReader s r), _. split; [cbn; reflexivity|]. unfold r_data. rewrite Hb. cbn.
    split_and!; [done|done|]. by apply quiet_maybe.
  - destruct Hd as [?|Hd]; [done|]. destruct (Peek_ok r 1) as (r'&Ep&_&Ed&Esz&Eer&_).
    { rewrite Hsz. unfold bufferSize. lia. } { destruct (r_data r); [done|cbn; lia]. }
    pose proof (Peek_later r 1) as Hpl. rewrite Ep in Hpl. cbn [snd] in Hpl.
    exists r'. eexists. split.
    + unfold mbind, M_bind, when. destruct (Z.ltb_spec 1 (n + 1)); [|lia]. cbn. rewrite Ep. cbn. done.
    + split_and!; [done|by eapply usable_later|by apply quiet_maybe].
Qed.

(** The end of the connection between two requests. *)
Lemma waitRequest_end r log x n post :
  reader_at r true n → r_data r = [] → r_err r = EOF →
  ∃ r' evs, waitRequest requestLimit responseLimit s env (idle_loop r true log x n post)
            = Break ((idle_loop r' true (log ++ evs) x (n + 1) post) <| lp_err := Some (serveErr (bodyIO EOF)) |>)
    ∧ quiet evs.
Proof.
  intros [Hl Hr] Hd He. unfold waitRequest, idle_loop. rewrite (ps_reduce _ _ Hs).
  rewrite bind_modify, bind_get. cbn [lp_num lp_conn upd setter cn_br negb orb].
  rewrite (bind_next _ _ _ tt _ (when_deadline _ _ _ _ _ _ _ _ _ _ _ _ _ _ _ _ _ _ _)).
  destruct Hr as [(?&_)|(_&Hn&Hsz)]; [done|].
  assert (∃ r', Bufio.Peek r 1 = ([], Some EOF, r')) as [r' Ep].
  { unfold Bufio.Peek. pose proof (fill_until_data 1 (r_size r) (r_buf r) (r_chunks r)) as Hf.
    destruct (fill_until _ _ _ _) as [buf chunks]. cbn [fst snd] in Hf. fold (r_data r) in Hf.
    rewrite Hd in Hf. apply app_nil in Hf as [-> _]. destruct (Nat.ltb_spec (r_size r) 1) as [Hlt|_].
    { rewrite Hsz in Hlt. unfold bufferSize in Hlt. lia. }
    rewrite He. by eexists. }
  exists r'. eexists. split.
  - unfold mbind, M_bind, when. destruct (Z.ltb_spec 1 (n + 1)); [|lia]. cbn. rewrite Ep. cbn. done.
  - by apply quiet_maybe.
Qed.

Lemma beginRead_eq r log x n post :
  ∃ evs, beginRead s (idle_loop r true log x n post) = Next tt (idle_loop r true (log ++ evs) x n post) ∧ quiet evs.
Proof.
  unfold beginRead, idle_loop. rewrite (bind_next _ _ _ tt _ (storeState_eq _ _ _ _ _ _ _ _ _ _ _ _ _ _ _ _ _ _ _ _)).
  rewrite bind_get. cbn [lp_readTimeout lp_num]. rewrite (ps_reduce _ _ Hs). cbn [negb orb].
  destruct (0 <? sv_ReadTimeout s)%Z;
    rewrite (bind_next _ _ _ tt _ (when_deadline _ _ _ _ _ _ _ _ _ _ _ _ _ _ _ _ _ _ _));
    rewrite (bind_theCtx x) by done; rewrite (ps_normal _ _ Hs); eexists;
    (split; [cbn [when]; rewrite <- !app_assoc; reflexivity|]);
    repeat apply quiet_app; auto with go; by apply quiet_maybe.
Qed.

Lemma readHeader_eq r log x n post q rest :
  idle_ctx x → deliverable s q → r_data r = RequestHeader.AppendBytes (sent_header q) [] ++ rest →
  usable r r →
  ∃ r' a, readHeader s (idle_loop r true log x n post)
          = Next tt (idle_loop r' true log (onReqHeader x (λ _, a)) n post) ∧
    same_request (sent_header q) a ∧ cookies_ok (q_cookies a) ∧ r_data r' = rest ∧ later r r'.
Proof.
  intros [Hr Hreset Hnorm Hb] Hq Hd (Hl&Hsz&_). unfold readHeader, idle_loop.
  rewrite (bind_theCtx x), bind_theReader, bind_get by done. cbn [lp_prevMethodIsPost lp_conn cn_r].
  pose proof (AppendBytes_min (sent_header q)) as Hmin.
  destruct (readLoop_next (rq_Header (cx_Request x)) r post Hreset) as (r1&->&Hd1&Hl1).
  { rewrite Hd. apply numLeading_app; [|apply Hq]. intros E. rewrite E in Hmin. cbn in Hmin. lia. }
  destruct (Read_AppendBytes (sent_header q) (rq_Header (cx_Request x)) r1 rest)
    as (a&r2&E&Hd2&Hsame&_&_&Hck).
  { apply sent_header_wf, Hq. } { done. } { apply Hr. } { by rewrite Hd1. }
  { destruct Hl1 as (->&_). rewrite Hsz. apply Hq. }
  pose proof (Read_later (rq_Header (cx_Request x)) r1) as Hl2. rewrite E in Hl2. cbn [fst snd] in Hl2.
  rewrite E. exists r2, a. split.
  - unfold mbind, M_bind. cbn. by rewrite (ps_getOnly _ _ Hs).
  - split_and!; try done. by etrans.
Qed.

Lemma configure_eq l : configure s l = Next tt l.
Proof. unfold configure. by rewrite (ps_received _ _ Hs). Qed.

Lemma expectContinue_eq r log x n post q :
  plain (sent_header q) → same_request (sent_header q) (rq_Header (cx_Request x)) →
  expectContinue s (idle_loop r true log x n post) = Next tt (idle_loop r true log x n post).
Proof.
  intros Hp Hsame. unfold expectContinue. rewrite (bind_theCtx x) by done.
  rewrite (MayContinue_plain _ _ (cx_Request x) (pl_expect _ Hp) Hsame) by done. done.
Qed.

Lemma readRequestBody_eq r log x n post q rest :
  deliverable s q → ready_ctx x → Request.bodyBytes (cx_Request x) = [] →
  same_request (sent_header q) (rq_Header (cx_Request x)) →
  r_data r = payload q ++ rest → usable r r →
  ∃ r' x', readRequestBody s (idle_loop r true log x n post) = Next tt (idle_loop r' true log x' n post) ∧
    same_request (sent_header q) (rq_Header (cx_Request x')) ∧ Request.bodyBytes (cx_Request x') = payload q ∧
    ready_ctx x' ∧ r_data r' = rest ∧ later r r'.
Proof.
  intros Hq Hx Hb Hsame Hd (Hl&Hsz&_). unfold readRequestBody, idle_loop.
  rewrite (bind_theCtx x), bind_theReader, bind_get by done. cbn [lp_maxRequestBodySize lp_conn cn_r].
  rewrite (ps_stream _ _ Hs). set (x1 := onReqHeader x _).
  assert (same_request (sent_header q) (rq_Header (cx_Request x1))) as Hsame1 by exact Hsame.
  destruct (ReadBody_fixed (cx_Request x1) r (maxBodySize s) (negb (sv_DisablePreParseMultipartForm s)) (payload q) rest)
    as (q'&r'&->&Hb'&Hh'&Hd'&Hl'&Hst'); [|done|done| | | |done|].
  - unfold reader_ok. rewrite Hsz. unfold bufferSize. lia.
  - destruct Hsame1 as (_&_&_&_&_&_&->&_). apply sent_header_length, Hq.
  - right. apply Hq.
  - unfold RequestHeader.MultipartFormBoundary. destruct Hsame1 as (_&_&_&_&_&->&_). apply Hq.
  - exists r', (x1 <| cx_Request := q' |>). split; [|split_and!; cbn [cx_Request upd setter]].
    + unfold mbind, M_bind. cbn. by rewrite (ps_reduce _ _ Hs).
    + by rewrite Hh'.
    + done.
    + destruct Hx. constructor; cbn [cx_Request cx_Response cx_hijacked cx_hijackHandler upd setter]; try done.
      * rewrite Hh'. done.
      * by rewrite Hst'.
    + done.
    + done.
Qed.

Lemma forHandler_ready n x :
  ready_ctx x → ready_ctx (forHandler s env n x) ∧
  cx_Request (forHandler s env n x) = cx_Request x ∧ cx_connRequestNum (forHandler s env n x) = n.
Proof.
  intros []. unfold forHandler. destruct (serverName s); by split_and!; [constructor|..].
Qed.

Lemma handleRequest_eq r log x n post q :
  in_memory → deliverable s q → ready_ctx x → same_request (sent_header q) (rq_Header (cx_Request x)) →
  ∃ y, handleRequest s env (idle_loop r true log x n post)
       = Next tt (idle_loop r true (log ++ [evHandler n (forHandler s env n x)]) y n post) ∧
    se_handler env n (forHandler s env n x) r = (y, r) ∧ ready_ctx y.
Proof.
  intros Hh Hq Hx Hsame. destruct (forHandler_ready n x Hx) as (Hx'&_&_).
  destruct (Hh n (forHandler s env n x) r Hx') as (y&Ey&Hy). exists y. split; [|done].
  assert (RequestHeader.ConnectionClose (rq_Header (cx_Request x)) = false) as Hc.
  { destruct Hsame as (_&_&_&_&_&_&_&_&_&->). apply Hq. }
  unfold handleRequest, idle_loop. erewrite bind_next.
  2: { unfold callHandler. rewrite (bind_theCtx x), bind_theReader, bind_get by done.
       cbn [lp_num lp_conn cn_r]. rewrite bind_modify, (ps_keepalive _ _ Hs), Hc. unfold record, onConn.
       rewrite bind_modify, Ey. reflexivity. }
  erewrite bind_next.
  2: { unfold finishBody. rewrite (bind_theCtx y), bind_theReader, bind_get by done. unfold needFinish.
       rewrite (rx_bodyStream _ Hy). reflexivity. }
  unfold handOver. rewrite (bind_theCtx y), bind_get by done. rewrite (rx_hijacked _ Hy). done.
Qed.

Lemma forWriting_ready y :
  ready_ctx y → ready_ctx (forWriting y) ∧ RequestCtx.IsPost (forWriting y) = RequestCtx.IsPost y.
Proof. intros []. unfold forWriting. destruct (RequestCtx.IsHead _); (split; [by constructor|done]). Qed.

Lemma connectionHeaders_open n y :
  ready_ctx y → ∃ z, connectionHeaders s env n false y = (false, z) ∧ cx_Request z = cx_Request y ∧
    re_chunkedW (cx_Response z) = None ∧ re_compressPool (cx_Response z) = None ∧
    re_bodyStream (cx_Response z) = None ∧ cx_hijacked z = false ∧ cx_hijackHandler z = cx_hijackHandler y.
Proof.
  intros []. unfold connectionHeaders. rewrite rx_open0, (ps_running _ _ Hs), andb_false_r. cbn [orb].
  destruct (negb _); eexists; by split_and!.
Qed.

(** A response in memory is sent whole; the reader stays before the next request. *)
Lemma respond_eq r log z n post b h :
  (∀ r, Response.Write serverDate (mkWriter [] None) (cx_Response z) r
        = Some (None, mkWriter b None, (cx_Response z) <| re_Header := h |>, r)) →
  numLeadingCRorLF (r_data r) = 0 →
  ∃ r' evs, respond serverDate (idle_loop r true log z n post)
    = Next tt (idle_loop r' true (log ++ evs ++ [evResponse b])
                 (z <| cx_Response := (cx_Response z) <| re_Header := h |> |>) n post) ∧
    quiet evs ∧ r_data r' = r_data r ∧ later r r'.
Proof.
  intros Hw Hcr. destruct (skip_none r (Nat.min 4 (Buffered r)) Hcr) as (r1&Er1&Hd1&Hl1).
  set (z' := z <| cx_Response := _ |>).
  exists (if RequestCtx.IsPost z' then r1 else r). eexists. split.
  - unfold respond, idle_loop. rewrite bind_get. cbn [lp_hijackNoResponse negb when lp_writeTimeout].
    rewrite (bind_next _ _ _ tt _ (when_deadline _ _ _ _ _ _ _ _ _ _ _ _ _ _ _ _ _ _ _)).
    erewrite bind_next.
    2: { unfold sendResponse. cbn [lp_ctx lp_conn cn_writes cn_r upd setter wo_room write_ok]. rewrite Hw. reflexivity. }
    cbn [orErr wo_flush write_ok w_out cn_log]. rewrite bind_get. cbn [lp_connectionClose when upd setter].
    erewrite bind_next by reflexivity. unfold skipLineBreaks. rewrite (bind_theCtx z'), bind_get by done.
    cbn [lp_conn cn_br upd setter]. rewrite andb_true_r, <- app_assoc. unfold when.
    destruct (RequestCtx.IsPost z'); [|reflexivity]. rewrite bind_theReader. cbn [cn_r lp_conn upd setter].
    destruct (Bufio.Peek r _) as [[p e] r2]. rewrite <- Er1. reflexivity.
  - split; [by apply quiet_maybe|]. by destruct (RequestCtx.IsPost z').
Qed.

Lemma beginWrite_eq r log y n post :
  cx_hijackHandler y = None →
  ∃ evs, beginWrite s (idle_loop r true log y n post)
         = Next tt (idle_loop r true (log ++ evs) (forWriting y) n post) ∧ quiet evs.
Proof.
  intros Hh. unfold beginWrite, idle_loop.
  rewrite (bind_next _ _ _ tt _ (storeState_eq _ _ _ _ _ _ _ _ _ _ _ _ _ _ _ _ _ _ _ _)).
  rewrite (bind_theCtx y) by done. rewrite bind_modify, Hh.
  change (bool_decide (is_Some None)) with false. rewrite andb_false_r. unfold setCtx. rewrite bind_modify, bind_get.
  cbn [lp_writeTimeout upd setter]. eexists. split.
  - etrans; [exact (when_deadline _ _ _ _ _ _ _ _ _ _ _ _ _ _ _ _ _ _ _)|].
    rewrite <- (app_assoc log). reflexivity.
  - apply quiet_app; [apply quiet_app; [done|by apply quiet_maybe]|by apply quiet_maybe].
Qed.

Lemma setConnectionHeaders_eq r log y z n post :
  connectionHeaders s env n false y = (false, z) →
  setConnectionHeaders s env (idle_loop r true log y n post) = Next tt (idle_loop r true log z n post).
Proof.
  intros Ez. unfold setConnectionHeaders, idle_loop. rewrite (bind_theCtx y), bind_get by done.
  cbn [lp_num lp_connectionClose]. rewrite Ez. unfold setCtx. rewrite bind_modify.
  unfold modify. cbn. by rewrite (ps_running _ _ Hs).
Qed.

Lemma answerRequest_eq r log y n post :
  ready_ctx y → numLeadingCRorLF (r_data r) = 0 →
  ∃ r' evs z,
    answerRequest serverDate s env (idle_loop r true log y n post)
    = Next tt (idle_loop r' true (log ++ evs ++ [evResponse (printed n y)]) z n post) ∧
    quiet evs ∧ r_data r' = r_data r ∧ later r r' ∧ cx_Request z = cx_Request (forWriting y) ∧
    cx_hijacked z = false ∧ cx_hijackHandler z = None.
Proof.
  intros Hy Hcr. destruct (forWriting_ready y Hy) as [Hfw _].
  destruct (connectionHeaders_open n (forWriting y) Hfw) as (z&Ez&Ereq&Hc1&Hc2&Hc3&Hhj&Hhh).
  destruct (Write_memory serverDate (cx_Response z) Hc1 Hc2 Hc3) as (b&h&Hw).
  assert (printed n y = b) as -> by (unfold printed; rewrite Ez; cbn [snd]; by rewrite Hw).
  rewrite (rx_handler _ Hfw) in Hhh.
  destruct (beginWrite_eq r log y n post (rx_handler _ Hy)) as (evs1&Eb&Hq1).
  destruct (respond_eq r (log ++ evs1) z n post b h Hw Hcr) as (r'&evs2&Er&Hq2&Hd&Hl).
  exists r', (evs1 ++ evs2), (z <| cx_Response := (cx_Response z) <| re_Header := h |> |>).
  split; [|split_and!; [by apply quiet_app|done|done|exact Ereq|exact Hhj|exact Hhh]].
  unfold answerRequest. erewrite bind_next by exact Eb.
  erewrite bind_next by exact (setConnectionHeaders_eq _ _ _ _ _ _ Ez). erewrite bind_next by exact Er.
  unfold startHijack, idle_loop. rewrite bind_get. cbn [lp_hijackHandler]. by rewrite <- !app_assoc.
Qed.

(** A request is reset for the next one. *)
Lemma Request_Reset_idle q r :
  rq_bodyStream q = None → cookies_ok (q_cookies (rq_Header q)) →
  ∃ q', Request.Reset requestLimit q r = (q', r) ∧ rq_bodyStream q' = None ∧ Request.bodyBytes q' = [] ∧
    rq_Header q' = RequestHeader.Reset (rq_Header q).
Proof.
  intros Hst Hck. unfold Request.Reset, Request.releaseLarge.
  assert (∃ q1, (if (0 <=? requestLimit)%Z && bool_decide (is_Some (rq_body q))
                 then Request.ReleaseBody q r requestLimit else (q, r)) = (q1, r) ∧
          rq_bodyStream q1 = None ∧ rq_Header q1 = rq_Header q) as (q1&->&Hst1&Hh1).
  { destruct (_ && _); [|by exists q]. unfold Request.ReleaseBody. cbn [rq_body upd setter].
    destruct (rq_body q) as [b|]; [|by eexists]. destruct (sl_cap b >? requestLimit)%Z; [|by eexists].
    unfold Request.closeBodyStream. cbn [rq_bodyStream upd setter]. rewrite Hst. by eexists. }
  unfold Request.resetSkipHeader. destruct (ResetBody_none q1 r Hst1) as (q2&E&Hh2&_&Hb2). 
  assert (rq_bodyStream q2 = None) as Hst2.
  { unfold Request.ResetBody, Request.closeBodyStream in E. cbn in E. rewrite Hst1 in E. by simplify_eq. }
  rewrite E. eexists. split; [done|]. split_and!; [exact Hst2|exact Hb2|]. cbn. by rewrite Hh2, Hh1.
Qed.

Lemma closeBodyStream_gone p e :
  re_bodyStream (Response.closeBodyStream p e).2 = None ∧
  re_chunkedW (Response.closeBodyStream p e).2 = re_chunkedW p.
Proof. unfold Response.closeBodyStream. by destruct (re_bodyStream p) eqn:E. Qed.

Lemma Response_Reset_idle p :
  let p' := Response.Reset responseLimit p in
  re_chunkedW p' = None ∧ re_compressPool p' = None ∧ re_bodyStream p' = None ∧
  ResponseHeader.ConnectionClose (re_Header p') = false.
Proof.
  unfold Response.Reset, Response.resetSkipHeader, Response.ResetBody.
  set (p1 := Response.releaseLarge responseLimit p). clearbody p1.
  match goal with |- context [Response.closeBodyStream ?y None] =>
    destruct (closeBodyStream_gone y None) as [Hb Hc]; set (p2 := (Response.closeBodyStream y None).2) in * end.
  clearbody p2. split_and!; [exact Hc|reflexivity|exact Hb|reflexivity].
Qed.

Lemma Reset_again h : RequestHeader.resetSkipNormalize (RequestHeader.Reset h) = RequestHeader.Reset h.
Proof. destruct h. vm_compute. reflexivity. Qed.

Lemma nextRequest_eq r log z n post :
  rq_bodyStream (cx_Request z) = None → cookies_ok (q_cookies (rq_Header (cx_Request z))) →
  cx_hijacked z = false → cx_hijackHandler z = None →
  ∃ evs x post', nextRequest requestLimit responseLimit s env (idle_loop r true log z n post)
    = Next tt (idle_loop r true (log ++ evs) x n post') ∧ quiet evs ∧ idle_ctx x.
Proof.
  intros Hst Hck Hh Hhh. destruct (Request_Reset_idle (cx_Request z) r Hst Hck) as (q&Eq&Hq1&Hq2&Hq3).
  destruct (Response_Reset_idle (cx_Response z)) as (Hp1&Hp2&Hp3&Hp4).
  do 3 eexists. split; [|split].
  - unfold nextRequest, idle_loop. rewrite bind_get. cbn [lp_shouldStop when lp_writeTimeout lp_readTimeout].
    erewrite bind_next by reflexivity.
    do 2 rewrite (bind_next _ _ _ tt _ (when_deadline _ _ _ _ _ _ _ _ _ _ _ _ _ _ _ _ _ _ _)).
    rewrite (bind_next _ _ _ tt _ (storeState_eq _ _ _ _ _ _ _ _ _ _ _ _ _ _ _ _ _ _ _ _)).
    rewrite (bind_theCtx z), bind_theReader by done. cbn [lp_conn cn_r].
    change (cx_Request (RequestCtx.ResetUserValues z)) with (cx_Request z).
    change (cx_Response (RequestCtx.ResetUserValues z)) with (cx_Response z). rewrite Eq.
    rewrite <- !app_assoc. reflexivity.
  - repeat apply quiet_app; auto with go; by apply quiet_maybe.
  - set (p := Response.Reset responseLimit (cx_Response z)) in *. clearbody p.
    constructor; [constructor|..]; cbn [cx_Request cx_Response rq_Header rq_bodyStream upd setter].
    + rewrite Hq3. exact Hck.
    + exact Hq1.
    + exact Hh.
    + exact Hhh.
    + exact Hp1.
    + exact Hp2.
    + exact Hp3.
    + exact Hp4.
    + rewrite Hq3. apply Reset_again.
    + rewrite Hq3. split; reflexivity.
    + exact Hq2.
Qed.

(** What the handler got for the request [q], the [n]-th of the connection, and what the peer
    got for it. *)
Definition served (n : Z) (q : Request) (z : RequestCtx) (resp : bytes) : Prop :=
  same_request (sent_header q) (rq_Header (cx_Request z)) ∧
  Request.bodyBytes (cx_Request z) = payload q ∧ cx_connRequestNum z = n ∧
  ∃ y r, se_handler env n z r = (y, r) ∧ resp = printed n y.

Lemma readRequest_eq r br log x n post q rest :
  idle_ctx x → reader_at r br n → deliverable s q → r_data r = request_wire q ++ rest →
  ∃ r' evs x', readRequest requestLimit responseLimit s env (idle_loop r br log x n post)
    = Next tt (idle_loop r' true (log ++ evs) x' (n + 1) post) ∧ quiet evs ∧
    same_request (sent_header q) (rq_Header (cx_Request x')) ∧
    Request.bodyBytes (cx_Request x') = payload q ∧ ready_ctx x' ∧ r_data r' = rest ∧ usable r r'.
Proof.
  intros Hx Hr Hq Hd. pose proof (AppendBytes_min (sent_header q)) as Hmin.
  unfold request_wire in Hd. rewrite <- app_assoc in Hd.
  destruct (waitRequest_eq r br log x n post Hr) as (r1&evs1&E1&Hd1&Hu1&Hq1).
  { right. rewrite Hd. intros E. apply app_nil in E as [E _]. rewrite E in Hmin. cbn in Hmin. lia. }
  destruct (beginRead_eq r1 (log ++ evs1) x (n + 1) post) as (evs2&E2&Hq2).
  destruct (readHeader_eq r1 ((log ++ evs1) ++ evs2) x (n + 1) post q (payload q ++ rest))
    as (r2&a&E3&Hsame&Hck&Hd2&Hl2); [done|done|by rewrite Hd1|by destruct Hu1 as (?&?&?)|].
  set (x2 := onReqHeader x (λ _, a)) in *.
  assert (ready_ctx x2) as Hx2 by (destruct Hx as [[] _ _ _]; by constructor).
  pose proof (usable_later _ _ _ Hu1 Hl2) as Hu2.
  destruct (readRequestBody_eq r2 ((log ++ evs1) ++ evs2) x2 (n + 1) post q rest)
    as (r3&x3&E4&Hs3&Hb3&Hx3&Hd3&Hl3); [done|done|apply (ix_body _ Hx)|done|done|by destruct Hu2 as (?&?&?)|].
  exists r3, (evs1 ++ evs2), x3. split_and!; try done; [|by apply quiet_app|by eapply usable_later].
  unfold readRequest. erewrite bind_next by exact E1. erewrite bind_next by exact E2.
  erewrite bind_next by exact E3. erewrite bind_next by apply configure_eq.
  erewrite bind_next by (apply (expectContinue_eq _ _ _ _ _ q); [apply Hq|exact Hsame]).
  rewrite E4. by rewrite app_assoc.
Qed.

Lemma round_eq r br log x n post q rest :
  in_memory → idle_ctx x → reader_at r br n → deliverable s q → (0 ≤ n)%Z →
  r_data r = request_wire q ++ rest → numLeadingCRorLF rest = 0 →
  ∃ r' evs x' z resp post', round requestLimit responseLimit serverDate s env (idle_loop r br log x n post)
    = Next tt (idle_loop r' true (log ++ evs) x' (n + 1) post') ∧ idle_ctx x' ∧
    reader_at r' true (n + 1) ∧ r_data r' = rest ∧ r_err r' = r_err r ∧
    handled evs = [((n + 1)%Z, z)] ∧ responses evs = [resp] ∧ wire evs = resp ∧ served (n + 1) q z resp.
Proof.
  intros Hh Hx Hr Hq Hn Hd Hrest.
  destruct (readRequest_eq r br log x n post q rest Hx Hr Hq Hd) as (r1&evs1&x1&E1&Hq1&Hs1&Hb1&Hx1&Hd1&Hu1).
  destruct (handleRequest_eq r1 (log ++ evs1) x1 (n + 1) post q Hh Hq Hx1 Hs1) as (y&E2&Ey&Hy).
  destruct (forHandler_ready (n + 1) x1 Hx1) as (_&Hreq&Hnum).
  edestruct (answerRequest_eq r1) as (r2&evs2&z&E3&Hq2&Hd2&Hl2&Hreq2&Hhj&Hhh); [exact Hy|by rewrite Hd1|].
  destruct (forWriting_ready y Hy) as [Hfw _].
  edestruct (nextRequest_eq r2) as (evs3&x'&post'&E4&Hq3&Hx').
  { rewrite Hreq2. apply Hfw. } { rewrite Hreq2. apply Hfw. } { exact Hhj. } { exact Hhh. }
  exists r2. eexists. exists x', (forHandler s env (n + 1) x1), (printed (n + 1) y), post'.
  split; [|split; [done|]].
  - unfold round. erewrite bind_next by exact E1. erewrite bind_next by exact E2.
    erewrite bind_next by exact E3. rewrite E4. rewrite <- !app_assoc. reflexivity.
  - pose proof (usable_later _ _ _ Hu1 Hl2) as (Hlv&Hsz&Her).
    destruct Hq1 as (Ha1&Ha2&Ha3), Hq2 as (Hb2&Hb3&Hb4), Hq3 as (Hc1&Hc2&Hc3).
    split_and!; try congruence.
    + split; [done|]. right. split_and!; [done|lia|done].
    + unfold handled in *. by rewrite !omap_app, Ha1, Hb2, Hc1.
    + unfold responses in *. by rewrite !omap_app, Ha2, Hb3, Hc2.
    + rewrite !wire_app, Ha3, Hb4, Hc3. cbn. by rewrite !app_nil_r.
    + unfold served. rewrite Hreq. split_and!; [done|done|done|]. by exists y, r1.
Qed.
(** The requests [qs], from number [n + 1] on, against a trace: each one in turn. *)
Definition all_served (n : Z) (qs : list Request) (log : list event) : Prop :=
  Forall3 (λ q nz resp, served nz.1 q nz.2 resp) qs (handled log) (responses log) ∧
  (handled log).*1 = seqZ (n + 1) (Z.of_nat (length qs)) ∧ wire log = concat (responses log).

Lemma all_served_quiet n evs : quiet evs → all_served n [] evs.
Proof. intros (E1&E2&E3). unfold all_served. rewrite E1, E2, E3. split; [constructor|done]. Qed.

Lemma all_served_app n q qs evs1 evs2 z resp :
  handled evs1 = [((n + 1)%Z, z)] → responses evs1 = [resp] → wire evs1 = resp → served (n + 1) q z resp →
  all_served (n + 1) qs evs2 → all_served n (q :: qs) (evs1 ++ evs2).
Proof.
  intros E1 E2 E3 Hz (H3&Hn&Hw). unfold all_served, handled, responses in *.
  rewrite !omap_app, wire_app, E1, E2, E3, Hw. cbn [app]. split_and!; [by constructor| |done].
  cbn [fmap list_fmap fst length]. rewrite Hn, Nat2Z.inj_succ, (seqZ_cons (n + 1)), Z.pred_succ by lia. done.
Qed.

Lemma wires_start qs : Forall (deliverable s) qs → numLeadingCRorLF (concat (request_wire <$> qs)) = 0.
Proof.
  destruct qs as [|q qs]; [done|]. intros [Hq _]%Forall_cons_1. cbn. unfold request_wire. rewrite <- app_assoc.
  pose proof (AppendBytes_min (sent_header q)) as Hmin.
  apply numLeading_app; [|apply Hq]. intros E. rewrite E in Hmin. cbn in Hmin. lia.
Qed.

Lemma serveLoop_eq qs r br log x n post fuel :
  in_memory → Forall (deliverable s) qs → idle_ctx x → reader_at r br n → (0 ≤ n)%Z → (br = true ∨ qs ≠ []) →
  r_data r = concat (request_wire <$> qs) → r_err r = EOF → length qs < fuel →
  ∃ r' evs x' m post', serveLoop requestLimit responseLimit serverDate s env fuel (idle_loop r br log x n post)
    = Break ((idle_loop r' true (log ++ evs) x' m post') <| lp_err := Some (serveErr (bodyIO EOF)) |>) ∧
    all_served n qs evs.
Proof.
  intros Hh. revert r br log x n post fuel.
  induction qs as [|q qs IH]; intros r br log x n post [|fuel] Hqs Hx Hr Hn Hne Hd He Hf; try (cbn in Hf; lia).
  - destruct Hne as [->|?]; [|done]. destruct (waitRequest_end r log x n post Hr Hd He) as (r'&evs&E&Hq).
    exists r', evs, x, (n + 1)%Z, post. split; [|by apply all_served_quiet]. cbn [serveLoop].
    unfold round, readRequest.
    erewrite bind_break; [done|]. erewrite bind_break; [done|exact E].
  - apply Forall_cons_1 in Hqs as [Hq Hqs]. cbn [fmap list_fmap concat] in Hd.
    destruct (round_eq r br log x n post q _ Hh Hx Hr Hq Hn Hd (wires_start _ Hqs))
      as (r1&evs1&x1&z&resp&post1&E&Hx1&Hr1&Hd1&He1&Hev1&Hev2&Hev3&Hev4).
    destruct (IH r1 true (log ++ evs1) x1 (n + 1)%Z post1 fuel) as (r'&evs&x'&m&post'&E'&Hall);
      [done|done|done|lia|by left|done|congruence|cbn in Hf; lia|].
    exists r', (evs1 ++ evs), x', m, post'. split; [|by eapply all_served_app].
    cbn [serveLoop]. rewrite E, E'. by rewrite app_assoc.
Qed.

Lemma startLoop_idle r br log :
  ∃ x, startLoop s env (mkConn r br [] [] log) = idle_loop r false log x 0 false ∧ idle_ctx x.
Proof.
  eexists. split; [reflexivity|]. unfold acquireCtx. destruct (se_pool env 0) as [x|] eqn:E.
  - destruct (ps_pool _ _ Hs x E) as [[] ? ? ?]. constructor; [constructor|..]; assumption.
  - constructor; [constructor|..]; try reflexivity. by constructor. by constructor.
Qed.

Lemma otherProtocol_none l : otherProtocol s env l = Next tt l.
Proof.
  unfold otherProtocol, getNextProto. rewrite (ps_tls _ _ Hs). unfold mbind, M_bind. cbn [mret M_ret].
  by rewrite (ps_protos _ _ Hs).
Qed.

(** The end of the connection is not an error, and nothing is sent for it. *)
Lemma endLoop_eq r log x n post :
  ∃ c' keep evs, endLoop requestLimit responseLimit s
      ((idle_loop r true log x n post) <| lp_err := Some (serveErr (bodyIO EOF)) |>) = (None, c', keep) ∧
    cn_log c' = log ++ evs ∧ quiet evs.
Proof.
  unfold endLoop, refuse. rewrite bind_get. cbn [idle_loop lp_err lp_responseStr lp_writeTimeout upd setter].
  rewrite bool_decide_true by done. cbn [skip].
  destruct (sv_ErrorHandler s).
  - do 2 eexists. exists [evErrorHandler None]. by split_and!.
  - do 2 eexists. exists []. split_and!; [done| |done]. cbn. by rewrite app_nil_r.
Qed.

Lemma all_served_end n qs evs1 evs2 : all_served n qs evs1 → quiet evs2 → all_served n qs (evs1 ++ evs2).
Proof.
  intros (Hf&Hn&Hw) (E1&E2&E3). unfold all_served, handled, responses in *.
  by rewrite !omap_app, wire_app, E1, E2, E3, !app_nil_r.
Qed.

(** A connection that carries the requests [qs] one after the other, in any fragmentation, and
    is then closed. *)
Record carries (c : Conn) (qs : list Request) : Prop := {
  ca_deadlines : cn_deadlines c = [];
  ca_writes : cn_writes c = [];
  ca_log : cn_log c = [];
  ca_buf : r_buf (cn_r c) = [];
  ca_lively : lively (cn_r c);
  ca_data : r_data (cn_r c) = concat (request_wire <$> qs);
  ca_err : r_err (cn_r c) = EOF
}.

Lemma serveConn_pipeline c qs rounds :
  length qs < rounds → in_memory → Forall (deliverable s) qs → qs ≠ [] → carries c qs →
  ∃ c' keep, serveConn requestLimit responseLimit serverDate s env rounds c = servedConn None c' keep ∧
    all_served 0 qs (cn_log c').
Proof.
  intros Hf Hh Hqs Hne []. destruct c as [r br ds ws log]. cbn in *. subst.
  destruct (startLoop_idle r br []) as (x&Ex&Hx).
  destruct (serveLoop_eq qs r false [] x 0 false rounds) as (r'&evs&x'&m&post&E&Hall);
    [done|done|done|split; [done|by left]|lia|by right|done|done|done|].
  destruct (endLoop_eq r' evs x' m post) as (c'&keep&evs'&Ee&El&Hq).
  exists c', keep. split; [|rewrite El; by apply all_served_end].
  unfold serveConn. rewrite otherProtocol_none.
  match goal with |- context [startLoop s env (lp_conn ?l)] =>
    change (startLoop s env (lp_conn l)) with (startLoop s env (mkConn r br [] [] [])) end.
  change ([] ++ evs) with evs in E. by rewrite Ex, E, Ee.
Qed.
End pipeline.
