(* ===== verification/Serving.v ===== *)
(** server.go around [serveConn]: the limits a connection meets, the table of connections and
    their states, [ServeConn], and [ShutdownWithContext]. *)

From Stdlib Require Import ZArith Strings.Byte.
From stdpp Require Import prelude strings list gmap fin_maps.
From S2P Require Import Prelude Tables Bufio Bytesconv Args Uri Headers HeaderScan Body ReqHeader RespHeader Http HttpResp.
From S2P Require Import UserData PerIP RequestCtx Server.

(** * State *)

(** A connection as the server got it, or its wrapper, known by its address in memory. *)
Inductive netConn :=
  | bareConn (c : nat)
  | ipConn (w : nat).

#[global] Instance netConn_eq_decision : EqDecision netConn.
Proof. solve_decision. Defined.
#[global] Instance netConn_countable : Countable netConn.
Proof.
  apply (inj_countable' (λ c, match c with bareConn n => inl n | ipConn n => inr n end)
           (λ x, match x with inl n => bareConn n | inr n => ipConn n end)).
  by intros [].
Defined.

Record ConnStatus := mkConnStatus { cs_status : ConnState; cs_lastActive : Z; cs_createTime : Z }.

Inductive ResourceLimitType := MaxConCurrencyLimit | MaxConPerIpLimit.

Definition defaultResourceLimitError (lt : ResourceLimitType) : bytes :=
  match lt with MaxConCurrencyLimit => concurrencyLimitErr | MaxConPerIpLimit => conPerIpLimitErr end.

(** What reaches the connections the server was given, and the state hook. *)
Inductive net_call :=
  | netWrite (c : nat) (b : bytes)
  | netClose (c : nat)
  | netHook (c : netConn) (st : ConnState).

(** The part of the server its connections share. [sc_wrappers] is the memory of the
    wrappers. *)
Record connServer := mkConnServer {
  sc_open : Z;
  sc_concurrency : Z;
  sc_rejectedByPerIpLimitCount : Z;
  sc_rejectedByConcurrencyLimitCount : Z;
  sc_conns : gmap netConn ConnStatus;
  sc_counter : perIPConnCounter;
  sc_wrappers : gmap nat perIPConn;
  sc_calls : list net_call
}.

#[global] Instance connServer_etable : Etable connServer := λ s,
  mkConnServer (sc_open s) (sc_concurrency s) (sc_rejectedByPerIpLimitCount s)
    (sc_rejectedByConcurrencyLimitCount s) (sc_conns s) (sc_counter s) (sc_wrappers s) (sc_calls s).

Definition addOpen (st : connServer) (d : Z) : connServer := st <| sc_open := int32 (sc_open st + d) |>.
(** The new value is what [atomic.AddUint32] returns. *)
Definition addConcurrency (st : connServer) (d : Z) : connServer :=
  st <| sc_concurrency := uint32 (sc_concurrency st + d) |>.
Definition call (st : connServer) (e : net_call) : connServer := st <| sc_calls := sc_calls st ++ [e] |>.

(** * Calls of a connection *)

(** The connection behind a wrapper; [None] is the nil of a closed wrapper. *)
Definition underlying (st : connServer) (c : netConn) : option nat :=
  match c with
  | bareConn c => Some c
  | ipConn w => p ← sc_wrappers st !! w; pc_conn p
  end.

(** [None] is a panic, in all of these. *)
Definition writeNetConn (st : connServer) (c : netConn) (b : bytes) : option connServer :=
  n ← underlying st c; Some (call st (netWrite n b)).

Definition closeNetConn (st : connServer) (c : netConn) : option connServer :=
  match c with
  | bareConn n => Some (call st (netClose n))
  | ipConn w =>
      p ← sc_wrappers st !! w;
      res ← closePerIPConn (sc_counter st) p;
      let '(n, p, cc) := res in
      Some (call (st <| sc_wrappers := <[w := p]> (sc_wrappers st) |> <| sc_counter := cc |>) (netClose n))
  end.

Section server.
Context (s : Server) (resourceLimitError : option (ResourceLimitType → bytes)).

Definition limitError (lt : ResourceLimitType) : bytes :=
  match resourceLimitError with None => defaultResourceLimitError lt | Some f => f lt end.

(** * The table *)

Definition trackConn (st : connServer) (c : netConn) (state : ConnState) (now : Z) : connServer :=
  match state with
  | StateNew =>
      st <| sc_conns := <[c := mkConnStatus StateIdle (int64 (now + 5 * 1000000000)) now]> (sc_conns st) |>
  | _ => st <| sc_conns := delete c (sc_conns st) |>
  end.

Definition setState (st : connServer) (c : netConn) (state : ConnState) (now : Z) : connServer :=
  let st := if bool_decide (state = StateNew) || (ConnState_num StateIdle <? ConnState_num state)%Z
            then trackConn st c state now else st in
  if sv_ConnState s then call st (netHook c state) else st.

(** [s.conns.Load] of the connection and what [serveConn] stores through the pointer. *)
Definition storeStatus (st : connServer) (c : netConn) (state : ConnState) (now : Z) : connServer :=
  match sc_conns st !! c with
  | None => st
  | Some cs =>
      let cs := match state with
                | StateIdle => mkConnStatus state (cs_lastActive cs) (cs_createTime cs)
                | _ => mkConnStatus state now (cs_createTime cs)
                end in
      st <| sc_conns := <[c := cs]> (sc_conns st) |>
  end.

Definition expired (now : Z) (cs : ConnStatus) : bool :=
  bool_decide (cs_status cs = StateIdle) && (0 <=? int64 (now - cs_lastActive cs))%Z.

Definition closeIfIdle (now : Z) (ccs : netConn * ConnStatus) (st : connServer) : option connServer :=
  if expired now ccs.2 then
    st ← closeNetConn st ccs.1;
    Some (st <| sc_conns := delete ccs.1 (sc_conns st) |>)
  else Some st.

(** [Range] visits every connection, in some order. *)
Definition closeIdleConns (st : connServer) (now : Z) : option connServer :=
  foldr (λ ccs acc, st ← acc; closeIfIdle now ccs st) (Some st) (map_to_list (sc_conns st)).

(** * Limits *)

(** The connection the server goes on with, or none when it was refused and closed. [w] is
    the address of the wrapper the pool of wrappers gives. *)
Definition wrapPerIPConn (st : connServer) (c : nat) (addr : netAddr) (isTLS : bool) (w : nat)
    : option (option netConn * connServer) :=
  let ip := getUint32IP addr in
  if (ip =? 0)%Z then Some (Some (bareConn c), st)
  else
    let '(n, cc) := perIPConnCounter.Register (sc_counter st) ip in
    if (sv_MaxConnsPerIP s <? n)%Z then
      cc ← perIPConnCounter.Unregister cc ip;
      st ← writeNetConn (st <| sc_counter := cc |>) (bareConn c) (limitError MaxConPerIpLimit);
      st ← closeNetConn st (bareConn c);
      Some (None, st)
    else
      Some (Some (ipConn w), st <| sc_counter := cc |>
                                <| sc_wrappers := <[w := acquirePerIPConn c isTLS ip]> (sc_wrappers st) |>).

Definition limitPerIP (st : connServer) (c : nat) (addr : netAddr) (isTLS : bool) (w : nat)
    : option (option netConn * connServer) :=
  if (0 <? sv_MaxConnsPerIP s)%Z then wrapPerIPConn st c addr isTLS w else Some (Some (bareConn c), st).

(** * [ServeConn] *)

(** Up to the call of [serveConn]: an error, or the connection to serve. *)
Definition beginServe (st : connServer) (c : nat) (addr : netAddr) (isTLS : bool) (w : nat) (now : Z)
    : option ((serve_error + netConn) * connServer) :=
  let st := addOpen st 1 in
  res ← limitPerIP st c addr isTLS w;
  match res with
  | (None, st) => Some (inl ErrPerIPConnLimit, addOpen st (-1))
  | (Some c, st) =>
      let st := addConcurrency st 1 in
      if (uint32 (Server.getConcurrency s) <? sc_concurrency st)%Z then
        let st := addConcurrency st (-1) in
        st ← writeNetConn st c (limitError MaxConCurrencyLimit);
        st ← closeNetConn (addOpen st (-1)) c;
        Some (inl ErrConcurrencyLimit, st)
      else Some (inr c, setState st c StateNew now)
  end.

(** After it; [errc] is the error of closing the connection. *)
Definition endServe (st : connServer) (c : netConn) (err errc : option serve_error) (now : Z)
    : option (option serve_error * connServer) :=
  let st := addConcurrency (addOpen st (-1)) (-1) in
  if bool_decide (err = Some errHijacked) then Some (None, setState st c StateHijacked now)
  else
    st ← closeNetConn st c;
    Some (match err with None => errc | Some _ => err end, setState st c StateClosed now).

(** What the accept loop of [Serve] does with a connection when the pool of workers takes it
    or does not: the connection handed over, if any. *)
Definition acceptConn (st : connServer) (c : nat) (addr : netAddr) (isTLS : bool) (w : nat)
    (serve : netConn → bool) : option (option netConn * connServer) :=
  let st := addOpen st 1 in
  res ← limitPerIP st c addr isTLS w;
  match res with
  | (None, st) =>
      let st := st <| sc_rejectedByPerIpLimitCount := uint32 (sc_rejectedByPerIpLimitCount st + 1) |> in
      Some (None, addOpen st (-1))
  | (Some c, st) =>
      if serve c then Some (Some c, st)
      else
        let st := st <| sc_rejectedByConcurrencyLimitCount := uint32 (sc_rejectedByConcurrencyLimitCount st + 1) |> in
        st ← writeNetConn st c (limitError MaxConCurrencyLimit);
        st ← closeNetConn st c;
        Some (None, addOpen st (-1))
  end.

(** * [ShutdownWithContext] *)

(** The listeners are closed in turn up to the first error, and every tick closes the idle
    connections until none is open. A tick is what the other goroutines do to the server
    before the next round, the time of it, and the error of the context once it is done. *)
Record tick := mkTick { tk_others : connServer → connServer; tk_now : Z; tk_ctxErr : option bytes }.

Inductive shutdown_result :=
  | shutdownDone (err : option bytes) (st : connServer)
  | shutdownWaiting (st : connServer)
  | shutdownPanic.

Fixpoint waitClosed (st : connServer) (now : Z) (ticks : list tick) : shutdown_result :=
  match closeIdleConns st now with
  | None => shutdownPanic
  | Some st =>
      if (sc_open st =? 0)%Z then shutdownDone None st
      else
        match ticks with
        | [] => shutdownWaiting st
        | t :: ticks =>
            match tk_ctxErr t with
            | Some e => shutdownDone (Some e) st
            | None => waitClosed (tk_others t st) (tk_now t) ticks
            end
        end
  end.

Fixpoint closeListeners (lns : list (option bytes)) : option bytes :=
  match lns with
  | [] => None
  | None :: lns => closeListeners lns
  | Some err :: _ => Some err
  end.

(** [lns] are the results of closing the listeners, [None] for a server that has none yet. *)
Definition ShutdownWithContext (st : connServer) (lns : option (list (option bytes))) (now : Z) (ticks : list tick)
    : shutdown_result :=
  match lns with
  | None => shutdownDone None st
  | Some lns =>
      match closeListeners lns with
      | Some err => shutdownDone (Some err) st
      | None => waitClosed st now ticks
      end
  end.
End server.

(** * [ServeConn] with the loop *)

Section ServeConn.
Context `{ByteBufferOps} `{MultipartOps} (requestLimit responseLimit : Z) (serverDate : bytes).
Context (s : Server) (resourceLimitError : option (ResourceLimitType → bytes)) (env : serve_env).

(** [None] is a panic, or a connection that is still open after [rounds] requests. [now] are
    the times of the two changes of state. *)
Definition ServeConn (st : connServer) (c : nat) (addr : netAddr) (isTLS : bool) (w : nat) (now : Z * Z)
    (errc : option serve_error) (rounds : nat) (conn : Conn)
    : option (option serve_error * connServer * option Conn) :=
  res ← beginServe s resourceLimitError st c addr isTLS w now.1;
  match res with
  | (inl err, st) => Some (Some err, st, None)
  | (inr c, st) =>
      match serveConn requestLimit responseLimit serverDate s env rounds conn with
      | servedConn err conn _ =>
          res ← endServe s st c err errc now.2;
          let '(err, st) := res in Some (err, st, Some conn)
      | _ => None
      end
  end.
End ServeConn.

(** * Hijacked connections *)

Record hijackConn := mkHijackConn { hj_conn : option netConn; hj_buffered : option bytes }.

(** From the pool or new, nothing is left of an earlier use. *)
Definition acquireHijackConn (c : netConn) (buffered : option bytes) : hijackConn := mkHijackConn (Some c) buffered.
Definition releaseHijackConn (_ : hijackConn) : hijackConn := mkHijackConn None None.

(** [Close] of a hijacked connection leaves it to [hijackConnHandler], unless the server keeps
    hijacked connections. [None] is a panic. *)
Definition closeHijackConn (keepHijacked : bool) (st : connServer) (h : hijackConn) : option (hijackConn * connServer) :=
  if negb keepHijacked then Some (h, st)
  else c ← hj_conn h; st ← closeNetConn st c; Some (releaseHijackConn h, st).

(** [handler] is what the hijack handler does to the connection and the server. *)
Definition hijackConnHandler (keepHijacked : bool) (handler : hijackConn → connServer → hijackConn * connServer)
    (st : connServer) (c : netConn) (buffered : option bytes) : option (hijackConn * connServer) :=
  let '(h, st) := handler (acquireHijackConn c buffered) st in
  if negb keepHijacked then st ← closeNetConn st c; Some (releaseHijackConn h, st)
  else Some (h, st).
