(* ===== verification/ServingFacts.v ===== *)
(** The counters and the table of connections: balanced by every call of [ServeConn], exact
    under any interleaving of calls, and what a shutdown does to them. *)

From Stdlib Require Import ZArith Strings.Byte.
From stdpp Require Import prelude strings list gmap fin_maps.
From S2P Require Import Prelude Tables Bufio Bytesconv Args Uri Headers HeaderScan Body ReqHeader RespHeader Http HttpResp.
From S2P Require Import UserData PerIP RequestCtx Server Serving.

(** * Counters of a fixed width *)

Lemma int32_add a b : int32 (int32 a + b) = int32 (a + b).
Proof.
  unfold wrapS. change (32 - 1)%Z with 31%Z. f_equal.
  replace ((a + 2 ^ 31) mod 2 ^ 32 - 2 ^ 31 + b + 2 ^ 31)%Z with ((a + 2 ^ 31) mod 2 ^ 32 + b)%Z by lia.
  rewrite Zplus_mod_idemp_l. f_equal. lia.
Qed.

Lemma uint32_add a b : uint32 (uint32 a + b) = uint32 (a + b).
Proof. unfold wrapU. apply Zplus_mod_idemp_l. Qed.

(** * Which connections are closed *)

(** The connections closed, in order. *)
Definition closed (calls : list net_call) : list nat :=
  omap (λ e, match e with netClose n => Some n | _ => None end) calls.

Lemma closed_app l1 l2 : closed (l1 ++ l2) = closed l1 ++ closed l2.
Proof. apply omap_app. Qed.

(** What a part of the server does not touch. *)
Definition counters (st : connServer) : Z * Z := (sc_open st, sc_concurrency st).

Lemma closeNetConn_bare st c : closeNetConn st (bareConn c) = Some (call st (netClose c)).
Proof. done. Qed.

Lemma closeNetConn_frame st c st' :
  closeNetConn st c = Some st' →
  counters st' = counters st ∧ sc_conns st' = sc_conns st ∧
  ∃ n, underlying st c = Some n ∧ sc_calls st' = sc_calls st ++ [netClose n].
Proof.
  destruct c as [n|w]; cbn; [intros [= <-]; eauto|].
  destruct (sc_wrappers st !! w) as [p|]; [|done]. unfold closePerIPConn. cbn.
  destruct (pc_conn p) as [n|]; [|done]. cbn.
  destruct (perIPConnCounter.Unregister _ _) as [cc|]; [|done]. cbn. intros [= <-]. eauto.
Qed.

(** A closed wrapper cannot be closed again. *)
Lemma closeNetConn_twice st w st' :
  closeNetConn st (ipConn w) = Some st' → underlying st' (ipConn w) = None.
Proof.
  cbn. destruct (sc_wrappers st !! w) as [p|]; [|done]. unfold closePerIPConn. cbn.
  destruct (pc_conn p) as [n|]; [|done]. cbn.
  destruct (perIPConnCounter.Unregister _ _) as [cc|]; [|done]. cbn. intros [= <-]. cbn.
  by rewrite lookup_insert_eq.
Qed.

Lemma closeNetConn_nil st w : underlying st (ipConn w) = None → closeNetConn st (ipConn w) = None.
Proof.
  cbn. destruct (sc_wrappers st !! w) as [p|]; [|done]. cbn. intros E. unfold closePerIPConn. by rewrite E.
Qed.

(** Closing one connection leaves the others as they are. *)
Lemma closeNetConn_other st c st' c' :
  closeNetConn st c = Some st' → c ≠ c' → underlying st' c' = underlying st c'.
Proof.
  intros E Hne. destruct c' as [n'|w']; [done|]. destruct c as [n|w]; cbn in E; [by injection E as <-|].
  destruct (sc_wrappers st !! w) as [p|]; [|done]. cbn in E.
  destruct (closePerIPConn _ _) as [[[n q] cc]|]; [|done]. injection E as <-. cbn.
  rewrite lookup_insert_ne; [done|]. congruence.
Qed.

(** The wrapper of a registered address is closed, and its address forgotten once. *)
Lemma closeNetConn_wrapper st w n tls ip :
  sc_wrappers st !! w = Some (mkPerIPConn (Some n) tls ip) →
  is_Some (pi_m (sc_counter st)) → (0 < perIP_count (sc_counter st) ip)%Z →
  ∃ st', closeNetConn st (ipConn w) = Some st' ∧
    ∀ ip', perIP_count (sc_counter st') ip'
           = (perIP_count (sc_counter st) ip' - if decide (ip = ip') then 1 else 0)%Z.
Proof.
  intros Hw Hm Hp. destruct (Unregister_count _ _ Hm Hp) as (cc&E&_&Hc). cbn. rewrite Hw. cbn.
  unfold closePerIPConn. cbn. rewrite E. cbn. eexists. split; [done|]. exact Hc.
Qed.

(** * [closeIdleConns] *)

Lemma closeIfIdle_frame now ccs st st' :
  closeIfIdle now ccs st = Some st' →
  counters st' = counters st ∧
  sc_conns st' = (if expired now ccs.2 then delete ccs.1 (sc_conns st) else sc_conns st) ∧
  ∃ l, sc_calls st' = sc_calls st ++ l ∧
    l = (if expired now ccs.2 then netClose <$> option_list (underlying st ccs.1) else []).
Proof.
  unfold closeIfIdle. destruct (expired now ccs.2).
  - destruct (closeNetConn st ccs.1) as [st1|] eqn:E; [|done]. cbn. intros [= <-].
    apply closeNetConn_frame in E as (H1&H2&n&H3&H4). cbn. rewrite H2, H3. split_and!; [done|done|].
    eexists. by split; [exact H4|].
  - intros [= <-]. split_and!; [done|done|]. exists []. by rewrite app_nil_r.
Qed.

(** The connections that are closed, oldest call first. *)
Definition idle_ids (st : connServer) (now : Z) (l : list (netConn * ConnStatus)) : list nat :=
  omap (λ ccs, if expired now ccs.2 then underlying st ccs.1 else None) (reverse l).

Definition closeAll (st : connServer) (now : Z) (l : list (netConn * ConnStatus)) : option connServer :=
  foldr (λ ccs acc, st ← acc; closeIfIdle now ccs st) (Some st) l.

Lemma closeIfIdle_other now ccs st st' c :
  closeIfIdle now ccs st = Some st' → ccs.1 ≠ c → underlying st' c = underlying st c.
Proof.
  unfold closeIfIdle. destruct (expired now ccs.2); [|by intros [= <-]].
  destruct (closeNetConn st ccs.1) as [st1|] eqn:E; [|done]. cbn. intros [= <-] Hne.
  by rewrite <- (closeNetConn_other _ _ _ c E Hne).
Qed.

Lemma closeAll_other now l st st' c :
  closeAll st now l = Some st' → c ∉ l.*1 → underlying st' c = underlying st c.
Proof.
  revert st'. induction l as [|ccs l IH]; intros st'; [by intros [= <-]|]. cbn [closeAll foldr].
  fold (closeAll st now l). destruct (closeAll st now l) as [st1|] eqn:E1; [|done]. cbn [mbind option_bind].
  intros E2 Hc. rewrite fmap_cons, not_elem_of_cons in Hc. destruct Hc as [Hne Hc].
  rewrite (closeIfIdle_other _ _ _ _ c E2) by congruence. by apply IH.
Qed.

Definition dropExpired (now : Z) (m : gmap netConn ConnStatus) (l : list (netConn * ConnStatus)) :=
  foldr (λ ccs m, if expired now ccs.2 then delete ccs.1 m else m) m l.

Lemma closeAll_spec now l st st' :
  NoDup l.*1 → closeAll st now l = Some st' →
  counters st' = counters st ∧
  sc_conns st' = dropExpired now (sc_conns st) l ∧
  closed (sc_calls st') = closed (sc_calls st) ++ idle_ids st now l.
Proof.
  revert st'. induction l as [|ccs l IH]; intros st' Hnd.
  { intros [= <-]. split_and!; [done|done|]. by rewrite app_nil_r. }
  rewrite fmap_cons, NoDup_cons in Hnd. destruct Hnd as [Hni Hnd]. cbn [closeAll foldr].
  fold (closeAll st now l). destruct (closeAll st now l) as [st1|] eqn:E1; [|done]. cbn [mbind option_bind].
  intros E2. destruct (IH st1 Hnd eq_refl) as (H1&H2&H3).
  pose proof (closeAll_other _ _ _ _ _ E1 Hni) as Hu.
  apply closeIfIdle_frame in E2 as (H4&H5&l'&H6&->).
  split_and!; [congruence|by rewrite H5, H2|].
  rewrite H6, closed_app, H3, <- app_assoc. unfold idle_ids. rewrite reverse_cons, omap_app. do 2 f_equal.
  rewrite Hu. cbn. destruct (expired now ccs.2); [|done]. by destruct (underlying st ccs.1).
Qed.

(** Deleting the expired entries of a map is filtering it. *)
Lemma delete_expired now (m : gmap netConn ConnStatus) :
  dropExpired now m (map_to_list m)
  = filter (λ ccs, ¬ expired now ccs.2) m.
Proof.
  apply map_eq. intros c.
  assert (∀ l, NoDup l.*1 → (∀ d cs, (d, cs) ∈ l → m !! d = Some cs) →
    dropExpired now m l !! c
    = if decide (c ∈ l.*1) then (cs ← m !! c; if expired now cs then None else Some cs) else m !! c) as Hf.
  { induction l as [|[d cs] l IH]; intros Hnd Hin; [done|].
    rewrite fmap_cons, NoDup_cons in Hnd. destruct Hnd as [Hni Hnd]. cbn [dropExpired foldr fst snd]. fold (dropExpired now m l).
    assert (m !! d = Some cs) as Hd by (apply Hin; left). rewrite fmap_cons.
    assert (∀ d' cs', (d', cs') ∈ l → m !! d' = Some cs') as Hin' by (intros; apply Hin; by right).
    specialize (IH Hnd Hin').
    destruct (decide (d = c)) as [->|Hne].
    - rewrite decide_True by left. rewrite decide_False in IH by done. rewrite Hd. cbn.
      destruct (expired now cs); [by rewrite lookup_delete_eq|by rewrite IH].
    - transitivity (dropExpired now m l !! c); [destruct (expired now cs); [by rewrite lookup_delete_ne|done]|].
      rewrite IH. destruct (decide (c ∈ l.*1)); [rewrite decide_True by (by right); done|].
      rewrite decide_False; [done|]. by rewrite not_elem_of_cons. }
  rewrite Hf; [|apply NoDup_fst_map_to_list|by intros d cs ?%elem_of_map_to_list].
  rewrite map_lookup_filter. destruct (m !! c) as [cs|] eqn:E; cbn [mbind option_bind]; [|by destruct (decide _)].
  rewrite decide_True by (apply list_elem_of_fmap; exists (c, cs); by rewrite elem_of_map_to_list).
  destruct (expired now cs) eqn:Ee; case_guard as Hg; try done; exfalso; cbn [snd] in Hg;
    rewrite Ee in Hg; cbn in Hg; tauto.
Qed.

(** It closes the idle connections whose time is over, and only these. *)
Lemma closeIdleConns_spec st now st' :
  closeIdleConns st now = Some st' →
  counters st' = counters st ∧ sc_conns st' = filter (λ ccs, ¬ expired now ccs.2) (sc_conns st) ∧
  closed (sc_calls st') = closed (sc_calls st) ++ idle_ids st now (map_to_list (sc_conns st)).
Proof.
  intros E. destruct (closeAll_spec _ _ _ _ (NoDup_fst_map_to_list _) E) as (H1&H2&H3).
  by rewrite H2, delete_expired.
Qed.

(** A wrapper it closed is nil from then on. *)
Lemma closeAll_nil now l st st' w cs :
  NoDup l.*1 → closeAll st now l = Some st' → (ipConn w, cs) ∈ l → expired now cs = true →
  underlying st' (ipConn w) = None.
Proof.
  revert st'. induction l as [|ccs l IH]; intros st' Hnd; [by intros _ ?%elem_of_nil|].
  rewrite fmap_cons, NoDup_cons in Hnd. destruct Hnd as [Hni Hnd]. cbn [closeAll foldr].
  fold (closeAll st now l). destruct (closeAll st now l) as [st1|] eqn:E1; [|done]. cbn [mbind option_bind].
  intros E2 [<-|Hin]%elem_of_cons He.
  - unfold closeIfIdle in E2. cbn [fst snd] in E2. rewrite He in E2.
    destruct (closeNetConn st1 (ipConn w)) as [st2|] eqn:E3; [|done]. injection E2 as <-.
    exact (closeNetConn_twice _ _ _ E3).
  - rewrite (closeIfIdle_other _ _ _ _ (ipConn w) E2); [by eapply IH|]. intros Eq. apply Hni. rewrite Eq.
    apply list_elem_of_fmap. by exists (ipConn w, cs).
Qed.

Lemma closeIdleConns_gone st now st' w cs :
  closeIdleConns st now = Some st' → sc_conns st !! ipConn w = Some cs → expired now cs = true →
  underlying st' (ipConn w) = None.
Proof.
  intros E Hc He. eapply closeAll_nil; [apply NoDup_fst_map_to_list|exact E| |done].
  by apply elem_of_map_to_list.
Qed.

(** * One call of [ServeConn] *)

Definition same_ips (st st' : connServer) : Prop :=
  ∀ ip, perIP_count (sc_counter st') ip = perIP_count (sc_counter st) ip.

(** [c'] is the connection [c], counted for its address since [st0]. *)
Definition holds (st0 st : connServer) (c' : netConn) (c : nat) : Prop :=
  match c' with
  | bareConn n => n = c ∧ same_ips st0 st
  | ipConn w =>
      ∃ tls ip, sc_wrappers st !! w = Some (mkPerIPConn (Some c) tls ip) ∧ is_Some (pi_m (sc_counter st)) ∧
        (0 < perIP_count (sc_counter st) ip)%Z ∧
        ∀ ip', perIP_count (sc_counter st) ip'
               = (perIP_count (sc_counter st0) ip' + if decide (ip = ip') then 1 else 0)%Z
  end.

Lemma holds_underlying st0 st c' c : holds st0 st c' c → underlying st c' = Some c.
Proof. destruct c' as [n|w]; cbn; [by intros [-> _]|]. by intros (tls&ip&->&_). Qed.

Lemma holds_close st0 st c' c :
  holds st0 st c' c →
  ∃ st', closeNetConn st c' = Some st' ∧ same_ips st0 st' ∧ counters st' = counters st ∧
    sc_conns st' = sc_conns st ∧ sc_calls st' = sc_calls st ++ [netClose c].
Proof.
  intros Hh. pose proof (holds_underlying _ _ _ _ Hh) as Hu.
  assert (∃ st', closeNetConn st c' = Some st' ∧ same_ips st0 st') as (st'&E&Hs).
  { destruct c' as [n|w]; cbn in Hh; [destruct Hh as [-> Hh]; eexists; by split|].
    destruct Hh as (tls&ip&Hw&Hm&Hp&Hc). destruct (closeNetConn_wrapper _ _ _ _ _ Hw Hm Hp) as (st'&E&Hc').
    exists st'. split; [done|]. intros ip'. rewrite Hc', Hc. lia. }
  destruct (closeNetConn_frame _ _ _ E) as (H1&H2&n&H3&H4). rewrite Hu in H3. injection H3 as <-.
  by exists st'.
Qed.

(** The counters hold values of their width. *)
Definition in_width (st : connServer) : Prop :=
  int32 (sc_open st) = sc_open st ∧ uint32 (sc_concurrency st) = sc_concurrency st.

Lemma counters_back st :
  in_width st →
  (int32 (int32 (sc_open st + 1) - 1), uint32 (uint32 (sc_concurrency st + 1) - 1)) = counters st.
Proof.
  intros [H1 H2]. unfold counters. rewrite <- H1 at 2. rewrite <- H2 at 2.
  rewrite <- !Z.add_opp_r, int32_add, uint32_add. f_equal; f_equal; lia.
Qed.

Section serve.
Context (s : Server) (rle : option (ResourceLimitType → bytes)).

Definition counted (st : connServer) : Prop := ∀ ip, (0 ≤ perIP_count (sc_counter st) ip)%Z.

Lemma limitPerIP_spec st c addr tls w :
  counted st →
  ∃ oc st', limitPerIP s rle st c addr tls w = Some (oc, st') ∧ counters st' = counters st ∧
    sc_conns st' = sc_conns st ∧
    match oc with
    | None => same_ips st st' ∧ closed (sc_calls st') = closed (sc_calls st) ++ [c]
    | Some c' => (c' = bareConn c ∨ c' = ipConn w) ∧ holds st st' c' c ∧ sc_calls st' = sc_calls st
    end.
Proof.
  intros Hc. unfold limitPerIP, wrapPerIPConn.
  destruct (0 <? sv_MaxConnsPerIP s)%Z; [|exists (Some (bareConn c)), st; split_and!; auto; by split].
  destruct (getUint32IP addr =? 0)%Z; [exists (Some (bareConn c)), st; split_and!; auto; by split|].
  destruct (perIPConnCounter.Register _ _) as [n cc] eqn:E.
  destruct (Register_count _ _ _ _ E) as (Hn&Hm&Hr).
  assert (0 < perIP_count cc (getUint32IP addr))%Z as Hp.
  { rewrite Hr, decide_True by done. specialize (Hc (getUint32IP addr)). lia. }
  destruct (sv_MaxConnsPerIP s <? n)%Z.
  - destruct (Unregister_count _ _ Hm Hp) as (cc'&->&_&Hc'). do 2 eexists. split; [done|].
    split_and!; [done|done| |by cbn; rewrite !closed_app, app_nil_r].
    intros ip. cbn. rewrite Hc', Hr. lia.
  - do 2 eexists. split; [done|]. split_and!; [done|done|by right| |done]. cbn.
    exists tls, (getUint32IP addr). rewrite lookup_insert_eq. by split_and!.
Qed.

(** What [ServeConn] has done when [serveConn] is called. *)
Lemma beginServe_spec st c addr tls w now :
  counted st → in_width st → ∃ res st', beginServe s rle st c addr tls w now = Some (res, st') ∧
    match res with
    | inl _ => counters st' = counters st ∧ sc_conns st' = sc_conns st ∧ same_ips st st' ∧
        closed (sc_calls st') = closed (sc_calls st) ++ [c]
    | inr c' => sc_open st' = int32 (sc_open st + 1) ∧ sc_concurrency st' = uint32 (sc_concurrency st + 1) ∧
        (∃ cs, sc_conns st' = <[c' := cs]> (sc_conns st)) ∧ (c' = bareConn c ∨ c' = ipConn w) ∧ holds st st' c' c ∧
        closed (sc_calls st') = closed (sc_calls st)
    end.
Proof.
  intros Hc Hw. unfold beginServe.
  destruct (limitPerIP_spec (addOpen st 1) c addr tls w Hc) as (oc&st1&->&[= Ho Hk]&Hcs&Hoc). cbn.
  destruct oc as [c'|].
  - destruct Hoc as (Hc'&Hh&Hcalls).
    destruct (uint32 (Server.getConcurrency s) <? _)%Z.
    + unfold writeNetConn. erewrite (holds_underlying (addOpen st 1)) by exact Hh. cbn [mbind option_bind].
      match goal with |- context [closeNetConn ?x c'] => destruct (holds_close (addOpen st 1) x c' c Hh)
        as (st2&->&Hi&[= Ho2 Hk2]&Hcs2&Hcalls2) end.
      do 2 eexists. split; [done|]. split_and!.
      * unfold counters. rewrite Ho2, Hk2. cbn. rewrite Ho, Hk. by apply counters_back.
      * rewrite Hcs2. cbn. by rewrite Hcs.
      * exact Hi.
      * rewrite Hcalls2. cbn. rewrite !closed_app, Hcalls. cbn. by rewrite app_nil_r.
    + do 2 eexists. split; [done|]. unfold setState. cbn. split_and!.
      all: destruct (sv_ConnState s); cbn; rewrite ?closed_app, ?Ho, ?Hk, ?Hcs, ?Hcalls, ?app_nil_r; eauto.
      all: by destruct c'.
  - do 2 eexists. split; [done|]. destruct Hoc as [Hi Hcl]. split_and!; [|done|done|done].
    unfold counters. cbn. rewrite Ho, Hk. cbn. f_equal. pose proof (counters_back st Hw) as [= Hb _]. exact Hb.
Qed.
Lemma setState_end st c state now :
  state = StateHijacked ∨ state = StateClosed →
  counters (setState s st c state now) = counters st ∧
  sc_conns (setState s st c state now) = delete c (sc_conns st) ∧
  sc_counter (setState s st c state now) = sc_counter st ∧
  sc_wrappers (setState s st c state now) = sc_wrappers st ∧
  closed (sc_calls (setState s st c state now)) = closed (sc_calls st).
Proof.
  intros [-> | ->]; unfold setState; destruct (sv_ConnState s); cbn; split_and!; try done;
    rewrite closed_app; apply app_nil_r.
Qed.

(** [ServeConn] closes every connection once, unless it was hijacked, and leaves the counters
    and the table as it found them. *)
Lemma endServe_spec st0 st c' c cs err errc now :
  in_width st0 → sc_open st = int32 (sc_open st0 + 1) → sc_concurrency st = uint32 (sc_concurrency st0 + 1) →
  sc_conns st = <[c' := cs]> (sc_conns st0) → holds st0 st c' c →
  ∃ err' st', endServe s st c' err errc now = Some (err', st') ∧ counters st' = counters st0 ∧
    sc_conns st' = delete c' (sc_conns st0) ∧
    closed (sc_calls st') = closed (sc_calls st) ++ (if bool_decide (err = Some errHijacked) then [] else [c]) ∧
    if bool_decide (err = Some errHijacked) then err' = None ∧ holds st0 st' c' c else same_ips st0 st'.
Proof.
  intros Hw Ho Hk Hcs Hh. unfold endServe.
  assert (counters (addConcurrency (addOpen st (-1)) (-1)) = counters st0) as Hb.
  { unfold counters. cbn. rewrite Ho, Hk. by apply counters_back. }
  set (st1 := addConcurrency (addOpen st (-1)) (-1)) in *.
  assert (holds st0 st1 c' c) as Hh1 by exact Hh.
  assert (sc_conns st1 = <[c' := cs]> (sc_conns st0)) as Hcs1 by exact Hcs.
  assert (sc_calls st1 = sc_calls st) as Hcl1 by reflexivity. clearbody st1.
  destruct (bool_decide (err = Some errHijacked)).
  - destruct (setState_end st1 c' StateHijacked now) as (E1&E2&E3&E4&E5); [by left|].
    do 2 eexists. split; [done|]. rewrite E1, E2, E5, Hcs1, Hcl1, delete_insert_eq, app_nil_r.
    split_and!; try done. destruct c' as [n|w]; cbn in *; unfold same_ips in *; by rewrite ?E3, ?E4.
  - destruct (holds_close _ _ _ _ Hh1) as (st2&->&Hi&Hb2&Hcs2&Hcalls2).
    destruct (setState_end st2 c' StateClosed now) as (E1&E2&E3&E4&E5); [by right|].
    do 2 eexists. split; [done|]. rewrite E1, E2, E5, Hb2, Hcs2, Hcalls2, Hcs1, Hcl1, delete_insert_eq, closed_app.
    split_and!; try done. unfold same_ips in *. by rewrite E3.
Qed.

Context `{ByteBufferOps} `{MultipartOps} (requestLimit responseLimit : Z) (serverDate : bytes) (env : serve_env).

Lemma ServeConn_balanced st c addr tls w now errc rounds conn err conn' keep :
  counted st → in_width st → sc_conns st !! bareConn c = None → sc_conns st !! ipConn w = None →
  serveConn requestLimit responseLimit serverDate s env rounds conn = servedConn err conn' keep →
  ∃ err' st' oc,
    ServeConn requestLimit responseLimit serverDate s rle env st c addr tls w now errc rounds conn
    = Some (err', st', oc) ∧
    counters st' = counters st ∧ sc_conns st' = sc_conns st ∧
    (oc = None ∨ err ≠ Some errHijacked → same_ips st st' ∧ closed (sc_calls st') = closed (sc_calls st) ++ [c]) ∧
    (oc ≠ None ∧ err = Some errHijacked → err' = None ∧ closed (sc_calls st') = closed (sc_calls st)).
Proof.
  intros Hc Hw Hnb Hni Hs. unfold ServeConn.
  destruct (beginServe_spec st c addr tls w now.1 Hc Hw) as (res&st1&->&Hres). cbn [mbind option_bind].
  destruct res as [e|c'].
  - destruct Hres as (H1&H2&H3&H4). do 3 eexists. split; [done|]. split_and!; [done|done|done|naive_solver].
  - destruct Hres as (H1&H2&[cs H3]&Hc'&H4&H5). rewrite Hs.
    destruct (endServe_spec st st1 c' c cs err errc now.2 Hw H1 H2 H3 H4) as (err'&st'&->&E1&E2&E3&E4).
    do 3 eexists. split; [done|]. rewrite E1, E2, E3, H5. split_and!; [done| | |].
    + apply delete_id. by destruct Hc' as [-> | ->].
    + intros [?|Hne]; [done|]. rewrite bool_decide_false in * by done. done.
    + intros [_ ->]. rewrite bool_decide_true in * by done. rewrite app_nil_r. by destruct E4.
Qed.
End serve.

(** * Any number of connections at once *)

Section steps.
Context (s : Server) (rle : option (ResourceLimitType → bytes)).

(** One step of the server with the connections being served: a connection is let in or
    refused, its state changes, its service ends, or a shutdown looks for idle ones. *)
Inductive conn_step : connServer * list netConn → connServer * list netConn → Prop :=
  | step_in st act c addr tls w now c' st' :
      beginServe s rle st c addr tls w now = Some (inr c', st') →
      conn_step (st, act) (st', c' :: act)
  | step_refuse st act c addr tls w now e st' :
      beginServe s rle st c addr tls w now = Some (inl e, st') →
      conn_step (st, act) (st', act)
  | step_status st act c state now :
      c ∈ act → conn_step (st, act) (storeStatus st c state now, act)
  | step_idle st act now st' :
      closeIdleConns st now = Some st' → conn_step (st, act) (st', act)
  | step_out st l1 c l2 err errc now res st' :
      endServe s st c err errc now = Some (res, st') →
      conn_step (st, l1 ++ c :: l2) (st', l1 ++ l2).

Definition connServer_init : connServer := mkConnServer 0 0 0 0 ∅ (mkCounter None) ∅ [].

(** The counters are the number of connections being served, and only these are in the
    table. *)
Definition accounted (sa : connServer * list netConn) : Prop :=
  sc_open sa.1 = int32 (Z.of_nat (length sa.2)) ∧ sc_concurrency sa.1 = uint32 (Z.of_nat (length sa.2)) ∧
  ∀ c, is_Some (sc_conns sa.1 !! c) → c ∈ sa.2.

Lemma writeNetConn_frame st c b st' :
  writeNetConn st c b = Some st' → counters st' = counters st ∧ sc_conns st' = sc_conns st.
Proof. unfold writeNetConn. destruct (underlying st c); [|done]. by intros [= <-]. Qed.

Lemma limitPerIP_frame st c addr tls w oc st' :
  limitPerIP s rle st c addr tls w = Some (oc, st') → counters st' = counters st ∧ sc_conns st' = sc_conns st.
Proof.
  unfold limitPerIP, wrapPerIPConn. destruct (0 <? _)%Z; [|by intros [= <- <-]].
  destruct (_ =? 0)%Z; [by intros [= <- <-]|]. destruct (perIPConnCounter.Register _ _) as [n cc].
  destruct (_ <? n)%Z; [|by intros [= <- <-]].
  destruct (perIPConnCounter.Unregister _ _); [|done]. by intros [= <- <-].
Qed.

Lemma beginServe_accounted st act c addr tls w now res st' :
  accounted (st, act) → beginServe s rle st c addr tls w now = Some (res, st') →
  accounted (st', match res with inl _ => act | inr c' => c' :: act end).
Proof.
  intros (Ho&Hk&Hc). unfold beginServe.
  destruct (limitPerIP _ _ _ _ _ _ _) as [[oc st1]|] eqn:E1; [|done]. cbn [mbind option_bind].
  apply limitPerIP_frame in E1 as [[= Ho1 Hk1] Hc1]. cbn [fst snd] in *.
  assert (int32 (sc_open st1 - 1) = int32 (Z.of_nat (length act))) as Hback.
  { rewrite Ho1, Ho. rewrite int32_add, <- Z.add_opp_r, int32_add. f_equal. lia. }
  destruct oc as [c'|].
  - destruct (_ <? _)%Z.
    + unfold writeNetConn. destruct (underlying _ _) as [n|]; [|done]. cbn [mbind option_bind].
      destruct (closeNetConn _ _) as [st2|] eqn:E2; [|done]. intros [= <- <-].
      apply closeNetConn_frame in E2 as ([= Ho2 Hk2]&Hc2&_). split_and!; cbn [fst snd].
      * rewrite Ho2. exact Hback.
      * rewrite Hk2. cbn. rewrite Hk1, Hk, (uint32_add (Z.of_nat (length act)) 1), uint32_add. f_equal. lia.
      * rewrite Hc2. cbn. by rewrite Hc1.
    + intros [= <- <-]. unfold accounted. cbn [fst snd length].
      assert (sc_open (setState s (addConcurrency st1 1) c' StateNew now) = sc_open st1 ∧
              sc_concurrency (setState s (addConcurrency st1 1) c' StateNew now) = uint32 (sc_concurrency st1 + 1) ∧
              ∃ cs, sc_conns (setState s (addConcurrency st1 1) c' StateNew now) = <[c' := cs]> (sc_conns st1))
        as (->&->&cs&->) by (unfold setState; destruct (sv_ConnState s); cbn; eauto).
      rewrite Ho1, Ho, Hk1, Hk, int32_add, uint32_add, Hc1. split_and!; [f_equal; lia|f_equal; lia|].
      intros c0 [cs0 [[-> _]|[_ Hl]]%lookup_insert_Some]; [left|right; apply Hc; eauto].
  - intros [= <- <-]. split_and!; cbn [fst snd]; [exact Hback|cbn; congruence|cbn; by rewrite Hc1].
Qed.

Lemma endServe_accounted st l1 c l2 err errc now res st' :
  accounted (st, l1 ++ c :: l2) → endServe s st c err errc now = Some (res, st') → accounted (st', l1 ++ l2).
Proof.
  intros (Ho&Hk&Hc) E. cbn [fst snd] in *.
  assert (∃ st2 state, st' = setState s st2 c state now ∧ (state = StateHijacked ∨ state = StateClosed) ∧
            counters st2 = counters (addConcurrency (addOpen st (-1)) (-1)) ∧ sc_conns st2 = sc_conns st)
    as (st2&state&->&Hst&[= Ho2 Hk2]&Hc2).
  { unfold endServe in E. destruct (bool_decide _); [injection E as <- <-; eexists _, _; by auto|].
    destruct (closeNetConn _ _) as [st2|] eqn:E2; [|done]. injection E as <- <-.
    apply closeNetConn_frame in E2 as (?&?&_). eexists _, _. by auto. }
  destruct (setState_end s st2 c state now Hst) as ([= E1 E2]&E3&_). rewrite length_app in *. cbn [length] in *.
  split_and!; cbn [fst snd]; rewrite ?length_app.
  - rewrite E1, Ho2. cbn. rewrite Ho, int32_add. f_equal. lia.
  - rewrite E2, Hk2. cbn. rewrite Hk, uint32_add. f_equal. lia.
  - rewrite E3, Hc2. intros c0 [cs [Hne Hl]%lookup_delete_Some]. specialize (Hc c0 (ex_intro _ _ Hl)). set_solver.
Qed.

Lemma conn_step_accounted sa sa' : accounted sa → conn_step sa sa' → accounted sa'.
Proof.
  intros Ha Hs. destruct Hs as [* E|* E|st act c state now Hin|st act now st' E|* E].
  - by apply (beginServe_accounted _ _ _ _ _ _ _ _ _ Ha E).
  - by apply (beginServe_accounted _ _ _ _ _ _ _ _ _ Ha E).
  - destruct Ha as (Ho&Hk&Hc). unfold storeStatus. cbn [fst snd] in *.
    destruct (sc_conns st !! c) as [cs|] eqn:E; [|done]. split_and!; [done|done|]. cbn.
    intros c0 [cs0 [[-> _]|[_ Hl]]%lookup_insert_Some]; [done|apply Hc; eauto].
  - destruct Ha as (Ho&Hk&Hc). destruct (closeIdleConns_spec _ _ _ E) as ([= E1 E2]&E3&_).
    split_and!; cbn [fst snd] in *; [congruence|congruence|].
    rewrite E3. intros c [cs [Hl _]%map_lookup_filter_Some]. apply Hc. eauto.
  - by eapply endServe_accounted.
Qed.

Lemma conn_reachable_accounted sa : rtc conn_step (connServer_init, []) sa → accounted sa.
Proof.
  apply rtc_invariant; [|exact conn_step_accounted].
  split_and!; [done|done|]. cbn. intros c [cs Hc]. by rewrite lookup_empty in Hc.
Qed.
End steps.
