(* ===== verification/Pipeline.v ===== *)
(** client.go: the pipelining client - calls that queue requests, the goroutine that dials a
    connection, its writer and its reader, and the steps all of them take in any order. *)

From Stdlib Require Import ZArith Strings.Byte.
From stdpp Require Import prelude strings list.
From S2P Require Import Prelude Tables Bufio Bytesconv Args Uri Headers HeaderScan Body.
From S2P Require Import ReqHeader RespHeader Http HttpResp HostClient Client.

(** * Data *)

Inductive pipeline_error :=
  | pipeErr (e : body_error)
  | ErrPipelineOverflow
  | errPipelineConnStopped.

Definition errPipelineTimeout : pipeline_error := pipeErr (bodyClient ErrTimeout).

(** The settings of a client. Timeouts and sizes that only reach the connection are left out. *)
Record PipelineConfig := mkPipelineConfig {
  pc_Name : bytes;
  pc_MaxConns : Z;
  pc_MaxPendingRequests : Z;
  pc_MaxBatchDelay : Z;
  pc_ReadTimeout : Z;
  pc_WriteTimeout : Z;
  pc_NoDefaultUserAgentHeader : bool;
  pc_DisableHeaderNamesNormalizing : bool;
  pc_DisablePathNormalizing : bool
}.

(** [pw_req] and [pw_resp] are the objects of the caller; without them the work has its own
    copies. [pw_deadline] is nothing for the zero time, [pw_done] the number of signals in the
    channel, whose capacity is 1. [pw_call] says which call the work was acquired for. *)
Record pipelineWork := mkWork {
  pw_respCopy : Response;
  pw_reqCopy : Request;
  pw_deadline : option Z;
  pw_err : option pipeline_error;
  pw_req : option Request;
  pw_resp : option Response;
  pw_done : nat;
  pw_call : nat
}.

#[global] Instance pipelineWork_etable : Etable pipelineWork := λ w,
  mkWork (pw_respCopy w) (pw_reqCopy w) (pw_deadline w) (pw_err w) (pw_req w) (pw_resp w)
    (pw_done w) (pw_call w).

Definition newWork : pipelineWork := mkWork Response_zero Request_zero None None None None 0 0.

(** [w.req] and [w.resp]. *)
Definition theReq (w : pipelineWork) : Request := default (pw_reqCopy w) (pw_req w).
Definition theResp (w : pipelineWork) : Response := default (pw_respCopy w) (pw_resp w).
Definition setReq (w : pipelineWork) (q : Request) : pipelineWork :=
  match pw_req w with Some _ => w <| pw_req := Some q |> | None => w <| pw_reqCopy := q |> end.
Definition setResp (w : pipelineWork) (p : Response) : pipelineWork :=
  match pw_resp w with Some _ => w <| pw_resp := Some p |> | None => w <| pw_respCopy := p |> end.

(** ** Calls *)

(** Where a call is: about to queue its work, in [Do] behind a full queue, holding an older
    work it took from the queue, trying again, waiting for its signal, or returned. *)
Inductive caller_pc :=
  | cPut (w : nat)
  | cFull (w : nat)
  | cStole (w wOld : nat)
  | cRetry (w : nat)
  | cWait (w : nat)
  | cReturned.

(** A call of [Do] or, with [ca_timed], of [DoDeadline], and its response object. *)
Record caller := mkCaller { ca_timed : bool; ca_resp : option Response; ca_pc : caller_pc }.

#[global] Instance caller_etable : Etable caller := λ c, mkCaller (ca_timed c) (ca_resp c) (ca_pc c).

(** ** The goroutines of a connection *)

(** [cn_flushed] counts the bytes given to [cn_bw] before its last flush. *)
Record pipeConn := mkPipeConn {
  cn_id : nat;
  cn_remoteAddr : bytes;
  cn_localAddr : bytes;
  cn_bw : Writer;
  cn_flushed : nat;
  cn_br : Reader
}.

#[global] Instance pipeConn_etable : Etable pipeConn := λ c,
  mkPipeConn (cn_id c) (cn_remoteAddr c) (cn_localAddr c) (cn_bw c) (cn_flushed c) (cn_br c).

(** The first and the second select on the queue, a work taken, one written, the second select
    on the way to the reader, and returned. *)
Inductive writer_pc :=
  | wStart
  | wSelect
  | wSlow
  | wHave (w : nat)
  | wPut (w : nat)
  | wPutSlow (w : nat)
  | wEnd (err : option pipeline_error).

(** [wr_flush] says that [flushTimerCh] is not nil. *)
Record writer := mkPipeWriter {
  wr_chR : option nat; wr_chW : option nat; wr_flush : bool; wr_pc : writer_pc
}.

#[global] Instance writer_etable : Etable writer := λ w,
  mkPipeWriter (wr_chR w) (wr_chW w) (wr_flush w) (wr_pc w).

Inductive reader_pc :=
  | rStart
  | rSelect
  | rSlow
  | rHave (w : nat)
  | rEnd (err : option pipeline_error).

Record reader := mkPipeReader { rd_chR : option nat; rd_pc : reader_pc }.

#[global] Instance reader_etable : Etable reader := λ r, mkPipeReader (rd_chR r) (rd_pc r).

(** [worker] with the loop around it: dialing, both goroutines running, one of them done and
    the other told to stop, emptying the channel of the reader (with a work that it saw, or
    took), returned, and the end of the loop. *)
Inductive worker_pc :=
  | kDial
  | kRun
  | kStopR (err : option pipeline_error)
  | kStopW (err : option pipeline_error)
  | kDrain (err : option pipeline_error)
  | kDrainRecv (err : option pipeline_error)
  | kDrained (err : option pipeline_error) (w : nat)
  | kReturned (err : option pipeline_error)
  | kGone.

Record worker := mkPipeWorker {
  wk_pc : worker_pc; wk_writer : writer; wk_reader : reader; wk_conn : pipeConn
}.

#[global] Instance worker_etable : Etable worker := λ k,
  mkPipeWorker (wk_pc k) (wk_writer k) (wk_reader k) (wk_conn k).

Definition writer0 : writer := mkPipeWriter None None false wStart.
Definition reader0 : reader := mkPipeReader None rStart.
Definition conn0 : pipeConn := mkPipeConn 0 [] [] (mkWriter [] None) 0 (mkReader [] [] EOF 0 None).
Definition newWorker : worker := mkPipeWorker kDial writer0 reader0 conn0.

(** ** The client *)

(** What happened: a call, its request written to a connection, the response read from a
    connection for it, and its return. *)
Inductive pipe_event :=
  | evCall (call : nat)
  | evWritten (conn call : nat) (b : bytes)
  | evRead (conn call : nat) (resp : Response)
  | evReturn (call : nat) (err : option pipeline_error) (resp : option Response).

(** [pipelineConnClient]: the two channels by their numbers, the contents of all channels, the
    works with those in the pool, the calls and the goroutines; [pl_dials] counts the
    connections, [pl_resets] how often the channels were dropped. *)
Record pipelineConnClient := mkPipe {
  pl_chW : option nat;
  pl_chR : option nat;
  pl_chans : list (list nat);
  pl_works : list pipelineWork;
  pl_pool : list nat;
  pl_callers : list caller;
  pl_workers : list worker;
  pl_dials : nat;
  pl_resets : nat;
  pl_trace : list pipe_event
}.

#[global] Instance pipelineConnClient_etable : Etable pipelineConnClient := λ c,
  mkPipe (pl_chW c) (pl_chR c) (pl_chans c) (pl_works c) (pl_pool c) (pl_callers c) (pl_workers c)
    (pl_dials c) (pl_resets c) (pl_trace c).

Definition pipe_start : pipelineConnClient := mkPipe None None [] [] [] [] [] 0 0 [].

Definition DefaultMaxPendingRequests : Z := 1024.

Module pipelineConnClient.
Section steps.
Context `{ByteBufferOps} `{MultipartOps} (requestLimit responseLimit : Z) (cfg : PipelineConfig).

(** The connection a streamed request body comes from, if it comes from one. *)
Context (elsewhere : Reader).

(** ** Channels *)

Definition capacity : nat :=
  Z.to_nat (if (pc_MaxPendingRequests cfg <=? 0)%Z then DefaultMaxPendingRequests else pc_MaxPendingRequests cfg).

Definition chan (st : pipelineConnClient) (c : option nat) : option (list nat) :=
  i ← c; pl_chans st !! i.
Definition len (st : pipelineConnClient) (c : option nat) : nat := length (default [] (chan st c)).

(** A channel that cannot take a value now; a nil channel never can. *)
Definition full (st : pipelineConnClient) (c : option nat) : bool :=
  match chan st c with Some q => capacity <=? length q | None => true end.

Definition push (st : pipelineConnClient) (c : option nat) (w : nat) : option pipelineConnClient :=
  if full st c then None
  else i ← c; q ← pl_chans st !! i; Some (st <| pl_chans := <[i := q ++ [w]]> (pl_chans st) |>).

Definition pop (st : pipelineConnClient) (c : option nat) : option (nat * pipelineConnClient) :=
  i ← c;
  q ← pl_chans st !! i;
  match q with
  | w :: q => Some (w, st <| pl_chans := <[i := q]> (pl_chans st) |>)
  | [] => None
  end.

Definition updWork (st : pipelineConnClient) (w : nat) (f : pipelineWork → pipelineWork) : pipelineConnClient :=
  st <| pl_works := alter f w (pl_works st) |>.

(** [w.err = err; w.done <- struct{}{}], which blocks when the channel holds a signal. *)
Definition signal (st : pipelineConnClient) (w : nat) (err : option pipeline_error) : option pipelineConnClient :=
  x ← pl_works st !! w;
  if pw_done x =? 0 then
    Some (updWork st w (λ x, (match err with Some e => x <| pw_err := Some e |> | None => x end) <| pw_done := 1 |>))
  else None.

Definition record (st : pipelineConnClient) (e : pipe_event) : pipelineConnClient :=
  st <| pl_trace := pl_trace st ++ [e] |>.

(** ** Calls *)

Definition init (st : pipelineConnClient) : pipelineConnClient :=
  match pl_chR st with
  | Some _ => st
  | None =>
      let st := st <| pl_chR := Some (length (pl_chans st)) |> <| pl_chans := pl_chans st ++ [[]] |> in
      let st := match pl_chW st with
                | Some _ => st
                | None => st <| pl_chW := Some (length (pl_chans st)) |> <| pl_chans := pl_chans st ++ [[]] |>
                end in
      st <| pl_workers := pl_workers st ++ [newWorker] |>
  end.

(** The path option and the user agent of the client. *)
Definition prepare (req : Request) : Request :=
  let req := if pc_DisablePathNormalizing cfg
             then let '(u, req) := Request.URI req in
                  req <| rq_uri := u <| DisablePathNormalizing := true |> |>
             else req in
  match RequestHeader.UserAgent (rq_Header req) with
  | [] =>
      let userAgent := match pc_Name cfg with
                       | [] => if pc_NoDefaultUserAgentHeader cfg then [] else defaultUserAgent
                       | n => n
                       end in
      match userAgent with
      | [] => req
      | _ => req <| rq_Header := (rq_Header req) <| q_userAgent := userAgent |> |>
      end
  | _ => req
  end.

Definition acquirePipelineWork (st : pipelineConnClient) (deadline : option Z) (call : nat)
    : nat * pipelineConnClient :=
  let set x := x <| pw_deadline := deadline |> <| pw_call := call |> in
  match pl_pool st with
  | w :: pool => (w, (updWork st w set) <| pl_pool := pool |>)
  | [] => (length (pl_works st), st <| pl_works := pl_works st ++ [set newWork] |>)
  end.

Definition releasePipelineWork (st : pipelineConnClient) (w : nat) : pipelineConnClient :=
  let st := updWork st w (λ x,
    x <| pw_reqCopy := (Request.Reset requestLimit (pw_reqCopy x) elsewhere).1 |>
      <| pw_respCopy := Response.Reset responseLimit (pw_respCopy x) |>
      <| pw_req := None |> <| pw_resp := None |> <| pw_err := None |>) in
  st <| pl_pool := w :: pl_pool st |>.

(** The work of [Do] has the objects of the caller. *)
Definition fillDo (req : Request) (resp : option Response) (x : pipelineWork) : pipelineWork :=
  x <| pw_req := Some req |>
    <| pw_resp := (λ p, p <| re_Header := (re_Header p) <| p_disableNormalizing := pc_DisableHeaderNamesNormalizing cfg |> |>)
                    <$> resp |>.

(** That of [DoDeadline] has copies, which stay with it after a timeout. *)
Definition fillDeadline (req : Request) (x : pipelineWork) : pipelineWork :=
  let resp := pw_respCopy x in
  let resp := resp <| re_Header := (re_Header resp) <| p_disableNormalizing := pc_DisableHeaderNamesNormalizing cfg |> |> in
  let copy := match Request.copyToSkipBody requestLimit req (pw_reqCopy x) elsewhere with
              | Some (copy, _) => copy
              | None => pw_reqCopy x
              end in
  x <| pw_respCopy := resp |> <| pw_req := None |> <| pw_resp := None |>
    <| pw_reqCopy := (Request.swapRequestBody req copy).2 |>.

Definition setCaller (st : pipelineConnClient) (i : nat) (c : caller) (pc : caller_pc) : pipelineConnClient :=
  st <| pl_callers := <[i := c <| ca_pc := pc |>]> (pl_callers st) |>.

Definition returned (st : pipelineConnClient) (i : nat) (c : caller) (err : option pipeline_error)
    (resp : option Response) : pipelineConnClient :=
  record (setCaller st i c cReturned) (evReturn i err resp).

(** The beginning of [Do], or of [DoDeadline] with its deadline and the time. *)
Definition Do (st : pipelineConnClient) (req : Request) (resp : option Response) : pipelineConnClient :=
  let i := length (pl_callers st) in
  let st := record (init st) (evCall i) in
  let req := prepare req in
  let '(w, st) := acquirePipelineWork st None i in
  (updWork st w (fillDo req resp)) <| pl_callers := pl_callers st ++ [mkCaller false resp (cPut w)] |>.

Definition DoDeadline (st : pipelineConnClient) (req : Request) (resp : option Response) (deadline now : Z)
    : pipelineConnClient :=
  let i := length (pl_callers st) in
  let st := record (init st) (evCall i) in
  if (deadline - now <=? 0)%Z then
    record (st <| pl_callers := pl_callers st ++ [mkCaller true resp cReturned] |>) (evReturn i (Some errPipelineTimeout) resp)
  else
    let req := prepare req in
    let '(w, st) := acquirePipelineWork st (Some deadline) i in
    (updWork st w (fillDeadline req)) <| pl_callers := pl_callers st ++ [mkCaller true resp (cPut w)] |>.

(** The response a caller has after the signal. *)
Definition handOver (c : caller) (x : pipelineWork) : option Response :=
  if ca_timed c then
    resp ← ca_resp c;
    let resp := Response.copyToSkipBody responseLimit (pw_respCopy x) resp in
    Some (Response.swapResponseBody resp (pw_respCopy x)).1
  else pw_resp x.

(** The queue takes the work. *)
Definition callPut (st : pipelineConnClient) (i : nat) : option pipelineConnClient :=
  c ← pl_callers st !! i;
  match ca_pc c with
  | cPut w => st ← push st (pl_chW st) w; Some (setCaller st i c (cWait w))
  | _ => None
  end.

(** [Do] finds the queue full. *)
Definition callFull (st : pipelineConnClient) (i : nat) : option pipelineConnClient :=
  c ← pl_callers st !! i;
  match ca_pc c with
  | cPut w => if negb (ca_timed c) && full st (pl_chW st) then Some (setCaller st i c (cFull w)) else None
  | _ => None
  end.

(** It takes the oldest work out of the queue, if there still is one, *)
Definition callSteal (st : pipelineConnClient) (i : nat) : option pipelineConnClient :=
  c ← pl_callers st !! i;
  match ca_pc c with
  | cFull w =>
      match pop st (pl_chW st) with
      | Some (wOld, st) => Some (setCaller st i c (cStole w wOld))
      | None => Some (setCaller st i c (cRetry w))
      end
  | _ => None
  end.

(** reports the overflow to its caller, *)
Definition callOverflow (st : pipelineConnClient) (i : nat) : option pipelineConnClient :=
  c ← pl_callers st !! i;
  match ca_pc c with
  | cStole w wOld => st ← signal st wOld (Some ErrPipelineOverflow); Some (setCaller st i c (cRetry w))
  | _ => None
  end.

(** and tries once more. *)
Definition callRetry (st : pipelineConnClient) (i : nat) : option pipelineConnClient :=
  c ← pl_callers st !! i;
  match ca_pc c with
  | cRetry w =>
      match push st (pl_chW st) w with
      | Some st => Some (setCaller st i c (cWait w))
      | None =>
          x ← pl_works st !! w;
          Some (returned (releasePipelineWork st w) i c (Some ErrPipelineOverflow) (pw_resp x))
      end
  | _ => None
  end.

(** The timer of [DoDeadline]: a work that was queued is left to the goroutines. *)
Definition callTimeout (st : pipelineConnClient) (i : nat) : option pipelineConnClient :=
  c ← pl_callers st !! i;
  if negb (ca_timed c) then None
  else match ca_pc c with
       | cPut w => Some (returned (releasePipelineWork st w) i c (Some errPipelineTimeout) (ca_resp c))
       | cWait w => Some (returned st i c (Some errPipelineTimeout) (ca_resp c))
       | _ => None
       end.

Definition callReturn (st : pipelineConnClient) (i : nat) : option pipelineConnClient :=
  c ← pl_callers st !! i;
  match ca_pc c with
  | cWait w =>
      x ← pl_works st !! w;
      if pw_done x =? 0 then None
      else
        let st := updWork st w (λ x, x <| pw_done := 0 |>) in
        Some (returned (releasePipelineWork st w) i c (pw_err x) (handOver c x))
  | _ => None
  end.

(** ** The writer *)

Definition setWorker (st : pipelineConnClient) (j : nat) (k : worker) : pipelineConnClient :=
  st <| pl_workers := <[j := k]> (pl_workers st) |>.

Definition atWriter (st : pipelineConnClient) (j : nat) (k : worker) (pc : writer_pc) : pipelineConnClient :=
  setWorker st j (k <| wk_writer := (wk_writer k) <| wr_pc := pc |> |>).

(** A flush passes everything on; [err] is its result. *)
Definition flushConn (c : pipeConn) : pipeConn := c <| cn_flushed := length (w_out (cn_bw c)) |>.

(** Returning runs the deferred flush. *)
Definition writerEnds (st : pipelineConnClient) (j : nat) (k : worker) (err : option pipeline_error)
    : pipelineConnClient :=
  atWriter st j (k <| wk_conn := flushConn (wk_conn k) |>) (wEnd err).

Definition writerStart (st : pipelineConnClient) (j : nat) : option pipelineConnClient :=
  k ← pl_workers st !! j;
  match wk_pc k, wr_pc (wk_writer k) with
  | (kRun | kStopW _), wStart =>
      Some (setWorker st j (k <| wk_writer := mkPipeWriter (pl_chR st) (pl_chW st) false wSelect |>))
  | _, _ => None
  end.

(** The first select. *)
Definition writerSelect (st : pipelineConnClient) (j : nat) : option pipelineConnClient :=
  k ← pl_workers st !! j;
  match wr_pc (wk_writer k) with
  | wSelect =>
      match pop st (wr_chW (wk_writer k)) with
      | Some (w, st) => Some (atWriter st j k (wHave w))
      | None => Some (atWriter st j k wSlow)
      end
  | _ => None
  end.

(** The second one: a work, the idle timer, the end of the reader, or the flush timer. *)
Definition writerRecv (st : pipelineConnClient) (j : nat) : option pipelineConnClient :=
  k ← pl_workers st !! j;
  match wr_pc (wk_writer k) with
  | wSlow => '(w, st) ← pop st (wr_chW (wk_writer k)); Some (atWriter st j k (wHave w))
  | _ => None
  end.

Definition writerIdle (st : pipelineConnClient) (j : nat) : option pipelineConnClient :=
  k ← pl_workers st !! j;
  match wr_pc (wk_writer k) with
  | wSlow => Some (writerEnds st j k None)
  | _ => None
  end.

Definition stopW (k : worker) : bool := match wk_pc k with kStopW _ => true | _ => false end.
Definition stopR (k : worker) : bool := match wk_pc k with kStopR _ => true | _ => false end.

Definition writerStop (st : pipelineConnClient) (j : nat) : option pipelineConnClient :=
  k ← pl_workers st !! j;
  match wr_pc (wk_writer k) with
  | wSlow => if stopW k then Some (writerEnds st j k None) else None
  | wPutSlow w =>
      if stopW k then
        st ← signal st w (Some errPipelineConnStopped); Some (writerEnds st j k None)
      else None
  | _ => None
  end.

Definition writerFlush (st : pipelineConnClient) (j : nat) (err : option body_error) : option pipelineConnClient :=
  k ← pl_workers st !! j;
  if negb (wr_flush (wk_writer k)) then None
  else
    let flushed := k <| wk_conn := flushConn (wk_conn k) |> <| wk_writer := (wk_writer k) <| wr_flush := false |> |> in
    match wr_pc (wk_writer k), err with
    | wSlow, None => Some (atWriter st j flushed wSelect)
    | wSlow, Some e => Some (writerEnds st j k (Some (pipeErr e)))
    | wPutSlow w, None => Some (atWriter st j flushed (wPut w))
    | wPutSlow w, Some e => st ← signal st w (Some (pipeErr e)); Some (writerEnds st j k (Some (pipeErr e)))
    | _, _ => None
    end.

Definition expiredWork (x : pipelineWork) (now : Z) : bool :=
  match pw_deadline x with Some d => (0 <=? now - d)%Z | None => false end.

(** [deadlineErr] is the answer of [SetWriteDeadline], which is called with a write timeout. *)
Definition writerWrite (st : pipelineConnClient) (j : nat) (now : Z) (deadlineErr : option body_error)
    : option pipelineConnClient :=
  k ← pl_workers st !! j;
  match wr_pc (wk_writer k) with
  | wHave w =>
      x ← pl_works st !! w;
      if expiredWork x now then
        st ← signal st w (Some errPipelineTimeout); Some (atWriter st j k wSelect)
      else
        let conn := wk_conn k in
        let x := setResp x ((theResp x) <| re_raddr := Some (cn_remoteAddr conn) |>
                                        <| re_laddr := Some (cn_localAddr conn) |>) in
        match (if (0 <? pc_WriteTimeout cfg)%Z then deadlineErr else None) with
        | Some e =>
            st ← signal (updWork st w (λ _, x)) w (Some (pipeErr e)); Some (writerEnds st j k (Some (pipeErr e)))
        | None =>
            let '(err, bw, q, _) := Request.Write (cn_bw conn) (theReq x) elsewhere in
            let x := setReq x q in
            let st := updWork st w (λ _, x) in
            let k := k <| wk_conn := conn <| cn_bw := bw |> |> in
            match err with
            | Some e => st ← signal st w (Some (pipeErr e)); Some (writerEnds st j k (Some (pipeErr e)))
            | None =>
                let wr := wk_writer k in
                let arm := negb (wr_flush wr)
                           && ((len st (wr_chW wr) =? 0)
                               || (len st (wr_chR wr) =? match wr_chR wr with Some _ => capacity | None => 0 end)) in
                let k := k <| wk_writer := wr <| wr_flush := wr_flush wr || arm |> |> in
                Some (record (atWriter st j k (wPut w))
                        (evWritten (cn_id conn) (pw_call x) (drop (length (w_out (cn_bw conn))) (w_out bw))))
            end
        end
  | _ => None
  end.

(** The work goes to the reader: the first select, and the second. *)
Definition writerPut (st : pipelineConnClient) (j : nat) : option pipelineConnClient :=
  k ← pl_workers st !! j;
  match wr_pc (wk_writer k) with
  | wPut w =>
      match push st (wr_chR (wk_writer k)) w with
      | Some st => Some (atWriter st j k wSelect)
      | None => Some (atWriter st j k (wPutSlow w))
      end
  | wPutSlow w => st ← push st (wr_chR (wk_writer k)) w; Some (atWriter st j k wSelect)
  | _ => None
  end.

(** ** The reader *)

Definition atReader (st : pipelineConnClient) (j : nat) (k : worker) (pc : reader_pc) : pipelineConnClient :=
  setWorker st j (k <| wk_reader := (wk_reader k) <| rd_pc := pc |> |>).

Definition readerStart (st : pipelineConnClient) (j : nat) : option pipelineConnClient :=
  k ← pl_workers st !! j;
  match wk_pc k, rd_pc (wk_reader k) with
  | (kRun | kStopR _), rStart => Some (setWorker st j (k <| wk_reader := mkPipeReader (pl_chR st) rSelect |>))
  | _, _ => None
  end.

Definition readerSelect (st : pipelineConnClient) (j : nat) : option pipelineConnClient :=
  k ← pl_workers st !! j;
  match rd_pc (wk_reader k) with
  | rSelect =>
      match pop st (rd_chR (wk_reader k)) with
      | Some (w, st) => Some (atReader st j k (rHave w))
      | None => Some (atReader st j k rSlow)
      end
  | _ => None
  end.

Definition readerRecv (st : pipelineConnClient) (j : nat) : option pipelineConnClient :=
  k ← pl_workers st !! j;
  match rd_pc (wk_reader k) with
  | rSlow => '(w, st) ← pop st (rd_chR (wk_reader k)); Some (atReader st j k (rHave w))
  | _ => None
  end.

Definition readerStop (st : pipelineConnClient) (j : nat) : option pipelineConnClient :=
  k ← pl_workers st !! j;
  match rd_pc (wk_reader k) with
  | rSlow => if stopR k then Some (atReader st j k (rEnd None)) else None
  | _ => None
  end.

Definition readerRead (st : pipelineConnClient) (j : nat) (deadlineErr : option body_error)
    : option pipelineConnClient :=
  k ← pl_workers st !! j;
  match rd_pc (wk_reader k) with
  | rHave w =>
      x ← pl_works st !! w;
      match (if (0 <? pc_ReadTimeout cfg)%Z then deadlineErr else None) with
      | Some e => st ← signal st w (Some (pipeErr e)); Some (atReader st j k (rEnd (Some (pipeErr e))))
      | None =>
          let conn := wk_conn k in
          let '(err, p, br) := Response.Read (theResp x) (cn_br conn) in
          let k := k <| wk_conn := conn <| cn_br := br |> |> in
          let st := updWork st w (λ x, setResp x p) in
          match err with
          | Some e => st ← signal st w (Some (pipeErr e)); Some (atReader st j k (rEnd (Some (pipeErr e))))
          | None =>
              st ← signal st w None;
              Some (record (atReader st j k rSelect) (evRead (cn_id conn) (pw_call x) p))
          end
      end
  | _ => None
  end.

(** ** The worker *)

(** A dial that fails is tried again; with a connection both goroutines start. What the
    connection will deliver, and how much it will take, is in [br] and [bw]. *)
Definition workerDial (st : pipelineConnClient) (j : nat) (remote local : bytes) (bw : Writer) (br : Reader)
    : option pipelineConnClient :=
  k ← pl_workers st !! j;
  match wk_pc k with
  | kDial =>
      let conn := mkPipeConn (pl_dials st) remote local (bw : Writer) (length (w_out bw)) br in
      Some ((setWorker st j (mkPipeWorker kRun writer0 reader0 conn)) <| pl_dials := S (pl_dials st) |>)
  | _ => None
  end.

(** The connection fails, by itself or because it was closed: nothing more is taken, and
    [err] ends what it delivers. *)
Definition connFails (st : pipelineConnClient) (j : nat) (err : ioerror) : option pipelineConnClient :=
  k ← pl_workers st !! j;
  let conn := wk_conn k in
  Some (setWorker st j (k <| wk_conn := conn
    <| cn_bw := mkWriter (w_out (cn_bw conn)) (Some (0, err)) |>
    <| cn_br := (cn_br conn) <| r_chunks := [] |> <| r_err := err |> |> |>)).

(** Waiting for the goroutines: the result of the first counts. The connection closed for the
    other one is [connFails], which may come at any time. *)
Definition workerJoin (st : pipelineConnClient) (j : nat) : option pipelineConnClient :=
  k ← pl_workers st !! j;
  match wk_pc k, wr_pc (wk_writer k), rd_pc (wk_reader k) with
  | kRun, wEnd err, _ => Some (setWorker st j (k <| wk_pc := kStopR err |>))
  | kRun, _, rEnd err => Some (setWorker st j (k <| wk_pc := kStopW err |>))
  | kStopR err, _, rEnd _ => Some (setWorker st j (k <| wk_pc := kDrain err |>))
  | kStopW err, wEnd _, _ => Some (setWorker st j (k <| wk_pc := kDrain err |>))
  | _, _, _ => None
  end.

(** With both results ready the select may take the one of the reader. *)
Definition workerJoinReader (st : pipelineConnClient) (j : nat) : option pipelineConnClient :=
  k ← pl_workers st !! j;
  match wk_pc k, rd_pc (wk_reader k) with
  | kRun, rEnd err => Some (setWorker st j (k <| wk_pc := kStopW err |>))
  | _, _ => None
  end.

(** [for len(c.chR) > 0], on the channel the client has now. *)
Definition workerDrain (st : pipelineConnClient) (j : nat) : option pipelineConnClient :=
  k ← pl_workers st !! j;
  match wk_pc k with
  | kDrain err =>
      Some (setWorker st j (k <| wk_pc := if len st (pl_chR st) =? 0 then kReturned err else kDrainRecv err |>))
  | kDrainRecv err =>
      '(w, st) ← pop st (pl_chR st); Some (setWorker st j (k <| wk_pc := kDrained err w |>))
  | kDrained err w =>
      st ← signal st w (Some errPipelineConnStopped); Some (setWorker st j (k <| wk_pc := kDrain err |>))
  | _ => None
  end.

(** The loop around [worker]. *)
Definition workerLoop (st : pipelineConnClient) (j : nat) : option pipelineConnClient :=
  k ← pl_workers st !! j;
  match wk_pc k with
  | kReturned (Some _) => Some (setWorker st j (k <| wk_pc := kDial |>))
  | kReturned None =>
      if (len st (pl_chR st) =? 0) && (len st (pl_chW st) =? 0)
      then Some (setWorker st j (k <| wk_pc := kGone |>))
      else Some ((setWorker st j (k <| wk_pc := kDial |>))
                   <| pl_chR := None |> <| pl_chW := None |> <| pl_resets := S (pl_resets st) |>)
  | _ => None
  end.

(** ** All steps *)

Inductive action :=
  | aDo (req : Request) (resp : option Response)
  | aDoDeadline (req : Request) (resp : option Response) (deadline now : Z)
  | aPut (i : nat)
  | aFull (i : nat)
  | aSteal (i : nat)
  | aOverflow (i : nat)
  | aRetry (i : nat)
  | aTimeout (i : nat)
  | aReturn (i : nat)
  | aWriterStart (j : nat)
  | aWriterSelect (j : nat)
  | aWriterRecv (j : nat)
  | aWriterIdle (j : nat)
  | aWriterStop (j : nat)
  | aWriterFlush (j : nat) (err : option body_error)
  | aWrite (j : nat) (now : Z) (deadlineErr : option body_error)
  | aWriterPut (j : nat)
  | aReaderStart (j : nat)
  | aReaderSelect (j : nat)
  | aReaderRecv (j : nat)
  | aReaderStop (j : nat)
  | aRead (j : nat) (deadlineErr : option body_error)
  | aDial (j : nat) (remote local : bytes) (bw : Writer) (br : Reader)
  | aFails (j : nat) (err : ioerror)
  | aJoin (j : nat)
  | aJoinReader (j : nat)
  | aDrain (j : nat)
  | aLoop (j : nat).

(** [None] is a step that is not possible now. *)
Definition act (st : pipelineConnClient) (a : action) : option pipelineConnClient :=
  match a with
  | aDo req resp => Some (Do st req resp)
  | aDoDeadline req resp deadline now => Some (DoDeadline st req resp deadline now)
  | aPut i => callPut st i
  | aFull i => callFull st i
  | aSteal i => callSteal st i
  | aOverflow i => callOverflow st i
  | aRetry i => callRetry st i
  | aTimeout i => callTimeout st i
  | aReturn i => callReturn st i
  | aWriterStart j => writerStart st j
  | aWriterSelect j => writerSelect st j
  | aWriterRecv j => writerRecv st j
  | aWriterIdle j => writerIdle st j
  | aWriterStop j => writerStop st j
  | aWriterFlush j err => writerFlush st j err
  | aWrite j now e => writerWrite st j now e
  | aWriterPut j => writerPut st j
  | aReaderStart j => readerStart st j
  | aReaderSelect j => readerSelect st j
  | aReaderRecv j => readerRecv st j
  | aReaderStop j => readerStop st j
  | aRead j e => readerRead st j e
  | aDial j remote local bw br => workerDial st j remote local bw br
  | aFails j err => connFails st j err
  | aJoin j => workerJoin st j
  | aJoinReader j => workerJoinReader st j
  | aDrain j => workerDrain st j
  | aLoop j => workerLoop st j
  end.

Fixpoint run (st : pipelineConnClient) (l : list action) : option pipelineConnClient :=
  match l with
  | [] => Some st
  | a :: l => st ← act st a; run st l
  end.

Definition PendingRequests (st : pipelineConnClient) : nat * pipelineConnClient :=
  let st := init st in (len st (pl_chR st) + len st (pl_chW st), st).
End steps.
End pipelineConnClient.

(** * The connections of a client *)

(** Counting the requests of a connection starts it. A connection without requests is taken at
    once; [None] when there is none, else the least busy one, the first of these. *)
Module PipelineClient.
Definition MaxConns (cfg : PipelineConfig) : Z := if (pc_MaxConns cfg <=? 0)%Z then 1%Z else pc_MaxConns cfg.

Fixpoint leastPending (ccs : list pipelineConnClient) (i : nat) (best : option (nat * nat))
    : (nat + option (nat * nat)) * list pipelineConnClient :=
  match ccs with
  | [] => (inr best, [])
  | cc :: rest =>
      let '(reqs, cc) := pipelineConnClient.PendingRequests cc in
      if reqs =? 0 then (inl i, cc :: rest)
      else
        let best := match best with
                    | Some (j, n) => if reqs <? n then Some (i, reqs) else Some (j, n)
                    | None => Some (i, reqs)
                    end in
        let '(res, rest) := leastPending rest (S i) best in (res, cc :: rest)
  end.

Definition getConnClientUnlocked (cfg : PipelineConfig) (ccs : list pipelineConnClient) : nat * list pipelineConnClient :=
  match leastPending ccs 0 None with
  | (inl i, ccs) => (i, ccs)
  | (inr best, ccs) =>
      match best with
      | Some (i, _) => if (Z.of_nat (length ccs) <? MaxConns cfg)%Z then (length ccs, ccs ++ [pipe_start]) else (i, ccs)
      | None => (length ccs, ccs ++ [pipe_start])
      end
  end.

Fixpoint pendingAll (ccs : list pipelineConnClient) : nat * list pipelineConnClient :=
  match ccs with
  | [] => (0, [])
  | cc :: rest =>
      let '(n, cc) := pipelineConnClient.PendingRequests cc in
      let '(m, rest) := pendingAll rest in (n + m, cc :: rest)
  end.
Definition PendingRequests := pendingAll.
End PipelineClient.
