(* ===== verification/PipelineFacts.v ===== *)
(** The pipelining client: every work is in one place in every interleaving, and as long as
    the client keeps its channels, responses are matched with requests in order. *)

From Stdlib Require Import ZArith ZifyNat Strings.Byte.
From stdpp Require Import prelude strings list.
From S2P Require Import Prelude Tables Bufio Bytesconv Args Uri Headers HeaderScan Body.
From S2P Require Import ReqHeader RespHeader Http HttpResp HostClient Client Pipeline.
Import pipelineConnClient.

(** * Where a work is *)

Definition caller_hands (pc : caller_pc) : list nat :=
  match pc with
  | cPut w | cFull w | cRetry w => [w]
  | cStole w wOld => [w; wOld]
  | cWait _ | cReturned => []
  end.

Definition writer_hands (pc : writer_pc) : list nat :=
  match pc with wHave w | wPut w | wPutSlow w => [w] | _ => [] end.

Definition reader_hands (pc : reader_pc) : list nat := match pc with rHave w => [w] | _ => [] end.

Definition worker_hands (k : worker) : list nat :=
  writer_hands (wr_pc (wk_writer k)) ++ reader_hands (rd_pc (wk_reader k))
  ++ match wk_pc k with kDrained _ w => [w] | _ => [] end.

Definition is_in (x : nat) (l : list nat) : nat := total (is_id x) l.
Definition signals (x : nat) (works : list pipelineWork) : nat := default 0 (pw_done <$> works !! x).
#[global] Arguments is_in : simpl never.
#[global] Arguments signals : simpl never.

(** How often work [x] is somewhere: in the pool, with a caller, in a channel, with a
    goroutine, or signalled. *)
Definition places (x : nat) (st : pipelineConnClient) : nat :=
  is_in x (pl_pool st) + total (λ c, is_in x (caller_hands (ca_pc c))) (pl_callers st)
  + total (is_in x) (pl_chans st) + total (λ k, is_in x (worker_hands k)) (pl_workers st)
  + signals x (pl_works st).
#[global] Arguments places : simpl never.

Definition known (x n : nat) : nat := if x <? n then 1 else 0.
#[global] Arguments known : simpl never.

(** Goroutines that have ended hold nothing. *)
Definition writer_over (k : worker) : Prop := ∃ e, wr_pc (wk_writer k) = wEnd e.
Definition reader_over (k : worker) : Prop := ∃ e, rd_pc (wk_reader k) = rEnd e.
Definition over (k : worker) : Prop := writer_over k ∧ reader_over k.
Definition unborn (k : worker) : Prop := wk_writer k = writer0 ∧ wk_reader k = reader0.

Definition orderly (k : worker) : Prop :=
  match wk_pc k with
  | kDial => unborn k ∨ over k
  | kRun => True
  | kStopR _ => writer_over k
  | kStopW _ => reader_over k
  | kDrain _ | kDrainRecv _ | kDrained _ _ | kReturned _ | kGone => over k
  end.

(** The call of a work, and of a caller that has one. *)
Definition callOf (works : list pipelineWork) (w : nat) : nat := default 0 (pw_call <$> works !! w).
Definition caller_work (pc : caller_pc) : option nat :=
  match pc with cPut w | cFull w | cStole w _ | cRetry w | cWait w => Some w | cReturned => None end.

Record pipe_ok (st : pipelineConnClient) : Prop := {
  po_places x : places x st = known x (length (pl_works st));
  po_orderly k : k ∈ pl_workers st → orderly k;
  po_calls i c w : pl_callers st !! i = Some c → caller_work (ca_pc c) = Some w →
    w ∉ pl_pool st ∧ w < length (pl_works st) ∧ callOf (pl_works st) w = i
}.

Lemma is_in_1 x w : is_in x [w] = is_id x w.
Proof. unfold is_in. cbn. lia. Qed.

Lemma is_in_nil x : is_in x [] = 0.
Proof. done. Qed.

Lemma is_in_app x l1 l2 : is_in x (l1 ++ l2) = is_in x l1 + is_in x l2.
Proof. apply total_app. Qed.

Lemma is_in_cons x y l : is_in x (y :: l) = is_id x y + is_in x l.
Proof. done. Qed.

Lemma is_in_0 x l : is_in x l = 0 ↔ x ∉ l.
Proof.
  split.
  - intros Hz Hx. pose proof (total_ge (is_id x) l x Hx) as Hge. unfold is_in in Hz.
    rewrite Hz in Hge. unfold is_id in Hge. rewrite decide_True in Hge by done. lia.
  - intros Hx. apply total_0. intros y Hy. unfold is_id. rewrite decide_False; [done|]. by intros ->.
Qed.

Create HintDb pipe.

(** Compares how often a work is in the hands of someone. *)
Ltac count := cbn; rewrite ?is_in_app, ?is_in_cons, ?is_in_nil; lia.

(** The cases of a step. *)
Ltac goroutine_cases :=
  repeat match goal with
  | E : None = Some _ |- _ => discriminate E
  | E : Some _ = Some _ |- _ => injection E as <-
  | E : mbind _ _ = Some _ |- _ => apply bind_Some in E as (?&?&E)
  | E : match ?p with (_, _) => _ end = Some _ |- _ => destruct p
  | E : match ?x with _ => _ end = Some _ |- _ => destruct x eqn:?
  | E : (if ?x then _ else _) = Some _ |- _ => destruct x eqn:?
  end.

(** * What the operations change *)

Section facts.
Context `{ByteBufferOps} `{MultipartOps} (requestLimit responseLimit : Z) (cfg : PipelineConfig) (elsewhere : Reader).
Abbreviation push := (push cfg).
Abbreviation act := (act requestLimit responseLimit cfg elsewhere).
Abbreviation run := (run requestLimit responseLimit cfg elsewhere).
Abbreviation release := (releasePipelineWork requestLimit responseLimit elsewhere).

Lemma push_inv st c w st' :
  push st c w = Some st' →
  ∃ i q, c = Some i ∧ pl_chans st !! i = Some q ∧ st' = st <| pl_chans := <[i := q ++ [w]]> (pl_chans st) |>.
Proof.
  unfold pipelineConnClient.push. destruct (full cfg st c); [done|]. destruct c as [i|]; [|done].
  cbn. intros (q&Hq&E)%bind_Some. injection E as <-. by exists i, q.
Qed.

Lemma pop_inv st c w st' :
  pop st c = Some (w, st') →
  ∃ i q, c = Some i ∧ pl_chans st !! i = Some (w :: q) ∧ st' = st <| pl_chans := <[i := q]> (pl_chans st) |>.
Proof.
  unfold pop. destruct c as [i|]; [|done]. cbn. intros ([|y q]&Hq&E)%bind_Some; [done|].
  injection E as -> <-. by exists i, q.
Qed.

Definition signalled (err : option pipeline_error) (x : pipelineWork) : pipelineWork :=
  (match err with Some e => x <| pw_err := Some e |> | None => x end) <| pw_done := 1 |>.

Lemma signal_inv st w err st' :
  signal st w err = Some st' →
  ∃ x, pl_works st !! w = Some x ∧ pw_done x = 0 ∧ st' = updWork st w (signalled err).
Proof.
  unfold signal. intros (x&Hx&E)%bind_Some. destruct (Nat.eqb_spec (pw_done x) 0); [|done].
  injection E as <-. by exists x.
Qed.

Lemma signals_alter x f works w :
  (∀ y, works !! w = Some y → pw_done (f y) = pw_done y) → signals x (alter f w works) = signals x works.
Proof.
  intros Hf. unfold signals. destruct (decide (x = w)) as [->|Hn].
  - rewrite list_lookup_alter_eq. destruct (works !! w) eqn:E; cbn; [by rewrite Hf|done].
  - by rewrite list_lookup_alter_ne.
Qed.

Lemma signals_snoc x works y : pw_done y = 0 → signals x (works ++ [y]) = signals x works.
Proof.
  intros Hy. unfold signals. destruct (decide (x < length works)); [by rewrite lookup_app_l|].
  rewrite lookup_app_r, (lookup_ge_None_2 works) by lia. by destruct (x - _) as [|[|]].
Qed.

Lemma callOf_alter f works w v :
  (∀ y, works !! w = Some y → pw_call (f y) = pw_call y) → callOf (alter f w works) v = callOf works v.
Proof.
  intros Hf. unfold callOf. destruct (decide (v = w)) as [->|Hn].
  - rewrite list_lookup_alter_eq. destruct (works !! w) eqn:E; cbn; [by rewrite Hf|done].
  - by rewrite list_lookup_alter_ne.
Qed.

Lemma places_push x st c w st' : push st c w = Some st' → places x st' = places x st + is_id x w.
Proof.
  intros (i&q&->&Hq&->)%push_inv. unfold places. cbn.
  pose proof (total_insert (is_in x) _ _ _ (q ++ [w]) Hq) as Ht. rewrite is_in_app, is_in_1 in Ht. lia.
Qed.

Lemma places_pop x st c w st' : pop st c = Some (w, st') → places x st' + is_id x w = places x st.
Proof.
  intros (i&q&->&Hq&->)%pop_inv. unfold places. cbn.
  pose proof (total_insert (is_in x) _ _ _ q Hq) as Ht. rewrite is_in_cons in Ht. lia.
Qed.

Lemma places_signal x st w err st' : signal st w err = Some st' → places x st' = places x st + is_id x w.
Proof.
  intros (y&Hy&Hd&->)%signal_inv. unfold places. cbn.
  assert (signals x (alter (signalled err) w (pl_works st)) = signals x (pl_works st) + is_id x w) as ->; [|lia].
  unfold signals, is_id. case_decide as Hx.
  - subst x. rewrite list_lookup_alter_eq, Hy. cbn. rewrite Hd. by destruct err.
  - rewrite list_lookup_alter_ne by done. lia.
Qed.

Lemma places_upd x st w f :
  (∀ y, pl_works st !! w = Some y → pw_done (f y) = pw_done y) → places x (updWork st w f) = places x st.
Proof. intros Hf. unfold places. cbn. by rewrite signals_alter. Qed.

Lemma places_caller x st i c pc :
  pl_callers st !! i = Some c →
  places x (setCaller st i c pc) + is_in x (caller_hands (ca_pc c)) = places x st + is_in x (caller_hands pc).
Proof.
  intros Hc. unfold places. cbn.
  pose proof (total_insert (λ c, is_in x (caller_hands (ca_pc c))) _ _ _ (c <| ca_pc := pc |>) Hc) as Ht. cbn in Ht. lia.
Qed.

Lemma places_worker x st j k k' :
  pl_workers st !! j = Some k →
  places x (setWorker st j k') + is_in x (worker_hands k) = places x st + is_in x (worker_hands k').
Proof.
  intros Hk. unfold places. cbn. pose proof (total_insert (λ k, is_in x (worker_hands k)) _ _ _ k' Hk) as Ht.
  cbn in Ht. lia.
Qed.

Lemma places_release x st w : places x (release st w) = places x st + is_id x w.
Proof. unfold places. cbn. rewrite signals_alter by done. rewrite is_in_cons. lia. Qed.

(** What an operation on the channels or on a work leaves alone. *)
Record same_rest (st st' : pipelineConnClient) : Prop := {
  sr_callers : pl_callers st' = pl_callers st;
  sr_workers : pl_workers st' = pl_workers st;
  sr_pool : pl_pool st' = pl_pool st;
  sr_length : length (pl_works st') = length (pl_works st);
  sr_calls w : callOf (pl_works st') w = callOf (pl_works st) w
}.

Lemma same_push st c w st' : push st c w = Some st' → same_rest st st'.
Proof. by intros (i&q&->&Hq&->)%push_inv. Qed.

Lemma same_pop st c w st' : pop st c = Some (w, st') → same_rest st st'.
Proof. by intros (i&q&->&Hq&->)%pop_inv. Qed.

Lemma same_upd st w f :
  (∀ y, pl_works st !! w = Some y → pw_call (f y) = pw_call y) → same_rest st (updWork st w f).
Proof. intros Hf. split; try done; cbn; [by rewrite length_alter|intros v; by apply callOf_alter]. Qed.

Lemma same_signal st w err st' : signal st w err = Some st' → same_rest st st'.
Proof. intros (y&Hy&Hd&->)%signal_inv. apply same_upd. by destruct err. Qed.

Lemma same_trans st1 st2 st3 : same_rest st1 st2 → same_rest st2 st3 → same_rest st1 st3.
Proof. intros [] []. split; intros; etrans; eauto. Qed.

(** * Every step keeps the accounting *)

Lemma ok_record st e : pipe_ok st → pipe_ok (record st e).
Proof. by intros []. Qed.

Lemma ok_caller st st1 i c pc :
  pipe_ok st → same_rest st st1 → pl_callers st !! i = Some c →
  (∀ x, places x st1 + is_in x (caller_hands pc) = places x st + is_in x (caller_hands (ca_pc c))) →
  caller_work pc = None ∨ caller_work pc = caller_work (ca_pc c) →
  pipe_ok (setCaller st1 i c pc).
Proof.
  intros [Hp Ho Hc] [Ec Ew Ep El Ek] Hi Hpl Hw. split.
  - intros x. pose proof (places_caller x st1 i c pc ltac:(by rewrite Ec)) as Hx.
    specialize (Hp x). specialize (Hpl x). cbn. rewrite El. cbn in Hx. lia.
  - cbn. rewrite Ew. done.
  - cbn. rewrite Ec, Ep, El. intros i' c' w' Hl Hcw. rewrite Ek.
    apply list_lookup_insert_Some in Hl as [(->&<-&_)|[_ Hl]]; [|by eapply Hc].
    cbn in Hcw. destruct Hw as [Hw|Hw]; [congruence|]. eapply Hc; [done|congruence].
Qed.

(** A caller that returns gives its own work back. *)
Lemma ok_return st st1 i c w err resp :
  pipe_ok st → same_rest st st1 → pl_callers st !! i = Some c → caller_work (ca_pc c) = Some w →
  (∀ x, places x st1 + is_id x w = places x st + is_in x (caller_hands (ca_pc c))) →
  pipe_ok (returned (release st1 w) i c err resp).
Proof.
  intros [Hp Ho Hc] [Ec Ew Ep El Ek] Hi Hwk Hpl. apply ok_record. split.
  - intros x. pose proof (places_caller x (release st1 w) i c cReturned ltac:(by cbn; rewrite Ec)) as Hx.
    rewrite places_release in Hx. specialize (Hp x). specialize (Hpl x). cbn. rewrite length_alter, El.
    change (caller_hands cReturned) with (@nil nat) in Hx. change (is_in x []) with 0 in Hx. lia.
  - cbn. rewrite Ew. done.
  - cbn. rewrite Ec, Ep, length_alter, El. intros i' c' w' Hl Hcw. rewrite callOf_alter, Ek by done.
    apply list_lookup_insert_Some in Hl as [(->&<-&_)|[Hne Hl]]; [done|].
    destruct (Hc i' c' w' Hl Hcw) as (Hnp&Hlt&Hcall). split_and!; [|done|done].
    intros [->|?]%elem_of_cons; [|done]. apply Hne. rewrite <- Hcall. symmetry. by eapply Hc.
Qed.

Lemma ok_worker st st1 j k k' :
  pipe_ok st → same_rest st st1 → pl_workers st !! j = Some k →
  (∀ x, places x st1 + is_in x (worker_hands k') = places x st + is_in x (worker_hands k)) →
  orderly k' → pipe_ok (setWorker st1 j k').
Proof.
  intros [Hp Ho Hc] [Ec Ew Ep El Ek] Hj Hpl Hk. split.
  - intros x. pose proof (places_worker x st1 j k k' ltac:(by rewrite Ew)) as Hx.
    specialize (Hp x). specialize (Hpl x). cbn. rewrite El. cbn in Hx. lia.
  - cbn. rewrite Ew. intros k'' (n&Hn)%list_elem_of_lookup_1.
    apply list_lookup_insert_Some in Hn as [(_&<-&_)|[_ Hn]]; [done|]. apply Ho. by eapply list_elem_of_lookup_2.
  - cbn. rewrite Ec, Ep, El. intros i c w Hl Hw. rewrite Ek. by eapply Hc.
Qed.

Lemma orderly_writer k k' :
  orderly k → wk_pc k' = wk_pc k → wk_reader k' = wk_reader k →
  match wr_pc (wk_writer k) with wStart | wEnd _ => False | _ => True end → orderly k'.
Proof.
  unfold orderly, over, unborn, writer_over, reader_over. intros Ho -> -> Hw.
  destruct (wk_pc k); repeat match goal with H : _ ∨ _ |- _ => destruct H | H : _ ∧ _ |- _ => destruct H
    | H : ∃ _, _ |- _ => destruct H end; try done; eauto;
    match goal with H : _ = _ |- _ => rewrite H in Hw end; done.
Qed.

Lemma orderly_reader k k' :
  orderly k → wk_pc k' = wk_pc k → wk_writer k' = wk_writer k →
  match rd_pc (wk_reader k) with rStart | rEnd _ => False | _ => True end → orderly k'.
Proof.
  unfold orderly, over, unborn, writer_over, reader_over. intros Ho -> -> Hw.
  destruct (wk_pc k); repeat match goal with H : _ ∨ _ |- _ => destruct H | H : _ ∧ _ |- _ => destruct H
    | H : ∃ _, _ |- _ => destruct H end; try done; eauto;
    match goal with H : rd_pc _ = _ |- _ => rewrite H in Hw | H : wk_reader _ = _ |- _ => rewrite H in Hw end; done.
Qed.

Lemma same_refl st : same_rest st st.
Proof. done. Qed.

#[local] Hint Resolve same_refl same_push same_pop same_signal : pipe.

(** The steps of calls under way. *)
Lemma callPut_ok st i st' : pipe_ok st → callPut cfg st i = Some st' → pipe_ok st'.
Proof.
  intros Hok (c&Hc&E)%bind_Some. destruct (ca_pc c) as [w|w|w wOld|w|w|] eqn:Epc; try done.
  apply bind_Some in E as (st1&Hp&E). injection E as <-.
  eapply ok_caller; eauto with pipe; rewrite Epc; [|by right].
  intros x. rewrite (places_push x _ _ _ _ Hp). count.
Qed.

Lemma callFull_ok st i st' : pipe_ok st → callFull cfg st i = Some st' → pipe_ok st'.
Proof.
  intros Hok (c&Hc&E)%bind_Some. destruct (ca_pc c) as [w|w|w wOld|w|w|] eqn:Epc; try done.
  destruct (negb _ && _); [|done]. injection E as <-.
  eapply ok_caller; eauto with pipe; rewrite Epc; [done|by right].
Qed.

Lemma callSteal_ok st i st' : pipe_ok st → callSteal st i = Some st' → pipe_ok st'.
Proof.
  intros Hok (c&Hc&E)%bind_Some. destruct (ca_pc c) as [w|w|w wOld|w|w|] eqn:Epc; try done.
  destruct (pop st (pl_chW st)) as [[wOld st1]|] eqn:Hp; injection E as <-.
  - eapply ok_caller; eauto with pipe; rewrite Epc; [|by right].
    intros x. pose proof (places_pop x _ _ _ _ Hp). count.
  - eapply ok_caller; eauto with pipe; rewrite Epc; [done|by right].
Qed.

Lemma callOverflow_ok st i st' : pipe_ok st → callOverflow st i = Some st' → pipe_ok st'.
Proof.
  intros Hok (c&Hc&E)%bind_Some. destruct (ca_pc c) as [w|w|w wOld|w|w|] eqn:Epc; try done.
  apply bind_Some in E as (st1&Hs&E). injection E as <-.
  eapply ok_caller; eauto with pipe; rewrite Epc; [|by right].
  intros x. rewrite (places_signal x _ _ _ _ Hs). count.
Qed.

Lemma callRetry_ok st i st' :
  pipe_ok st → callRetry requestLimit responseLimit cfg elsewhere st i = Some st' → pipe_ok st'.
Proof.
  intros Hok (c&Hc&E)%bind_Some. destruct (ca_pc c) as [w|w|w wOld|w|w|] eqn:Epc; try done.
  destruct (push st (pl_chW st) w) as [st1|] eqn:Hp.
  - injection E as <-. eapply ok_caller; eauto with pipe; rewrite Epc; [|by right].
    intros x. rewrite (places_push x _ _ _ _ Hp). count.
  - apply bind_Some in E as (y&Hy&E). injection E as <-.
    eapply ok_return; eauto with pipe; rewrite Epc; [done|]. intros x. count.
Qed.

Lemma callTimeout_ok st i st' :
  pipe_ok st → callTimeout requestLimit responseLimit elsewhere st i = Some st' → pipe_ok st'.
Proof.
  intros Hok (c&Hc&E)%bind_Some. destruct (negb _); [done|].
  destruct (ca_pc c) as [w|w|w wOld|w|w|] eqn:Epc; try done; injection E as <-.
  - eapply ok_return; eauto with pipe; rewrite Epc; [done|]. intros x. count.
  - apply ok_record. eapply ok_caller; eauto with pipe. by rewrite Epc.
Qed.

Lemma callReturn_ok st i st' :
  pipe_ok st → callReturn requestLimit responseLimit elsewhere st i = Some st' → pipe_ok st'.
Proof.
  intros Hok (c&Hc&E)%bind_Some. destruct (ca_pc c) as [w|w|w wOld|w|w|] eqn:Epc; try done.
  apply bind_Some in E as (y&Hy&E). destruct (Nat.eqb_spec (pw_done y) 0) as [|Hd]; [done|]. injection E as <-.
  eapply ok_return; [done| |done|by rewrite Epc|].
  - by apply same_upd.
  - intros x. rewrite Epc. change (is_in x (caller_hands (cWait w))) with 0.
    pose proof (po_places _ Hok w) as Hw. unfold places, known in *. cbn.
    assert (signals w (pl_works st) = pw_done y) as Hs by (unfold signals; by rewrite Hy).
    assert (pw_done y = 1) as Hd1.
    { rewrite Hs in Hw. destruct (w <? _); lia. }
    assert (signals x (alter (λ x, x <| pw_done := 0 |>) w (pl_works st)) + is_id x w = signals x (pl_works st)) as <-;
      [|cbn; lia].
    unfold signals, is_id. case_decide as Hx.
    + subst x. by rewrite list_lookup_alter_eq, Hy, <- Hd1.
    + rewrite list_lookup_alter_ne by done. lia.
Qed.

(** New calls. *)
Lemma places_init x st : places x (init st) = places x st.
Proof.
  unfold init. destruct (pl_chR st) as [r|]; [done|]. cbn.
  destruct (pl_chW st) as [w|]; unfold places; cbn -[total]; autorewrite with totals; cbn -[total]; rewrite ?is_in_nil; lia.
Qed.

Lemma init_ok st : pipe_ok st → pipe_ok (init st).
Proof.
  intros [Hp Ho Hc].
  assert (pl_works (init st) = pl_works st ∧ pl_pool (init st) = pl_pool st ∧ pl_callers (init st) = pl_callers st
          ∧ ∀ k, k ∈ pl_workers (init st) → k ∈ pl_workers st ∨ k = newWorker) as (Ew&Ep&Ec&Hk).
  { unfold init. destruct (pl_chR st); [by auto|]. cbn. destruct (pl_chW st); split_and!; try done;
      cbn; intros k [?|?%list_elem_of_singleton]%elem_of_app; auto. }
  split.
  - intros x. rewrite places_init, Ew. apply Hp.
  - intros k [?| ->]%Hk; [by apply Ho|]. by left.
  - rewrite Ec, Ew, Ep. done.
Qed.

Lemma known_S x n : known x (S n) = known x n + is_id x n.
Proof. unfold known, is_id. case_decide; do 2 destruct (Nat.ltb_spec x (S n)), (Nat.ltb_spec x n); lia. Qed.

Lemma acquire_call_ok st d w st1 t resp f :
  pipe_ok st → acquirePipelineWork st d (length (pl_callers st)) = (w, st1) →
  (∀ y, pw_done (f y) = pw_done y) → (∀ y, pw_call (f y) = pw_call y) →
  pipe_ok ((updWork st1 w f) <| pl_callers := pl_callers st1 ++ [mkCaller t resp (cPut w)] |>).
Proof.
  intros [Hp Ho Hc] E Hfd Hfc.
  set (g := λ x : pipelineWork, x <| pw_deadline := d |> <| pw_call := length (pl_callers st) |>).
  assert (∀ i c v, (pl_callers st ++ [mkCaller t resp (cPut w)]) !! i = Some c → caller_work (ca_pc c) = Some v →
    pl_callers st !! i = Some c ∨ i = length (pl_callers st) ∧ v = w) as Hlast.
  { intros i c v [?|[? Hl]]%lookup_app_Some Hv; [by left|right].
    apply list_lookup_singleton_Some in Hl as [? <-]. cbn in Hv. split; [lia|congruence]. }
  unfold acquirePipelineWork in E. fold g in E. destruct (pl_pool st) as [|v pool] eqn:Epool; injection E as <- <-.
  - split.
    + intros x. cbn. rewrite length_alter, length_app. cbn. rewrite Nat.add_1_r, known_S, <- Hp. unfold places. cbn -[total].
      rewrite signals_alter by done. autorewrite with totals. cbn -[total]. rewrite Epool, is_in_1.
      rewrite signals_snoc by done. lia.
    + done.
    + cbn. rewrite Epool, length_alter, length_app. intros i c v Hl Hv. rewrite callOf_alter by done.
      destruct (Hlast i c v Hl Hv) as [Hl'|[-> ->]].
      * destruct (Hc i c v Hl' Hv) as (_&Hlt&Hcall). split_and!; [set_solver|lia|].
        unfold callOf. by rewrite lookup_app_l.
      * split_and!; [set_solver|cbn; lia|]. unfold callOf. by rewrite list_lookup_middle.
  - assert (v < length (pl_works st)) as Hv.
    { specialize (Hp v). unfold places, known in Hp. rewrite Epool, is_in_cons in Hp.
      unfold is_id in Hp. rewrite decide_True in Hp by done. destruct (Nat.ltb_spec v (length (pl_works st))); lia. }
    assert (v ∉ pool) as Hvp.
    { apply is_in_0. specialize (Hp v). unfold places, known in Hp. rewrite Epool, is_in_cons in Hp.
      unfold is_id in Hp. rewrite decide_True in Hp by done. destruct (v <? length (pl_works st)); lia. }
    split.
    + intros x. cbn. rewrite !length_alter, <- Hp. unfold places. cbn -[total].
      rewrite !signals_alter by done. autorewrite with totals. cbn -[total]. rewrite Epool, is_in_1, is_in_cons. lia.
    + done.
    + cbn. rewrite !length_alter. intros i c u Hl Hu. rewrite callOf_alter by done.
      destruct (Hlast i c u Hl Hu) as [Hl'|[-> ->]].
      * destruct (Hc i c u Hl' Hu) as (Hnp&Hlt&Hcall). apply not_elem_of_cons in Hnp as [Hne Hnp].
        split_and!; [done|done|]. unfold callOf. by rewrite list_lookup_alter_ne.
      * split_and!; [done|done|]. unfold callOf. rewrite list_lookup_alter_eq.
        destruct (lookup_lt_is_Some_2 (pl_works st) v Hv) as [y ->]. done.
Qed.

Lemma init_callers st : pl_callers (init st) = pl_callers st.
Proof. unfold init. destruct (pl_chR st); [done|]. cbn. by destruct (pl_chW st). Qed.

Lemma Do_ok st req resp : pipe_ok st → pipe_ok (Do cfg st req resp).
Proof.
  intros Hok. unfold Do. destruct (acquirePipelineWork _ _ _) as [w st1] eqn:E.
  apply (acquire_call_ok (record (init st) (evCall (length (pl_callers st)))) None); try done.
  - by apply ok_record, init_ok.
  - cbn. by rewrite init_callers.
Qed.

Lemma DoDeadline_ok st req resp deadline now :
  pipe_ok st → pipe_ok (DoDeadline requestLimit cfg elsewhere st req resp deadline now).
Proof.
  intros Hok. unfold DoDeadline.
  assert (pipe_ok (record (init st) (evCall (length (pl_callers st))))) as Hok1 by by apply ok_record, init_ok.
  destruct (_ <=? 0)%Z.
  - apply ok_record. destruct Hok1 as [Hp Ho Hc]. split; [|done|].
    + intros x. specialize (Hp x). unfold places in *. cbn -[total] in *. autorewrite with totals. cbn -[total].
      rewrite is_in_nil. lia.
    + cbn. intros i c w [?|[_ [_ <-]%list_lookup_singleton_Some]]%lookup_app_Some Hw; [by eapply Hc|done].
  - destruct (acquirePipelineWork _ _ _) as [w st1] eqn:E.
    apply (acquire_call_ok (record (init st) (evCall (length (pl_callers st)))) (Some deadline)); try done.
    cbn. by rewrite init_callers.
Qed.

(** Goroutines. *)
Lemma ok_writer st st1 j k k' :
  pipe_ok st → same_rest st st1 → pl_workers st !! j = Some k →
  wk_pc k' = wk_pc k → wk_reader k' = wk_reader k →
  match wr_pc (wk_writer k) with wStart | wEnd _ => False | _ => True end →
  (∀ x, places x st1 + is_in x (writer_hands (wr_pc (wk_writer k')))
        = places x st + is_in x (writer_hands (wr_pc (wk_writer k)))) →
  pipe_ok (setWorker st1 j k').
Proof.
  intros Hok Hs Hj Ep Er Hpc Hpl. eapply ok_worker; [done..| |].
  - intros x. unfold worker_hands. rewrite !is_in_app, Ep, Er. specialize (Hpl x). lia.
  - eapply orderly_writer; [|done..]. apply (po_orderly _ Hok). by eapply list_elem_of_lookup_2.
Qed.

Lemma ok_reader st st1 j k k' :
  pipe_ok st → same_rest st st1 → pl_workers st !! j = Some k →
  wk_pc k' = wk_pc k → wk_writer k' = wk_writer k →
  match rd_pc (wk_reader k) with rStart | rEnd _ => False | _ => True end →
  (∀ x, places x st1 + is_in x (reader_hands (rd_pc (wk_reader k')))
        = places x st + is_in x (reader_hands (rd_pc (wk_reader k)))) →
  pipe_ok (setWorker st1 j k').
Proof.
  intros Hok Hs Hj Ep Er Hpc Hpl. eapply ok_worker; [done..| |].
  - intros x. unfold worker_hands. rewrite !is_in_app, Ep, Er. specialize (Hpl x). lia.
  - eapply orderly_reader; [|done..]. apply (po_orderly _ Hok). by eapply list_elem_of_lookup_2.
Qed.

(** A step of the writer at [Epc], to a state known by what was popped, pushed or signalled. *)
Ltac goroutine lem Epc :=
  let x := fresh "x" in
  eapply lem; [done|eauto with pipe|done|done|done|by rewrite Epc|rewrite Epc; intros x];
  try match goal with
  | H : pop _ _ = Some _ |- _ => pose proof (places_pop x _ _ _ _ H)
  | H : pipelineConnClient.push _ _ _ _ = Some _ |- _ => rewrite (places_push x _ _ _ _ H)
  | H : signal _ _ _ = Some _ |- _ => rewrite (places_signal x _ _ _ _ H)
  end; count.

Lemma writerStart_ok st j st' : pipe_ok st → writerStart st j = Some st' → pipe_ok st'.
Proof.
  intros Hok (k&Hk&E)%bind_Some.
  assert (orderly k) as Ho by (apply (po_orderly _ Hok); by eapply list_elem_of_lookup_2). unfold orderly in Ho.
  destruct (wk_pc k) eqn:Ek; try done; (destruct (wr_pc (wk_writer k)) eqn:Epc; try done);
    injection E as <-; (eapply ok_worker; [done|apply same_refl|done| |by unfold orderly; cbn; rewrite Ek]);
    intros x; unfold worker_hands; cbn; by rewrite Epc.
Qed.

Lemma readerStart_ok st j st' : pipe_ok st → readerStart st j = Some st' → pipe_ok st'.
Proof.
  intros Hok (k&Hk&E)%bind_Some.
  assert (orderly k) as Ho by (apply (po_orderly _ Hok); by eapply list_elem_of_lookup_2). unfold orderly in Ho.
  destruct (wk_pc k) eqn:Ek; try done; (destruct (rd_pc (wk_reader k)) eqn:Epc; try done);
    injection E as <-; (eapply ok_worker; [done|apply same_refl|done| |by unfold orderly; cbn; rewrite Ek]);
    intros x; unfold worker_hands; cbn; by rewrite Epc.
Qed.

Lemma writerSelect_ok st j st' : pipe_ok st → writerSelect st j = Some st' → pipe_ok st'.
Proof.
  intros Hok (k&Hk&E)%bind_Some. destruct (wr_pc (wk_writer k)) eqn:Epc; try done.
  destruct (pop st _) as [[w st1]|] eqn:Hp; injection E as <-; goroutine ok_writer Epc.
Qed.

Lemma writerRecv_ok st j st' : pipe_ok st → writerRecv st j = Some st' → pipe_ok st'.
Proof.
  intros Hok (k&Hk&E)%bind_Some. destruct (wr_pc (wk_writer k)) eqn:Epc; try done.
  apply bind_Some in E as ([w st1]&Hp&E). injection E as <-. goroutine ok_writer Epc.
Qed.

Lemma writerIdle_ok st j st' : pipe_ok st → writerIdle st j = Some st' → pipe_ok st'.
Proof.
  intros Hok (k&Hk&E)%bind_Some. destruct (wr_pc (wk_writer k)) eqn:Epc; try done.
  injection E as <-. goroutine ok_writer Epc.
Qed.

Lemma writerStop_ok st j st' : pipe_ok st → writerStop st j = Some st' → pipe_ok st'.
Proof.
  intros Hok (k&Hk&E)%bind_Some. destruct (wr_pc (wk_writer k)) eqn:Epc; try done; (destruct (stopW k); [|done]).
  - injection E as <-. goroutine ok_writer Epc.
  - apply bind_Some in E as (st1&Hs&E). injection E as <-. goroutine ok_writer Epc.
Qed.

Lemma writerFlush_ok st j err st' : pipe_ok st → writerFlush st j err = Some st' → pipe_ok st'.
Proof.
  intros Hok (k&Hk&E)%bind_Some. destruct (negb _); [done|].
  destruct (wr_pc (wk_writer k)) eqn:Epc; try done; destruct err as [e|]; try done;
    first [injection E as <-|apply bind_Some in E as (st1&Hs&E); injection E as <-]; goroutine ok_writer Epc.
Qed.

Lemma writerPut_ok st j st' : pipe_ok st → writerPut cfg st j = Some st' → pipe_ok st'.
Proof.
  intros Hok (k&Hk&E)%bind_Some. destruct (wr_pc (wk_writer k)) eqn:Epc; try done.
  - destruct (push st _ w) as [st1|] eqn:Hp; injection E as <-; goroutine ok_writer Epc.
  - apply bind_Some in E as (st1&Hp&E). injection E as <-. goroutine ok_writer Epc.
Qed.

Lemma readerSelect_ok st j st' : pipe_ok st → readerSelect st j = Some st' → pipe_ok st'.
Proof.
  intros Hok (k&Hk&E)%bind_Some. destruct (rd_pc (wk_reader k)) eqn:Epc; try done.
  destruct (pop st _) as [[w st1]|] eqn:Hp; injection E as <-; goroutine ok_reader Epc.
Qed.

Lemma readerRecv_ok st j st' : pipe_ok st → readerRecv st j = Some st' → pipe_ok st'.
Proof.
  intros Hok (k&Hk&E)%bind_Some. destruct (rd_pc (wk_reader k)) eqn:Epc; try done.
  apply bind_Some in E as ([w st1]&Hp&E). injection E as <-. goroutine ok_reader Epc.
Qed.

Lemma readerStop_ok st j st' : pipe_ok st → readerStop st j = Some st' → pipe_ok st'.
Proof.
  intros Hok (k&Hk&E)%bind_Some. destruct (rd_pc (wk_reader k)) eqn:Epc; try done.
  destruct (stopR k); [|done]. injection E as <-. goroutine ok_reader Epc.
Qed.

Lemma setReq_same x q : pw_done (setReq x q) = pw_done x ∧ pw_call (setReq x q) = pw_call x.
Proof. unfold setReq. by destruct (pw_req x). Qed.

Lemma setResp_same x p : pw_done (setResp x p) = pw_done x ∧ pw_call (setResp x p) = pw_call x.
Proof. unfold setResp. by destruct (pw_resp x). Qed.

(** A work that is replaced by a changed copy, and perhaps signalled. *)
Lemma replaced st w x y :
  pl_works st !! w = Some x → pw_done y = pw_done x → pw_call y = pw_call x →
  same_rest st (updWork st w (λ _, y)) ∧ ∀ z, places z (updWork st w (λ _, y)) = places z st.
Proof.
  intros Hx Hd Hc. split.
  - apply same_upd. intros x' Hx'. cbn. congruence.
  - intros z. apply places_upd. intros x' Hx'. cbn. congruence.
Qed.

Lemma writerWrite_ok st j now e st' : pipe_ok st → writerWrite cfg elsewhere st j now e = Some st' → pipe_ok st'.
Proof.
  intros Hok (k&Hk&E)%bind_Some. destruct (wr_pc (wk_writer k)) eqn:Epc; try done.
  apply bind_Some in E as (x&Hx&E). destruct (expiredWork x now).
  { apply bind_Some in E as (st1&Hs&E). injection E as <-. goroutine ok_writer Epc. }
  cbv zeta in E. set (x1 := setResp x _) in E. destruct (setResp_same x ((theResp x) <| re_raddr := Some (cn_remoteAddr (wk_conn k)) |>
    <| re_laddr := Some (cn_localAddr (wk_conn k)) |>)) as [Hd1 Hc1]. fold x1 in Hd1, Hc1.
  destruct (if (0 <? _)%Z then e else None) as [e'|].
  { destruct (replaced st w x x1 Hx Hd1 Hc1) as [Hs1 Hp1]. apply bind_Some in E as (st1&Hs&E). injection E as <-.
    eapply ok_writer; [done|eapply same_trans; eauto with pipe|done|done|done|by rewrite Epc|].
    intros z. rewrite Epc, (places_signal z _ _ _ _ Hs), Hp1. count. }
  destruct (Request.Write _ _ _) as [[[err bw] q] r'] eqn:Ew.
  destruct (setReq_same x1 q) as [Hd2 Hc2]. rewrite Hd1 in Hd2. rewrite Hc1 in Hc2.
  destruct (replaced st w x (setReq x1 q) Hx Hd2 Hc2) as [Hs1 Hp1]. destruct err as [e'|].
  - apply bind_Some in E as (st1&Hs&E). injection E as <-.
    eapply ok_writer; [done|eapply same_trans; eauto with pipe|done|done|done|by rewrite Epc|].
    intros z. rewrite Epc, (places_signal z _ _ _ _ Hs), Hp1. count.
  - injection E as <-. apply ok_record. eapply ok_writer; [done|exact Hs1|done|done|done|by rewrite Epc|].
    intros z. rewrite Epc, Hp1. count.
Qed.

Lemma readerRead_ok st j e st' : pipe_ok st → readerRead cfg st j e = Some st' → pipe_ok st'.
Proof.
  intros Hok (k&Hk&E)%bind_Some. destruct (rd_pc (wk_reader k)) eqn:Epc; try done.
  apply bind_Some in E as (x&Hx&E). destruct (if (0 <? _)%Z then e else None) as [e'|].
  { apply bind_Some in E as (st1&Hs&E). injection E as <-. goroutine ok_reader Epc. }
  cbv zeta in E. destruct (Response.Read _ _) as [[err p] br].
  assert (same_rest st (updWork st w (λ x, setResp x p))) as Hs1 by (apply same_upd; intros y _; apply setResp_same).
  assert (∀ z, places z (updWork st w (λ x, setResp x p)) = places z st) as Hp1
    by (intros z; apply places_upd; intros y _; apply setResp_same).
  destruct err as [e'|]; apply bind_Some in E as (st1&Hs&E); injection E as <-; [|apply ok_record];
    (eapply ok_reader; [done|eapply same_trans; eauto with pipe|done|done|done|by rewrite Epc|]);
    intros z; rewrite Epc, (places_signal z _ _ _ _ Hs), Hp1; count.
Qed.

Lemma worker_over_hands k : over k → worker_hands k = match wk_pc k with kDrained _ w => [w] | _ => [] end.
Proof. intros [[e1 E1] [e2 E2]]. unfold worker_hands. by rewrite E1, E2. Qed.

Lemma worker_moves_ok st st1 j k k' :
  pipe_ok st → same_rest st st1 → pl_workers st !! j = Some k → wk_writer k' = wk_writer k → wk_reader k' = wk_reader k →
  orderly k' →
  (∀ x, places x st1 + is_in x (match wk_pc k' with kDrained _ w => [w] | _ => [] end)
        = places x st + is_in x (match wk_pc k with kDrained _ w => [w] | _ => [] end)) →
  pipe_ok (setWorker st1 j k').
Proof.
  intros Hok Hs Hk Ew Er Ho Hp. eapply ok_worker; [done..| |done].
  intros x. unfold worker_hands. rewrite !is_in_app, Ew, Er. specialize (Hp x). lia.
Qed.

Lemma workerDial_ok st j remote local bw br st' :
  pipe_ok st → workerDial st j remote local bw br = Some st' → pipe_ok st'.
Proof.
  intros Hok (k&Hk&E)%bind_Some.
  assert (orderly k) as Ho by (apply (po_orderly _ Hok); by eapply list_elem_of_lookup_2). unfold orderly in Ho.
  destruct (wk_pc k) eqn:Ek; try done. injection E as <-.
  assert (worker_hands k = []) as Hh.
  { destruct Ho as [[E1 E2]|Ho]; [|by rewrite worker_over_hands, Ek]. unfold worker_hands. by rewrite E1, E2, Ek. }
  assert (pipe_ok (setWorker st j (mkPipeWorker kRun writer0 reader0
    (mkPipeConn (pl_dials st) remote local bw (length (w_out bw)) br)))) as [].
  { eapply ok_worker; [done|apply same_refl|done| |done]. intros x. by rewrite Hh. }
  by split.
Qed.

Lemma connFails_ok st j err st' : pipe_ok st → connFails st j err = Some st' → pipe_ok st'.
Proof.
  intros Hok (k&Hk&E)%bind_Some. injection E as <-.
  eapply worker_moves_ok; [done|apply same_refl|done|done|done| |].
  - apply (po_orderly _ Hok k). by eapply list_elem_of_lookup_2.
  - cbn. done.
Qed.

Lemma workerJoin_ok st j st' : pipe_ok st → workerJoin st j = Some st' → pipe_ok st'.
Proof.
  intros Hok (k&Hk&E)%bind_Some.
  assert (orderly k) as Ho by (apply (po_orderly _ Hok); by eapply list_elem_of_lookup_2). unfold orderly in Ho.
  destruct (wk_pc k) eqn:Ek; try done;
    (destruct (wr_pc (wk_writer k)) eqn:Ew; try done); (destruct (rd_pc (wk_reader k)) eqn:Er; try done);
    injection E as <-;
    (eapply worker_moves_ok; [done|apply same_refl|done|done|done|unfold orderly, over, writer_over, reader_over in *; cbn|cbn; by rewrite Ek]);
    rewrite ?Ew, ?Er in *; naive_solver.
Qed.

Lemma workerJoinReader_ok st j st' : pipe_ok st → workerJoinReader st j = Some st' → pipe_ok st'.
Proof.
  intros Hok (k&Hk&E)%bind_Some. destruct (wk_pc k) eqn:Ek; try done. destruct (rd_pc (wk_reader k)) eqn:Er; try done.
  injection E as <-. eapply worker_moves_ok; [done|apply same_refl|done|done|done| |cbn; by rewrite Ek].
  by exists err.
Qed.

Lemma workerDrain_ok st j st' : pipe_ok st → workerDrain st j = Some st' → pipe_ok st'.
Proof.
  intros Hok (k&Hk&E)%bind_Some.
  assert (orderly k) as Ho by (apply (po_orderly _ Hok); by eapply list_elem_of_lookup_2). unfold orderly in Ho.
  destruct (wk_pc k) eqn:Ek; try done.
  - injection E as <-. eapply worker_moves_ok; [done|apply same_refl|done|done|done| |].
    + unfold orderly. cbn. by destruct (_ =? 0).
    + cbn. rewrite Ek. by destruct (_ =? 0).
  - apply bind_Some in E as ([w st1]&Hp&E). injection E as <-.
    eapply worker_moves_ok; [done|eauto with pipe|done|done|done|done|].
    intros x. pose proof (places_pop x _ _ _ _ Hp). rewrite Ek. count.
  - apply bind_Some in E as (st1&Hs&E). injection E as <-.
    eapply worker_moves_ok; [done|eauto with pipe|done|done|done|done|].
    intros x. rewrite (places_signal x _ _ _ _ Hs), Ek. count.
Qed.

Lemma workerLoop_ok st j st' : pipe_ok st → workerLoop st j = Some st' → pipe_ok st'.
Proof.
  intros Hok (k&Hk&E)%bind_Some.
  assert (orderly k) as Ho by (apply (po_orderly _ Hok); by eapply list_elem_of_lookup_2). unfold orderly in Ho.
  destruct (wk_pc k) as [| | | | | | |err|] eqn:Ek; try done.
  assert (∀ pc, pc = kDial ∨ pc = kGone → pipe_ok (setWorker st j (k <| wk_pc := pc |>))) as Hset.
  { intros pc Hpc. eapply worker_moves_ok; [done|apply same_refl|done|done|done| |cbn; rewrite Ek; by destruct Hpc as [-> | ->]].
    unfold orderly. cbn. destruct Hpc as [-> | ->]; [by right|done]. }
  destruct err as [e|]; [injection E as <-; apply Hset; by left|].
  destruct (_ && _); injection E as <-; [apply Hset; by right|].
  destruct (Hset kDial) as []; [by left|]. by split.
Qed.

Lemma act_ok st a st' : pipe_ok st → act st a = Some st' → pipe_ok st'.
Proof.
  intros Hok E. destruct a; cbn [pipelineConnClient.act] in E;
   [injection E as <-; by apply Do_ok|injection E as <-; by apply DoDeadline_ok|
    exact (callPut_ok _ _ _ Hok E)|exact (callFull_ok _ _ _ Hok E)|exact (callSteal_ok _ _ _ Hok E)|
    exact (callOverflow_ok _ _ _ Hok E)|exact (callRetry_ok _ _ _ Hok E)|exact (callTimeout_ok _ _ _ Hok E)|
    exact (callReturn_ok _ _ _ Hok E)|exact (writerStart_ok _ _ _ Hok E)|exact (writerSelect_ok _ _ _ Hok E)|
    exact (writerRecv_ok _ _ _ Hok E)|exact (writerIdle_ok _ _ _ Hok E)|exact (writerStop_ok _ _ _ Hok E)|
    exact (writerFlush_ok _ _ _ _ Hok E)|exact (writerWrite_ok _ _ _ _ _ Hok E)|
    exact (writerPut_ok _ _ _ Hok E)|exact (readerStart_ok _ _ _ Hok E)|exact (readerSelect_ok _ _ _ Hok E)|
    exact (readerRecv_ok _ _ _ Hok E)|exact (readerStop_ok _ _ _ Hok E)|exact (readerRead_ok _ _ _ _ Hok E)|
    exact (workerDial_ok _ _ _ _ _ _ _ Hok E)|exact (connFails_ok _ _ _ _ Hok E)|
    exact (workerJoin_ok _ _ _ Hok E)|exact (workerJoinReader_ok _ _ _ Hok E)|
    exact (workerDrain_ok _ _ _ Hok E)|exact (workerLoop_ok _ _ _ Hok E)].
Qed.

Lemma run_ind (P : pipelineConnClient → Prop) :
  (∀ st a st', P st → act st a = Some st' → P st') →
  ∀ l st st', P st → run st l = Some st' → P st'.
Proof.
  intros Hstep l. induction l as [|a l IH]; cbn; intros st st' Hst E; [by injection E as <-|].
  apply bind_Some in E as (st1&E1&E). eauto.
Qed.

Lemma start_ok : pipe_ok pipe_start.
Proof. split; [done|set_solver|done]. Qed.

Lemma run_ok l st : run pipe_start l = Some st → pipe_ok st.
Proof. apply (run_ind pipe_ok act_ok). apply start_ok. Qed.
End facts.
