(* ===== verification/PipelineOrder.v ===== *)
(** The pipelining client: what a call returns was read for it and, as long as the client keeps
    its channels, the response in its turn on the connection its request was written to. *)

From Stdlib Require Import ZArith ZifyNat Strings.Byte.
From stdpp Require Import prelude strings list.
From S2P Require Import Prelude Tables Bufio Bytesconv Args Uri Headers HeaderScan Body.
From S2P Require Import ReqHeader RespHeader Http HttpResp HostClient Client Pipeline PipelineFacts.
Import pipelineConnClient.

(** * A call returns what was read for it *)

(** What a caller has of the response [p]: nothing when it gave no object, the response
    itself, or, after [DoDeadline], a copy in its own object [u]. *)
Definition given (responseLimit : Z) `{ByteBufferOps} (p : Response) (resp : option Response) : Prop :=
  resp = None ∨ resp = Some p ∨
  ∃ u, resp = Some (Response.swapResponseBody (Response.copyToSkipBody responseLimit p u) p).1.

Definition read_for (tr : list pipe_event) (i : nat) (p : Response) : Prop := ∃ c, evRead c i p ∈ tr.

Section answers.
Context `{ByteBufferOps} `{MultipartOps} (requestLimit responseLimit : Z) (cfg : PipelineConfig) (elsewhere : Reader).
Abbreviation push := (push cfg).
Abbreviation act := (act requestLimit responseLimit cfg elsewhere).
Abbreviation run := (run requestLimit responseLimit cfg elsewhere).
Abbreviation release := (releasePipelineWork requestLimit responseLimit elsewhere).

Record answered (st : pipelineConnClient) : Prop := {
  an_work w x : pl_works st !! w = Some x → pw_done x ≠ 0 → pw_err x = None →
    read_for (pl_trace st) (pw_call x) (theResp x);
  an_timed i c w x : pl_callers st !! i = Some c → ca_timed c = true → caller_work (ca_pc c) = Some w →
    pl_works st !! w = Some x → pw_resp x = None;
  an_return i resp : evReturn i None resp ∈ pl_trace st →
    ∃ p, read_for (pl_trace st) i p ∧ given responseLimit p resp
}.

(** A work after a step: not signalled, or with an error, or as before, or just read. *)
Definition work_next (tr : list pipe_event) (x x' : pipelineWork) : Prop :=
  (pw_resp x = None → pw_resp x' = None) ∧
  (pw_done x' = 0 ∨ pw_err x' ≠ None ∨ read_for tr (pw_call x') (theResp x') ∨
   pw_done x' = pw_done x ∧ pw_err x' = pw_err x ∧ pw_call x' = pw_call x ∧ theResp x' = theResp x).

Definition caller_next (c c' : caller) : Prop :=
  ca_timed c' = ca_timed c ∧ (caller_work (ca_pc c') = None ∨ caller_work (ca_pc c') = caller_work (ca_pc c)).

Record evolves (st st' : pipelineConnClient) : Prop := {
  ev_works w x' : pl_works st' !! w = Some x' → ∃ x, pl_works st !! w = Some x ∧ work_next (pl_trace st') x x';
  ev_callers i c' : pl_callers st' !! i = Some c' → ∃ c, pl_callers st !! i = Some c ∧ caller_next c c';
  ev_trace e : e ∈ pl_trace st → e ∈ pl_trace st';
  ev_return i resp : evReturn i None resp ∈ pl_trace st' → evReturn i None resp ∈ pl_trace st ∨
    ∃ c w x, pl_callers st !! i = Some c ∧ ca_pc c = cWait w ∧ pl_works st !! w = Some x ∧
             pw_done x ≠ 0 ∧ pw_err x = None ∧ resp = handOver responseLimit c x
}.

Lemma read_for_mono tr tr' i p : (∀ e, e ∈ tr → e ∈ tr') → read_for tr i p → read_for tr' i p.
Proof. intros Hm [c Hc]. exists c. auto. Qed.

Lemma evolves_answered st st' : pipe_ok st → answered st → evolves st st' → answered st'.
Proof.
  intros Hok [Hw Ht Hr] [Ew Ec Et Er]. split.
  - intros w x' Hx' Hd He. destruct (Ew w x' Hx') as (x&Hx&_&[?|[?|[?|(Ed&Ee&Ek&Ep)]]]); [done..|].
    rewrite Ek, Ep. eapply read_for_mono; [exact Et|]. apply (Hw w); congruence.
  - intros i c' w x' Hc' Htm Hcw Hx'. destruct (Ec i c' Hc') as (c&Hc&Etm&[?|Ewk]); [congruence|].
    destruct (Ew w x' Hx') as (x&Hx&Hn&_). apply Hn. eapply Ht; eauto; congruence.
  - intros i resp [Hin|(c&w&x&Hc&Hpc&Hx&Hd&He&->)]%Er.
    { destruct (Hr i resp Hin) as (p&Hp&Hg). exists p. split; [|done]. by eapply read_for_mono. }
    destruct (po_calls _ Hok i c w Hc ltac:(by rewrite Hpc)) as (_&_&Hcall). unfold callOf in Hcall. rewrite Hx in Hcall.
    exists (theResp x). split.
    + rewrite <- Hcall. eapply read_for_mono; [exact Et|]. by apply (Hw w).
    + unfold given, handOver, theResp. destruct (ca_timed c) eqn:Etm.
      * rewrite (Ht i c w x Hc Etm ltac:(by rewrite Hpc) Hx). destruct (ca_resp c) as [u|]; [|by left].
        right; right. by exists u.
      * destruct (pw_resp x); [right; by left|by left].
Qed.

(** ** Steps *)

Lemma work_same tr x : work_next tr x x.
Proof. split; [done|]. by right; right; right. Qed.

Lemma caller_same c : caller_next c c.
Proof. split; [done|by right]. Qed.

#[local] Hint Resolve work_same caller_same : pipe.

(** A step that changes one work and one caller, and records at most one event that is not a
    return without error. *)
Definition quiet (tr tr' : list pipe_event) : Prop :=
  tr' = tr ∨ ∃ e, tr' = tr ++ [e] ∧ match e with evReturn _ None _ => False | _ => True end.

Lemma quiet_evolves st st' :
  (∀ w x', pl_works st' !! w = Some x' → ∃ x, pl_works st !! w = Some x ∧ work_next (pl_trace st') x x') →
  (∀ i c', pl_callers st' !! i = Some c' → ∃ c, pl_callers st !! i = Some c ∧ caller_next c c') →
  quiet (pl_trace st) (pl_trace st') → evolves st st'.
Proof.
  intros Hw Hc Hq. split; [done|done| |].
  - intros e He. destruct Hq as [->|(e'&->&_)]; [done|]. apply elem_of_app. by left.
  - intros i resp Hin. left. destruct Hq as [E|(e'&E&He')]; rewrite E in Hin; [done|].
    apply elem_of_app in Hin as [?|<-%list_elem_of_singleton]; done.
Qed.

Lemma works_alter tr (works : list pipelineWork) f w v x' :
  alter f w works !! v = Some x' → (∀ x, works !! w = Some x → work_next tr x (f x)) →
  ∃ x, works !! v = Some x ∧ work_next tr x x'.
Proof.
  intros Hx Hf. destruct (decide (v = w)) as [->|Hn].
  - rewrite list_lookup_alter_eq in Hx. apply fmap_Some in Hx as (x&Hx&->). eauto.
  - rewrite list_lookup_alter_ne in Hx by done. eauto with pipe.
Qed.

Lemma callers_insert (cs : list caller) i c c1 j c' :
  cs !! i = Some c → caller_next c c1 → <[i := c1]> cs !! j = Some c' → ∃ c, cs !! j = Some c ∧ caller_next c c'.
Proof.
  intros Hc Hn [(->&<-&_)|[_ ?]]%list_lookup_insert_Some; eauto with pipe.
Qed.

Lemma signalled_next tr e x : work_next tr x (signalled (Some e) x).
Proof. unfold signalled. split; cbn; [done|]. by right; left. Qed.

Lemma setResp_next tr x p : pw_done x = 0 → work_next tr x (setResp x p).
Proof.
  intros Hd. destruct (setResp_same x p) as [Hd' _]. split; [|left; congruence].
  unfold setResp. destruct (pw_resp x) eqn:E; [done|]. by cbn.
Qed.

Lemma setReq_resp x q : pw_resp (setReq x q) = pw_resp x.
Proof. unfold setReq. by destruct (pw_req x). Qed.

Lemma setResp_resp x p : pw_resp x = None → pw_resp (setResp x p) = None.
Proof. intros E. unfold setResp. rewrite E. by cbn. Qed.

Lemma setResp_the x p : theResp (setResp x p) = p.
Proof. unfold setResp, theResp. destruct (pw_resp x) eqn:E; [done|]. cbn. by rewrite E. Qed.

(** Each work is in one place at most. *)
Lemma one_place st w x :
  pipe_ok st → pl_works st !! w = Some x →
  is_in w (pl_pool st) + total (λ c, is_in w (caller_hands (ca_pc c))) (pl_callers st)
  + total (is_in w) (pl_chans st) + total (λ k, is_in w (worker_hands k)) (pl_workers st) + pw_done x = 1.
Proof.
  intros Hok Hx. pose proof (po_places _ Hok w) as Hp. unfold places, signals in Hp. rewrite Hx in Hp.
  change (default 0 (pw_done <$> Some x)) with (pw_done x) in Hp. rewrite Hp. unfold known.
  destruct (Nat.ltb_spec w (length (pl_works st))) as [|Hge]; [done|]. by apply lookup_ge_None in Hge as Hn; simplify_eq.
Qed.

(** A work in the hands of a goroutine is not signalled. *)
Lemma held_undone st j k w x :
  pipe_ok st → pl_workers st !! j = Some k → w ∈ worker_hands k → pl_works st !! w = Some x → pw_done x = 0.
Proof.
  intros Hok Hk Hw Hx. pose proof (one_place st w x Hok Hx) as Hp.
  pose proof (total_elem (λ k, is_in w (worker_hands k)) _ _ _ Hk) as Ht. cbn in Ht.
  assert (is_in w (worker_hands k) ≠ 0) by (rewrite is_in_0; auto). lia.
Qed.

Ltac still := intros; eauto with pipe.

(** Steps of one caller that leave the works alone or signal one of them. *)
Lemma caller_evolves st st1 i c pc :
  pl_callers st !! i = Some c → pl_callers st1 = pl_callers st → pl_trace st1 = pl_trace st →
  (∀ w x', pl_works st1 !! w = Some x' → ∃ x, pl_works st !! w = Some x ∧ work_next (pl_trace st) x x') →
  caller_work pc = None ∨ caller_work pc = caller_work (ca_pc c) →
  evolves st (setCaller st1 i c pc).
Proof.
  intros Hc Ec Et Hw Hpc. apply quiet_evolves; cbn; rewrite ?Ec, ?Et; [done| |by left].
  intros j c'. by apply callers_insert with c.
Qed.

Lemma worker_evolves st st1 j k :
  pl_callers st1 = pl_callers st → quiet (pl_trace st) (pl_trace st1) →
  (∀ w x', pl_works st1 !! w = Some x' → ∃ x, pl_works st !! w = Some x ∧ work_next (pl_trace st1) x x') →
  evolves st (setWorker st1 j k).
Proof. intros Ec Et Hw. apply quiet_evolves; cbn; rewrite ?Ec; [done| |done]. still. Qed.

Lemma push_works st c w st' : push st c w = Some st' →
  pl_works st' = pl_works st ∧ pl_callers st' = pl_callers st ∧ pl_trace st' = pl_trace st.
Proof. by intros (i&q&_&_&->)%push_inv. Qed.

Lemma pop_works st c w st' : pop st c = Some (w, st') →
  pl_works st' = pl_works st ∧ pl_callers st' = pl_callers st ∧ pl_trace st' = pl_trace st.
Proof. by intros (i&q&_&_&->)%pop_inv. Qed.

Lemma signal_works st w e st' : signal st w (Some e) = Some st' →
  (∀ tr v x', pl_works st' !! v = Some x' → ∃ x, pl_works st !! v = Some x ∧ work_next tr x x') ∧
  pl_callers st' = pl_callers st ∧ pl_trace st' = pl_trace st.
Proof.
  intros (x&Hx&Hd&->)%signal_inv. split_and!; [|done|done]. intros tr v x' Hv. cbn in Hv.
  eapply works_alter; [exact Hv|]. intros y _. apply signalled_next.
Qed.

Lemma release_evolves st i c w err resp :
  pl_callers st !! i = Some c → match err with None => False | _ => True end →
  (∀ x, pl_works st !! w = Some x → pw_done x = 0) →
  evolves st (returned (release st w) i c err resp).
Proof.
  intros Hc He Hd. apply quiet_evolves; cbn.
  - intros v x' Hv. eapply works_alter; [exact Hv|]. intros x Hx. split; [done|]. left. cbn. by apply Hd.
  - intros j c'. apply callers_insert with c; [done|]. split; [done|by left].
  - right. eexists. split; [done|]. by destruct err.
Qed.

Lemma own_undone st i c w x :
  pipe_ok st → pl_callers st !! i = Some c → w ∈ caller_hands (ca_pc c) → pl_works st !! w = Some x → pw_done x = 0.
Proof.
  intros Hok Hc Hw Hx. pose proof (one_place st w x Hok Hx) as Hp.
  pose proof (total_elem (λ c, is_in w (caller_hands (ca_pc c))) _ _ _ Hc) as Ht. cbn in Ht.
  assert (is_in w (caller_hands (ca_pc c)) ≠ 0) by (rewrite is_in_0; auto). lia.
Qed.

Lemma callReturn_evolves st i st' :
  pipe_ok st → callReturn requestLimit responseLimit elsewhere st i = Some st' → evolves st st'.
Proof.
  intros Hok (c&Hc&E)%bind_Some. destruct (ca_pc c) as [w|w|w wOld|w|w|] eqn:Epc; try done.
  apply bind_Some in E as (y&Hy&E). destruct (Nat.eqb_spec (pw_done y) 0) as [|Hd]; [done|]. injection E as <-.
  split; cbn.
  - intros v x' Hv. rewrite list_alter_alter_eq in Hv. eapply works_alter; [exact Hv|]. intros x Hx. split; [done|by left].
  - intros j c'. apply callers_insert with c; [done|]. split; [done|by left].
  - intros e He. apply elem_of_app. by left.
  - intros j resp [?|Hj%list_elem_of_singleton]%elem_of_app; [by left|]. injection Hj as -> He ->. right.
    exists c, w, y. by rewrite Epc.
Qed.

(** The works after a step that pushed, popped or signalled an error. *)
Ltac evolved :=
  repeat match goal with
  | H : pipelineConnClient.push _ _ _ _ = Some _ |- _ => apply push_works in H as (?&?&?)
  | H : pop _ _ = Some _ |- _ => apply pop_works in H as (?&?&?)
  | H : signal _ _ (Some _) = Some _ |- _ => apply signal_works in H as (?&?&?)
  end;
  first
    [ done
    | by auto
    | let x := fresh in let Hx := fresh in intros ? x Hx; exists x; split; [congruence|apply work_same] ].

Ltac caller_step Epc := apply caller_evolves; [done|evolved|evolved|evolved|rewrite Epc; first [by left|by right]].

Lemma callPut_evolves st i st' : callPut cfg st i = Some st' → evolves st st'.
Proof.
  intros (c&Hc&E)%bind_Some. destruct (ca_pc c) as [w|w|w wOld|w|w|] eqn:Epc; try done.
  apply bind_Some in E as (st1&Hp&E). injection E as <-. caller_step Epc.
Qed.

Lemma callFull_evolves st i st' : callFull cfg st i = Some st' → evolves st st'.
Proof.
  intros (c&Hc&E)%bind_Some. destruct (ca_pc c) as [w|w|w wOld|w|w|] eqn:Epc; try done.
  destruct (negb _ && _); [|done]. injection E as <-. caller_step Epc.
Qed.

Lemma callSteal_evolves st i st' : callSteal st i = Some st' → evolves st st'.
Proof.
  intros (c&Hc&E)%bind_Some. destruct (ca_pc c) as [w|w|w wOld|w|w|] eqn:Epc; try done.
  destruct (pop st (pl_chW st)) as [[wOld st1]|] eqn:Hp; injection E as <-; caller_step Epc.
Qed.

Lemma callOverflow_evolves st i st' : callOverflow st i = Some st' → evolves st st'.
Proof.
  intros (c&Hc&E)%bind_Some. destruct (ca_pc c) as [w|w|w wOld|w|w|] eqn:Epc; try done.
  apply bind_Some in E as (st1&Hs&E). injection E as <-. caller_step Epc.
Qed.

Lemma callRetry_evolves st i st' :
  pipe_ok st → callRetry requestLimit responseLimit cfg elsewhere st i = Some st' → evolves st st'.
Proof.
  intros Hok (c&Hc&E)%bind_Some. destruct (ca_pc c) as [w|w|w wOld|w|w|] eqn:Epc; try done.
  destruct (push st (pl_chW st) w) as [st1|] eqn:Hp; [injection E as <-; caller_step Epc|].
  apply bind_Some in E as (y&Hy&E). injection E as <-. apply release_evolves; [done|done|].
  intros x Hx. eapply own_undone; [done|done| |done]. rewrite Epc. set_solver.
Qed.

Lemma callTimeout_evolves st i st' :
  pipe_ok st → callTimeout requestLimit responseLimit elsewhere st i = Some st' → evolves st st'.
Proof.
  intros Hok (c&Hc&E)%bind_Some. destruct (negb _); [done|].
  destruct (ca_pc c) as [w|w|w wOld|w|w|] eqn:Epc; try done; injection E as <-.
  - apply release_evolves; [done|done|]. intros x Hx. eapply own_undone; [done|done| |done]. rewrite Epc. set_solver.
  - apply quiet_evolves; cbn.
    + still.
    + intros j c'. apply callers_insert with c; [done|]. split; [done|by left].
    + right. by eexists.
Qed.

(** Goroutines. *)
Lemma goroutine_evolves st st1 j k :
  pl_callers st1 = pl_callers st → pl_trace st1 = pl_trace st →
  (∀ w x', pl_works st1 !! w = Some x' → ∃ x, pl_works st !! w = Some x ∧ work_next (pl_trace st) x x') →
  evolves st (setWorker st1 j k).
Proof. intros Ec Et Hw. apply worker_evolves; [done|by left|by rewrite Et]. Qed.

Ltac goroutine_step := apply goroutine_evolves; evolved.

Lemma writerWrite_evolves st j now e st' :
  pipe_ok st → writerWrite cfg elsewhere st j now e = Some st' → evolves st st'.
Proof.
  intros Hok (k&Hk&E)%bind_Some. destruct (wr_pc (wk_writer k)) eqn:Epc; try done.
  apply bind_Some in E as (x&Hx&E).
  assert (pw_done x = 0) as Hd.
  { eapply held_undone; [done|done| |done]. unfold worker_hands. rewrite Epc. set_solver. }
  destruct (expiredWork x now).
  { apply bind_Some in E as (st1&Hs&E). injection E as <-. goroutine_step. }
  cbv zeta in E. set (p := (theResp x) <| re_raddr := _ |> <| re_laddr := _ |>) in E.
  destruct (setResp_same x p) as [Hd1 _].
  assert (∀ tr f v x', alter f w (pl_works st) !! v = Some x' → pw_resp (f x) = pw_resp (setResp x p) →
    pw_done (f x) = 0 ∨ pw_err (f x) ≠ None → ∃ y, pl_works st !! v = Some y ∧ work_next tr y x') as Hsig.
  { intros tr f v x' Hv Hf Ho. eapply works_alter in Hv; [exact Hv|]. intros y Hy. simplify_eq. split; [|tauto].
    intros Hn. rewrite Hf. by apply setResp_resp. }
  destruct (if (0 <? _)%Z then e else None) as [e'|].
  { apply bind_Some in E as (st1&Hs&E). injection E as <-. apply signal_inv in Hs as (y&_&_&->). cbn.
    apply goroutine_evolves; [done|done|]. cbn. intros v x'. rewrite list_alter_alter_eq. intros Hv.
    eapply Hsig; [exact Hv|done|by right]. }
  destruct (Request.Write _ _ _) as [[[err bw] q] r'].
  destruct (setReq_same (setResp x p) q) as [Hd2 _]. destruct err as [e'|].
  - apply bind_Some in E as (st1&Hs&E). injection E as <-. apply signal_inv in Hs as (y&_&_&->). cbn.
    apply goroutine_evolves; [done|done|]. cbn. intros v x'. rewrite list_alter_alter_eq. intros Hv.
    eapply Hsig; [exact Hv|apply setReq_resp|by right].
  - injection E as <-. apply quiet_evolves; cbn; [|still|right; by eexists].
    intros v x' Hv. eapply Hsig; [exact Hv|apply setReq_resp|left; cbn; congruence].
Qed.

Lemma readerRead_evolves st j e st' :
  pipe_ok st → readerRead cfg st j e = Some st' → evolves st st'.
Proof.
  intros Hok (k&Hk&E)%bind_Some. destruct (rd_pc (wk_reader k)) eqn:Epc; try done.
  apply bind_Some in E as (x&Hx&E). destruct (if (0 <? _)%Z then e else None) as [e'|].
  { apply bind_Some in E as (st1&Hs&E). injection E as <-. goroutine_step. }
  cbv zeta in E. destruct (Response.Read _ _) as [[err p] br].
  destruct err as [e'|]; apply bind_Some in E as (st1&Hs&E); injection E as <-; apply signal_inv in Hs as (y&_&_&->).
  - apply goroutine_evolves; [done|done|]. cbn. intros v x'. rewrite list_alter_alter_eq. intros Hv.
    eapply works_alter; [exact Hv|]. intros z Hz. split; [|by right; left]. apply setResp_resp.
  - apply quiet_evolves; cbn; [|still|right; by eexists].
    intros v x'. rewrite list_alter_alter_eq. intros Hv. eapply works_alter; [exact Hv|]. intros z Hz. simplify_eq.
    split; [apply setResp_resp|]. right; right; left. exists (cn_id (wk_conn k)). apply elem_of_app. right.
    apply list_elem_of_singleton. cbn. f_equal; [apply setResp_same|apply setResp_the].
Qed.

Lemma goroutines_evolve st j :
  (∀ st', writerStart st j = Some st' → evolves st st') ∧ (∀ st', writerSelect st j = Some st' → evolves st st') ∧
  (∀ st', writerRecv st j = Some st' → evolves st st') ∧ (∀ st', writerIdle st j = Some st' → evolves st st') ∧
  (∀ st', writerStop st j = Some st' → evolves st st') ∧ (∀ e st', writerFlush st j e = Some st' → evolves st st') ∧
  (∀ st', writerPut cfg st j = Some st' → evolves st st') ∧ (∀ st', readerStart st j = Some st' → evolves st st') ∧
  (∀ st', readerSelect st j = Some st' → evolves st st') ∧ (∀ st', readerRecv st j = Some st' → evolves st st') ∧
  (∀ st', readerStop st j = Some st' → evolves st st').
Proof.
  split_and!; intros; match goal with E : _ = Some _ |- _ => apply bind_Some in E as (k&Hk&E) end;
    cbv zeta in *; goroutine_cases; goroutine_step.
Qed.

Lemma workers_evolve st j :
  (∀ r l bw br st', workerDial st j r l bw br = Some st' → evolves st st') ∧
  (∀ e st', connFails st j e = Some st' → evolves st st') ∧ (∀ st', workerJoin st j = Some st' → evolves st st') ∧
  (∀ st', workerJoinReader st j = Some st' → evolves st st') ∧ (∀ st', workerDrain st j = Some st' → evolves st st') ∧
  (∀ st', workerLoop st j = Some st' → evolves st st').
Proof.
  split_and!; intros; match goal with E : _ = Some _ |- _ => apply bind_Some in E as (k&Hk&E) end;
    cbv zeta in *; goroutine_cases; first [goroutine_step|apply quiet_evolves; cbn; [still|still|by left]].
Qed.

Lemma act_evolves st a st' :
  pipe_ok st → act st a = Some st' → match a with aDo _ _ | aDoDeadline _ _ _ _ => False | _ => True end → evolves st st'.
Proof.
  intros Hok E Ha. destruct a; try done; cbn [pipelineConnClient.act] in E; clear Ha;
   [exact (callPut_evolves _ _ _ E)|exact (callFull_evolves _ _ _ E)|exact (callSteal_evolves _ _ _ E)|
    exact (callOverflow_evolves _ _ _ E)|exact (callRetry_evolves _ _ _ Hok E)|exact (callTimeout_evolves _ _ _ Hok E)|
    exact (callReturn_evolves _ _ _ Hok E)|..].
  7: exact (writerWrite_evolves _ _ _ _ _ Hok E).
  12: exact (readerRead_evolves _ _ _ _ Hok E).
  1-11: destruct (goroutines_evolve st j) as (H1&H2&H3&H4&H5&H6&H7&H8&H9&H10&H11);
    first [exact (H1 _ E)|exact (H2 _ E)|exact (H3 _ E)|exact (H4 _ E)|exact (H5 _ E)|exact (H6 _ _ E)|
           exact (H7 _ E)|exact (H8 _ E)|exact (H9 _ E)|exact (H10 _ E)|exact (H11 _ E)].
  all: destruct (workers_evolve st j) as (H1&H2&H3&H4&H5&H6);
    first [exact (H1 _ _ _ _ _ E)|exact (H2 _ _ E)|exact (H3 _ E)|exact (H4 _ E)|exact (H5 _ E)|exact (H6 _ E)].
Qed.

(** New calls. *)
Lemma answered_record st e :
  answered st → match e with evReturn _ None _ => False | _ => True end → answered (record st e).
Proof.
  intros [Hw Ht Hr] He.
  assert (∀ i p, read_for (pl_trace st) i p → read_for (pl_trace st ++ [e]) i p) as Hm.
  { intros i p. apply read_for_mono. intros e' He'. apply elem_of_app. by left. }
  split; cbn; [eauto|eauto|]. intros i resp [Hin|<-%list_elem_of_singleton]%elem_of_app; [|done].
  destruct (Hr i resp Hin) as (p&?&?). eauto.
Qed.

Lemma answered_init st : answered st → answered (init st).
Proof.
  intros [Hw Ht Hr]. unfold init. destruct (pl_chR st); [by split|]. cbn. destruct (pl_chW st); by split.
Qed.

(** A new work is not signalled, and the others stay as they are. *)
Lemma acquire_new st d i w st1 f v x' :
  pipe_ok st → acquirePipelineWork st d i = (w, st1) → (∀ y, pw_done (f y) = pw_done y) →
  alter f w (pl_works st1) !! v = Some x' →
  v ≠ w ∧ pl_works st !! v = Some x' ∨ v = w ∧ pw_done x' = 0 ∧ ∃ y, x' = f y.
Proof.
  intros Hok E Hfd Hv. unfold acquirePipelineWork in E.
  destruct (pl_pool st) as [|u pool] eqn:Ep; injection E as <- <-; cbn in Hv.
  - destruct (decide (v = length (pl_works st))) as [->|Hne].
    + right. split; [done|]. rewrite list_lookup_alter_eq, list_lookup_middle in Hv by done. injection Hv as <-.
      split; [by rewrite Hfd|eauto].
    + left. split; [done|]. rewrite list_lookup_alter_ne in Hv by done.
      apply lookup_app_Some in Hv as [?|[? [? _]%list_lookup_singleton_Some]]; [done|lia].
  - destruct (decide (v = u)) as [->|Hne].
    + right. split; [done|]. rewrite !list_lookup_alter_eq in Hv. destruct (pl_works st !! u) as [y|] eqn:Hy; [|done].
      injection Hv as <-. split; [|eauto]. rewrite Hfd. cbn. pose proof (one_place st u y Hok Hy) as Hp.
      rewrite Ep, is_in_cons in Hp. unfold is_id in Hp. rewrite decide_True in Hp by done. lia.
    + left. split; [done|]. by rewrite !list_lookup_alter_ne in Hv.
Qed.

Lemma acquire_rest st d i w st1 :
  acquirePipelineWork st d i = (w, st1) →
  pl_callers st1 = pl_callers st ∧ pl_trace st1 = pl_trace st ∧ pl_workers st1 = pl_workers st ∧
  pl_chans st1 = pl_chans st ∧ pl_chR st1 = pl_chR st ∧ pl_chW st1 = pl_chW st ∧ pl_dials st1 = pl_dials st.
Proof. unfold acquirePipelineWork. destruct (pl_pool st); by intros [= <- <-]. Qed.

Lemma answered_acquire st d i w st1 t resp f :
  pipe_ok st → answered st → acquirePipelineWork st d i = (w, st1) →
  (∀ y, pw_done (f y) = pw_done y) → (t = true → ∀ y, pw_resp (f y) = None) →
  answered ((updWork st1 w f) <| pl_callers := pl_callers st1 ++ [mkCaller t resp (cPut w)] |>).
Proof.
  intros Hok [Hw Ht Hr] E Hfd Hft. destruct (acquire_rest _ _ _ _ _ E) as (Ec&Et&_).
  split; cbn; rewrite ?Ec, ?Et.
  - intros v x' Hv Hd He. destruct (acquire_new _ _ _ _ _ _ _ _ Hok E Hfd Hv) as [[_ ?]|(_&?&_)]; [eauto|done].
  - intros j c v x' Hl Htm Hcw Hv. destruct (acquire_new _ _ _ _ _ _ _ _ Hok E Hfd Hv) as [[Hne Hx]|(->&_&y&->)].
    + apply lookup_app_Some in Hl as [?|[_ [_ <-]%list_lookup_singleton_Some]]; [eauto|]. cbn in Hcw. congruence.
    + apply lookup_app_Some in Hl as [Hl|[_ [_ <-]%list_lookup_singleton_Some]]; [|auto].
      destruct (po_calls _ Hok j c w Hl Hcw) as (Hnp&Hlt&_). exfalso. unfold acquirePipelineWork in E.
      destruct (pl_pool st) as [|u pool] eqn:Ep; injection E as <- _; [lia|set_solver].
  - done.
Qed.

Lemma act_answered st a st' : pipe_ok st → answered st → act st a = Some st' → answered st'.
Proof.
  intros Hok Ha E.
  assert (∀ i, pipe_ok (record (init st) (evCall i)) ∧ answered (record (init st) (evCall i))) as Hst.
  { intros i. split; [by apply ok_record, init_ok|]. apply answered_record; [by apply answered_init|done]. }
  assert (match a with aDo _ _ | aDoDeadline _ _ _ _ => False | _ => True end → answered st') as Hrest.
  { intros Hn. eapply evolves_answered; [done|done|]. by eapply act_evolves. }
  destruct a; try (by apply Hrest); clear Hrest; cbn in E; injection E as <-; destruct (Hst (length (pl_callers st))) as [Hok1 Ha1].
  - unfold Do. destruct (acquirePipelineWork _ _ _) as [w st1] eqn:E. by eapply (answered_acquire (record (init st) _) None).
  - unfold DoDeadline. destruct (_ <=? 0)%Z.
    + apply answered_record; [|done]. destruct Ha1 as [Hw Ht Hr]. split; [done| |done].
      cbn. intros i c w x [?|[_ [_ <-]%list_lookup_singleton_Some]]%lookup_app_Some; [by eauto|done].
    + destruct (acquirePipelineWork _ _ _) as [w st1] eqn:E. by eapply (answered_acquire (record (init st) _) (Some deadline)).
Qed.

Lemma run_answered l st : run pipe_start l = Some st → pipe_ok st ∧ answered st.
Proof.
  apply (run_ind requestLimit responseLimit cfg elsewhere (λ st, pipe_ok st ∧ answered st)).
  - intros st1 a st2 [Hok Ha] E. split; [by eapply act_ok|by eapply act_answered].
  - split; [apply start_ok|]. split; [done|done|]. intros i resp. set_solver.
Qed.
End answers.

(** * Responses in the order of the requests *)

Definition written_on (c : nat) (e : pipe_event) : option nat :=
  match e with evWritten c' i _ => if c' =? c then Some i else None | _ => None end.
Definition read_on (c : nat) (e : pipe_event) : option nat :=
  match e with evRead c' i _ => if c' =? c then Some i else None | _ => None end.

(** The calls whose requests were written to a connection, those whose responses were read from
    it, and all that were written. *)
Definition writes (c : nat) (tr : list pipe_event) : list nat := omap (written_on c) tr.
Definition reads (c : nat) (tr : list pipe_event) : list nat := omap (read_on c) tr.
Definition written (tr : list pipe_event) : list nat :=
  omap (λ e, match e with evWritten _ i _ => Some i | _ => None end) tr.

#[global] Arguments writes : simpl never.
#[global] Arguments reads : simpl never.
#[global] Arguments written : simpl never.

Definition put_hands (pc : writer_pc) : list nat := match pc with wPut w | wPutSlow w => [w] | _ => [] end.

(** The calls that wait for a response on the connection of [k]. *)
Definition line (calls : nat → nat) (k : worker) (cr : list nat) : list nat :=
  calls <$> reader_hands (rd_pc (wk_reader k)) ++ cr ++ put_hands (wr_pc (wk_writer k)).

Record lined (tr : list pipe_event) (calls : nat → nat) (dials : nat) (k : worker) (cr : list nat) : Prop := {
  ln_writer : wr_pc (wk_writer k) = wStart ∨ wr_chR (wk_writer k) = Some 0 ∧ wr_chW (wk_writer k) = Some 1;
  ln_reader : rd_pc (wk_reader k) = rStart ∨ rd_chR (wk_reader k) = Some 0;
  ln_id : wk_pc k = kDial ∨ cn_id (wk_conn k) < dials;
  ln_line : wk_pc k = kDial ∨ reader_over k ∨
    ∃ lost, writes (cn_id (wk_conn k)) tr = reads (cn_id (wk_conn k)) tr ++ line calls k cr ++ lost ∧
            (lost = [] ∨ writer_over k);
  ln_empty : match wk_pc k with kDial | kReturned _ | kGone => cr = [] | _ => True end
}.

(** A work that was not written: with a caller, in the queue or taken from it. *)
Definition unwritten (st : pipelineConnClient) (w : nat) : Prop :=
  (∃ i c, pl_callers st !! i = Some c ∧ w ∈ caller_hands (ca_pc c)) ∨
  (∃ cw, pl_chans st !! 1 = Some cw ∧ w ∈ cw) ∨
  (∃ j k, pl_workers st !! j = Some k ∧ wr_pc (wk_writer k) = wHave w).

Definition at_work (st : pipelineConnClient) (k : worker) (cr cw : list nat) : Prop :=
  pl_workers st = [k] ∧ pl_chR st = Some 0 ∧ pl_chW st = Some 1 ∧ pl_chans st = [cr; cw] ∧
  lined (pl_trace st) (callOf (pl_works st)) (pl_dials st) k cr.

Definition asleep (st : pipelineConnClient) : Prop :=
  pl_workers st = [] ∧ pl_chR st = None ∧ pl_chW st = None ∧ pl_chans st = [].

(** Calls have numbers of their own. *)
Record numbered (st : pipelineConnClient) : Prop := {
  nu_uniq v w : v < length (pl_works st) → w < length (pl_works st) → v ∉ pl_pool st → w ∉ pl_pool st →
    callOf (pl_works st) v = callOf (pl_works st) w → v = w;
  nu_bound w : w < length (pl_works st) → callOf (pl_works st) w < length (pl_callers st);
  nu_written i : i ∈ written (pl_trace st) → i < length (pl_callers st)
}.

Record in_order (st : pipelineConnClient) : Prop := {
  or_dialled c : pl_dials st ≤ c → writes c (pl_trace st) = [] ∧ reads c (pl_trace st) = [];
  or_prefix c : reads c (pl_trace st) `prefix_of` writes c (pl_trace st);
  or_once : NoDup (written (pl_trace st));
  or_fresh w : unwritten st w → callOf (pl_works st) w ∉ written (pl_trace st);
  or_numbered : numbered st;
  or_shape : asleep st ∨ ∃ k cr cw, at_work st k cr cw
}.

(** An event that is neither a write nor a read changes no list. *)
Definition other (e : pipe_event) : Prop := match e with evWritten _ _ _ | evRead _ _ _ => False | _ => True end.

Lemma writes_snoc c tr e : writes c (tr ++ [e]) = writes c tr ++ option_list (written_on c e).
Proof. unfold writes. rewrite omap_app. cbn. by destruct (written_on c e). Qed.

Lemma reads_snoc c tr e : reads c (tr ++ [e]) = reads c tr ++ option_list (read_on c e).
Proof. unfold reads. rewrite omap_app. cbn. by destruct (read_on c e). Qed.

Lemma other_lists tr e : other e →
  (∀ c, writes c (tr ++ [e]) = writes c tr ∧ reads c (tr ++ [e]) = reads c tr) ∧ written (tr ++ [e]) = written tr.
Proof.
  intros He. split; [intros c; rewrite writes_snoc, reads_snoc|unfold written; rewrite omap_app];
    destruct e; try done; cbn; by rewrite ?app_nil_r.
Qed.

(** Two traces with the same lists. *)
Definition same_lists (tr tr' : list pipe_event) : Prop :=
  (∀ c, writes c tr' = writes c tr ∧ reads c tr' = reads c tr) ∧ written tr' = written tr.

Lemma lined_same tr tr' calls calls' dials k cr :
  same_lists tr tr' →
  (∀ w, w ∈ reader_hands (rd_pc (wk_reader k)) ++ cr ++ put_hands (wr_pc (wk_writer k)) → calls' w = calls w) →
  lined tr calls dials k cr → lined tr' calls' dials k cr.
Proof.
  intros [Hc _] Hf [H1 H2 H3 H4 H5]. split; try done.
  destruct H4 as [?|[?|(lost&E&Hl)]]; [by left|right; by left|]. right; right. exists lost.
  destruct (Hc (cn_id (wk_conn k))) as [-> ->]. split; [|done]. rewrite E. do 2 f_equal. unfold line.
  apply list_fmap_ext. intros j w Hw. symmetry. apply Hf. by eapply list_elem_of_lookup_2.
Qed.

Section order.
Context `{ByteBufferOps} `{MultipartOps} (requestLimit responseLimit : Z) (cfg : PipelineConfig) (elsewhere : Reader).
Abbreviation push := (push cfg).
Abbreviation act := (act requestLimit responseLimit cfg elsewhere).
Abbreviation run := (run requestLimit responseLimit cfg elsewhere).
Abbreviation release := (releasePipelineWork requestLimit responseLimit elsewhere).

(** Calls keep their numbers, and works only go back to the pool. *)
Definition later (st st' : pipelineConnClient) : Prop :=
  length (pl_works st') = length (pl_works st) ∧ (∀ w, callOf (pl_works st') w = callOf (pl_works st) w) ∧
  length (pl_callers st') = length (pl_callers st) ∧ (∀ w, w ∈ pl_pool st → w ∈ pl_pool st').

Lemma numbered_later st st' :
  numbered st → later st st' → (∀ i, i ∈ written (pl_trace st') → i < length (pl_callers st)) → numbered st'.
Proof.
  intros [Hu Hb Hw] (El&Ek&Ec&Hp) Hw'. split.
  - intros v w. rewrite El, !Ek. intros ?? Hv Hx. apply Hu; [done|done|naive_solver..].
  - intros w. rewrite El, Ek, Ec. apply Hb.
  - rewrite Ec. done.
Qed.

(** A step without a write, a read or a dial. *)
Lemma order_quiet st st' :
  in_order st → later st st' → same_lists (pl_trace st) (pl_trace st') → pl_dials st' = pl_dials st →
  (∀ w, unwritten st' w → unwritten st w) → (asleep st' ∨ ∃ k cr cw, at_work st' k cr cw) → in_order st'.
Proof.
  intros [Hd Hp Ho Hf Hn Hs] Hl [Hc Hw] Ed Hu Hs'. split; try done.
  - intros c. rewrite Ed. destruct (Hc c) as [-> ->]. apply Hd.
  - intros c. destruct (Hc c) as [-> ->]. apply Hp.
  - by rewrite Hw.
  - intros w Hx. destruct Hl as (_&Ek&_). rewrite Hw, Ek. auto.
  - eapply numbered_later; [done|done|]. rewrite Hw. apply Hn.
Qed.

Lemma shape_of st j k :
  in_order st → pl_workers st !! j = Some k → j = 0 ∧ ∃ cr cw, at_work st k cr cw.
Proof.
  intros Ho Hj. destruct (or_shape _ Ho) as [(E&_)|(k'&cr&cw&Ha)]; [by rewrite E in Hj|].
  pose proof Ha as (E&_). rewrite E in Hj. destruct j; [|done]. injection Hj as ->. eauto.
Qed.

(** ** Steps of calls *)

Definition queue_only (st st' : pipelineConnClient) : Prop :=
  pl_chans st' = pl_chans st ∨ ∃ i q, pl_chW st = Some i ∧ pl_chans st' = <[i := q]> (pl_chans st).

Lemma order_call st st' :
  in_order st → later st st' → same_lists (pl_trace st) (pl_trace st') → pl_dials st' = pl_dials st →
  pl_workers st' = pl_workers st → pl_chR st' = pl_chR st → pl_chW st' = pl_chW st → queue_only st st' →
  (∀ w, unwritten st' w → unwritten st w) → in_order st'.
Proof.
  intros Ho Hl Ht Ed Ew Er Ec Hq Hu. eapply order_quiet; [done..|].
  destruct (or_shape _ Ho) as [(E1&E2&E3&E4)|(k&cr&cw&E1&E2&E3&E4&Hln)].
  - left. unfold asleep. rewrite Ew, Er, Ec. split_and!; try done. destruct Hq as [->|(i&q&E&_)]; [done|congruence].
  - right. exists k, cr, (default cw (pl_chans st' !! 1)). unfold at_work. rewrite Ew, Er, Ec, Ed. split_and!; try done.
    + destruct Hq as [->|(i&q&E&->)]; [by rewrite E4|]. rewrite E3 in E. injection E as <-. by rewrite E4.
    + eapply lined_same; [exact Ht| |done]. intros w _. apply Hl.
Qed.

Lemma later_refl st : later st st.
Proof. by split_and!. Qed.

Lemma later_caller st st1 i c pc : later st st1 → later st (setCaller st1 i c pc).
Proof. intros (?&?&?&?). split_and!; cbn; rewrite ?length_insert; done. Qed.

Lemma later_push st c w st1 : push st c w = Some st1 → later st st1.
Proof. by intros (i&q&_&_&->)%push_inv. Qed.

Lemma later_pop st c w st1 : pop st c = Some (w, st1) → later st st1.
Proof. by intros (i&q&_&_&->)%pop_inv. Qed.

Lemma later_upd st st1 w f : later st st1 → (∀ y, pw_call (f y) = pw_call y) → later st (updWork st1 w f).
Proof.
  intros (?&Hc&?&?) Hf. split_and!; cbn; rewrite ?length_alter; try done. intros v. rewrite callOf_alter by auto. done.
Qed.

Lemma later_signal st w e st1 : signal st w e = Some st1 → later st st1.
Proof. intros (x&_&_&->)%signal_inv. apply later_upd; [apply later_refl|]. by destruct e. Qed.

Lemma later_release st st1 w : later st st1 → later st (release st1 w).
Proof.
  intros Hl. unfold releasePipelineWork. cbv zeta. eapply later_upd with (w := w) (f := λ x,
    x <| pw_reqCopy := (Request.Reset requestLimit (pw_reqCopy x) elsewhere).1 |>
      <| pw_respCopy := Response.Reset responseLimit (pw_respCopy x) |>
      <| pw_req := None |> <| pw_resp := None |> <| pw_err := None |>) in Hl; [|done].
  destruct Hl as (?&?&?&?). split_and!; try done. cbn. intros v Hv. apply elem_of_cons. right. auto.
Qed.

Lemma same_lists_refl tr : same_lists tr tr.
Proof. by split. Qed.

Lemma same_lists_other tr e : other e → same_lists tr (tr ++ [e]).
Proof. intros He. destruct (other_lists tr e He). by split. Qed.

(** After a caller moved on, its hands hold what they held or what it took from the queue. *)
Lemma unwritten_caller st st' i c pc w :
  pl_callers st !! i = Some c → pl_callers st' = <[i := c <| ca_pc := pc |>]> (pl_callers st) →
  pl_workers st' = pl_workers st →
  (w ∈ caller_hands pc → w ∈ caller_hands (ca_pc c) ∨ ∃ cw, pl_chans st !! 1 = Some cw ∧ w ∈ cw) →
  (∀ cw', pl_chans st' !! 1 = Some cw' → w ∈ cw' → w ∈ caller_hands (ca_pc c) ∨ ∃ cw, pl_chans st !! 1 = Some cw ∧ w ∈ cw) →
  unwritten st' w → unwritten st w.
Proof.
  intros Hc Ec Ew Hh Hq [(j&c'&Hj&Hw)|[(cw&Hcw&Hw)|(j&k&Hj&Hk)]].
  - rewrite Ec in Hj. apply list_lookup_insert_Some in Hj as [(->&<-&_)|[_ Hj]]; [|left; eauto].
    destruct (Hh Hw) as [?|?]; [left; eauto|right; by left].
  - destruct (Hq cw Hcw Hw) as [?|?]; [left; eauto|right; by left].
  - right; right. rewrite Ew in Hj. eauto.
Qed.

Lemma chW_is_1 st : in_order st → pl_chW st = None ∨ pl_chW st = Some 1.
Proof. intros Ho. destruct (or_shape _ Ho) as [(?&?&?&?)|(k&cr&cw&?&?&?&?&?)]; auto. Qed.

Lemma push_queue st w st1 : in_order st → push st (pl_chW st) w = Some st1 →
  ∃ q, pl_chans st !! 1 = Some q ∧ st1 = st <| pl_chans := <[1 := q ++ [w]]> (pl_chans st) |> ∧ pl_chW st = Some 1.
Proof.
  intros Ho (i&q&Ei&Hq&->)%push_inv. destruct (chW_is_1 st Ho) as [E|E]; rewrite E in Ei; [done|].
  injection Ei as <-. eauto.
Qed.

Lemma pop_queue st w st1 : in_order st → pop st (pl_chW st) = Some (w, st1) →
  ∃ q, pl_chans st !! 1 = Some (w :: q) ∧ st1 = st <| pl_chans := <[1 := q]> (pl_chans st) |> ∧ pl_chW st = Some 1.
Proof.
  intros Ho (i&q&Ei&Hq&->)%pop_inv. destruct (chW_is_1 st Ho) as [E|E]; rewrite E in Ei; [done|].
  injection Ei as <-. eauto.
Qed.

(** A caller queues its work. *)
Lemma order_push st i c w st1 :
  in_order st → pl_callers st !! i = Some c → w ∈ caller_hands (ca_pc c) → push st (pl_chW st) w = Some st1 →
  in_order (setCaller st1 i c (cWait w)).
Proof.
  intros Ho Hc Hw Hp. destruct (push_queue st w st1 Ho Hp) as (q&Hq&->&Ew).
  eapply order_call; try done; [apply later_caller; by eapply later_push|right; by exists 1, (q ++ [w])|].
  intros v. eapply unwritten_caller; [done|done|done|cbn; set_solver|].
  cbn. intros cw'. rewrite list_lookup_insert_eq by by eapply lookup_lt_Some. intros [= <-] [?|?]%elem_of_app; [eauto|].
  left. set_solver.
Qed.

(** A caller moves on without a change of the queue, and may return or give its work back. *)
Lemma order_move st st1 i c pc tr :
  in_order st → pl_callers st !! i = Some c → later st st1 → pl_callers st1 = pl_callers st →
  pl_chans st1 = pl_chans st → pl_workers st1 = pl_workers st → pl_chR st1 = pl_chR st → pl_chW st1 = pl_chW st →
  pl_dials st1 = pl_dials st → (∀ w, w ∈ caller_hands pc → w ∈ caller_hands (ca_pc c)) →
  same_lists (pl_trace st) tr → in_order ((setCaller st1 i c pc) <| pl_trace := tr |>).
Proof.
  intros Ho Hc Hl Ec Eh Ew Er Ech Ed Hh Ht.
  eapply order_call; try done; [|by left; rewrite <- Eh|].
  - destruct Hl as (?&?&?&?). split_and!; try done. cbn. by rewrite length_insert, Ec.
  - intros v. eapply unwritten_caller; [done|cbn; by rewrite Ec|done|auto|]. cbn. rewrite Eh. eauto.
Qed.

Lemma callPut_order st i st' : in_order st → callPut cfg st i = Some st' → in_order st'.
Proof.
  intros Ho (c&Hc&E)%bind_Some. destruct (ca_pc c) as [w|w|w wOld|w|w|] eqn:Epc; try done.
  apply bind_Some in E as (st1&Hp&E). injection E as <-. eapply order_push; [done|done| |done]. rewrite Epc. set_solver.
Qed.

Lemma callFull_order st i st' : in_order st → callFull cfg st i = Some st' → in_order st'.
Proof.
  intros Ho (c&Hc&E)%bind_Some. destruct (ca_pc c) as [w|w|w wOld|w|w|] eqn:Epc; try done.
  destruct (negb _ && _); [|done]. injection E as <-.
  apply (order_move st st i c (cFull w) (pl_trace st)); try done. by rewrite Epc.
Qed.

Lemma callSteal_order st i st' : in_order st → callSteal st i = Some st' → in_order st'.
Proof.
  intros Ho (c&Hc&E)%bind_Some. destruct (ca_pc c) as [w|w|w wOld|w|w|] eqn:Epc; try done.
  destruct (pop st (pl_chW st)) as [[wOld st1]|] eqn:Hp; injection E as <-.
  - destruct (pop_queue st wOld st1 Ho Hp) as (q&Hq&->&Ew).
    eapply order_call; try done; [apply later_caller; by eapply later_pop|right; by exists 1, q|].
    intros v. eapply unwritten_caller; [done|done|done|..]; rewrite Epc.
    + intros Hv. cbn in Hv. apply elem_of_cons in Hv as [-> | ->%list_elem_of_singleton]; [left; set_solver|right].
      exists (wOld :: q). set_solver.
    + cbn. intros cw'. rewrite list_lookup_insert_eq by by eapply lookup_lt_Some. intros [= <-] ?. right.
      exists (wOld :: q). set_solver.
  - apply (order_move st st i c (cRetry w) (pl_trace st)); try done. by rewrite Epc.
Qed.

Lemma callOverflow_order st i st' : in_order st → callOverflow st i = Some st' → in_order st'.
Proof.
  intros Ho (c&Hc&E)%bind_Some. destruct (ca_pc c) as [w|w|w wOld|w|w|] eqn:Epc; try done.
  apply bind_Some in E as (st1&Hs&E). injection E as <-. pose proof (later_signal _ _ _ _ Hs) as Hl.
  apply signal_inv in Hs as (x&_&_&->).
  apply (order_move st (updWork st wOld (signalled (Some ErrPipelineOverflow))) i c (cRetry w) (pl_trace st)); try done. rewrite Epc. cbn. set_solver.
Qed.

Lemma order_return st f i c w err resp :
  in_order st → pl_callers st !! i = Some c → (∀ y, pw_call (f y) = pw_call y) →
  in_order (returned (release (updWork st w f) w) i c err resp) ∧ in_order (returned (release st w) i c err resp).
Proof.
  intros Ho Hc Hf.
  assert (∀ st1, later st st1 → pl_callers st1 = pl_callers st → pl_chans st1 = pl_chans st → pl_workers st1 = pl_workers st →
    pl_chR st1 = pl_chR st → pl_chW st1 = pl_chW st → pl_dials st1 = pl_dials st → pl_trace st1 = pl_trace st →
    in_order (returned st1 i c err resp)) as Hret.
  { intros st1 Hl E1 E2 E3 E4 E5 E6 E7. unfold returned, record.
    apply (order_move st st1 i c cReturned); try done; [set_solver|]. cbn. rewrite E7. by apply same_lists_other. }
  split; (apply Hret; [apply later_release|reflexivity..]); [by apply later_upd; [apply later_refl|]|apply later_refl].
Qed.

Lemma callRetry_order st i st' :
  in_order st → callRetry requestLimit responseLimit cfg elsewhere st i = Some st' → in_order st'.
Proof.
  intros Ho (c&Hc&E)%bind_Some. destruct (ca_pc c) as [w|w|w wOld|w|w|] eqn:Epc; try done.
  destruct (push st (pl_chW st) w) as [st1|] eqn:Hp.
  - injection E as <-. eapply order_push; [done|done| |done]. rewrite Epc. set_solver.
  - apply bind_Some in E as (y&Hy&E). injection E as <-. by apply (order_return st id).
Qed.

Lemma callTimeout_order st i st' :
  in_order st → callTimeout requestLimit responseLimit elsewhere st i = Some st' → in_order st'.
Proof.
  intros Ho (c&Hc&E)%bind_Some. destruct (negb _); [done|].
  destruct (ca_pc c) as [w|w|w wOld|w|w|] eqn:Epc; try done; injection E as <-.
  - by apply (order_return st id).
  - apply (order_move st st i c cReturned (pl_trace st ++ [evReturn i (Some errPipelineTimeout) (ca_resp c)])); try done;
      first [set_solver|by apply same_lists_other].
Qed.

Lemma callReturn_order st i st' :
  in_order st → callReturn requestLimit responseLimit elsewhere st i = Some st' → in_order st'.
Proof.
  intros Ho (c&Hc&E)%bind_Some. destruct (ca_pc c) as [w|w|w wOld|w|w|] eqn:Epc; try done.
  apply bind_Some in E as (y&Hy&E). destruct (pw_done y =? 0); [done|]. injection E as <-.
  by refine (proj1 (order_return st (λ x, x <| pw_done := 0 |>) i c w _ _ Ho Hc _)).
Qed.

(** ** New calls *)

Lemma order_init st : in_order st → in_order (init st).
Proof.
  intros Ho. unfold init. destruct (or_shape _ Ho) as [(E1&E2&E3&E4)|(k&cr&cw&E1&E2&E3&E4&Hln)]; [|by rewrite E2].
  rewrite E2. cbn. rewrite E3. eapply order_quiet; try done; cbn.
  - intros w [(j&c&Hj&Hw)|[(cw&Hcw&Hw)|(j&k&Hj&Hk)]].
    + left. cbn in Hj. eauto.
    + cbn in Hcw. rewrite E4 in Hcw. cbn in Hcw. injection Hcw as <-. set_solver.
    + cbn in Hj. rewrite E1 in Hj. destruct j; [|done]. by injection Hj as <-.
  - right. exists newWorker, [], []. unfold at_work. cbn. rewrite E1, E4. split_and!; try done.
    split; try (by left). done.
Qed.

Lemma order_record st e : in_order st → other e → in_order (record st e).
Proof.
  intros Ho He. eapply order_call; try done; [by apply same_lists_other|by left].
Qed.

Lemma order_return_now st t resp e :
  in_order st → other e →
  in_order (record (st <| pl_callers := pl_callers st ++ [mkCaller t resp cReturned] |>) e).
Proof.
  intros Ho He. apply order_record; [|done]. destruct Ho as [Hd Hp Ho Hf Hn Hs]. split; try done.
  - intros w [(j&c&Hj&Hw)|Hw]; [|apply Hf; by right]. apply Hf. cbn in Hj.
    apply lookup_app_Some in Hj as [?|[_ [_ <-]%list_lookup_singleton_Some]]; [left; eauto|]. cbn in Hw. set_solver.
  - destruct Hn as [Hu Hb Hw]. split; [done|..]; cbn; rewrite length_app; intros; [|]; [specialize (Hb w)|specialize (Hw i)]; intuition lia.
Qed.

(** The calls of the works after one was acquired for the next call. *)
Lemma acquire_calls st d i w st1 f :
  pipe_ok st → acquirePipelineWork st d i = (w, st1) → (∀ y, pw_call (f y) = pw_call y) →
  let works := alter f w (pl_works st1) in
  w < length works ∧ callOf works w = i ∧ w ∉ pl_pool st1 ∧
  (∀ v, v < length works → v ≠ w → v < length (pl_works st)) ∧
  (∀ v, v ≠ w → callOf works v = callOf (pl_works st) v) ∧
  (∀ v, v ∉ pl_pool st1 → v ≠ w → v ∉ pl_pool st) ∧
  (∀ j c v, pl_callers st !! j = Some c → v ∈ caller_hands (ca_pc c) → v ≠ w) ∧
  (∀ q, q ∈ pl_chans st → w ∉ q) ∧ (∀ k, k ∈ pl_workers st → w ∉ worker_hands k).
Proof.
  intros Hok E Hf. cbn zeta.
  assert (is_in w (pl_pool st) = 1 ∧ w < length (pl_works st) ∨ w = length (pl_works st) ∧ pl_pool st = []) as Hw.
  { unfold acquirePipelineWork in E. destruct (pl_pool st) as [|u pool] eqn:Ep; injection E as <- _; [by right|left].
    pose proof (po_places _ Hok u) as Hp. unfold places in Hp. rewrite Ep, is_in_cons in *.
    unfold is_id, known in *. rewrite decide_True in * by done.
    destruct (Nat.ltb_spec u (length (pl_works st))); lia. }
  assert (total (λ c, is_in w (caller_hands (ca_pc c))) (pl_callers st) = 0 ∧ total (is_in w) (pl_chans st) = 0 ∧
          total (λ k, is_in w (worker_hands k)) (pl_workers st) = 0) as (Hz1&Hz2&Hz3).
  { pose proof (po_places _ Hok w) as Hp. unfold places, known in Hp.
    destruct (Nat.ltb_spec w (length (pl_works st))); lia. }
  assert ((∀ v, v < length (pl_works st1) → v ≠ w → v < length (pl_works st)) ∧
          ∀ v, v ≠ w → pl_works st1 !! v = pl_works st !! v) as [Hlen Hother].
  { unfold acquirePipelineWork in E. destruct (pl_pool st) as [|u pool] eqn:Ep; injection E as <- <-; cbn.
    - rewrite length_app. cbn. split; [lia|]. intros v Hv. destruct (decide (v < length (pl_works st))); [by apply lookup_app_l|].
      rewrite !lookup_ge_None_2; [done|lia|rewrite length_app; cbn; lia].
    - rewrite length_alter. split; [done|]. intros v Hv. by rewrite list_lookup_alter_ne. }
  rewrite length_alter. split_and!.
  - unfold acquirePipelineWork in E. destruct (pl_pool st) as [|u pool] eqn:Ep; injection E as <- <-; cbn.
    + rewrite length_app. cbn. lia.
    + rewrite length_alter. destruct Hw as [[_ ?]|[_ ?]]; done.
  - rewrite callOf_alter by auto. unfold acquirePipelineWork in E. unfold callOf.
    destruct (pl_pool st) as [|u pool] eqn:Ep; injection E as <- <-; cbn.
    + by rewrite list_lookup_middle.
    + rewrite list_lookup_alter_eq. destruct Hw as [[_ Hlt]|[_ ?]]; [|done].
      by destruct (lookup_lt_is_Some_2 (pl_works st) u Hlt) as [y ->].
  - unfold acquirePipelineWork in E. destruct (pl_pool st) as [|u pool] eqn:Ep; injection E as <- <-; cbn; [rewrite Ep; set_solver|].
    rewrite is_in_cons in Hw. destruct Hw as [[Hw _]|[_ ?]]; [|done]. unfold is_id in Hw. rewrite decide_True in Hw by done.
    apply is_in_0. lia.
  - done.
  - intros v Hne. rewrite callOf_alter by auto. unfold callOf. by rewrite Hother.
  - intros v Hv Hne. unfold acquirePipelineWork in E. destruct (pl_pool st) as [|u pool] eqn:Ep; injection E as <- <-; cbn in Hv; set_solver.
  - intros j c v Hc Hv ->. pose proof (total_elem (λ c, is_in w (caller_hands (ca_pc c))) _ _ _ Hc) as Ht. cbn in Ht.
    assert (is_in w (caller_hands (ca_pc c)) ≠ 0) by (rewrite is_in_0; auto). lia.
  - intros q Hq. apply is_in_0. pose proof (total_ge (is_in w) _ _ Hq). lia.
  - intros k Hk. apply is_in_0. pose proof (total_ge (λ k, is_in w (worker_hands k)) _ _ Hk) as Ht. cbn in Ht. lia.
Qed.

Lemma order_acquire st d w st1 t resp f :
  pipe_ok st → in_order st → acquirePipelineWork st d (length (pl_callers st)) = (w, st1) →
  (∀ y, pw_call (f y) = pw_call y) →
  in_order ((updWork st1 w f) <| pl_callers := pl_callers st1 ++ [mkCaller t resp (cPut w)] |>).
Proof.
  intros Hok Ho E Hf.
  destruct (acquire_calls st d _ w st1 f Hok E Hf) as (Hlt&Hcw&Hnp&Hlen&Hcall&Hpool&Hnc&Hnq&Hnk).
  destruct (acquire_rest _ _ _ _ _ E) as (Ec&Et&Ew&Eh&Er&Ech&Ed).
  destruct Ho as [Hd Hp Hon Hfr [Hu Hb Hwr] Hs]. split; cbn; rewrite ?Et, ?Ed; try done.
  - intros v Hv. assert (v = w ∨ unwritten st v ∧ v ≠ w) as [->|[Hv' Hne]].
    { destruct Hv as [(j&c&Hj&Hx)|[(cw&Hq&Hx)|(j&k&Hj&Hx)]]; cbn in *.
      - rewrite Ec in Hj. apply lookup_app_Some in Hj as [Hj|[_ [_ <-]%list_lookup_singleton_Some]]; [|left; cbn in Hx; set_solver].
        right. split; [left; eauto|]. by eapply Hnc.
      - right. rewrite Eh in Hq. split; [right; left; eauto|]. intros ->. eapply Hnq; [|done]. by eapply list_elem_of_lookup_2.
      - right. rewrite Ew in Hj. split; [right; right; eauto|]. intros ->. eapply Hnk; [by eapply list_elem_of_lookup_2|].
        unfold worker_hands. rewrite Hx. set_solver. }
    + rewrite Hcw. intros Hin%Hwr. lia.
    + rewrite Hcall by done. by apply Hfr.
  - split; cbn; rewrite ?Ec, ?Et, ?length_app; cbn.
    + intros v1 v2 Hv1 Hv2 Hp1 Hp2 Heq. destruct (decide (v1 = w)) as [->|Hn1], (decide (v2 = w)) as [->|Hn2]; [done|..].
      * rewrite Hcw, Hcall in Heq by done. specialize (Hb v2). specialize (Hlen v2). intuition lia.
      * rewrite Hcw, Hcall in Heq by done. specialize (Hb v1). specialize (Hlen v1). intuition lia.
      * rewrite !Hcall in Heq by done. apply Hu; auto.
    + intros v Hv. destruct (decide (v = w)) as [->|Hn]; [rewrite Hcw; lia|]. rewrite Hcall by done.
      specialize (Hb v). specialize (Hlen v). intuition lia.
    + intros i Hi. specialize (Hwr i). intuition lia.
  - unfold asleep, at_work. cbn. rewrite ?Ew, ?Er, ?Ech, ?Eh, ?Et, ?Ed. destruct Hs as [?|(k&cr&cw&E1&E2&E3&E4&Hln)]; [by left|].
    right. exists k, cr, cw. split_and!; try done. eapply lined_same; [apply same_lists_refl| |done].
    intros v Hv. apply Hcall. intros ->. rewrite !elem_of_app in Hv. destruct Hv as [Hv|[Hv|Hv]].
    + eapply (Hnk k); [rewrite E1; set_solver|]. unfold worker_hands. rewrite !elem_of_app. auto.
    + eapply (Hnq cr); [rewrite E4; set_solver|done].
    + eapply (Hnk k); [rewrite E1; set_solver|]. unfold worker_hands. rewrite !elem_of_app.
      destruct (wr_pc (wk_writer k)); cbn in *; auto; set_solver.
Qed.

Lemma Do_order st req resp : pipe_ok st → in_order st → in_order (Do cfg st req resp).
Proof.
  intros Hok Ho. unfold Do. destruct (acquirePipelineWork _ _ _) as [w st1] eqn:E.
  apply (order_acquire (record (init st) (evCall (length (pl_callers st)))) None); [..|done].
  - by apply ok_record, init_ok.
  - apply order_record; [by apply order_init|done].
  - cbn. by rewrite init_callers.
Qed.

Lemma DoDeadline_order st req resp deadline now :
  pipe_ok st → in_order st → in_order (DoDeadline requestLimit cfg elsewhere st req resp deadline now).
Proof.
  intros Hok Ho. unfold DoDeadline.
  assert (in_order (record (init st) (evCall (length (pl_callers st))))) as Ho1
    by (apply order_record; [by apply order_init|done]).
  destruct (_ <=? 0)%Z; [by apply order_return_now|]. destruct (acquirePipelineWork _ _ _) as [w st1] eqn:E.
  apply (order_acquire (record (init st) (evCall (length (pl_callers st)))) (Some deadline)); try done.
  - by apply ok_record, init_ok.
  - cbn. by rewrite init_callers.
Qed.

(** ** Steps of the goroutines *)

Lemma order_worker st st1 k cr cw k' cr' cw' :
  in_order st → at_work st k cr cw → later st st1 → pl_callers st1 = pl_callers st →
  pl_workers st1 = pl_workers st → pl_chR st1 = pl_chR st → pl_chW st1 = pl_chW st → pl_dials st1 = pl_dials st →
  pl_trace st1 = pl_trace st → pl_chans st1 = [cr'; cw'] →
  lined (pl_trace st) (callOf (pl_works st)) (pl_dials st) k' cr' →
  (∀ w, w ∈ cw' → w ∈ cw) → (∀ w, wr_pc (wk_writer k') = wHave w → wr_pc (wk_writer k) = wHave w ∨ w ∈ cw) →
  in_order (setWorker st1 0 k').
Proof.
  intros Ho (E1&E2&E3&E4&_) Hl Ec Ew Er Ech Ed Et Eh Hln Hcw Hhave.
  eapply order_quiet; [done|done|cbn; rewrite Et; apply same_lists_refl|done|..].
  - intros w [(j&c&Hj&Hw)|[(q&Hq&Hw)|(j&k1&Hj&Hw)]]; cbn in *.
    + left. rewrite Ec in Hj. eauto.
    + right; left. rewrite Eh in Hq. injection Hq as <-. exists cw. rewrite E4. auto.
    + rewrite Ew, E1 in Hj. destruct j; [|done]. injection Hj as <-. destruct (Hhave w Hw) as [?|?].
      * right; right. exists 0, k. by rewrite E1.
      * right; left. exists cw. by rewrite E4.
  - right. exists k', cr', cw'. unfold at_work. cbn. rewrite Ew, E1, Er, Ech, Ed, Et, Eh. split_and!; try done.
    eapply lined_same; [apply same_lists_refl| |done]. intros w _. apply Hl.
Qed.

(** What the writer and the reader take and give. *)
Lemma take_queue st k cr cw w st1 :
  at_work st k cr cw → wr_pc (wk_writer k) ≠ wStart → pop st (wr_chW (wk_writer k)) = Some (w, st1) →
  ∃ q, cw = w :: q ∧ st1 = st <| pl_chans := [cr; q] |>.
Proof.
  intros (E1&E2&E3&E4&Hln) Hs (i&q&Ei&Hq&->)%pop_inv. destruct (ln_writer _ _ _ _ _ Hln) as [?|[_ E]]; [done|].
  rewrite E in Ei. injection Ei as <-. rewrite E4 in Hq. injection Hq as ->. exists q. by rewrite E4.
Qed.

Lemma take_line st k cr cw w st1 c :
  at_work st k cr cw → c = Some 0 → pop st c = Some (w, st1) → ∃ q, cr = w :: q ∧ st1 = st <| pl_chans := [q; cw] |>.
Proof.
  intros (E1&E2&E3&E4&Hln) -> (i&q&Ei&Hq&->)%pop_inv. injection Ei as <-. rewrite E4 in Hq. injection Hq as ->.
  exists q. by rewrite E4.
Qed.

Lemma give_line st k cr cw w st1 :
  at_work st k cr cw → wr_pc (wk_writer k) ≠ wStart → push st (wr_chR (wk_writer k)) w = Some st1 →
  st1 = st <| pl_chans := [cr ++ [w]; cw] |>.
Proof.
  intros (E1&E2&E3&E4&Hln) Hs (i&q&Ei&Hq&->)%push_inv. destruct (ln_writer _ _ _ _ _ Hln) as [?|[E _]]; [done|].
  rewrite E in Ei. injection Ei as <-. rewrite E4 in Hq. injection Hq as ->. by rewrite E4.
Qed.

(** The writer moves on: it still has what it wrote, or it has ended. *)
Lemma lined_writer tr calls dials k cr k' :
  lined tr calls dials k cr → wk_pc k' = wk_pc k → wk_reader k' = wk_reader k → cn_id (wk_conn k') = cn_id (wk_conn k) →
  wr_pc (wk_writer k) ≠ wStart → wr_chR (wk_writer k') = wr_chR (wk_writer k) → wr_chW (wk_writer k') = wr_chW (wk_writer k) →
  (put_hands (wr_pc (wk_writer k')) = put_hands (wr_pc (wk_writer k)) ∧ (writer_over k → writer_over k') ∨
   put_hands (wr_pc (wk_writer k')) = [] ∧ writer_over k' ∧ ¬ writer_over k) →
  lined tr calls dials k' cr.
Proof.
  intros [H1 H2 H3 H4 H5] Ep Er Ei Hs E1 E2 Hh. split; rewrite ?Ep, ?Er, ?Ei, ?E1, ?E2; try done.
  - by right; destruct H1.
  - unfold reader_over, line in *. rewrite Er. destruct H4 as [?|[?|(lost&E&Hl)]]; [by left|right; by left|right; right].
    destruct Hh as [[-> Ho]|(->&Ho&Hno)].
    + exists lost. split; [done|]. destruct Hl; auto.
    + exists (calls <$> put_hands (wr_pc (wk_writer k))). split; [|by right]. destruct Hl as [->|?]; [|done].
      rewrite E, !fmap_app. cbn. by rewrite !app_nil_r, <- !app_assoc.
Qed.

(** The reader moves on without a response: it has what it had, took the first, or has ended. *)
Lemma lined_reader tr calls dials k cr k' cr' :
  lined tr calls dials k cr → wk_pc k' = wk_pc k → wk_writer k' = wk_writer k → cn_id (wk_conn k') = cn_id (wk_conn k) →
  rd_pc (wk_reader k) ≠ rStart → rd_chR (wk_reader k') = rd_chR (wk_reader k) →
  match wk_pc k with kDial | kReturned _ | kGone => cr' = [] | _ => True end →
  (reader_hands (rd_pc (wk_reader k')) ++ cr' = reader_hands (rd_pc (wk_reader k)) ++ cr ∧ ¬ reader_over k ∨ reader_over k') →
  lined tr calls dials k' cr'.
Proof.
  intros [H1 H2 H3 H4 H5] Ep Er Ei Hs E1 He Hh. split; rewrite ?Ep, ?Er, ?Ei, ?E1; try done.
  - by right; destruct H2.
  - destruct Hh as [[Eh Hno]|?]; [|auto]. destruct H4 as [?|[?|(lost&E&Hl)]]; [by left|done|right; right].
    exists lost. unfold writer_over in *. rewrite Er. split; [|done]. unfold line in *. rewrite E, Er.
    rewrite !(app_assoc (reader_hands _)), Eh. done.
Qed.

Lemma not_over_writer k pc : wr_pc (wk_writer k) = pc → match pc with wEnd _ => False | _ => True end → ¬ writer_over k.
Proof. intros <- Hp [e E]. by rewrite E in Hp. Qed.

Lemma not_over_reader k pc : rd_pc (wk_reader k) = pc → match pc with rEnd _ => False | _ => True end → ¬ reader_over k.
Proof. intros <- Hp [e E]. by rewrite E in Hp. Qed.

Ltac enter Ho E :=
  let Hk := fresh "Hk" in
  apply bind_Some in E as (k&Hk&E);
  destruct (shape_of _ _ _ Ho Hk) as [-> (cr&cw&Ha)];
  pose proof Ha as (Hw1&Hr1&Hc1&Hq1&Hln).

(** The writer goes to [k'] and nothing else changes but perhaps a signal. *)
Lemma writer_order st st1 k cr cw k' :
  in_order st → at_work st k cr cw → st1 = st ∨ (∃ w e, signal st w e = Some st1) →
  wk_pc k' = wk_pc k → wk_reader k' = wk_reader k → cn_id (wk_conn k') = cn_id (wk_conn k) →
  wr_pc (wk_writer k) ≠ wStart → wr_chR (wk_writer k') = wr_chR (wk_writer k) → wr_chW (wk_writer k') = wr_chW (wk_writer k) →
  (∀ w, wr_pc (wk_writer k') = wHave w → wr_pc (wk_writer k) = wHave w) →
  (put_hands (wr_pc (wk_writer k')) = put_hands (wr_pc (wk_writer k)) ∧ (writer_over k → writer_over k') ∨
   put_hands (wr_pc (wk_writer k')) = [] ∧ writer_over k' ∧ ¬ writer_over k) →
  in_order (setWorker st1 0 k').
Proof.
  intros Ho Ha Hst Ep Er Ei Hs E1 E2 Hh Hput. pose proof Ha as (Hw1&Hr1&Hc1&Hq1&Hln).
  assert (lined (pl_trace st) (callOf (pl_works st)) (pl_dials st) k' cr) as Hln' by (by eapply lined_writer).
  destruct Hst as [->|(w&e&Hs1)].
  - eapply (order_worker st st k cr cw k' cr cw); try done. auto.
  - pose proof (later_signal _ _ _ _ Hs1) as Hl. apply signal_inv in Hs1 as (x&_&_&->).
    eapply (order_worker st _ k cr cw k' cr cw); try done. auto.
Qed.

Lemma writerStart_order st j st' : in_order st → writerStart st j = Some st' → in_order st'.
Proof.
  intros Ho E. enter Ho E.
  assert (wr_pc (wk_writer k) = wStart ∧ st' = setWorker st 0 (k <| wk_writer := mkPipeWriter (pl_chR st) (pl_chW st) false wSelect |>))
    as [Epc ->] by (destruct (wk_pc k); try done; destruct (wr_pc (wk_writer k)); try done; by injection E as <-).
  eapply (order_worker st st k cr cw _ cr cw); try done.
  destruct Hln as [H1 H2 H3 H4 H5]. split; cbn; try done; [by right|].
  destruct H4 as [?|[?|(lost&E4&Hl)]]; [by left|right; by left|right; right]. exists lost.
  unfold line in *. rewrite Epc in E4. split; [done|]. destruct Hl as [?|[e El]]; [by left|congruence].
Qed.

Lemma writerSelect_order st j st' : in_order st → writerSelect st j = Some st' → in_order st'.
Proof.
  intros Ho E. enter Ho E. destruct (wr_pc (wk_writer k)) eqn:Epc; try done.
  destruct (pop st (wr_chW (wk_writer k))) as [[w st1]|] eqn:Hp; injection E as <-.
  - destruct (take_queue _ _ _ _ _ _ Ha ltac:(by rewrite Epc) Hp) as (q&->&->).
    eapply (order_worker st _ k cr (w :: q) _ cr q); try done; [|set_solver|cbn; set_solver].
    eapply lined_writer; [done..|by rewrite Epc|done|done|left; rewrite Epc; split; [done|]].
    intros []%(not_over_writer _ _ Epc); done.
  - eapply (writer_order st st); [done|done|by left|done|done|done|by rewrite Epc|done|done|done|].
    left. rewrite Epc. split; [done|]. intros []%(not_over_writer _ _ Epc); done.
Qed.

Lemma writerRecv_order st j st' : in_order st → writerRecv st j = Some st' → in_order st'.
Proof.
  intros Ho E. enter Ho E. destruct (wr_pc (wk_writer k)) eqn:Epc; try done.
  apply bind_Some in E as ([w st1]&Hp&E). injection E as <-.
  destruct (take_queue _ _ _ _ _ _ Ha ltac:(by rewrite Epc) Hp) as (q&->&->).
  eapply (order_worker st _ k cr (w :: q) _ cr q); try done; [|set_solver|cbn; set_solver].
  eapply lined_writer; [done..|by rewrite Epc|done|done|left; rewrite Epc; split; [done|]].
  intros []%(not_over_writer _ _ Epc); done.
Qed.

(** The writer ends. *)
Lemma writer_ends_order st st1 k cr cw err pc k1 :
  in_order st → at_work st k cr cw → st1 = st ∨ (∃ w e, signal st w e = Some st1) →
  wr_pc (wk_writer k) = pc → match pc with wStart | wEnd _ => False | _ => True end →
  wk_pc k1 = wk_pc k → wk_reader k1 = wk_reader k → wk_writer k1 = wk_writer k → cn_id (wk_conn k1) = cn_id (wk_conn k) →
  in_order (writerEnds st1 0 k1 err).
Proof.
  intros Ho Ha Hst Epc Hpc Ep Er Ew Ei. unfold writerEnds, atWriter.
  eapply writer_order; [done|done|done|done|done|done|by intros E; rewrite E in Epc; subst pc|cbn; by rewrite Ew..|done|].
  right. split_and!; [done|by eexists|]. eapply not_over_writer; [done|]. by destruct pc.
Qed.

Lemma writerIdle_order st j st' : in_order st → writerIdle st j = Some st' → in_order st'.
Proof.
  intros Ho E. enter Ho E. destruct (wr_pc (wk_writer k)) eqn:Epc; try done. injection E as <-.
  eapply writer_ends_order; eauto. done.
Qed.

Lemma writerStop_order st j st' : in_order st → writerStop st j = Some st' → in_order st'.
Proof.
  intros Ho E. enter Ho E. destruct (wr_pc (wk_writer k)) eqn:Epc; try done; (destruct (stopW k); [|done]).
  - injection E as <-. eapply writer_ends_order; eauto. done.
  - apply bind_Some in E as (st1&Hs&E). injection E as <-. eapply writer_ends_order; eauto. done.
Qed.

Lemma writerFlush_order st j err st' : in_order st → writerFlush st j err = Some st' → in_order st'.
Proof.
  intros Ho E. enter Ho E. destruct (negb _); [done|]. cbv zeta in E.
  destruct (wr_pc (wk_writer k)) eqn:Epc; try done; destruct err as [e|]; try done.
  - injection E as <-. eapply writer_ends_order; eauto. done.
  - injection E as <-. eapply (writer_order st st); [done|done|by left|done|done|done|by rewrite Epc|done|done|done|].
    left. rewrite Epc. split; [done|]. intros []%(not_over_writer _ _ Epc); done.
  - apply bind_Some in E as (st1&Hs&E). injection E as <-. eapply writer_ends_order; eauto. done.
  - injection E as <-. eapply (writer_order st st); [done|done|by left|done|done|done|by rewrite Epc|done|done|done|].
    left. rewrite Epc. split; [done|]. intros []%(not_over_writer _ _ Epc); done.
Qed.

(** The work that was written goes to the end of the line. *)
Lemma give_order st k cr cw w st1 :
  in_order st → orderly k → at_work st k cr cw → put_hands (wr_pc (wk_writer k)) = [w] →
  push st (wr_chR (wk_writer k)) w = Some st1 → in_order (atWriter st1 0 k wSelect).
Proof.
  intros Ho Hor Ha Hput Hp. pose proof Ha as (Hw1&Hr1&Hc1&Hq1&Hln).
  assert (wr_pc (wk_writer k) ≠ wStart ∧ ¬ writer_over k) as [Hns Hno].
  { unfold writer_over. destruct (wr_pc (wk_writer k)); try done; (split; [done|]); by intros [? ?]. }
  rewrite (give_line _ _ _ _ _ _ Ha Hns Hp).
  eapply (order_worker st _ k cr cw _ (cr ++ [w]) cw); try done.
  destruct Hln as [H1 H2 H3 H4 H5]. split; cbn; try done.
  - right. by destruct H1.
  - destruct H4 as [?|[?|(lost&E4&Hl)]]; [by left|right; by left|right; right]. exists lost.
    destruct Hl as [->|?]; [|done]. split; [|by left]. rewrite E4. unfold line. cbn. rewrite Hput, !app_nil_r. done.
  - unfold orderly in Hor. destruct (wk_pc k); try done; destruct Hor as [Hor|Hor] || destruct Hor as [Hor _]; try done.
    + destruct Hor as [Hor _]. by rewrite Hor in Hput.
    + by destruct Hor.
Qed.

Lemma writerPut_order st j st' : pipe_ok st → in_order st → writerPut cfg st j = Some st' → in_order st'.
Proof.
  intros Hok Ho E. enter Ho E.
  assert (orderly k) as Hor by (apply (po_orderly _ Hok); by eapply list_elem_of_lookup_2).
  destruct (wr_pc (wk_writer k)) eqn:Epc; try done.
  - destruct (push st (wr_chR (wk_writer k)) w) as [st1|] eqn:Hp; injection E as <-.
    + eapply give_order; [done|done|done|by rewrite Epc|done].
    + eapply (writer_order st st); [done|done|by left|done|done|done|by rewrite Epc|done|done|done|].
      left. rewrite Epc. split; [done|]. intros []%(not_over_writer _ _ Epc); done.
  - apply bind_Some in E as (st1&Hp&E). injection E as <-. eapply give_order; [done|done|done|by rewrite Epc|done].
Qed.

(** Where unwritten works are. *)
Lemma unwritten_counted st v :
  unwritten st v →
  1 ≤ total (λ c, is_in v (caller_hands (ca_pc c))) (pl_callers st) + total (is_in v) (pl_chans st) ∨
  ∃ j k, pl_workers st !! j = Some k ∧ wr_pc (wk_writer k) = wHave v.
Proof.
  intros [(i&c&Hc&Hv)|[(cw&Hq&Hv)|?]]; [left|left|by right].
  - pose proof (total_elem (λ c, is_in v (caller_hands (ca_pc c))) _ _ _ Hc) as Ht. cbn in Ht.
    assert (is_in v (caller_hands (ca_pc c)) ≠ 0) by (rewrite is_in_0; auto). lia.
  - pose proof (total_elem (is_in v) _ _ _ Hq) as Ht. cbn in Ht. assert (is_in v cw ≠ 0) by (rewrite is_in_0; auto). lia.
Qed.

Lemma held_counted st j k v : pl_workers st !! j = Some k → v ∈ worker_hands k →
  1 ≤ total (λ k, is_in v (worker_hands k)) (pl_workers st).
Proof.
  intros Hk Hv. pose proof (total_elem (λ k, is_in v (worker_hands k)) _ _ _ Hk) as Ht. cbn in Ht.
  assert (is_in v (worker_hands k) ≠ 0) by (rewrite is_in_0; auto). lia.
Qed.

Lemma counted_live st v :
  pipe_ok st →
  1 ≤ total (λ c, is_in v (caller_hands (ca_pc c))) (pl_callers st) + total (is_in v) (pl_chans st)
      + total (λ k, is_in v (worker_hands k)) (pl_workers st) →
  v < length (pl_works st) ∧ v ∉ pl_pool st.
Proof.
  intros Hok Hp. pose proof (po_places _ Hok v) as Hc. unfold places, known in Hc. rewrite <- is_in_0.
  destruct (Nat.ltb_spec v (length (pl_works st))); lia.
Qed.

Lemma unwritten_live st v : pipe_ok st → unwritten st v → v < length (pl_works st) ∧ v ∉ pl_pool st.
Proof.
  intros Hok Hu. apply counted_live; [done|]. apply unwritten_counted in Hu as [?|(j&k&Hk&Hw)]; [lia|].
  pose proof (held_counted st j k v Hk). unfold worker_hands in *. rewrite Hw in *. cbn in *. set_solver by lia.
Qed.

(** A write: the call joins the written ones. *)
Lemma write_order st st1 k cr cw w k' b :
  pipe_ok st → in_order st → at_work st k cr cw → wr_pc (wk_writer k) = wHave w →
  later st st1 → pl_callers st1 = pl_callers st → pl_workers st1 = pl_workers st → pl_chR st1 = pl_chR st →
  pl_chW st1 = pl_chW st → pl_dials st1 = pl_dials st → pl_trace st1 = pl_trace st → pl_chans st1 = pl_chans st →
  wk_pc k' = wk_pc k → wk_reader k' = wk_reader k → wr_pc (wk_writer k') = wPut w → cn_id (wk_conn k') = cn_id (wk_conn k) →
  wr_chR (wk_writer k') = wr_chR (wk_writer k) → wr_chW (wk_writer k') = wr_chW (wk_writer k) →
  in_order (record (setWorker st1 0 k') (evWritten (cn_id (wk_conn k)) (callOf (pl_works st) w) b)).
Proof.
  intros Hok Ho Ha Epc Hl Ec Ew Er Ech Ed Et Eh Ep Erd Epc' Ei E1 E2.
  pose proof Ha as (Hw1&Hr1&Hc1&Hq1&Hln). set (e := evWritten _ _ _). destruct Ho as [Hd Hp Hon Hf Hn Hs].
  assert (orderly k) as Hor by (apply (po_orderly _ Hok); rewrite Hw1; set_solver).
  assert (wk_pc k ≠ kDial) as Hnd.
  { intros E. unfold orderly in Hor. rewrite E in Hor. destruct Hor as [[Hor _]|[[? Hor] _]]; [by rewrite Hor in Epc|congruence]. }
  assert (w ∈ worker_hands k) as Hwk by (unfold worker_hands; rewrite Epc; set_solver).
  assert (unwritten st w) as Huw by (right; right; exists 0, k; by rewrite Hw1).
  destruct (unwritten_live st w Hok Huw) as [Hlt Hnp].
  assert (cn_id (wk_conn k) < pl_dials st) as Hid by (by destruct (ln_id _ _ _ _ _ Hln)).
  assert (∀ v, unwritten (record (setWorker st1 0 k') e) v → unwritten st v ∧ v ≠ w) as Hu.
  { intros v Hv.
    assert (unwritten st v ∧ 1 ≤ total (λ c, is_in v (caller_hands (ca_pc c))) (pl_callers st) + total (is_in v) (pl_chans st))
      as [Hv' Hcnt].
    { pose proof (unwritten_counted _ v Hv) as Hcnt. cbn in Hcnt. rewrite Ec, Eh, Ew, Hw1 in Hcnt. cbn in Hcnt.
      destruct Hcnt as [?|([|j]&k1&[= <-]&Hk1)]; [|congruence]. split; [|done].
      destruct Hv as [(i&c&?&?)|[(q&?&?)|([|j]&k1&Hj&Hk1)]]; cbn in *.
      - left. rewrite Ec in *. eauto.
      - right; left. rewrite Eh in *. eauto.
      - rewrite Ew, Hw1 in Hj. injection Hj as <-. congruence.
      - by rewrite Ew, Hw1 in Hj. }
    split; [done|]. intros ->. pose proof (held_counted st 0 k w ltac:(by rewrite Hw1) Hwk) as Hh.
    destruct (lookup_lt_is_Some_2 _ _ Hlt) as [x Hx]. pose proof (one_place st w x Hok Hx). lia. }
  assert (∀ c, writes c (pl_trace st ++ [e]) = writes c (pl_trace st) ++ (if cn_id (wk_conn k) =? c then [callOf (pl_works st) w] else [])
             ∧ reads c (pl_trace st ++ [e]) = reads c (pl_trace st)) as Hlists.
  { intros c. rewrite writes_snoc, reads_snoc, app_nil_r. split; [|done]. cbn. by destruct (_ =? c). }
  assert (written (pl_trace st ++ [e]) = written (pl_trace st) ++ [callOf (pl_works st) w]) as Hwr
    by (unfold written; by rewrite omap_app).
  split; cbn; rewrite ?Et, ?Ed.
  - intros c Hc. destruct (Hlists c) as [-> ->]. destruct (Nat.eqb_spec (cn_id (wk_conn k)) c); [lia|]. rewrite app_nil_r. by apply Hd.
  - intros c. destruct (Hlists c) as [-> ->]. by apply prefix_app_r.
  - rewrite Hwr. apply NoDup_app. split_and!; [done| |apply NoDup_singleton]. intros i Hi ->%list_elem_of_singleton. by apply (Hf w).
  - destruct Hl as (_&Ek&_). intros v [Hv Hne]%Hu. rewrite Hwr, Ek. intros [Hin|Heq%list_elem_of_singleton]%elem_of_app; [by apply (Hf v)|].
    apply Hne. destruct (unwritten_live st v Hok Hv). by apply (nu_uniq _ Hn).
  - eapply numbered_later; [done|by destruct Hl as (?&?&?&?)|]. cbn. rewrite Et, Hwr. intros i [?| ->%list_elem_of_singleton]%elem_of_app.
    + by apply (nu_written _ Hn).
    + by apply (nu_bound _ Hn).
  - right. exists k', cr, cw. unfold at_work. cbn. rewrite Ew, Hw1, Er, Ech, Ed, Et, Eh. split_and!; try done.
    eapply (lined_same _ _ (callOf (pl_works st))); [apply same_lists_refl|intros v _; apply Hl|].
    destruct Hln as [L1 L2 L3 L4 L5]. split; rewrite ?Ep, ?Erd, ?Ei, ?E1, ?E2; try done.
    + right. destruct L1; [congruence|done].
    + destruct L4 as [?|[?|(lost&E4&Hlost)]]; [done|right; left; unfold reader_over; by rewrite Erd|right; right].
      destruct Hlost as [->|[? ?]]; [|congruence]. exists []. split; [|by left].
      destruct (Hlists (cn_id (wk_conn k))) as [-> ->]. rewrite Nat.eqb_refl, E4. unfold line. rewrite Erd, Epc, Epc'. cbn.
      rewrite !app_nil_r, !fmap_app, <- !app_assoc. done.
Qed.

Lemma writerWrite_order st j now e st' :
  pipe_ok st → in_order st → writerWrite cfg elsewhere st j now e = Some st' → in_order st'.
Proof.
  intros Hok Ho E. enter Ho E. destruct (wr_pc (wk_writer k)) eqn:Epc; try done.
  apply bind_Some in E as (x&Hx&E). destruct (expiredWork x now).
  { apply bind_Some in E as (st1&Hs&E). injection E as <-.
    eapply writer_order; [done|done|right; eauto|done|done|done|by rewrite Epc|done|done|done|].
    left. rewrite Epc. split; [done|]. intros []%(not_over_writer _ _ Epc); done. }
  cbv zeta in E. set (p := (theResp x) <| re_raddr := _ |> <| re_laddr := _ |>) in E.
  destruct (setResp_same x p) as [Hd1 Hk1].
  assert (∀ y, pw_call y = pw_call x → in_order (updWork st w (λ _, y)) ∧ later st (updWork st w (λ _, y)) ∧
                at_work (updWork st w (λ _, y)) k cr cw) as Hrep.
  { intros y Hy. assert (later st (updWork st w (λ _, y))) as Hl.
    { split_and!; cbn; rewrite ?length_alter; try done. intros v. apply callOf_alter. intros z Hz. cbn. congruence. }
    split_and!; [|done|].
    - eapply order_call; try done. by left.
    - split_and!; try done. eapply lined_same; [apply same_lists_refl|intros v _; apply Hl|done]. }
  destruct (if (0 <? _)%Z then e else None) as [e'|].
  { apply bind_Some in E as (st1&Hs&E). injection E as <-. destruct (Hrep (setResp x p) Hk1) as (Ho1&_&Ha1).
    eapply (writer_ends_order (updWork st w (λ _, setResp x p))); eauto. done. }
  destruct (Request.Write _ _ _) as [[[err bw] q] r'].
  destruct (setReq_same (setResp x p) q) as [_ Hc2]. rewrite Hk1 in Hc2.
  destruct (Hrep (setReq (setResp x p) q) Hc2) as (Ho1&Hl1&Ha1). destruct err as [e'|].
  - apply bind_Some in E as (st1&Hs&E). injection E as <-.
    eapply (writer_ends_order (updWork st w (λ _, setReq (setResp x p) q))); eauto. done.
  - injection E as <-. unfold atWriter. rewrite Hc2.
    replace (pw_call x) with (callOf (pl_works st) w) by (unfold callOf; by rewrite Hx).
    eapply write_order; eauto.
Qed.

Lemma reader_order st st1 k cr cw k' cr' :
  in_order st → at_work st k cr cw → later st st1 → pl_callers st1 = pl_callers st → pl_workers st1 = pl_workers st →
  pl_chR st1 = pl_chR st → pl_chW st1 = pl_chW st → pl_dials st1 = pl_dials st → pl_trace st1 = pl_trace st →
  pl_chans st1 = [cr'; cw] →
  wk_pc k' = wk_pc k → wk_writer k' = wk_writer k → cn_id (wk_conn k') = cn_id (wk_conn k) →
  rd_pc (wk_reader k) ≠ rStart → rd_chR (wk_reader k') = rd_chR (wk_reader k) →
  match wk_pc k with kDial | kReturned _ | kGone => cr' = [] | _ => True end →
  (reader_hands (rd_pc (wk_reader k')) ++ cr' = reader_hands (rd_pc (wk_reader k)) ++ cr ∧ ¬ reader_over k ∨ reader_over k') →
  in_order (setWorker st1 0 k').
Proof.
  intros Ho Ha Hl Ec Ew Er Ech Ed Et Eh Ep Ewr Ei Hs E1 He Hh. pose proof Ha as (Hw1&Hr1&Hc1&Hq1&Hln).
  eapply (order_worker st st1 k cr cw k' cr' cw); try done; [|rewrite Ewr; auto].
  eapply lined_reader; eauto.
Qed.

Lemma dial_empty st k cr cw : at_work st k cr cw → match wk_pc k with kDial | kReturned _ | kGone => cr = [] | _ => True end.
Proof. intros (_&_&_&_&Hln). apply (ln_empty _ _ _ _ _ Hln). Qed.

Lemma readerStart_order st j st' : in_order st → readerStart st j = Some st' → in_order st'.
Proof.
  intros Ho E. enter Ho E.
  assert (rd_pc (wk_reader k) = rStart ∧ st' = setWorker st 0 (k <| wk_reader := mkPipeReader (pl_chR st) rSelect |>))
    as [Epc ->] by (destruct (wk_pc k); try done; destruct (rd_pc (wk_reader k)); try done; by injection E as <-).
  eapply (order_worker st st k cr cw _ cr cw); try done; [|auto].
  destruct Hln as [H1 H2 H3 H4 H5]. split; cbn; try done; [by right|].
  destruct H4 as [?|[[e El]|(lost&E4&Hl)]]; [by left|congruence|right; right]. exists lost.
  unfold line in *. rewrite Epc in E4. by split.
Qed.

(** The reader takes the first of the line. *)
Lemma reader_takes st k cr cw w st1 :
  pipe_ok st → in_order st → at_work st k cr cw → rd_pc (wk_reader k) = rSelect ∨ rd_pc (wk_reader k) = rSlow →
  pop st (rd_chR (wk_reader k)) = Some (w, st1) → in_order (atReader st1 0 k (rHave w)).
Proof.
  intros Hok Ho Ha Hpc Hp. pose proof Ha as (Hw1&Hr1&Hc1&Hq1&Hln).
  assert (rd_pc (wk_reader k) ≠ rStart ∧ reader_hands (rd_pc (wk_reader k)) = [] ∧ ¬ reader_over k) as (Hns&Hh&Hno).
  { unfold reader_over. destruct Hpc as [-> | ->]; split_and!; try done; by intros [? ?]. }
  assert (rd_chR (wk_reader k) = Some 0) as Ech by (by destruct (ln_reader _ _ _ _ _ Hln)).
  destruct (take_line _ _ _ _ _ _ _ Ha Ech Hp) as (q&->&->). pose proof (dial_empty _ _ _ _ Ha) as He.
  eapply (reader_order st _ k (w :: q) cw _ q); try done; [by destruct (wk_pc k)|]. left. by rewrite Hh.
Qed.

Lemma reader_stays st k cr cw pc :
  in_order st → at_work st k cr cw → rd_pc (wk_reader k) = rSelect ∨ rd_pc (wk_reader k) = rSlow →
  pc = rSlow ∨ (∃ e, pc = rEnd e) → in_order (atReader st 0 k pc).
Proof.
  intros Ho Ha Hpc Hpc'. pose proof Ha as (Hw1&Hr1&Hc1&Hq1&Hln).
  eapply (reader_order st st k cr cw _ cr); try done.
  - by destruct Hpc as [-> | ->].
  - by eapply dial_empty.
  - destruct Hpc' as [-> | [e ->]]; [left|right; by exists e]. unfold reader_over.
    destruct Hpc as [-> | ->]; (split; [done|]); by intros [? ?].
Qed.

Lemma readerSelect_order st j st' : pipe_ok st → in_order st → readerSelect st j = Some st' → in_order st'.
Proof.
  intros Hok Ho E. enter Ho E. destruct (rd_pc (wk_reader k)) eqn:Epc; try done.
  destruct (pop st (rd_chR (wk_reader k))) as [[w st1]|] eqn:Hp; injection E as <-.
  - eapply reader_takes; eauto.
  - eapply reader_stays; eauto.
Qed.

Lemma readerRecv_order st j st' : pipe_ok st → in_order st → readerRecv st j = Some st' → in_order st'.
Proof.
  intros Hok Ho E. enter Ho E. destruct (rd_pc (wk_reader k)) eqn:Epc; try done.
  apply bind_Some in E as ([w st1]&Hp&E). injection E as <-. eapply reader_takes; eauto.
Qed.

Lemma readerStop_order st j st' : in_order st → readerStop st j = Some st' → in_order st'.
Proof.
  intros Ho E. enter Ho E. destruct (rd_pc (wk_reader k)) eqn:Epc; try done.
  destruct (stopR k); [|done]. injection E as <-. eapply reader_stays; eauto.
Qed.

(** A read: the first of the line has its response. *)
Lemma read_order st st1 k cr cw w k' p :
  pipe_ok st → in_order st → at_work st k cr cw → rd_pc (wk_reader k) = rHave w →
  later st st1 → pl_callers st1 = pl_callers st → pl_workers st1 = pl_workers st → pl_chR st1 = pl_chR st →
  pl_chW st1 = pl_chW st → pl_dials st1 = pl_dials st → pl_trace st1 = pl_trace st → pl_chans st1 = pl_chans st →
  wk_pc k' = wk_pc k → wk_writer k' = wk_writer k → rd_pc (wk_reader k') = rSelect → cn_id (wk_conn k') = cn_id (wk_conn k) →
  rd_chR (wk_reader k') = rd_chR (wk_reader k) →
  in_order (record (setWorker st1 0 k') (evRead (cn_id (wk_conn k)) (callOf (pl_works st) w) p)).
Proof.
  intros Hok Ho Ha Epc Hl Ec Ew Er Ech Ed Et Eh Ep Ewr Epc' Ei E1.
  pose proof Ha as (Hw1&Hr1&Hc1&Hq1&Hln). set (e := evRead _ _ _). destruct Ho as [Hd Hp Hon Hf Hn Hs].
  assert (orderly k) as Hor by (apply (po_orderly _ Hok); rewrite Hw1; set_solver).
  assert (wk_pc k ≠ kDial) as Hnd.
  { intros E. unfold orderly in Hor. rewrite E in Hor. destruct Hor as [[_ Hor]|[_ [? Hor]]]; [by rewrite Hor in Epc|congruence]. }
  assert (cn_id (wk_conn k) < pl_dials st) as Hid by (by destruct (ln_id _ _ _ _ _ Hln)).
  destruct (ln_line _ _ _ _ _ Hln) as [?|[[? ?]|(lost&E4&Hlost)]]; [done|congruence|].
  assert (∀ c, writes c (pl_trace st ++ [e]) = writes c (pl_trace st) ∧
               reads c (pl_trace st ++ [e]) = reads c (pl_trace st) ++ (if cn_id (wk_conn k) =? c then [callOf (pl_works st) w] else []))
    as Hlists.
  { intros c. rewrite writes_snoc, reads_snoc, app_nil_r. split; [done|]. cbn. by destruct (_ =? c). }
  assert (written (pl_trace st ++ [e]) = written (pl_trace st)) as Hwr by (unfold written; by rewrite omap_app, app_nil_r).
  assert (line (callOf (pl_works st)) k cr = callOf (pl_works st) w :: line (callOf (pl_works st)) k' cr) as Hline.
  { unfold line. by rewrite Epc, Epc', Ewr. }
  rewrite Hline in E4. split; cbn; rewrite ?Et, ?Ed.
  - intros c Hc. destruct (Hlists c) as [-> ->]. destruct (Nat.eqb_spec (cn_id (wk_conn k)) c); [lia|]. rewrite app_nil_r. by apply Hd.
  - intros c. destruct (Hlists c) as [-> ->]. destruct (Nat.eqb_spec (cn_id (wk_conn k)) c) as [<-|]; [|by rewrite app_nil_r].
    rewrite E4. apply prefix_app. exists (line (callOf (pl_works st)) k' cr ++ lost). done.
  - by rewrite Hwr.
  - destruct Hl as (_&Ek&_). intros v Hv. rewrite Hwr, Ek. apply Hf.
    destruct Hv as [(i&c&Hi&?)|[(q&Hq&?)|(j&k1&Hj&Hk1)]]; cbn in *.
    + left. rewrite Ec in Hi. eauto.
    + right; left. rewrite Eh in Hq. eauto.
    + right; right. rewrite Ew, Hw1 in Hj. destruct j; [|done]. injection Hj as <-. exists 0, k. rewrite Hw1. split; [done|congruence].
  - eapply numbered_later; [done|by destruct Hl as (?&?&?&?)|]. cbn. rewrite Et, Hwr. apply (nu_written _ Hn).
  - right. exists k', cr, cw. unfold at_work. cbn. rewrite Ew, Hw1, Er, Ech, Ed, Et, Eh. split_and!; try done.
    eapply (lined_same _ _ (callOf (pl_works st))); [apply same_lists_refl|intros v _; apply Hl|].
    destruct Hln as [L1 L2 L3 _ L5]. split; rewrite ?Ep, ?Ewr, ?Ei, ?E1; try done.
    + right. destruct L2; [congruence|done].
    + right; right. exists lost. destruct (Hlists (cn_id (wk_conn k))) as [-> ->]. rewrite Nat.eqb_refl, E4, <- app_assoc.
      split; [done|]. destruct Hlost as [?|[? ?]]; [by left|right]. unfold writer_over. rewrite Ewr. eauto.
Qed.

Lemma readerRead_order st j e st' :
  pipe_ok st → in_order st → readerRead cfg st j e = Some st' → in_order st'.
Proof.
  intros Hok Ho E. enter Ho E. destruct (rd_pc (wk_reader k)) eqn:Epc; try done.
  apply bind_Some in E as (x&Hx&E).
  assert (∀ st1 k' e', later st st1 → pl_callers st1 = pl_callers st → pl_workers st1 = pl_workers st →
    pl_chR st1 = pl_chR st → pl_chW st1 = pl_chW st → pl_dials st1 = pl_dials st → pl_trace st1 = pl_trace st →
    pl_chans st1 = pl_chans st → wk_pc k' = wk_pc k → wk_writer k' = wk_writer k → cn_id (wk_conn k') = cn_id (wk_conn k) →
    wk_reader k' = wk_reader k → in_order (atReader st1 0 k' (rEnd (Some e')))) as Hend.
  { intros st1 k' e' Hl H1 H2 H3 H4 H5 H6 H7 H8 H9 H10 H11. eapply (reader_order st st1 k cr cw _ cr); try done; cbn.
    - by rewrite H7.
    - by rewrite Epc.
    - by rewrite H11.
    - by eapply dial_empty.
    - right. by eexists. }
  destruct (if (0 <? _)%Z then e else None) as [e'|].
  { apply bind_Some in E as (st1&Hs&E). injection E as <-. pose proof (later_signal _ _ _ _ Hs).
    apply signal_inv in Hs as (y&_&_&->). by apply Hend. }
  cbv zeta in E. destruct (Response.Read _ _) as [[err p] br].
  assert (later st (updWork st w (λ x, setResp x p))) as Hl1.
  { apply later_upd; [apply later_refl|]. intros y. apply setResp_same. }
  destruct err as [e'|]; apply bind_Some in E as (st1&Hs&E); injection E as <-; apply signal_inv in Hs as (y&_&_&->).
  - apply Hend; try done. apply later_upd; [done|]. done.
  - replace (pw_call x) with (callOf (pl_works st) w) by (unfold callOf; by rewrite Hx).
    unfold atReader. eapply read_order; eauto; try done. by apply later_upd.
Qed.

(** ** Steps of the worker *)

(** The worker goes on; its goroutines and its connection stay as they are. *)
Lemma worker_order st st1 k cr cw pc cr' :
  in_order st → at_work st k cr cw → later st st1 → pl_callers st1 = pl_callers st → pl_workers st1 = pl_workers st →
  pl_chR st1 = pl_chR st → pl_chW st1 = pl_chW st → pl_dials st1 = pl_dials st → pl_trace st1 = pl_trace st →
  pl_chans st1 = [cr'; cw] → wk_pc k ≠ kDial → (cr' = cr ∨ reader_over k) →
  match pc with kDial | kReturned _ | kGone => cr' = [] | _ => True end →
  in_order (setWorker st1 0 (k <| wk_pc := pc |>)).
Proof.
  intros Ho Ha Hl Ec Ew Er Ech Ed Et Eh Hnd Hcr He. pose proof Ha as (Hw1&Hr1&Hc1&Hq1&Hln).
  eapply (order_worker st st1 k cr cw _ cr' cw); try done; [|by auto].
  destruct Hln as [L1 L2 L3 L4 L5]. split; cbn; try done.
  - right. by destruct L3.
  - destruct L4 as [?|[?|L4]]; [done|right; by left|]. destruct Hcr as [-> | ?]; [right; by right|right; by left].
Qed.

Lemma workerDial_order st j remote local bw br st' :
  pipe_ok st → in_order st → workerDial st j remote local bw br = Some st' → in_order st'.
Proof.
  intros Hok Ho E. enter Ho E. destruct (wk_pc k) eqn:Ek; try done. injection E as <-.
  pose proof (dial_empty _ _ _ _ Ha) as He. rewrite Ek in He. subst cr.
  destruct Ho as [Hd Hp Hon Hf Hn Hs]. destruct (Hd (pl_dials st) ltac:(done)) as [Ewr Erd]. split; cbn; try done.
  - intros c Hc. apply Hd. lia.
  - intros v Hv. apply Hf. destruct Hv as [?|[?|(j&k1&Hj&Hk1)]]; [by left|right; by left|].
    cbn in Hj. rewrite Hw1 in Hj. destruct j; [|done]. by injection Hj as <-.
  - by destruct Hn.
  - right. exists (mkPipeWorker kRun writer0 reader0 (mkPipeConn (pl_dials st) remote local bw (length (w_out bw)) br)), [], cw.
    unfold at_work. cbn. rewrite Hw1. split_and!; try done. split; cbn; [by left|by left|right; lia| |done].
    right; right. exists []. rewrite Ewr, Erd. split; [done|by left].
Qed.

Lemma connFails_order st j err st' : in_order st → connFails st j err = Some st' → in_order st'.
Proof.
  intros Ho E. enter Ho E. injection E as <-.
  eapply (order_worker st st k cr cw _ cr cw); try done; [|by auto]. by destruct Hln.
Qed.

Lemma workerJoin_order st j st' : in_order st → workerJoin st j = Some st' → in_order st'.
Proof.
  intros Ho E. enter Ho E.
  assert (∃ pc, st' = setWorker st 0 (k <| wk_pc := pc |>) ∧ wk_pc k ≠ kDial ∧
    match pc with kDial | kReturned _ | kGone => False | _ => True end) as (pc&->&Hnd&Hpc).
  { destruct (wk_pc k); try done; destruct (wr_pc (wk_writer k)); try done; destruct (rd_pc (wk_reader k)); try done;
      injection E as <-; by eexists. }
  eapply (worker_order st st k cr cw pc cr); try done; [by left|by destruct pc].
Qed.

Lemma workerJoinReader_order st j st' : in_order st → workerJoinReader st j = Some st' → in_order st'.
Proof.
  intros Ho E. enter Ho E. destruct (wk_pc k) eqn:Ek; try done. destruct (rd_pc (wk_reader k)); try done. injection E as <-.
  eapply (worker_order st st k cr cw _ cr); try done; [by rewrite Ek|by left].
Qed.

Lemma workerDrain_order st j st' : pipe_ok st → in_order st → workerDrain st j = Some st' → in_order st'.
Proof.
  intros Hok Ho E. enter Ho E.
  assert (orderly k) as Hor by (apply (po_orderly _ Hok); rewrite Hw1; set_solver). unfold orderly in Hor.
  destruct (wk_pc k) eqn:Ek; try done; destruct Hor as [_ Hrd].
  - injection E as <-. eapply (worker_order st st k cr cw _ cr); try done; [by rewrite Ek|by left|].
    unfold len, chan. rewrite Hr1. cbn. rewrite Hq1. cbn. by destruct cr.
  - apply bind_Some in E as ([w st1]&Hp&E). injection E as <-. destruct (take_line _ _ _ _ _ _ _ Ha Hr1 Hp) as (q&->&->).
    eapply (worker_order st _ k (w :: q) cw _ q); try done; [by rewrite Ek|by right].
  - apply bind_Some in E as (st1&Hs&E). injection E as <-. pose proof (later_signal _ _ _ _ Hs).
    apply signal_inv in Hs as (y&_&_&->). eapply (worker_order st _ k cr cw _ cr); try done; [by rewrite Ek|by left].
Qed.

Lemma workerLoop_order st j st' : in_order st → workerLoop st j = Some st' → pl_resets st' = 0 → in_order st'.
Proof.
  intros Ho E Hres. enter Ho E. pose proof (dial_empty _ _ _ _ Ha) as He.
  destruct (wk_pc k) as [| | | | | | |err|] eqn:Ek; try done. subst cr. destruct err as [e|].
  - injection E as <-. eapply (worker_order st st k [] cw kDial []); try done; [by rewrite Ek|by left].
  - destruct (_ && _); injection E as <-; [|done]. eapply (worker_order st st k [] cw kGone []); try done; [by rewrite Ek|by left].
Qed.

Lemma act_order st a st' :
  pipe_ok st → in_order st → act st a = Some st' → pl_resets st' = 0 → in_order st'.
Proof.
  intros Hok Ho E Hres. destruct a; cbn [pipelineConnClient.act] in E;
   [injection E as <-; by apply Do_order|injection E as <-; by apply DoDeadline_order|
    exact (callPut_order _ _ _ Ho E)|exact (callFull_order _ _ _ Ho E)|exact (callSteal_order _ _ _ Ho E)|
    exact (callOverflow_order _ _ _ Ho E)|exact (callRetry_order _ _ _ Ho E)|exact (callTimeout_order _ _ _ Ho E)|
    exact (callReturn_order _ _ _ Ho E)|exact (writerStart_order _ _ _ Ho E)|exact (writerSelect_order _ _ _ Ho E)|
    exact (writerRecv_order _ _ _ Ho E)|exact (writerIdle_order _ _ _ Ho E)|exact (writerStop_order _ _ _ Ho E)|
    exact (writerFlush_order _ _ _ _ Ho E)|exact (writerWrite_order _ _ _ _ _ Hok Ho E)|exact (writerPut_order _ _ _ Hok Ho E)|
    exact (readerStart_order _ _ _ Ho E)|exact (readerSelect_order _ _ _ Hok Ho E)|exact (readerRecv_order _ _ _ Hok Ho E)|
    exact (readerStop_order _ _ _ Ho E)|exact (readerRead_order _ _ _ _ Hok Ho E)|exact (workerDial_order _ _ _ _ _ _ _ Hok Ho E)|
    exact (connFails_order _ _ _ _ Ho E)|exact (workerJoin_order _ _ _ Ho E)|exact (workerJoinReader_order _ _ _ Ho E)|
    exact (workerDrain_order _ _ _ Hok Ho E)|exact (workerLoop_order _ _ _ Ho E Hres)].
Qed.

(** ** Resets are counted *)

Definition keeps_resets (st st' : pipelineConnClient) : Prop := pl_resets st ≤ pl_resets st'.

Lemma resets_call st d i : pl_resets (acquirePipelineWork st d i).2 = pl_resets st ∧ pl_resets (init st) = pl_resets st.
Proof.
  unfold acquirePipelineWork, init. destruct (pl_pool st), (pl_chR st); cbn; destruct (pl_chW st); done.
Qed.

Ltac resets :=
  repeat match goal with
  | H : pipelineConnClient.push _ _ _ _ = Some _ |- _ => apply push_inv in H as (?&?&_&_&->)
  | H : pop _ _ = Some _ |- _ => apply pop_inv in H as (?&?&_&_&->)
  | H : signal _ _ _ = Some _ |- _ => apply signal_inv in H as (?&_&_&->)
  end; unfold keeps_resets; cbn; lia.

Lemma act_resets st a st' : act st a = Some st' → keeps_resets st st'.
Proof.
  destruct a; cbn [pipelineConnClient.act]; intros E.
  1,2: injection E as <-; unfold Do, DoDeadline, keeps_resets; cbv zeta;
    rewrite <- (proj2 (resets_call st None 0));
    match goal with
    | |- context [acquirePipelineWork ?s ?d ?i] =>
        pose proof (proj1 (resets_call s d i)) as Hr; destruct (acquirePipelineWork s d i) as [w st1]; cbn in Hr
    end; try (destruct (_ <=? 0)%Z); cbn; lia.
  all: apply bind_Some in E as (k&Hk&E); cbv zeta in E.
  all: repeat (goroutine_cases; cbv zeta in * ); resets.
Qed.

Lemma run_order l st : run pipe_start l = Some st → pl_resets st = 0 → in_order st.
Proof.
  intros Hr Hz.
  assert (pipe_ok st ∧ (pl_resets st = 0 → in_order st)) as [_ Ho]; [|auto].
  revert Hr. apply (run_ind requestLimit responseLimit cfg elsewhere (λ st, pipe_ok st ∧ (pl_resets st = 0 → in_order st))).
  - intros st1 a st2 [Hok Ho] E. split; [by eapply act_ok|]. intros Hz2.
    pose proof (act_resets _ _ _ E) as Hle. unfold keeps_resets in Hle. eapply act_order; [done|apply Ho; lia|done|done].
  - split; [apply start_ok|]. intros _. split; cbn; try done.
    + apply NoDup_nil_2.
    + set_solver.
    + split; cbn; [lia..|set_solver].
    + left. done.
Qed.
End order.

(** * A client without goroutines *)

Section dead.
Context `{ByteBufferOps} `{MultipartOps} (requestLimit responseLimit : Z) (cfg : PipelineConfig) (elsewhere : Reader).
Abbreviation act := (act requestLimit responseLimit cfg elsewhere).
Abbreviation run := (run requestLimit responseLimit cfg elsewhere).

(** The goroutines have ended and the channels are still there, so that none is started. *)
Definition dead (st : pipelineConnClient) : Prop :=
  is_Some (pl_chR st) ∧ ∀ k, k ∈ pl_workers st → wk_pc k = kGone.

(** Only the first [n] calls were or will be answered. *)
Record dead_since (n : nat) (st : pipelineConnClient) : Prop := {
  de_dead : dead st;
  de_work w x : pl_works st !! w = Some x → pw_done x ≠ 0 → pw_err x = None → pw_call x < n;
  de_read c i p : evRead c i p ∈ pl_trace st → i < n;
  de_return i resp : evReturn i None resp ∈ pl_trace st → i < n
}.

Lemma dead_init st : dead st → init st = st.
Proof. intros [[r E] _]. unfold init. by rewrite E. Qed.

Lemma gone_over st j k : pipe_ok st → dead st → pl_workers st !! j = Some k → wk_pc k = kGone ∧ over k.
Proof.
  intros Hok [_ Hd] Hj%list_elem_of_lookup_2. pose proof (Hd k Hj) as Hk. pose proof (po_orderly _ Hok k Hj) as Ho.
  unfold orderly in Ho. by rewrite Hk in Ho.
Qed.

(** A step other than a call adds nothing but returns. *)
Lemma dead_step st a st' :
  pipe_ok st → dead st → act st a = Some st' → match a with aDo _ _ | aDoDeadline _ _ _ _ => False | _ => True end →
  dead st' ∧ (pl_trace st' = pl_trace st ∨ ∃ i err resp, pl_trace st' = pl_trace st ++ [evReturn i err resp]).
Proof.
  intros Hok Hd E Ha. destruct a; try done; cbn [pipelineConnClient.act] in E; clear Ha;
    apply bind_Some in E as (k&Hk&E); cbv zeta in E;
    try (destruct (gone_over _ _ _ Hok Hd Hk) as [Ek [[e1 E1] [e2 E2]]]; rewrite ?Ek, ?E1, ?E2 in E; done).
  9: { destruct (gone_over _ _ _ Hok Hd Hk) as [Ek _]. injection E as <-. split; [|by left]. destruct Hd as [? Hd].
       split; [done|]. cbn. intros k' (n&Hn)%list_elem_of_lookup_1.
       apply list_lookup_insert_Some in Hn as [(_&<-&_)|[_ Hn]]; [done|]. apply Hd. by eapply list_elem_of_lookup_2. }
  8: { destruct (gone_over _ _ _ Hok Hd Hk) as [Ek [[e1 E1] _]]. rewrite E1 in E. by destruct (negb _). }
  all: repeat (goroutine_cases; cbv zeta in * );
    repeat match goal with
    | H : pipelineConnClient.push _ _ _ _ = Some _ |- _ => apply push_inv in H as (?&?&_&_&->)
    | H : pop _ _ = Some _ |- _ => apply pop_inv in H as (?&?&_&_&->)
    | H : signal _ _ _ = Some _ |- _ => apply signal_inv in H as (?&_&_&->)
    end; (split; [done|]); first [by left|right; eauto].
Qed.

Lemma act_dead n st a st' :
  pipe_ok st → dead_since n st → act st a = Some st' → dead_since n st'.
Proof.
  intros Hok [Hd Hw Hr Ht] E.
  assert (match a with aDo _ _ | aDoDeadline _ _ _ _ => False | _ => True end → dead_since n st') as Hrest.
  { intros Ha. destruct (dead_step _ _ _ Hok Hd E Ha) as [Hd' Htr].
    pose proof (act_evolves _ _ _ _ _ _ _ Hok E Ha) as [Ew Ec Et Er].
    assert (∀ c i p, evRead c i p ∈ pl_trace st' → i < n) as Hr'.
    { intros c i p Hin. destruct Htr as [Htr|(i'&e&q&Htr)]; rewrite Htr in Hin; [by eapply Hr|].
      apply elem_of_app in Hin as [?|?%list_elem_of_singleton]; [by eapply Hr|done]. }
    split; [done| |done|].
    - intros w x' Hx' Hdn He. destruct (Ew w x' Hx') as (x&Hx&_&[?|[?|[[c Hc]|(Ed&Ee&Ek&Ep)]]]); [done..|by eapply Hr'|].
      rewrite Ek. apply (Hw w x Hx); congruence.
    - intros i resp [?|(c&w&x&Hc&Hpc&Hx&Hdn&He&_)]%Er; [by eapply Ht|].
      destruct (po_calls _ Hok i c w Hc ltac:(by rewrite Hpc)) as (_&_&Hcall). unfold callOf in Hcall. rewrite Hx in Hcall.
      rewrite <- Hcall. by apply (Hw w). }
  assert (∀ d t resp w st1 f, acquirePipelineWork (record st (evCall (length (pl_callers st)))) d (length (pl_callers st)) = (w, st1) →
    (∀ y, pw_done (f y) = pw_done y) →
    dead_since n ((updWork st1 w f) <| pl_callers := pl_callers st1 ++ [mkCaller t resp (cPut w)] |>)) as Hacq.
  { intros d t resp w st1 f Eq Hf. destruct (acquire_rest _ _ _ _ _ Eq) as (_&Etr&Ewk&_&Er&_&_).
    split; cbn; rewrite ?Etr; cbn.
    - unfold dead in *. cbn. by rewrite Ewk, Er.
    - intros v x' Hv Hdn He. destruct (acquire_new _ _ _ _ _ _ _ _ (ok_record _ _ Hok) Eq Hf Hv) as [[_ ?]|(_&?&_)]; [by eapply Hw|done].
    - intros c i p [?|?%list_elem_of_singleton]%elem_of_app; [by eapply Hr|done].
    - intros i resp' [?|?%list_elem_of_singleton]%elem_of_app; [by eapply Ht|done]. }
  destruct a; try (by apply Hrest); clear Hrest; cbn in E; injection E as <-; unfold Do, DoDeadline; rewrite (dead_init _ Hd).
  - destruct (acquirePipelineWork _ _ _) as [w st1] eqn:Eq. by eapply Hacq.
  - destruct (_ <=? 0)%Z.
    + split; [done|done|..]; cbn.
      * intros c i p [[?|?%list_elem_of_singleton]%elem_of_app|?%list_elem_of_singleton]%elem_of_app; [by eapply Hr|done..].
      * intros i resp' [[?|?%list_elem_of_singleton]%elem_of_app|?%list_elem_of_singleton]%elem_of_app; [by eapply Ht|done..].
    + destruct (acquirePipelineWork _ _ _) as [w st1] eqn:Eq. by eapply Hacq.
Qed.
End dead.
