(* ===== verification/Fs.v ===== *)
(** fs_v3.go: the file server - paths, byte ranges, the files it has opened with the readers
    that share them, and the cache of open files with its cleaner. *)

From Stdlib Require Import ZArith Strings.Byte.
From stdpp Require Import prelude strings list gmap.
From S2P Require Import Prelude Tables Bufio Bytesconv Args Uri Cookie Headers HeaderScan Body.
From S2P Require Import ReqHeader RespHeader Http HttpResp UserData PerIP RequestCtx.

(** * Paths *)

(** [None] is the panic for a path without a leading slash. *)
Fixpoint stripLeadingSlashes (path : bytes) (stripSlashes : nat) : option bytes :=
  match stripSlashes, path with
  | S n, c :: rest =>
      if negb (Byte.eqb c "/"%byte) then None
      else match IndexByte rest "/"%byte with
           | None => Some []
           | Some i => stripLeadingSlashes (drop i rest) n
           end
  | _, _ => Some path
  end.

Definition strInvalidHost : bytes := bs "invalid-host".

(** A rewriter gives the path and changes the context; [None] is a panic. *)
Definition PathRewriteFunc : Type := RequestCtx → option (bytes * RequestCtx).

Definition NewPathSlashesStripper (slashesCount : nat) : PathRewriteFunc := λ x,
  let '(path, x) := RequestCtx.Path x in
  path ← stripLeadingSlashes path slashesCount; Some (path, x).

(** For a size that is not negative; a negative one slices out of range. *)
Definition NewPathPrefixStripper (prefixSize : nat) : PathRewriteFunc := λ x,
  let '(path, x) := RequestCtx.Path x in
  Some (if prefixSize <=? length path then drop prefixSize path else path, x).

Definition NewVHostPathRewriter (slashesCount : nat) : PathRewriteFunc := λ x,
  let '(path, x) := RequestCtx.Path x in
  path ← stripLeadingSlashes path slashesCount;
  let '(host, x) := RequestCtx.Host x in
  let host := match IndexByte host "/"%byte with Some _ => [] | None => host end in
  let host := match host with [] => strInvalidHost | h => h end in
  let '(u, x) := RequestCtx.URI x in
  let u := URI.SetPathBytes u (strSlash ++ host ++ path) in
  let x := x <| cx_Request := (cx_Request x) <| rq_uri := u |> |> in
  Some (RequestCtx.Path x).

(** * Byte ranges *)

Inductive range_error :=
  | unsupportedRangeUnits
  | missingByteRange
  | missingRangeEnd
  | badRangeNumber (e : conv_error)
  | rangeStartTooLarge
  | rangeStartAfterEnd.

Definition ParseByteRange (byteRange : bytes) (contentLength : Z) : (Z * Z) + range_error :=
  if negb (HasPrefix byteRange strBytes) then inr unsupportedRangeUnits
  else
    match drop (length strBytes) byteRange with
    | [] => inr missingByteRange
    | c :: b =>
        if negb (Byte.eqb c "="%byte) then inr missingByteRange
        else
          match IndexByte b "-"%byte with
          | None => inr missingRangeEnd
          | Some 0 =>
              match ParseUint (drop 1 b) with
              | (_, Some e) => inr (badRangeNumber e)
              | (v, None) =>
                  let startPos := int64 (contentLength - v) in
                  inl (if (startPos <? 0)%Z then 0%Z else startPos, int64 (contentLength - 1))
              end
          | Some n =>
              match ParseUint (take n b) with
              | (_, Some e) => inr (badRangeNumber e)
              | (startPos, None) =>
                  if (contentLength <=? startPos)%Z then inr rangeStartTooLarge
                  else
                    match drop (n + 1) b with
                    | [] => inl (startPos, int64 (contentLength - 1))
                    | b =>
                        match ParseUint b with
                        | (_, Some e) => inr (badRangeNumber e)
                        | (endPos, None) =>
                            let endPos := if (contentLength <=? endPos)%Z then int64 (contentLength - 1) else endPos in
                            if (endPos <? startPos)%Z then inr rangeStartAfterEnd else inl (startPos, endPos)
                        end
                    end
              end
          end
    end.

(** * Open files *)

(** The kinds of compression a file is cached under. *)
Inductive CacheKind := defaultCacheKind | brotliCacheKind | gzipCacheKind | zstdCacheKind.

#[global] Instance CacheKind_eq_decision : EqDecision CacheKind.
Proof. solve_decision. Defined.

Definition kind_index (k : CacheKind) : nat :=
  match k with defaultCacheKind => 0 | brotliCacheKind => 1 | gzipCacheKind => 2 | zstdCacheKind => 3 end.

#[global] Instance CacheKind_countable : Countable CacheKind :=
  inj_countable' kind_index
    (λ n, match n with 0 => defaultCacheKind | 1 => brotliCacheKind | 2 => gzipCacheKind | _ => zstdCacheKind end)
    (λ k, ltac:(by destruct k)).

Definition DefaultBigFileReaderCount : nat := 400.
Definition MaxSmallFileSize : Z := 2 * 4096.

(** An open file, as far as it can be read: its content, or nothing for a directory. *)
Inductive handle := hFile (data : bytes) | hDir.

(** Times as the file server compares them: nanoseconds of an instant. [showTime] is the text
    of the time an index page shows. *)
Class GoClock `{GoTime} := { nanos : Time → Z; showTime : Time → bytes }.

(** [fsFile]. [ff_h] says that the handler is set, [ff_copies] are the readers between 0 and
    [l], each at the start of its own copy of the file, [ff_pb] is the buffer behind
    [dirIndex]. An object that was released is handed out again with what is left in it. *)
Record fsFile `{GoTime} := mkFile {
  ff_h : bool;
  ff_f : option handle;
  ff_filename : bytes;
  ff_originalFileName : bytes;
  ff_dirIndex : bytes;
  ff_contentType : bytes;
  ff_contentLength : Z;
  ff_lastModified : Time;
  ff_lastModifiedStr : bytes;
  ff_t : Time;
  ff_readersCount : Z;
  ff_copies : list handle;
  ff_compressed : bool;
  ff_bigfile : bool;
  ff_dir : bool;
  ff_normalFile : bool;
  ff_pb : option nat
}.

#[global] Instance fsFile_etable `{GoTime} : Etable fsFile := λ x,
  mkFile _ (ff_h x) (ff_f x) (ff_filename x) (ff_originalFileName x) (ff_dirIndex x) (ff_contentType x)
    (ff_contentLength x) (ff_lastModified x) (ff_lastModifiedStr x) (ff_t x) (ff_readersCount x)
    (ff_copies x) (ff_compressed x) (ff_bigfile x) (ff_dir x) (ff_normalFile x) (ff_pb x).

(** What the pools make: [&fsFile{}], and the one with room for copies. *)
Definition newSmallFsFile `{GoTime} : fsFile :=
  mkFile _ false None [] [] [] [] 0 zeroTime [] zeroTime 0 [] false false false false None.
Definition newBigFsFile `{GoTime} : fsFile :=
  newSmallFsFile <| ff_bigfile := true |> <| ff_normalFile := true |>.

(** * Readers *)

(** [ReadAt] of an open file. *)
Definition ReadAt (f : handle) (n : nat) (off : nat) : bytes * option body_error :=
  match f with
  | hFile data =>
      let b := take n (drop off data) in
      (b, if length b <? n then Some (bodyIO EOF) else None)
  | hDir => ([], Some (bodyIO (ErrOther (bs "is a directory"))))
  end.

(** A small file is read at the reader's position: from the open file or, for an index page or
    a compressed file in memory, from [dirIndex]. The file is shared with other readers. *)
Record smallReader := mkSmall { sr_ff : nat; sr_startPos : Z; sr_endPos : Z }.

#[global] Instance smallReader_etable : Etable smallReader := λ r,
  mkSmall (sr_ff r) (sr_startPos r) (sr_endPos r).

Definition updateSmall (r : smallReader) (startPos endPos : Z) : smallReader :=
  r <| sr_startPos := startPos |> <| sr_endPos := int64 (endPos + 1) |>.

#[global] Instance smallReader_Read `{GoTime} : IOReader (fsFile * smallReader) := λ '(ff, r) n,
  let tailLen := int64 (sr_endPos r - sr_startPos r) in
  if (tailLen <=? 0)%Z then ([], Some (bodyIO EOF), (ff, r))
  else
    let n := Nat.min n (Z.to_nat tailLen) in
    let '(b, err) := match ff_f ff with
                     | Some f => ReadAt f n (Z.to_nat (sr_startPos r))
                     | None => (take n (drop (Z.to_nat (sr_startPos r)) (ff_dirIndex ff)), None)
                     end in
    (b, err, (ff, r <| sr_startPos := (sr_startPos r + Z.of_nat (length b))%Z |>)).

(** [WriteTo] of a small reader into a plain writer: from memory at once, and from a file through
    a buffer of 8192 bytes, without moving the reader. [None] is a panic: a slice out of range. *)
Fixpoint smallWriteTo_loop (rounds : nat) (w : Writer) (f : handle) (curPos endPos : Z) : Z * option body_error * Writer :=
  match rounds with
  | 0 => (curPos, None, w)
  | S rounds =>
      let tailLen := int64 (endPos - curPos) in
      if (tailLen <=? 0)%Z then (curPos, None, w)
      else
        let '(b, err) := ReadAt f (Nat.min (Z.to_nat 8192) (Z.to_nat tailLen)) (Z.to_nat curPos) in
        let '(errw, w') := Write w b in
        let curPos := (curPos + Z.of_nat (length (w_out w') - length (w_out w)))%Z in
        match err, errw with
        | None, None => smallWriteTo_loop rounds w' f curPos endPos
        | None, Some e => (curPos, Some e, w')
        | Some e, _ => (curPos, Some e, w')
        end
  end.

Definition smallWriteTo `{GoTime} (w : Writer) (ff : fsFile) (r : smallReader) : option (Z * option body_error * Writer) :=
  match ff_f ff with
  | None =>
      if (0 <=? sr_startPos r)%Z && (sr_startPos r <=? sr_endPos r)%Z && (sr_endPos r <=? Z.of_nat (length (ff_dirIndex ff)))%Z then
        let b := take (Z.to_nat (sr_endPos r - sr_startPos r)) (drop (Z.to_nat (sr_startPos r)) (ff_dirIndex ff)) in
        let '(err, w') := Write w b in
        Some (Z.of_nat (length (w_out w') - length (w_out w)), err, w')
      else None
  | Some f =>
      let '(curPos, err, w) := smallWriteTo_loop (S (Z.to_nat (sr_endPos r - sr_startPos r))) w f (sr_startPos r) (sr_endPos r) in
      let err := match err with Some (bodyIO EOF) => None | e => e end in
      Some (int64 (curPos - sr_startPos r), err, w)
  end.

(** A reader of a big file has its own copy of the open file. [bg_seekable] is false for an
    [r.f] that is nil; [bg_limit] is what is left of a range. *)
Record bigReader := mkBig {
  bg_ff : nat; bg_file : handle; bg_seekable : bool; bg_pos : nat; bg_limit : option Z
}.

#[global] Instance bigReader_etable : Etable bigReader := λ r,
  mkBig (bg_ff r) (bg_file r) (bg_seekable r) (bg_pos r) (bg_limit r).

Definition updateBig (r : bigReader) (startPos endPos : Z) : bigReader :=
  r <| bg_pos := Z.to_nat startPos |> <| bg_limit := Some (int64 (int64 (endPos - startPos) + 1)) |>.

(** A read of the file moves its position. *)
Definition readFile (r : bigReader) (n : nat) : bytes * option body_error * bigReader :=
  match bg_file r with
  | hFile data =>
      let b := take n (drop (bg_pos r) data) in
      (b, match b with [] => Some (bodyIO EOF) | _ => None end, r <| bg_pos := bg_pos r + length b |>)
  | hDir => ([], Some (bodyIO (ErrOther (bs "is a directory"))), r)
  end.

#[global] Instance bigReader_Read : IOReader bigReader := λ r n,
  match bg_limit r with
  | None => readFile r n
  | Some N =>
      if (N <=? 0)%Z then ([], Some (bodyIO EOF), r)
      else
        let '(b, err, r) := readFile r (Nat.min n (Z.to_nat N)) in
        (b, err, r <| bg_limit := Some (N - Z.of_nat (length b))%Z |>)
  end.

Inductive fileReader :=
  | aSmallReader (r : smallReader)
  | aBigReader (r : bigReader).

Inductive range_update := rangeSet (r : fileReader) | rangeFails | rangePanics.

(** [r.(byteRangeUpdater).UpdateByteRange]: the method of a small reader takes [int]s, so that
    it does not implement the interface and the assertion panics. *)
Definition UpdateByteRange (r : fileReader) (startPos endPos : Z) : range_update :=
  match r with
  | aSmallReader _ => rangePanics
  | aBigReader b =>
      if negb (bg_seekable b) || (startPos <? 0)%Z then rangeFails
      else rangeSet (aBigReader (updateBig b startPos endPos))
  end.

(** What a reader has still to give. *)
Definition content `{GoTime} (ff : fsFile) : bytes :=
  match ff_f ff with Some (hFile data) => data | Some hDir => [] | None => ff_dirIndex ff end.

Definition left_of `{GoTime} (heap : list fsFile) (r : fileReader) : bytes :=
  match r with
  | aSmallReader r =>
      take (Z.to_nat (sr_endPos r - sr_startPos r))
        (drop (Z.to_nat (sr_startPos r)) (default [] (content <$> heap !! sr_ff r)))
  | aBigReader r =>
      let b := match bg_file r with hFile data => drop (bg_pos r) data | hDir => [] end in
      match bg_limit r with None => b | Some n => take (Z.to_nat n) b end
  end.

(** What its reads end with. *)
Definition end_of `{GoTime} (heap : list fsFile) (r : fileReader) : ioerror :=
  let f := match r with
           | aSmallReader r => heap !! sr_ff r ≫= ff_f
           | aBigReader r => Some (bg_file r)
           end in
  match f with Some hDir => ErrOther (bs "is a directory") | _ => EOF end.

(** The stream a response is given; it can be closed without an error. *)
Definition reader_stream `{GoTime} (heap : list fsFile) (r : fileReader) : BodyStream :=
  streamSource (mkSource (match left_of heap r with [] => [] | b => [b] end) (end_of heap r)) None (Close None).
