(* ===== verification/FsHandler.v ===== *)
(** fs_v3.go and fs_errors_v3.go: the handler of the file server - opening a file or an index
    page, compressing it, the cache of open files and its cleaner, and [handleRequest]. *)

From Stdlib Require Import ZArith Strings.Byte.
From stdpp Require Import prelude strings list gmap.
From S2P Require Import Prelude Tables Bufio Bytesconv Args Uri Cookie Headers HeaderScan Body.
From S2P Require Import ReqHeader RespHeader Http HttpResp UserData PerIP RequestCtx Fs.

(** * What the handler uses from outside *)

(** The orders of the compression package: the empty string, the three encodings, [Dump]. *)
Inductive Order := emptyOrder | Br | Gzip | Zstd | Dump.

#[global] Instance Order_eq_decision : EqDecision Order.
Proof. solve_decision. Defined.

(** The compression package, the MIME types of its companion and of net/http. *)
Class FsLib := {
  orderName : Order → bytes;
  compressTo : CacheKind → bytes → bytes;
  typeByExtension : bytes → bytes;
  detectContentType : bytes → bytes;
  checkMimeOk : bytes → bool
}.

(** A name of the file system: a file or, without [nd_data], a directory; how opening it fails,
    whether its information can be read, and whether the open file can seek. *)
Inductive open_failure := deniedOpen | otherOpen.

Record fsNode `{GoTime} := mkNode {
  nd_data : option bytes;
  nd_dirSize : Z;
  nd_mtime : Time;
  nd_open : option open_failure;
  nd_stat : bool;
  nd_seekable : bool
}.

#[global] Instance fsNode_etable `{GoTime} : Etable fsNode := λ x,
  mkNode _ (nd_data x) (nd_dirSize x) (nd_mtime x) (nd_open x) (nd_stat x) (nd_seekable x).

Definition nd_size `{GoTime} (n : fsNode) : Z :=
  match nd_data n with Some b => Z.of_nat (length b) | None => nd_dirSize n end.
Definition nd_isDir `{GoTime} (n : fsNode) : bool := negb (bool_decide (is_Some (nd_data n))).
Definition nd_handle `{GoTime} (n : fsNode) : handle :=
  match nd_data n with Some b => hFile b | None => hDir end.

(** What the calls of the operating system answer during a request. *)
Record osAnswers `{GoTime} := mkOs {
  os_now : Time;
  os_mkdirErr : bool;
  os_createErr : option open_failure;
  os_compressErr : bool;
  os_chtimesErr : bool;
  os_renameErr : bool
}.

(** * The handler *)

Record FS := mkFS {
  FS_FS : bool;                      (* a file system of the user's *)
  FS_Root : bytes;
  FS_IndexNames : list bytes;
  FS_CompressRoot : bytes;
  FS_PathRewrite : option PathRewriteFunc;
  FS_PathNotFound : option (RequestCtx → RequestCtx);
  FS_AllowEmptyRoot : bool;
  FS_Orders : Order * Order * Order;
  FS_GenerateIndexPages : bool;
  FS_Compress : bool;
  FS_AcceptByteRange : bool;
  FS_SkipCache : bool;
  FS_CacheDuration : Z;
  FS_CompressedFileSuffixes : bytes * bytes * bytes;
  FS_NeedCompressFunc : option (bytes → bool);
  FS_NeedCompressSize : Z
}.

Record fsHandler := mkFsHandler {
  h_os : bool;                       (* the file system is [osFS] *)
  h_root : bytes;
  h_indexNames : list bytes;
  h_pathRewrite : option PathRewriteFunc;
  h_pathNotFound : option (RequestCtx → RequestCtx);
  h_generateIndexPages : bool;
  h_compress : bool;
  h_acceptByteRange : bool;
  h_compressRoot : bytes;
  h_compressedFileSuffixes : CacheKind → bytes;
  h_cacheManager : option Z;         (* with its duration *)
  h_needCompressFunc : option (bytes → bool);
  h_needCompressSize : Z;
  h_Orders : list (Order * CacheKind);   (* with [order2kind] *)
  h_pool : CacheKind → bool              (* [cacheKind2Pool] is set *)
}.

Fixpoint stripTrailing (c : byte) (rev : bytes) : bytes :=
  match rev with
  | x :: rest => if Byte.eqb x c then stripTrailing c rest else rev
  | [] => []
  end.

(** On Unix; [wd] is the answer of [os.Getwd]. *)
Definition normalizeRoot (fs : FS) (wd : option bytes) (root : bytes) : bytes :=
  let root :=
    if negb (FS_FS fs)
       && ((negb (FS_AllowEmptyRoot fs) && bool_decide (root = []))
           || (negb (bool_decide (root = [])) && negb (HasPrefix root strSlash)))
    then default (bs ".") wd ++ strSlash ++ root else root in
  rev (stripTrailing "/"%byte (rev root)).

Definition DefaultOrders : Order * Order * Order := (Br, Gzip, Zstd).
Definition FSHandlerCacheDuration : Z := 60 * 10 ^ 9.

Definition order_kind (o : Order) : CacheKind :=
  match o with
  | Br => brotliCacheKind
  | Gzip => gzipCacheKind
  | Zstd => zstdCacheKind
  | emptyOrder | Dump => defaultCacheKind
  end.

Definition DefaultCompressedFileSuffixes (k : CacheKind) : bytes :=
  match k with
  | defaultCacheKind => []
  | brotliCacheKind => bs ".fasthttp.br"
  | gzipCacheKind => bs ".fasthttp.gz"
  | zstdCacheKind => bs ".fasthttp.zst"
  end.

Definition suffix_of (fs : FS) (k : CacheKind) : bytes :=
  let '(s1, s2, s3) := FS_CompressedFileSuffixes fs in
  match k with defaultCacheKind => [] | brotliCacheKind => s1 | gzipCacheKind => s2 | zstdCacheKind => s3 end.

(** A suffix is set for the kinds of the orders, and only when none was given. *)
Definition initRequestHandler (fs : FS) (wd : option bytes) : fsHandler :=
  let root := normalizeRoot fs wd (FS_Root fs) in
  let compressRoot := match FS_CompressRoot fs with [] => root | r => normalizeRoot fs wd r end in
  let '(o1, o2, o3) :=
    if bool_decide (FS_Orders fs = (emptyOrder, emptyOrder, emptyOrder)) then DefaultOrders
    else FS_Orders fs in
  let kinds := order_kind <$> [o1; o2; o3] in
  mkFsHandler (negb (FS_FS fs)) root (FS_IndexNames fs) (FS_PathRewrite fs) (FS_PathNotFound fs)
    (FS_GenerateIndexPages fs) (FS_Compress fs) (FS_AcceptByteRange fs) compressRoot
    (λ k, if bool_decide (k ∈ kinds) && bool_decide (suffix_of fs k = [])
          then DefaultCompressedFileSuffixes k else [])
    (if FS_SkipCache fs then None
     else Some (if (FS_CacheDuration fs <=? 0)%Z then FSHandlerCacheDuration else FS_CacheDuration fs))
    (FS_NeedCompressFunc fs) (FS_NeedCompressSize fs)
    [(o1, order_kind o1); (o2, order_kind o2); (o3, order_kind o3)]
    (λ k, negb (bool_decide (k = defaultCacheKind)) && bool_decide (k ∈ kinds)).

Definition pathToFilePath (h : fsHandler) (path : bytes) : bytes :=
  if negb (h_os h) then match path with [] => [] | _ :: p => p end else h_root h ++ path.

Definition filePathToCompressed (h : fsHandler) (filePath : bytes) : bytes :=
  if bool_decide (h_root h = h_compressRoot h) then filePath
  else if negb (HasPrefix filePath (h_root h)) then filePath
  else h_compressRoot h ++ drop (length (h_root h)) filePath.

(** * The state, and programs that fail or panic *)

(** The file system, every [fsFile] ever made, those in the two pools, the caches, the files
    waiting for their last reader, and the buffers: how many were made, which were given back. *)
Record fsState `{GoTime} := mkFsState {
  st_disk : gmap bytes fsNode;
  st_heap : list fsFile;
  st_small : list nat;
  st_big : list nat;
  st_caches : gmap (CacheKind * bytes) nat;
  st_pending : list nat;
  st_buffers : nat;
  st_recycled : list nat
}.

#[global] Instance fsState_etable `{GoTime} : Etable fsState := λ x,
  mkFsState _ (st_disk x) (st_heap x) (st_small x) (st_big x) (st_caches x) (st_pending x)
    (st_buffers x) (st_recycled x).

Inductive fs_error :=
  | FsNilByteInPathErr
  | FsDotDotSlashInPathErr
  | errDirIndexRequired
  | FsFileNotFoundErr
  | FsPermissionDeniedErr
  | openErr
  | statErr
  | FsNotAllowedIndexDirErr
  | FsOpenedFileNotSeekableErr
  | contentTypeErr
  | readDirErr
  | errNoCreatePermission
  | FsWhenCompressErr
  | FsCantGetFileReader
  | rangeNotSatisfiable (e : range_error)
  | FsCantSeekByRangeError.

Section monad.
Context `{GoTime}.

(** A program changes the state and gives a value or an error; [None] is a panic. *)
Definition F (A : Type) : Type := fsState → option ((A + fs_error) * fsState).

#[global] Instance F_ret : MRet F := λ A a st, Some (inl a, st).
#[global] Instance F_bind : MBind F := λ A B f m st,
  match m st with
  | Some (inl a, st) => f a st
  | Some (inr e, st) => Some (inr e, st)
  | None => None
  end.

Definition throw {A} (e : fs_error) : F A := λ st, Some (inr e, st).
Definition panic {A} : F A := λ _, None.
Definition gets {A} (f : fsState → A) : F A := λ st, Some (inl (f st), st).
Definition modify (f : fsState → fsState) : F () := λ st, Some (inl (), f st).

(** An error of [m] as a value. *)
Definition attempt {A} (m : F A) : F (A + fs_error) := λ st,
  match m st with Some (r, st) => Some (inl r, st) | None => None end.

Definition fileAt (i : nat) : F fsFile := λ st,
  match st_heap st !! i with Some ff => Some (inl ff, st) | None => None end.
Definition updFile (i : nat) (f : fsFile → fsFile) : F () :=
  modify (λ st, st <| st_heap := alter f i (st_heap st) |>).
Definition addReaders (i : nat) (n : Z) : F () :=
  updFile i (λ ff, ff <| ff_readersCount := int32 (ff_readersCount ff + n) |>).

(** [filesystem.Open], the error as [openFSFile] reports it. *)
Definition Open (path : bytes) : F fsNode :=
  d ← gets st_disk;
  match d !! path with
  | None => throw FsFileNotFoundErr
  | Some n =>
      match nd_open n with
      | Some deniedOpen => throw FsPermissionDeniedErr
      | Some otherOpen => throw openErr
      | None => mret n
      end
  end.

(** ** The pools of files *)

(** A pool gives back an object put into it, or makes one. *)
Definition smallFsFilePool_Get : F nat := λ st,
  match st_small st with
  | i :: l => Some (inl i, st <| st_small := l |>)
  | [] => Some (inl (length (st_heap st)), st <| st_heap := st_heap st ++ [newSmallFsFile] |>)
  end.

Definition bigFsFilePool_Get : F nat := λ st,
  match st_big st with
  | i :: l => Some (inl i, st <| st_big := l |>)
  | [] => Some (inl (length (st_heap st)), st <| st_heap := st_heap st ++ [newBigFsFile] |>)
  end.

(** [release]: a file that is released twice has no handler and panics. *)
Definition clearFile (ff : fsFile) : fsFile :=
  ff <| ff_f := None |> <| ff_readersCount := 0%Z |> <| ff_filename := [] |>
     <| ff_originalFileName := [] |> <| ff_dirIndex := [] |> <| ff_lastModifiedStr := [] |>
     <| ff_copies := if ff_bigfile ff then [] else ff_copies ff |> <| ff_h := false |>.

Definition release (i : nat) : F () :=
  ff ← fileAt i;
  _ ← match ff_pb ff with
      | Some b => modify (λ st, st <| st_recycled := b :: st_recycled st |>)
      | None => mret ()
      end;
  if negb (ff_h ff) then panic
  else
    _ ← updFile i clearFile;
    modify (λ st, if ff_bigfile ff then st <| st_big := i :: st_big st |>
                  else st <| st_small := i :: st_small st |>).

(** ** Readers *)

Definition bigFileReader (i : nat) (ff : fsFile) : F fileReader :=
  match ff_copies ff with
  | f :: rest =>
      _ ← updFile i (λ ff, ff <| ff_copies := rest |>);
      mret (aBigReader (mkBig i f true 0 None))
  | [] =>
      if negb (ff_h ff) then panic
      else
        n ← attempt (Open (ff_filename ff));
        match n with
        | inl n => mret (aBigReader (mkBig i (nd_handle n) (nd_seekable n) 0 None))
        | inr _ => throw FsCantGetFileReader
        end
  end.

Definition NewReader (i : nat) : F fileReader :=
  ff ← fileAt i;
  if ff_bigfile ff then
    r ← attempt (bigFileReader i ff);
    match r with
    | inl r => mret r
    | inr e => _ ← addReaders i (-1); throw e
    end
  else if negb (ff_h ff) then panic
  else mret (aSmallReader (mkSmall i 0 (ff_contentLength ff))).

(** [Close] of a reader. A big reader without a seekable file calls a method of nil. *)
Definition closeReader (r : fileReader) : F () :=
  match r with
  | aSmallReader r =>
      ff ← fileAt (sr_ff r);
      if negb (ff_h ff) then panic else addReaders (sr_ff r) (-1)
  | aBigReader r =>
      if negb (bg_seekable r) then panic
      else
        _ ← updFile (bg_ff r) (λ ff,
              if length (ff_copies ff) <? DefaultBigFileReaderCount
              then ff <| ff_copies := bg_file r :: ff_copies ff |> else ff);
        addReaders (bg_ff r) (-1)
  end.

(** ** The cache *)

Definition GetFileFromCache (k : CacheKind) (path : bytes) : F (option nat) :=
  c ← gets st_caches;
  match c !! (k, path) with
  | Some i => _ ← addReaders i 1; mret (Some i)
  | None => mret None
  end.

Definition SetFileToCache (k : CacheKind) (path : bytes) (i : nat) : F nat :=
  c ← gets st_caches;
  match c !! (k, path) with
  | Some j => _ ← release i; _ ← addReaders j 1; mret j
  | None =>
      _ ← modify (λ st, st <| st_caches := <[(k, path) := i]> (st_caches st) |>);
      _ ← addReaders i 1; mret i
  end.
End monad.

(** ** The cleaner of the cache *)

Definition modifiedStale : Z := 2 * 10 ^ 9.

Section cleaner.
Context `{GoClock}.

(** A file is stale: an index page by its age, another by the time the original was changed. *)
Definition isStale (h : fsHandler) (duration : Z) (now : Time) (disk : gmap bytes fsNode) (ff : fsFile) : bool :=
  if negb (h_os h) then false
  else if ff_dir ff then (duration <? nanos now - nanos (ff_t ff))%Z
  else match disk !! ff_originalFileName ff with
       | Some n => if nd_stat n then negb (nanos (nd_mtime n) - nanos (ff_lastModified ff) <? modifiedStale)%Z
                   else true
       | None => true
       end.

Definition cleanEntry (h : fsHandler) (duration : Z) (now : Time) (kp : CacheKind * bytes) (i : nat)
    (st : fsState) : fsState :=
  match st_heap st !! i with
  | Some ff =>
      if isStale h duration now (st_disk st) ff
      then st <| st_pending := i :: st_pending st |> <| st_caches := delete kp (st_caches st) |>
      else st
  | None => st
  end.

Definition cleanCache (h : fsHandler) (duration : Z) (now : Time) (st : fsState) : fsState :=
  map_fold (cleanEntry h duration now) st (st_caches st).
End cleaner.

Section pending.
Context `{GoTime}.

Inductive pending_result := pendingDone | stillSpinning.

(** The loop looks at the file after the head until it has no readers; [rounds] rounds of it. *)
Fixpoint pending_loop (rounds : nat) (head : nat) (rest : list nat) : F pending_result :=
  match rest with
  | [] => mret pendingDone
  | i :: rest' =>
      match rounds with
      | 0 => mret stillSpinning
      | S rounds =>
          ff ← fileAt i;
          if bool_decide (ff_readersCount ff = 0%Z) then
            _ ← modify (λ st, st <| st_pending := head :: rest' |>);
            _ ← release i; pending_loop rounds head rest'
          else pending_loop rounds head rest
      end
  end.

Definition handlePendingCache (rounds : nat) : F pending_result :=
  pfs ← gets st_pending;
  match pfs with
  | [] => mret pendingDone
  | head :: rest =>
      r ← pending_loop rounds head rest;
      match r with
      | stillSpinning => mret stillSpinning
      | pendingDone =>
          ff ← fileAt head;
          if bool_decide (ff_readersCount ff = 0%Z) then
            _ ← modify (λ st, st <| st_pending := [] |>);
            _ ← release head; mret pendingDone
          else mret pendingDone
      end
  end.

(** A tick of [handleCleanCache]. *)
Definition cleanTick `{!GoClock} (h : fsHandler) (duration : Z) (now : Time) (rounds : nat) : F pending_result :=
  _ ← modify (cleanCache h duration now); handlePendingCache rounds.
End pending.

(** * Opening *)

Section open.
Context `{GoClock} `{FsLib}.
Context (h : fsHandler) (os : osAnswers).

Definition newBuffer : F nat := λ st, Some (inl (st_buffers st), st <| st_buffers := S (st_buffers st) |>).

(** [filepath.Ext] and the base name of a path. *)
Definition filepath_Base (path : bytes) : bytes :=
  match LastIndexByte path "/"%byte with Some n => drop (S n) path | None => path end.
Definition filepath_Ext (name : bytes) : bytes :=
  match LastIndexByte name "."%byte with Some n => drop n name | None => [] end.

(** The first bytes of a file without a known extension are looked at; a directory cannot be
    read. [pool.Get(512)] gives at least the 512 bytes net/http considers. *)
Definition contentType (f : handle) (name : bytes) : F bytes :=
  let ext := filepath_Ext name in
  let ct := match ext with [] => [] | _ => typeByExtension ext end in
  match ct with
  | _ :: _ => mret ct
  | [] =>
      match f with
      | hDir => throw contentTypeErr
      | hFile [] => mret (bs "application/octet-stream")
      | hFile data => mret (detectContentType (take 512 data))
      end
  end.

Definition setTimes (lastModified t : Time) (ff : fsFile) : fsFile :=
  ff <| ff_lastModified := lastModified |>
     <| ff_lastModifiedStr := AppendHTTPDate (ff_lastModifiedStr ff) lastModified |> <| ff_t := t |>.

Definition newFSFile (f : handle) (n : fsNode) (compressed : bool) (filePath : bytes) : F nat :=
  let contentLength := nd_size n in
  i ← (if (MaxSmallFileSize <? contentLength)%Z then
         i ← bigFsFilePool_Get;
         _ ← updFile i (λ ff, (if compressed then ff else ff <| ff_copies := f :: ff_copies ff |>) <| ff_f := None |>);
         mret i
       else
         i ← smallFsFilePool_Get;
         _ ← updFile i (λ ff, ff <| ff_normalFile := true |> <| ff_f := Some f |>);
         mret i);
  _ ← updFile i (λ ff,
        setTimes (nd_mtime n) (os_now os)
          (ff <| ff_h := true |> <| ff_filename := ff_filename ff ++ filePath |>
              <| ff_contentLength := contentLength |> <| ff_compressed := compressed |>));
  mret i.

(** ** Compressed files *)

Definition newCompressedFSFile (compressedFilePath : bytes) : F nat :=
  n ← attempt (Open compressedFilePath);
  match n with
  | inr _ => throw FsWhenCompressErr
  | inl n =>
      if negb (nd_seekable n) then throw FsOpenedFileNotSeekableErr
      else if negb (nd_stat n) then throw FsWhenCompressErr
      else newFSFile (nd_handle n) n true compressedFilePath
  end.

(** The file is compressed into a temporary one, which gets the time of the original and its
    name. The data of a directory cannot be read, which only the writer would report. *)
Definition compressFileNoLock (f : handle) (n : fsNode) (compressedFilePath : bytes) (k : CacheKind) : F nat :=
  let tmpFilePath := compressedFilePath ++ bs ".tmp" in
  match os_createErr os with
  | Some deniedOpen => throw errNoCreatePermission
  | Some otherOpen => throw FsWhenCompressErr
  | None =>
      if negb (h_pool h k) then panic
      else
        let data := compressTo k (match f with hFile b => b | hDir => [] end) in
        let tmp t := mkNode _ (Some data) 0 t None true true in
        _ ← modify (λ st, st <| st_disk := <[tmpFilePath := tmp (os_now os)]> (st_disk st) |>);
        if os_compressErr os then throw FsWhenCompressErr
        else if os_chtimesErr os then throw FsWhenCompressErr
        else
          _ ← modify (λ st, st <| st_disk := <[tmpFilePath := tmp (nd_mtime n)]> (st_disk st) |>);
          if os_renameErr os then throw FsWhenCompressErr
          else
            _ ← modify (λ st, st <| st_disk := <[compressedFilePath := tmp (nd_mtime n)]>
                                                 (delete tmpFilePath (st_disk st)) |>);
            newCompressedFSFile compressedFilePath
  end.

(** In memory; without a pool nothing is compressed and nothing is written. *)
Definition newCompressedFSFileCache (f : handle) (n : fsNode) (k : CacheKind) : F nat :=
  b ← newBuffer;
  let data := if h_pool h k then compressTo k (match f with hFile b => b | hDir => [] end) else [] in
  if h_pool h k && os_compressErr os then throw FsWhenCompressErr
  else
    i ← smallFsFilePool_Get;
    _ ← updFile i (λ ff,
          setTimes (nd_mtime n) (os_now os)
            (ff <| ff_h := true |> <| ff_dir := false |> <| ff_normalFile := false |> <| ff_dirIndex := data |>
                <| ff_contentLength := Z.of_nat (length data) |> <| ff_compressed := true |>
                <| ff_pb := Some b |>));
    mret i.

(** The directories [MkdirAll] makes are not kept: nothing opens them. *)
Definition compressAndOpenFSFile (f : handle) (n : fsNode) (compressedFilePath : bytes)
    (inPlaceCompress : bool) (k : CacheKind) : F nat :=
  if negb (h_os h) then newCompressedFSFileCache f n k
  else if negb inPlaceCompress && os_mkdirErr os then throw FsWhenCompressErr
  else
    let compressedFilePath := compressedFilePath ++ h_compressedFileSuffixes h k in
    d ← gets st_disk;
    match d !! compressedFilePath with
    | Some c =>
        if nd_stat c && (nanos (nd_mtime n) - nanos (nd_mtime c) <? modifiedStale)%Z
        then newCompressedFSFile compressedFilePath
        else
          _ ← (if nd_stat c
               then modify (λ st, st <| st_disk := delete compressedFilePath (st_disk st) |>)
               else mret ());
          compressFileNoLock f n compressedFilePath k
    | None => compressFileNoLock f n compressedFilePath k
    end.

(** ** Index pages *)

(** The names in a directory: those that continue its path by one element. *)
Definition entryName (prefix p : bytes) : option bytes :=
  let name := drop (length prefix) p in
  if HasPrefix p prefix && negb (bool_decide (name ∈ [[]; bs "."; bs ".."]))
     && negb (bool_decide (is_Some (IndexByte name "/"%byte)))
  then Some name else None.

Definition dirNames (disk : gmap bytes fsNode) (dirPath : bytes) : list (bytes * fsNode) :=
  let prefix := if bool_decide (dirPath = bs ".") then [] else dirPath ++ strSlash in
  (λ pn, (default [] (entryName prefix pn.1), pn.2)) <$>
    map_to_list (filter (λ pn, is_Some (entryName prefix pn.1)) disk).

Definition HasSuffix (b suffix : bytes) : bool := HasPrefix (rev b) (rev suffix).

(** Compressed files and names without information are not shown. *)
Definition shownName (nm : bytes * fsNode) : bool :=
  negb (existsb (λ k, let s := h_compressedFileSuffixes h k in
                      negb (bool_decide (s = [])) && HasSuffix nm.1 s)
          [defaultCacheKind; brotliCacheKind; gzipCacheKind; zstdCacheKind])
  && nd_stat nm.2.

(** The order of strings. *)
Fixpoint bytes_leb (a b : bytes) : bool :=
  match a, b with
  | [], _ => true
  | _ :: _, [] => false
  | x :: a, y :: b => if bool_decide (x = y) then bytes_leb a b else (bz x <? bz y)%Z
  end.

Fixpoint insertName (nm : bytes * fsNode) (l : list (bytes * fsNode)) : list (bytes * fsNode) :=
  match l with
  | [] => [nm]
  | x :: l => if bytes_leb nm.1 x.1 then nm :: x :: l else x :: insertName nm l
  end.
Definition sortNames (l : list (bytes * fsNode)) : list (bytes * fsNode) := foldr insertName [] l.

(** [html.EscapeString] makes the substitutions of [AppendHTMLEscape]. *)
Definition escapeString (s : bytes) : bytes := AppendHTMLEscape [] s.

Definition quote : bytes := [x22].

Definition indexLine (u : URI) (nm : bytes * fsNode) : bytes :=
  let '(name, n) := nm in
  let '(auxStr, className) :=
    if nd_isDir n then (bs "dir", bs "dir")
    else (bs "file, " ++ AppendInt [] (nd_size n) ++ bs " bytes", bs "file") in
  bs "<li><a href=" ++ quote ++ escapeString (URI.Path u) ++ quote ++ bs " class=" ++ quote ++ className
    ++ quote ++ bs ">" ++ escapeString name ++ bs "</a>, " ++ auxStr ++ bs ", last modified "
    ++ showTime (nd_mtime n) ++ bs "</li>".

(** The links are resolved one after the other, each against the one before. *)
Fixpoint indexLines (u : URI) (l : list (bytes * fsNode)) : option bytes :=
  match l with
  | [] => Some []
  | nm :: l =>
      u ← URI.Update u nm.1;
      rest ← indexLines u l;
      Some (indexLine u nm ++ rest)
  end.

(** The link to the directory above. *)
Definition parentLink (base : bytes) : option bytes :=
  if 1 <? length (escapeString base) then
    u ← URI.Update URI_zero (base ++ bs "/..");
    Some (bs "<li><a href=" ++ quote ++ escapeString (URI.Path u) ++ quote ++ bs " class=" ++ quote
            ++ bs "dir" ++ quote ++ bs ">..</a></li>")
  else Some [].

Definition indexPage (base parent : bytes) (names : list (bytes * fsNode)) : option bytes :=
  let baseEscaped := escapeString base in
  u ← URI.Update URI_zero (base ++ strSlash);
  lines ← indexLines u (sortNames (filter shownName names));
  Some (bs "<html><head><title>" ++ baseEscaped ++ bs "</title><style>.dir { font-weight: bold }</style></head><body>"
          ++ bs "<h1>" ++ baseEscaped ++ bs "</h1>" ++ bs "<ul>" ++ parent ++ lines ++ bs "</ul></body></html>").

Definition ReadDir (dirPath : bytes) : F (list (bytes * fsNode)) :=
  d ← gets st_disk;
  match d !! dirPath with
  | Some n => if nd_isDir n && negb (bool_decide (is_Some (nd_open n))) then mret (dirNames d dirPath)
              else throw readDirErr
  | None => throw readDirErr
  end.

Definition orPanicIn {A} (r : option A) : F A := match r with Some a => mret a | None => panic end.

Definition createDirIndex (dirPath reqPath : bytes) (mustCompress : bool) (k : CacheKind) : F nat :=
  let dirPath := match dirPath with [] => bs "." | p => p end in
  parent ← orPanicIn (parentLink reqPath);
  names ← ReadDir dirPath;
  page ← orPanicIn (indexPage reqPath parent names);
  if mustCompress && negb (h_pool h k) then panic
  else if mustCompress && os_compressErr os then throw FsWhenCompressErr
  else
    let dirIndex := if mustCompress then compressTo k page else page in
    b ← newBuffer;
    i ← smallFsFilePool_Get;
    _ ← updFile i (λ ff,
          setTimes (os_now os) (os_now os)
            (ff <| ff_normalFile := false |> <| ff_dir := true |> <| ff_h := true |>
                <| ff_dirIndex := dirIndex |> <| ff_contentType := bs "text/html; charset=utf-8" |>
                <| ff_contentLength := Z.of_nat (length dirIndex) |>
                <| ff_compressed := mustCompress |> <| ff_pb := Some b |>));
    mret i.

(** ** Files *)

(** The first index file of a directory that can be opened; an error other than a missing
    file ends the search, and is returned as it is. *)
Fixpoint openIndex (filePath : bytes) (names : list bytes) : F (option (bytes * fsNode)) :=
  match names with
  | [] => mret None
  | name :: names =>
      let filePath1 := filePath ++ strSlash ++ name in
      r ← attempt (Open filePath1);
      match r with
      | inl n => mret (Some (filePath1, n))
      | inr FsFileNotFoundErr => openIndex filePath names
      | inr _ => throw openErr
      end
  end.

Definition fsMaxCompressibleFileSize : Z := 8 * 1024 * 1024.

(** Setting a field of the nil file that comes with an error. *)
Definition orPanic (m : F nat) : F nat :=
  r ← attempt m; match r with inl i => mret i | inr _ => panic end.

(** The open file with its path, or a directory to be shown. *)
Definition openTarget (filePath : bytes) (endSlash : bool) : F (bytes * option fsNode) :=
  n ← Open (match filePath with [] => bs "." | p => p end);
  if negb (nd_stat n) then throw statErr
  else if negb (nd_isDir n) then mret (filePath, Some n)
  else if negb endSlash then throw errDirIndexRequired
  else
    ix ← openIndex filePath (h_indexNames h);
    match ix with
    | Some (p, n) => if nd_stat n then mret (p, Some n) else throw statErr
    | None => if h_generateIndexPages h then mret (filePath, None) else throw FsNotAllowedIndexDirErr
    end.

(** Makes the file that is served; the content type is set on the file made. *)
Definition makeFile (filePath reqPath : bytes) (target : option fsNode) (ct : bytes)
    (mustCompress inPlaceCompress : bool) (k : CacheKind) : F nat :=
  match target with
  | None => createDirIndex filePath reqPath mustCompress k
  | Some n =>
      i ← orPanic (if mustCompress then compressAndOpenFSFile (nd_handle n) n filePath inPlaceCompress k
                   else newFSFile (nd_handle n) n false filePath);
      _ ← updFile i (λ ff, ff <| ff_contentType := ct |>);
      mret i
  end.

Definition openFSFile (filePath reqPath : bytes) (endSlash mustCompress : bool) (k : CacheKind) : F nat :=
  let originalPathStr := reqPath in
  let reqPath := if endSlash then take (length reqPath - 1) reqPath else reqPath in
  ft ← openTarget filePath endSlash;
  let '(filePath, target) := (ft : bytes * option fsNode) in
  cm ←
    match target with
    | None => mret ([], mustCompress)
    | Some n =>
        if negb (nd_seekable n) then throw FsOpenedFileNotSeekableErr
        else
          ct ← contentType (nd_handle n) (filepath_Base filePath);
          mret (ct, mustCompress && negb (fsMaxCompressibleFileSize <? nd_size n)%Z
                      && negb (nd_size n <? h_needCompressSize h)%Z && checkMimeOk ct)
    end;
  let '(ct, mustCompress) := (cm : bytes * bool) in
  let originalPath := filePath in
  let filePath := if mustCompress then filePathToCompressed h filePath else filePath in
  let inPlaceCompress := mustCompress && bool_decide (filePath = originalPath) in
  match h_cacheManager h with
  | None => makeFile filePath reqPath target ct mustCompress inPlaceCompress k
  | Some _ =>
      cached ← GetFileFromCache k originalPathStr;
      match cached with
      | Some i => mret i
      | None =>
          i ← makeFile filePath reqPath target ct mustCompress inPlaceCompress k;
          _ ← match target with
              | Some _ => updFile i (λ ff, ff <| ff_originalFileName := filePath |>)
              | None => mret ()
              end;
          SetFileToCache k originalPathStr i
      end
  end.
End open.

(** * Requests *)

Definition strIfModifiedSince : bytes := bs "If-Modified-Since".
Definition strAcceptRanges : bytes := bs "Accept-Ranges".

Section handle.
Context `{GoClock} `{FsLib} `{ByteBufferOps}.
Context (responseLimit : Z) (h : fsHandler) (os : osAnswers).

Definition reqHeader (x : RequestCtx) : RequestHeader := rq_Header (cx_Request x).
Definition onHeader (x : RequestCtx) (f : ResponseHeader → ResponseHeader) : RequestCtx :=
  RequestCtx.onResponse x (λ p, p <| re_Header := f (re_Header p) |>).

(** A date that cannot be parsed counts as none. [Truncate] cuts to whole seconds. *)
Definition IfModifiedSince (x : RequestCtx) (lastModified : Time) : bool :=
  match RequestHeader.peek (reqHeader x) strIfModifiedSince with
  | [] => true
  | ifModStr =>
      match ParseHTTPDate ifModStr with
      | None => true
      | Some ifMod => (nanos ifMod <? nanos lastModified / 10 ^ 9 * 10 ^ 9)%Z
      end
  end.

(** The first order the client accepts. *)
Fixpoint chooseOrder (x : RequestCtx) (orders : list (Order * CacheKind)) : option (Order * CacheKind) :=
  match orders with
  | [] => None
  | (o, k) :: rest =>
      if bool_decide (o = emptyOrder) then chooseOrder x rest
      else if RequestHeader.HasAcceptEncodingBytes (reqHeader x) (orderName o) then Some (o, k)
      else chooseOrder x rest
  end.

(** What a request comes to: the error, the context, and the reader its response was given. *)
Record outcome := mkOut {
  out_err : option fs_error; out_ctx : RequestCtx; out_reader : option fileReader
}.

Definition failed (e : fs_error) (x : RequestCtx) : F outcome := mret (mkOut (Some e) x None).

(** The part of a file a request asks for. *)
Definition applyRange (x : RequestCtx) (r : fileReader) (byteRange : bytes) (contentLength : Z)
    : F ((RequestCtx * fileReader * Z * Z) + fs_error) :=
  if negb (h_acceptByteRange h) then mret (inl (x, r, contentLength, StatusOK))
  else
    let x := onHeader x (λ hd, ResponseHeader.setNonSpecial hd strAcceptRanges strBytes) in
    match byteRange with
    | [] => mret (inl (x, r, contentLength, StatusOK))
    | _ =>
        match ParseByteRange byteRange contentLength with
        | inr e => _ ← closeReader r; mret (inr (rangeNotSatisfiable e))
        | inl (startPos, endPos) =>
            match UpdateByteRange r startPos endPos with
            | rangePanics => panic
            | rangeFails => _ ← closeReader r; mret (inr FsCantSeekByRangeError)
            | rangeSet r =>
                hd ← orPanicIn (ResponseHeader.SetContentRange (re_Header (cx_Response x)) startPos endPos contentLength);
                mret (inl (onHeader x (λ _, hd), r, int64 (int64 (endPos - startPos) + 1), StatusPartialContent))
            end
        end
    end.

(** The response from a reader of the file. *)
Definition serveReader (x : RequestCtx) (ff : fsFile) (r : fileReader) (encoding byteRange : bytes) : F outcome :=
  let x := if ff_compressed ff then onHeader x (λ hd, ResponseHeader.SetContentEncodingBytes hd encoding) else x in
  ranged ← applyRange x r byteRange (ff_contentLength ff);
  match ranged with
  | inr e => failed e (if h_acceptByteRange h
                       then onHeader x (λ hd, ResponseHeader.setNonSpecial hd strAcceptRanges strBytes) else x)
  | inl (x, r, contentLength, statusCode) =>
      let x := onHeader x (λ hd, ResponseHeader.setNonSpecial hd strLastModified (ff_lastModifiedStr ff)) in
      heap ← gets st_heap;
      xr ← (if negb (RequestCtx.IsHead x) then
              mret (RequestCtx.SetBodyStream x (Some (reader_stream heap r)) contentLength, Some r)
            else
              let x := RequestCtx.onResponse x (λ p, (Response.ResetBody p) <| re_SkipBody := true |>) in
              let x := onHeader x (λ hd, ResponseHeader.SetContentLength hd contentLength) in
              _ ← closeReader r; mret (x, None));
      let '(x, out) := (xr : RequestCtx * option fileReader) in
      let x := onHeader x (λ hd, hd <| p_noDefaultContentType := true |>) in
      let x := match ResponseHeader.ContentType (re_Header (cx_Response x)) with
               | [] => RequestCtx.SetContentType x (ff_contentType ff)
               | _ => x
               end in
      mret (mkOut None (RequestCtx.SetStatusCode x statusCode) out)
  end.

(** The response from an open file, which counts the request as a reader. *)
Definition serveFile (x : RequestCtx) (i : nat) (encoding byteRange : bytes) : F outcome :=
  ff ← fileAt i;
  if negb (IfModifiedSince x (ff_lastModified ff)) then
    _ ← addReaders i (-1); mret (mkOut None (RequestCtx.NotModified responseLimit x) None)
  else
    r ← attempt (NewReader i);
    match r with
    | inr e => failed e x
    | inl r => serveReader x ff r encoding byteRange
    end.

Definition handleRequestWithError (x : RequestCtx) : F outcome :=
  px ← orPanicIn (match h_pathRewrite h with Some f => f x | None => Some (RequestCtx.Path x) end);
  let '(path, x) := (px : bytes * RequestCtx) in
  if bool_decide (is_Some (IndexByte path x00)) then failed FsNilByteInPathErr x
  else if bool_decide (is_Some (h_pathRewrite h)) && bool_decide (is_Some (Index path strSlashDotDotSlash))
  then failed FsDotDotSlashInPathErr x
  else
    let hasTrailingSlash := bool_decide (last path = Some "/"%byte) in
    let pathStr := if hasTrailingSlash then take (length path - 1) path else path in
    let byteRange := RequestHeader.peek (reqHeader x) strRange in
    let mustCompress := h_compress h && bool_decide (byteRange = [])
                          && match h_needCompressFunc h with Some f => f path | None => true end in
    let choice := if mustCompress then chooseOrder x (h_Orders h) else None in
    let encoding := match choice with Some (o, _) => orderName o | None => [] end in
    let k := match choice with Some (_, k) => k | None => defaultCacheKind end in
    let mustCompress := mustCompress && negb (bool_decide (encoding = [])) in
    cached ← match h_cacheManager h with Some _ => GetFileFromCache k path | None => mret None end;
    opened ← match cached with
             | Some i => mret (inl i)
             | None => attempt (openFSFile h os (pathToFilePath h pathStr) path hasTrailingSlash mustCompress k)
             end;
    match opened with
    | inl i => serveFile x i encoding byteRange
    | inr errDirIndexRequired =>
        x ← orPanicIn (RequestCtx.RedirectBytes x (path ++ strSlash) StatusFound); mret (mkOut None x None)
    | inr e => failed e x
    end.

(** The response that reports an error. *)
Definition respondError (e : fs_error) (x : RequestCtx) : RequestCtx :=
  match e with
  | FsNilByteInPathErr => RequestCtx.Error responseLimit x (bs "Are you a hacker?") StatusBadRequest
  | rangeNotSatisfiable _ =>
      RequestCtx.Error responseLimit x (bs "Range Not Satisfiable") StatusRequestedRangeNotSatisfiable
  | FsDotDotSlashInPathErr | FsCantGetFileReader | FsCantSeekByRangeError =>
      RequestCtx.Error responseLimit x (bs "Internal Server Error") StatusInternalServerError
  | _ =>
      match h_pathNotFound h with
      | None => RequestCtx.Error responseLimit x (bs "Cannot open requested path") StatusNotFound
      | Some f => f (RequestCtx.SetStatusCode x StatusNotFound)
      end
  end.

(** The steps of [handleRequestWithError], each of whose errors is answered where it occurs. *)
Definition handleRequest (x : RequestCtx) : F outcome :=
  o ← handleRequestWithError x;
  match out_err o with
  | None => mret o
  | Some e => mret (mkOut None (respondError e (out_ctx o)) (out_reader o))
  end.

(** ** The functions that serve one file *)

Definition rootFS : FS :=
  mkFS false [] [] [] None None true (Br, Gzip, Zstd) true true true false 0 ([], [], []) None 0.

Definition isAbs (path : bytes) : bool := HasPrefix path strSlash.

(** [abs] is [filepath.Abs]; its failure is answered with an error. *)
Definition ServeFilePath (abs : bytes → option bytes) (path : bytes) : option bytes :=
  if bool_decide (path = []) || negb (isAbs path) then
    let hasTrailingSlash := match last path with Some c => Byte.eqb c "/"%byte || Byte.eqb c "\"%byte | None => false end in
    path ← abs path; Some (if hasTrailingSlash then path ++ strSlash else path)
  else Some path.
End handle.

Section serveFile.
Context `{GoClock} `{FsLib} `{ByteBufferOps} (responseLimit : Z).

Definition ServeFile (abs : bytes → option bytes) (wd : option bytes) (os : osAnswers) (x : RequestCtx) (path : bytes)
    : F outcome :=
  match ServeFilePath abs path with
  | None => mret (mkOut None (RequestCtx.Error responseLimit x (bs "Internal Server Error") StatusInternalServerError) None)
  | Some path =>
      handleRequest responseLimit (initRequestHandler rootFS wd) os
        (x <| cx_Request := Request.SetRequestURI (cx_Request x) path |>)
  end.
Definition ServeFileBytes := ServeFile.

Definition ServeFileUncompressed (abs : bytes → option bytes) (wd : option bytes) (os : osAnswers) (x : RequestCtx)
    (path : bytes) : F outcome :=
  let q := cx_Request x in
  ServeFile abs wd os
    (x <| cx_Request := q <| rq_Header := (RequestHeader.DelBytes (rq_Header q) strAcceptEncoding) |> |>) path.
Definition ServeFileBytesUncompressed := ServeFileUncompressed.

(** A handler of its own, and a cache of its own, for every call. *)
Definition ServeFS (wd : option bytes) (os : osAnswers) (x : RequestCtx) (path : bytes) : F outcome :=
  handleRequest responseLimit
    (initRequestHandler
       (mkFS true [] [] [] None None true (emptyOrder, emptyOrder, emptyOrder) true true true false 0 ([], [], []) None 0) wd)
    os (x <| cx_Request := Request.SetRequestURI (cx_Request x) path |>).

Definition FSHandler (wd : option bytes) (root : bytes) (stripSlashes : nat) (os : osAnswers) (x : RequestCtx) : F outcome :=
  let rewrite := match stripSlashes with 0 => None | n => Some (NewPathSlashesStripper n) end in
  handleRequest responseLimit
    (initRequestHandler
       (mkFS false root [bs "index.html"] [] rewrite None false (emptyOrder, emptyOrder, emptyOrder) true false true false 0
          ([], [], []) None 0) wd) os x.
End serveFile.
