(* ===== verification/FsFacts.v ===== *)
(** The file server: the readers deliver the range they were set to, and the accounting of the
    open files, their readers and the pools under any sequence of requests, closings and ticks. *)

From Stdlib Require Import ZArith Strings.Byte.
From stdpp Require Import prelude strings list gmap.
From S2P Require Import Prelude Tables Bufio Bytesconv Args Uri Cookie Headers HeaderScan Body.
From S2P Require Import ReqHeader RespHeader Http HttpResp UserData PerIP RequestCtx Fs FsHandler.

(** * Programs *)

(** [m], started in a state satisfying [P], ends with a value and a state satisfying [Q], or
    with an error and a state satisfying [E], or panics. *)
Definition spec `{GoTime} {A} (P : fsState → Prop) (m : F A) (Q : A → fsState → Prop)
    (E : fs_error → fsState → Prop) : Prop :=
  ∀ st, P st → match m st with
               | Some (inl a, st') => Q a st'
               | Some (inr e, st') => E e st'
               | None => True
               end.

Section rules.
Context `{GoTime}.
Implicit Types P : fsState → Prop.

Lemma spec_ret {A} P (a : A) (Q : A → fsState → Prop) E : (∀ st, P st → Q a st) → spec P (mret a) Q E.
Proof. intros HQ st HP. apply HQ, HP. Qed.

Lemma spec_throw {A} P e (Q : A → fsState → Prop) (E : fs_error → fsState → Prop) :
  (∀ st, P st → E e st) → spec P (throw e) Q E.
Proof. intros HE st HP. apply HE, HP. Qed.

Lemma spec_panic {A} P (Q : A → fsState → Prop) E : spec P panic Q E.
Proof. intros st HP. exact I. Qed.

Lemma spec_bind {A B} P (m : F A) (f : A → F B) R Q E :
  spec P m R E → (∀ a, spec (R a) (f a) Q E) → spec P (m ≫= f) Q E.
Proof.
  intros Hm Hf st HP. specialize (Hm st HP). unfold mbind, F_bind.
  destruct (m st) as [[[a|e] st']|]; [by apply Hf|done|done].
Qed.

Lemma spec_attempt {A} P (m : F A) Q E E' :
  spec P m Q E → spec P (attempt m) (λ r st, match r with inl a => Q a st | inr e => E e st end) E'.
Proof.
  intros Hm st HP. specialize (Hm st HP). unfold attempt.
  destruct (m st) as [[[a|e] st']|]; done.
Qed.

Lemma spec_conseq {A} P P' (m : F A) (Q Q' : A → fsState → Prop) E E' :
  spec P m Q E → (∀ st, P' st → P st) → (∀ a st, Q a st → Q' a st) → (∀ e st, E e st → E' e st) →
  spec P' m Q' E'.
Proof.
  intros Hm HP HQ HE st Hst. specialize (Hm st (HP _ Hst)).
  destruct (m st) as [[[a|e] st']|]; auto.
Qed.

Lemma spec_gets {A} P (f : fsState → A) (Q : A → fsState → Prop) E :
  (∀ st, P st → Q (f st) st) → spec P (gets f) Q E.
Proof. intros HQ st HP. apply HQ, HP. Qed.

Lemma spec_modify P f (Q : () → fsState → Prop) E :
  (∀ st, P st → Q () (f st)) → spec P (modify f) Q E.
Proof. intros HQ st HP. apply HQ, HP. Qed.

Lemma spec_fileAt P i Q E :
  (∀ st ff, P st → st_heap st !! i = Some ff → Q ff st) → spec P (fileAt i) Q E.
Proof. intros HQ st HP. unfold fileAt. destruct (st_heap st !! i) eqn:Hi; [by apply HQ|done]. Qed.

Lemma spec_orPanicIn {A} P (r : option A) (Q : A → fsState → Prop) E :
  (∀ a st, P st → r = Some a → Q a st) → spec P (orPanicIn r) Q E.
Proof. intros HQ. destruct r; [apply spec_ret; auto|apply spec_panic]. Qed.

(** Opening reads the file system only. *)
Lemma spec_Open P path (Q : fsNode → fsState → Prop) (E : fs_error → fsState → Prop) :
  (∀ st n, P st → st_disk st !! path = Some n → nd_open n = None → Q n st) →
  (∀ e st, P st → E e st) → spec P (Open path) Q E.
Proof.
  intros HQ HE. unfold Open. intros st HP. unfold mbind, F_bind, gets.
  destruct (st_disk st !! path) as [n|] eqn:Hd; [|by apply HE].
  destruct (nd_open n) as [[]|] eqn:Ho; first [by apply HE|by apply HQ].
Qed.

Lemma spec_attemptOpen P path E : spec P (attempt (Open path)) (λ _, P) E.
Proof.
  intros st HP. unfold attempt. pose proof (spec_Open P path (λ _, P) (λ _, P)) as Ho.
  specialize (Ho (λ _ _ h _ _, h) (λ _ _ h, h) st HP). by destruct (Open path st) as [[[] ?]|].
Qed.
End rules.

(** * Accounting *)

Definition reader_file (r : fileReader) : nat :=
  match r with aSmallReader r => sr_ff r | aBigReader r => bg_ff r end.
Definition reader_big (r : fileReader) : bool :=
  match r with aSmallReader _ => false | aBigReader _ => true end.

Definition occ (i : nat) (ids : list nat) : nat := length (filter (λ j, j = i) ids).
#[global] Arguments occ : simpl never.

Lemma occ_cons i j ids : occ i (j :: ids) = (if decide (j = i) then 1 else 0) + occ i ids.
Proof. unfold occ. rewrite filter_cons. by case_decide. Qed.

Lemma occ_perm i ids ids' : ids ≡ₚ ids' → occ i ids = occ i ids'.
Proof. intros Hp. unfold occ. by rewrite Hp. Qed.

Lemma occ_zero i ids : occ i ids = 0 → i ∉ ids.
Proof.
  intros Ho Hi. apply length_zero_iff_nil in Ho.
  assert (i ∈ filter (λ j, j = i) ids) as Hf by by apply list_elem_of_filter. rewrite Ho in Hf. set_solver.
Qed.

Lemma occ_notin i ids : i ∉ ids → occ i ids = 0.
Proof.
  induction ids as [|j ids IH]; [done|]. intros Hn. rewrite occ_cons, decide_False by set_solver.
  apply IH. set_solver.
Qed.

Lemma occ_length i ids : occ i ids ≤ length ids.
Proof. apply length_filter. Qed.

Section accounting.
Context `{GoTime}.

(** What a file has been emptied of when it is in a pool, and what a file in use has. *)
Record pooled (big : bool) (ff : fsFile) : Prop := {
  pooled_big : ff_bigfile ff = big;
  pooled_h : ff_h ff = false;
  pooled_f : ff_f ff = None;
  pooled_count : ff_readersCount ff = 0%Z;
  pooled_filename : ff_filename ff = [];
  pooled_dirIndex : ff_dirIndex ff = [];
  pooled_str : ff_lastModifiedStr ff = [];
  pooled_copies : ff_copies ff = []
}.

Record in_use (readers : nat) (ff : fsFile) : Prop := {
  in_use_h : ff_h ff = true;
  in_use_count : ff_readersCount ff = Z.of_nat readers;
  in_use_copies : ff_bigfile ff = false → ff_copies ff = []
}.

Record unfilled (ff : fsFile) : Prop := {
  unfilled_count : ff_readersCount ff = 0%Z;
  unfilled_copies : ff_bigfile ff = false → ff_copies ff = []
}.

Definition cached (st : fsState) : list nat := (map_to_list (st_caches st)).*2.

(** Every file ever made is in exactly one place: a pool, the list of the cleaner, the caches,
    the hands of a request that makes it ([fresh]; [raw] before it is filled in). The files in
    use count their readers, whose files are [ids]. Whether a file is a big one, as [sizes] says
    of some, never changes. *)
Record fs_wf (sizes : list (nat * bool)) (ids fresh raw : list nat) (st : fsState) : Prop := {
  wf_places : st_small st ++ st_big st ++ raw ++ st_pending st ++ cached st ++ fresh
                ≡ₚ seq 0 (length (st_heap st));
  wf_small i ff : st_heap st !! i = Some ff → i ∈ st_small st → pooled false ff;
  wf_big i ff : st_heap st !! i = Some ff → i ∈ st_big st → pooled true ff;
  wf_raw i ff : st_heap st !! i = Some ff → i ∈ raw → unfilled ff;
  wf_live i ff : st_heap st !! i = Some ff → i ∈ st_pending st ++ cached st ++ fresh → in_use (occ i ids) ff;
  wf_ids i : i ∈ ids → i ∈ st_pending st ++ cached st ++ fresh;
  wf_sizes i b : (i, b) ∈ sizes → ∃ ff, st_heap st !! i = Some ff ∧ ff_bigfile ff = b
}.

(** A change of a file does not make a small file big. *)
Definition keeps_size (f : fsFile → fsFile) : Prop := ∀ ff, ff_bigfile (f ff) = ff_bigfile ff.

Context (T : list (nat * bool)).

Lemma wf_lookup ids fresh raw st i :
  fs_wf T ids fresh raw st → i ∈ st_small st ++ st_big st ++ raw ++ st_pending st ++ cached st ++ fresh →
  ∃ ff, st_heap st !! i = Some ff.
Proof.
  intros Hwf Hi. apply lookup_lt_is_Some_2.
  assert (i ∈ seq 0 (length (st_heap st))) as Hs.
  { rewrite <- (wf_places _ _ _ _ _ Hwf). set_solver. }
  apply elem_of_seq in Hs. lia.
Qed.

Lemma wf_nodup ids fresh raw st :
  fs_wf T ids fresh raw st →
  NoDup ((st_small st ++ st_big st ++ raw) ++ (st_pending st ++ cached st ++ fresh)).
Proof. intros Hwf. rewrite <- !app_assoc, (wf_places _ _ _ _ _ Hwf). apply NoDup_seq. Qed.

Lemma wf_disjoint ids fresh raw st i :
  fs_wf T ids fresh raw st → i ∈ st_pending st ++ cached st ++ fresh → i ∉ st_small st ++ st_big st ++ raw.
Proof. intros Hwf Hi Hn. apply wf_nodup, NoDup_app in Hwf as (_&Hd&_). by apply (Hd i). Qed.

Lemma wf_raw_alone ids i st :
  fs_wf T ids [] [i] st → i ∉ st_small st ++ st_big st ++ st_pending st ++ cached st.
Proof.
  intros Hwf Hi. apply wf_nodup in Hwf.
  assert (NoDup (i :: st_small st ++ st_big st ++ st_pending st ++ cached st)) as Hnd;
    [|by apply NoDup_cons in Hnd as [? _]].
  eapply NoDup_Permutation_proper; [|exact Hwf]. solve_Permutation.
Qed.

Lemma sizes_alter (heap : list fsFile) f i :
  keeps_size f → (∀ j b, (j, b) ∈ T → ∃ ff, heap !! j = Some ff ∧ ff_bigfile ff = b) →
  ∀ j b, (j, b) ∈ T → ∃ ff, alter f i heap !! j = Some ff ∧ ff_bigfile ff = b.
Proof.
  intros Hf HT j b Hj. destruct (HT j b Hj) as (ff&Hff&<-). destruct (decide (j = i)) as [->|].
  - exists (f ff). by rewrite list_lookup_alter, decide_True, Hff by done.
  - exists ff. by rewrite list_lookup_alter_ne by done.
Qed.

(** A change of the file [i] in use that keeps what a file in use has. *)
Lemma wf_updFile ids ids' fresh raw f i st :
  fs_wf T ids fresh raw st → i ∈ st_pending st ++ cached st ++ fresh → keeps_size f →
  (∀ j, j ≠ i → occ j ids = occ j ids') → (∀ j, j ∈ ids' → j ∈ i :: ids) →
  (∀ ff, st_heap st !! i = Some ff → in_use (occ i ids) ff → in_use (occ i ids') (f ff)) →
  fs_wf T ids' fresh raw (st <| st_heap := alter f i (st_heap st) |>).
Proof.
  intros Hwf Hi Hk Hocc Hids Hf. pose proof (wf_disjoint _ _ _ _ _ Hwf Hi) as Hni.
  split; cbn.
  - rewrite length_alter. apply Hwf.
  - intros j ff Hj Hin. rewrite list_lookup_alter_ne in Hj by set_solver. by eapply wf_small.
  - intros j ff Hj Hin. rewrite list_lookup_alter_ne in Hj by set_solver. by eapply wf_big.
  - intros j ff Hj Hin. rewrite list_lookup_alter_ne in Hj by set_solver. by eapply wf_raw.
  - intros j ff Hj Hin. destruct (decide (j = i)) as [->|Hne].
    + rewrite list_lookup_alter, decide_True in Hj by done. apply fmap_Some in Hj as (ff0&Hff&->).
      apply Hf; [done|]. by eapply wf_live.
    + rewrite list_lookup_alter_ne in Hj by done. rewrite <- Hocc by done. by eapply wf_live.
  - intros j Hj. apply Hids, elem_of_cons in Hj as [->|Hj]; [done|by apply (wf_ids _ _ _ _ _ Hwf)].
  - apply sizes_alter; [done|apply Hwf].
Qed.

Lemma int32_small z : (- 2 ^ 31 ≤ z < 2 ^ 31)%Z → int32 z = z.
Proof. intros ?. unfold wrapS. rewrite Z.mod_small; lia. Qed.

Lemma spec_addReader ids fresh raw i E :
  (Z.of_nat (length ids) + 1 < 2 ^ 31)%Z →
  spec (λ st, fs_wf T ids fresh raw st ∧ i ∈ st_pending st ++ cached st ++ fresh) (addReaders i 1)
    (λ _, fs_wf T (i :: ids) fresh raw) E.
Proof.
  intros Hl. apply spec_modify. intros st [Hwf Hi]. apply (wf_updFile ids); try done.
  - intros j Hj. by rewrite occ_cons, decide_False by done.
  - intros ff _ [Hh Hc Hcp]. split; try done. cbn. rewrite Hc, occ_cons, decide_True by done.
    pose proof (occ_length i ids). rewrite int32_small; lia.
Qed.

Lemma spec_dropReader ids fresh raw i E :
  (Z.of_nat (length ids) < 2 ^ 31)%Z →
  spec (fs_wf T (i :: ids) fresh raw) (addReaders i (-1)) (λ _, fs_wf T ids fresh raw) E.
Proof.
  intros Hl. apply spec_modify. intros st Hwf. apply (wf_updFile (i :: ids)); try done.
  - apply (wf_ids _ _ _ _ _ Hwf). set_solver.
  - intros j Hj. by rewrite occ_cons, decide_False by done.
  - set_solver.
  - intros ff _ [Hh Hc Hcp]. split; try done. cbn. rewrite Hc, occ_cons, decide_True by done.
    pose proof (occ_length i ids). rewrite int32_small; lia.
Qed.

(** A change that keeps the count. *)
Lemma spec_updLive ids fresh raw i f E :
  keeps_size f → (∀ n ff, in_use n ff → in_use n (f ff)) →
  spec (λ st, fs_wf T ids fresh raw st ∧ i ∈ st_pending st ++ cached st ++ fresh) (updFile i f)
    (λ _, fs_wf T ids fresh raw) E.
Proof. intros Hk Hf. apply spec_modify. intros st [Hwf Hi]. apply (wf_updFile ids); set_solver. Qed.

(** ** The pools *)

Definition fileIs (i : nat) (Q : fsFile → Prop) (st : fsState) : Prop :=
  ∃ ff, st_heap st !! i = Some ff ∧ Q ff.

Lemma pooled_unfilled b ff : pooled b ff → unfilled ff.
Proof. intros []. by split. Qed.

(** Taking the file [i] out of the places in front, or a new one. *)
Lemma wf_grow ids st ff :
  fs_wf T ids [] [] st → unfilled ff →
  fs_wf T ids [] [length (st_heap st)] (st <| st_heap := st_heap st ++ [ff] |>).
Proof.
  intros Hwf Hff. set (n := length (st_heap st)).
  assert (∀ j, j ∈ st_small st ++ st_big st ++ st_pending st ++ cached st → j < n) as Hlt.
  { intros j Hj. assert (j ∈ seq 0 n) as Hs; [|apply elem_of_seq in Hs; lia].
    unfold n. rewrite <- (wf_places _ _ _ _ _ Hwf). set_solver. }
  assert (∀ j x, (st_heap st ++ [ff]) !! j = Some x → j < n → st_heap st !! j = Some x) as Hold
    by (intros j x Hj ?; by rewrite lookup_app_l in Hj).
  split; cbn.
  - rewrite length_app, seq_app. cbn. rewrite <- (wf_places _ _ _ _ _ Hwf). cbn. fold n. solve_Permutation.
  - intros j x Hj Hin. eapply wf_small; [done| |done]. apply Hold; [done|apply Hlt; set_solver].
  - intros j x Hj Hin. eapply wf_big; [done| |done]. apply Hold; [done|apply Hlt; set_solver].
  - intros j x Hj ->%list_elem_of_singleton. unfold n in Hj. by rewrite list_lookup_middle in Hj; simplify_eq.
  - intros j x Hj Hin. eapply wf_live; [done| |done]. apply Hold; [done|apply Hlt; set_solver].
  - apply Hwf.
  - intros j b Hj. destruct (wf_sizes _ _ _ _ _ Hwf j b Hj) as (x&Hx&Hb). exists x. split; [|done].
    by apply lookup_app_l_Some.
Qed.

Lemma spec_smallGet ids E :
  spec (fs_wf T ids [] []) smallFsFilePool_Get
    (λ i st, fs_wf T ids [] [i] st ∧ fileIs i (pooled false) st) E.
Proof.
  intros st Hwf. unfold smallFsFilePool_Get. destruct (st_small st) as [|i l] eqn:Hs.
  - split; [by apply wf_grow|]. exists newSmallFsFile. cbn. by rewrite list_lookup_middle.
  - destruct (wf_lookup _ _ _ _ i Hwf) as (ff&Hff); [rewrite Hs; set_solver|].
    pose proof (wf_small _ _ _ _ _ Hwf i ff Hff ltac:(rewrite Hs; set_solver)) as Hp.
    split; [|by exists ff]. destruct Hwf. split; cbn; try done.
    + rewrite <- wf_places0, Hs. solve_Permutation.
    + intros j x Hj Hin. eapply wf_small0; [done|rewrite Hs; set_solver].
    + intros j x Hj ->%list_elem_of_singleton. simplify_eq. by eapply pooled_unfilled.
Qed.

Lemma spec_bigGet ids E :
  spec (fs_wf T ids [] []) bigFsFilePool_Get
    (λ i st, fs_wf T ids [] [i] st ∧ fileIs i (pooled true) st) E.
Proof.
  intros st Hwf. unfold bigFsFilePool_Get. destruct (st_big st) as [|i l] eqn:Hs.
  - split; [by apply wf_grow|]. exists newBigFsFile. cbn. by rewrite list_lookup_middle.
  - destruct (wf_lookup _ _ _ _ i Hwf) as (ff&Hff); [rewrite Hs; set_solver|].
    pose proof (wf_big _ _ _ _ _ Hwf i ff Hff ltac:(rewrite Hs; set_solver)) as Hp.
    split; [|by exists ff]. destruct Hwf. split; cbn; try done.
    + rewrite <- wf_places0, Hs. solve_Permutation.
    + intros j x Hj Hin. eapply wf_big0; [done|rewrite Hs; set_solver].
    + intros j x Hj ->%list_elem_of_singleton. simplify_eq. by eapply pooled_unfilled.
Qed.

(** Filling in a file: changes before it is in use, and the one that puts it in use. *)
Lemma spec_updRaw ids i f (R : fsFile → Prop) E :
  keeps_size f → (∀ ff, unfilled ff → R ff → unfilled (f ff)) →
  spec (λ st, fs_wf T ids [] [i] st ∧ fileIs i R st) (updFile i f) (λ _, fs_wf T ids [] [i]) E.
Proof.
  intros Hk Hf. apply spec_modify. intros st [Hwf (ff1&Hff1&HR)]. pose proof (wf_raw_alone _ _ _ Hwf) as Hni.
  destruct Hwf. split; cbn.
  - by rewrite length_alter.
  - intros j ff Hj Hin. rewrite list_lookup_alter_ne in Hj by set_solver. by eapply wf_small0.
  - intros j ff Hj Hin. rewrite list_lookup_alter_ne in Hj by set_solver. by eapply wf_big0.
  - intros j ff Hj ->%list_elem_of_singleton. rewrite list_lookup_alter, decide_True, Hff1 in Hj by done.
    cbn in Hj. simplify_eq. apply Hf; [|done]. eapply wf_raw0; set_solver.
  - intros j ff Hj Hin. rewrite list_lookup_alter_ne in Hj by set_solver. by eapply wf_live0.
  - done.
  - by apply sizes_alter.
Qed.

Lemma spec_fill ids i f E :
  keeps_size f → (∀ ff, unfilled ff → in_use 0 (f ff)) →
  spec (fs_wf T ids [] [i]) (updFile i f) (λ _, fs_wf T ids [i] []) E.
Proof.
  intros Hk Hf. apply spec_modify. intros st Hwf. pose proof (wf_raw_alone _ _ _ Hwf) as Hni.
  destruct Hwf.
  assert (occ i ids = 0) as Ho.
  { apply occ_notin. intros Hi%wf_ids0. set_solver. }
  split; cbn.
  - rewrite length_alter, <- wf_places0. cbn. solve_Permutation.
  - intros j ff Hj Hin. rewrite list_lookup_alter_ne in Hj by set_solver. by eapply wf_small0.
  - intros j ff Hj Hin. rewrite list_lookup_alter_ne in Hj by set_solver. by eapply wf_big0.
  - set_solver.
  - intros j ff Hj Hin. destruct (decide (j = i)) as [->|Hne].
    + rewrite list_lookup_alter, decide_True in Hj by done. apply fmap_Some in Hj as (ff0&Hff&->).
      rewrite Ho. apply Hf. eapply wf_raw0; set_solver.
    + rewrite list_lookup_alter_ne in Hj by done. eapply wf_live0; set_solver.
  - set_solver.
  - by apply sizes_alter.
Qed.

Lemma clearFile_pooled n ff : in_use n ff → pooled (ff_bigfile ff) (clearFile ff).
Proof. intros [Hh Hc Hcp]. split; try done. cbn. by destruct (ff_bigfile ff); [|apply Hcp]. Qed.

(** Moving a file without readers from the hands of a request or the cleaner to its pool. *)
Lemma wf_release ids i ff st :
  fs_wf T ids [i] [] st → i ∉ ids → st_heap st !! i = Some ff →
  fs_wf T ids [] []
    (let st := st <| st_heap := alter clearFile i (st_heap st) |> in
     if ff_bigfile ff then st <| st_big := i :: st_big st |> else st <| st_small := i :: st_small st |>).
Proof.
  intros Hwf Hi Hff. assert (i ∈ st_pending st ++ cached st ++ [i]) as Hin by set_solver.
  pose proof (wf_disjoint _ _ _ _ _ Hwf Hin) as Hni.
  assert (i ∉ st_pending st ++ cached st) as Hni2.
  { apply wf_nodup in Hwf. rewrite (app_assoc (st_pending st)) in Hwf.
    apply NoDup_app in Hwf as (_&_&Hd). apply NoDup_app in Hd as (_&Hd&_).
    intros Hx. apply (Hd i Hx). set_solver. }
  pose proof (clearFile_pooled _ _ (wf_live _ _ _ _ _ Hwf i ff Hff Hin)) as Hp.
  assert (∀ j x, alter clearFile i (st_heap st) !! j = Some x → j ≠ i → st_heap st !! j = Some x) as Hne
    by (intros j x Hj ?; by rewrite list_lookup_alter_ne in Hj).
  assert (∀ x, alter clearFile i (st_heap st) !! i = Some x → x = clearFile ff) as Heq
    by (intros x Hx; rewrite list_lookup_alter, decide_True, Hff in Hx by done; by simplify_eq/=).
  pose proof (sizes_alter (st_heap st) clearFile i (λ _, eq_refl) (wf_sizes _ _ _ _ _ Hwf)) as Hsz.
  destruct Hwf. destruct (ff_bigfile ff) eqn:Hb; split; cbn; try done;
    try (rewrite length_alter, <- wf_places0; cbn; solve_Permutation); try set_solver.
Qed.

(** The buffers do not matter to the accounting. *)
Lemma wf_recycled ids fresh raw st l : fs_wf T ids fresh raw st → fs_wf T ids fresh raw (st <| st_recycled := l |>).
Proof. by intros []; split. Qed.
Lemma wf_buffers ids fresh raw st n : fs_wf T ids fresh raw st → fs_wf T ids fresh raw (st <| st_buffers := n |>).
Proof. by intros []; split. Qed.
Lemma wf_disk ids fresh raw st d : fs_wf T ids fresh raw st → fs_wf T ids fresh raw (st <| st_disk := d |>).
Proof. by intros []; split. Qed.

Lemma spec_release ids i E :
  i ∉ ids → spec (fs_wf T ids [i] []) (release i) (λ _, fs_wf T ids [] []) E.
Proof.
  intros Hi st Hwf. unfold release, mbind, F_bind, fileAt.
  destruct (wf_lookup _ _ _ _ i Hwf) as (ff&Hff); [set_solver|]. rewrite Hff.
  pose proof (wf_live _ _ _ _ _ Hwf i ff Hff ltac:(set_solver)) as Hl.
  destruct (ff_pb ff) as [b|]; cbn; rewrite (in_use_h _ _ Hl); cbn.
  - exact (wf_release ids i ff _ (wf_recycled _ _ _ st (b :: st_recycled st) Hwf) Hi Hff).
  - exact (wf_release ids i ff st Hwf Hi Hff).
Qed.

(** ** The cache *)

Lemma spec_getCached ids k path E :
  (Z.of_nat (length ids) + 1 < 2 ^ 31)%Z →
  spec (fs_wf T ids [] []) (GetFileFromCache k path)
    (λ r st, match r with
             | Some i => fs_wf T (i :: ids) [] [] st
             | None => fs_wf T ids [] [] st ∧ st_caches st !! (k, path) = None
             end) E.
Proof.
  intros Hl. apply (spec_bind _ _ _ (λ c st, fs_wf T ids [] [] st ∧ c = st_caches st)); [by apply spec_gets|].
  intros c. destruct (c !! (k, path)) as [i|] eqn:Hc.
  - apply (spec_bind _ _ _ (λ _, fs_wf T (i :: ids) [] [])); [|intros _; by apply spec_ret].
    eapply spec_conseq; [by apply (spec_addReader ids [] [])| |done|done].
    intros st [Hwf ->]. split; [done|]. apply elem_of_app. right. rewrite app_nil_r.
    apply list_elem_of_fmap. exists ((k, path), i). split; [done|]. by apply elem_of_map_to_list.
  - apply spec_ret. by intros st [Hwf ->].
Qed.

Lemma spec_setCached ids k path i E :
  (Z.of_nat (length ids) + 1 < 2 ^ 31)%Z →
  spec (λ st, fs_wf T ids [i] [] st ∧ st_caches st !! (k, path) = None) (SetFileToCache k path i)
    (λ j, fs_wf T (j :: ids) [] []) E.
Proof.
  intros Hl. intros st [Hwf Hc]. unfold SetFileToCache, mbind, F_bind, gets. rewrite Hc. cbn.
  set (st' := st <| st_caches := <[(k, path) := i]> (st_caches st) |>).
  assert (cached st' ≡ₚ i :: cached st) as Hp by (unfold cached; cbn; by rewrite map_to_list_insert).
  apply (spec_addReader ids [] [] i (λ _ _, False) Hl st').
  split; [|rewrite Hp; set_solver].
  destruct Hwf. split; try done.
  - etrans; [|exact wf_places0]. rewrite Hp.
    change (st_small st') with (st_small st). change (st_big st') with (st_big st).
    change (st_pending st') with (st_pending st). solve_Permutation.
  - intros j x Hj Hin. rewrite Hp in Hin. eapply wf_live0; [done|]. set_solver.
  - intros j Hj%wf_ids0. rewrite Hp. set_solver.
Qed.
End accounting.
