(* ===== verification/FsAccount.v ===== *)
(** The accounting of the file server's open files through its cleaner and its requests. *)

From Stdlib Require Import ZArith Strings.Byte.
From stdpp Require Import prelude strings list gmap.
From S2P Require Import Prelude Tables Bufio Bytesconv Args Uri Cookie Headers HeaderScan Body.
From S2P Require Import ReqHeader RespHeader Http HttpResp UserData PerIP RequestCtx Fs FsHandler FsFacts.

Section clean.
Context `{GoClock} (T : list (nat * bool)).

(** * The cleaner *)

(** Moving a file from the cache to the list of the cleaner. *)
Lemma wf_evict ids kp i st :
  fs_wf T ids [] [] st → st_caches st !! kp = Some i →
  fs_wf T ids [] [] (st <| st_pending := i :: st_pending st |> <| st_caches := delete kp (st_caches st) |>).
Proof.
  intros Hwf Hc. set (st' := st <| st_pending := _ |> <| st_caches := _ |>).
  assert (i :: cached st' ≡ₚ cached st) as Hp.
  { unfold cached. cbn. by rewrite <- (map_to_list_delete (st_caches st) kp i Hc). }
  assert (∀ j, j ∈ st_pending st' ++ cached st' ++ [] ↔ j ∈ st_pending st ++ cached st ++ []) as Hiff.
  { intros j. rewrite <- Hp. cbn. set_solver. }
  destruct Hwf. split; try done.
  - etrans; [|exact wf_places]. rewrite <- Hp.
    change (st_small st') with (st_small st). change (st_big st') with (st_big st).
    change (st_pending st') with (i :: st_pending st). solve_Permutation.
  - intros j ff Hj Hin%Hiff. by eapply wf_live.
  - intros j Hj%wf_ids. by apply Hiff.
Qed.

Lemma wf_cleanEntries ids h d now l st0 :
  NoDup l.*1 → (∀ kp i, (kp, i) ∈ l → st_caches st0 !! kp = Some i) → fs_wf T ids [] [] st0 →
  let st := foldr (λ '(kp, i), cleanEntry h d now kp i) st0 l in
  fs_wf T ids [] [] st ∧ ∀ kp, kp ∉ l.*1 → st_caches st !! kp = st_caches st0 !! kp.
Proof.
  induction l as [|[kp i] l IH]; intros Hnd Hl Hwf; [done|]. cbn in Hnd. apply NoDup_cons in Hnd as [Hk Hnd].
  destruct IH as [Hwf' Hsame]; [done|intros kp' j Hj; apply Hl; by right|done|]. cbn. set (st := foldr _ st0 l) in *.
  assert (st_caches st !! kp = Some i) as Hkp by (rewrite Hsame by done; apply Hl; by left).
  assert (∀ kp', kp' ∉ kp :: l.*1 → kp ≠ kp' ∧ st_caches st !! kp' = st_caches st0 !! kp') as Hrest.
  { intros kp' [Hne Hn]%not_elem_of_cons. split; [done|]. by apply Hsame. }
  unfold cleanEntry. destruct (st_heap st !! i) as [ff|]; [|split; [done|]; intros kp' Hn; by apply Hrest].
  destruct (isStale h d now (st_disk st) ff); [|split; [done|]; intros kp' Hn; by apply Hrest].
  split; [by apply wf_evict|]. intros kp' [Hne Hs]%Hrest. cbn. by rewrite lookup_delete_ne.
Qed.

Lemma wf_cleanCache ids h d now st : fs_wf T ids [] [] st → fs_wf T ids [] [] (cleanCache h d now st).
Proof.
  intros Hwf. unfold cleanCache. rewrite map_fold_foldr.
  apply (wf_cleanEntries ids h d now (map_to_list (st_caches st)) st); [|by intros ??; rewrite elem_of_map_to_list|done].
  apply NoDup_fst_map_to_list.
Qed.

Lemma release_pending i st r st' : release i st = Some (r, st') → st_pending st' = st_pending st.
Proof.
  unfold release, mbind, F_bind, fileAt. destruct (st_heap st !! i) as [ff|]; [|done].
  destruct (ff_pb ff), (ff_h ff), (ff_bigfile ff); cbn; unfold modify; intros Hr; by simplify_eq.
Qed.

(** The cleaner takes [i] out of its list. *)
Lemma wf_unlist ids i rest st :
  fs_wf T ids [] [] st → st_pending st ≡ₚ i :: rest → fs_wf T ids [i] [] (st <| st_pending := rest |>).
Proof.
  intros Hwf Hp. set (st1 := st <| st_pending := rest |>).
  change (fs_wf T ids [i] [] st1). destruct Hwf. split; try done.
  - etrans; [|exact wf_places]. rewrite Hp. change (cached st1) with (cached st). solve_Permutation.
  - intros j ff Hj Hin. eapply wf_live; [done|]. rewrite Hp. set_solver.
  - intros j Hj%wf_ids. rewrite Hp in Hj. set_solver.
Qed.

(** The cleaner takes [i], which has no readers, out of its list and releases it. *)
Lemma spec_releasePending {A} ids i rest (k : F A) Q E :
  spec (λ st, fs_wf T ids [] [] st ∧ st_pending st = rest) k Q E →
  spec (λ st, fs_wf T ids [] [] st ∧ i ∉ ids ∧ st_pending st ≡ₚ i :: rest)
    (_ ← modify (λ st, st <| st_pending := rest |>); _ ← release i; k) Q E.
Proof.
  intros Hk st (Hwf&Hi&Hp). unfold mbind at 1, F_bind, modify.
  pose proof (spec_release T ids i (λ _ _, False) Hi _ (wf_unlist _ _ _ _ Hwf Hp)) as Hr. unfold mbind, F_bind.
  destruct (release i _) as [[[[]|e] st2]|] eqn:Er; [|done|done].
  apply Hk. split; [done|]. by apply release_pending in Er.
Qed.

(** Releasing a file that is in use does not panic. *)
Lemma release_file_ok i ff st :
  st_heap st !! i = Some ff → ff_h ff = true → ∃ st', release i st = Some (inl (), st').
Proof.
  intros Hff Hh. unfold release, mbind, F_bind, fileAt. rewrite Hff, Hh. destruct (ff_pb ff); by eexists.
Qed.

Lemma releasePending_ok ids i rest st :
  fs_wf T ids [] [] st → i ∉ ids → st_pending st ≡ₚ i :: rest →
  ∃ st', release i (st <| st_pending := rest |>) = Some (inl (), st') ∧ fs_wf T ids [] [] st' ∧ st_pending st' = rest.
Proof.
  intros Hwf Hi Hp. pose proof (wf_unlist _ _ _ _ Hwf Hp) as Hwf1. set (st1 := st <| st_pending := rest |>) in *.
  destruct (wf_lookup _ _ _ _ _ i Hwf1) as (ff&Hff); [set_solver|].
  destruct (release_file_ok i ff st1 Hff) as [st' Hr].
  { apply (in_use_h _ _ (wf_live _ _ _ _ _ Hwf1 i ff Hff ltac:(set_solver))). }
  exists st'. split; [done|]. split; [|by apply release_pending in Hr].
  pose proof (spec_release T ids i (λ _ _, False) Hi st1 Hwf1) as Hs. by rewrite Hr in Hs.
Qed.

Lemma no_readers ids st i :
  fs_wf T ids [] [] st → i ∈ st_pending st → i ∉ ids → fileIs i (λ ff, ff_readersCount ff = 0%Z) st.
Proof.
  intros Hwf Hi Hn. destruct (wf_lookup _ _ _ _ _ i Hwf) as (ff&Hff); [set_solver|]. exists ff. split; [done|].
  rewrite (in_use_count _ _ (wf_live _ _ _ _ _ Hwf i ff Hff ltac:(set_solver))). by rewrite occ_notin.
Qed.

Lemma pending_loop_done ids head rest st :
  fs_wf T ids [] [] st → st_pending st = head :: rest → (∀ i, i ∈ rest → i ∉ ids) →
  ∃ st', (∀ more, pending_loop (length rest + more) head rest st = Some (inl pendingDone, st')) ∧
    fs_wf T ids [] [] st' ∧ st_pending st' = [head].
Proof.
  revert st. induction rest as [|i rest IH]; intros st Hwf Hp Hn; [exists st; split; [by intros []|done]|].
  destruct (no_readers ids st i Hwf) as (ff&Hff&Hc); [rewrite Hp; set_solver|set_solver|].
  destruct (releasePending_ok ids i (head :: rest) st Hwf) as (st1&Hr&Hwf1&Hp1);
    [set_solver|rewrite Hp; solve_Permutation|].
  destruct (IH st1) as (st'&Hl&Hwf'&Hp'); [done|done|set_solver|]. exists st'. split; [|done]. intros more.
  cbn [length plus pending_loop]. unfold mbind, F_bind, fileAt, modify. rewrite Hff, bool_decide_true, Hr by done. apply Hl.
Qed.

Lemma handlePending_done ids st :
  fs_wf T ids [] [] st → (∀ i, i ∈ st_pending st → i ∉ ids) →
  ∃ st', handlePendingCache (length (st_pending st)) st = Some (inl pendingDone, st') ∧
    fs_wf T ids [] [] st' ∧ st_pending st' = [].
Proof.
  intros Hwf Hn. unfold handlePendingCache, mbind, F_bind, gets. destruct (st_pending st) as [|head rest] eqn:Hp; [by exists st|].
  destruct (pending_loop_done ids head rest st) as (st1&Hl&Hwf1&Hp1); [done|done|set_solver|].
  assert (pending_loop (length (head :: rest)) head rest st = Some (inl pendingDone, st1)) as ->.
  { cbn [length]. rewrite <- Nat.add_1_r. apply Hl. }
  destruct (no_readers ids st1 head Hwf1) as (ff&Hff&Hc); [rewrite Hp1; set_solver|set_solver|].
  destruct (releasePending_ok ids head [] st1 Hwf1) as (st'&Hr&Hwf'&Hp'); [set_solver|by rewrite Hp1|].
  exists st'. split; [|done]. unfold fileAt, modify. by rewrite Hff, bool_decide_true, Hr.
Qed.

Lemma count_zero ids st i ff :
  fs_wf T ids [] [] st → i ∈ st_pending st → st_heap st !! i = Some ff → ff_readersCount ff = 0%Z → i ∉ ids.
Proof.
  intros Hwf Hi Hff Hc. apply occ_zero.
  pose proof (in_use_count _ _ (wf_live _ _ _ _ _ Hwf i ff Hff ltac:(set_solver))). lia.
Qed.

Lemma spec_pending_loop ids head rounds rest E :
  spec (λ st, fs_wf T ids [] [] st ∧ st_pending st = head :: rest) (pending_loop rounds head rest)
    (λ r st, fs_wf T ids [] [] st ∧ (r = pendingDone → st_pending st = [head])) E.
Proof.
  revert rest. induction rounds as [|rounds IH]; intros [|i rest]; cbn; try (apply spec_ret; naive_solver).
  eapply spec_bind; [apply spec_fileAt; intros st ff HP Hff; exact (conj HP Hff)|]. intros ff. cbn.
  case_bool_decide as Hc.
  - eapply spec_conseq; [apply (spec_releasePending ids i (head :: rest)), IH| |done|done].
    intros st [[Hwf Hp] Hff]. split_and!; [done| |rewrite Hp; solve_Permutation].
    eapply count_zero; [done| |done|done]. rewrite Hp. set_solver.
  - eapply spec_conseq; [apply IH| |done|done]. naive_solver.
Qed.

Lemma spec_handlePendingCache ids rounds E :
  spec (fs_wf T ids [] []) (handlePendingCache rounds) (λ _, fs_wf T ids [] []) E.
Proof.
  apply (spec_bind _ _ _ (λ p st, fs_wf T ids [] [] st ∧ st_pending st = p)); [by apply spec_gets|].
  intros [|head rest]; [apply spec_ret; naive_solver|].
  eapply spec_bind; [apply spec_pending_loop|]. intros []; [|apply spec_ret; naive_solver].
  eapply spec_bind; [apply spec_fileAt; intros st ff HP Hff; exact (conj HP Hff)|]. intros ff. cbn.
  case_bool_decide as Hc; [|apply spec_ret; naive_solver].
  eapply (spec_conseq _ _ _ (λ _, fs_wf T ids [] []) _ E); [apply (spec_releasePending ids head [])| |done|done].
  - apply spec_ret. naive_solver.
  - intros st [[Hwf Hp] Hff]. rewrite (Hp eq_refl). split_and!; [done| |done].
    eapply count_zero; [done| |done|done]. rewrite (Hp eq_refl). set_solver.
Qed.

Lemma spec_cleanTick ids h d now rounds E :
  spec (fs_wf T ids [] []) (cleanTick h d now rounds) (λ _, fs_wf T ids [] []) E.
Proof.
  apply (spec_bind _ _ _ (λ _, fs_wf T ids [] [])); [|intros _; apply spec_handlePendingCache].
  apply spec_modify. intros st. apply wf_cleanCache.
Qed.
End clean.

(** * Opening a file *)

Section opening.
Context `{GoClock} `{FsLib} (T : list (nat * bool)) (h : fsHandler) (os : osAnswers).

Lemma spec_newFSFile ids f n compressed path E :
  spec (fs_wf T ids [] []) (newFSFile os f n compressed path) (λ i, fs_wf T ids [i] []) E.
Proof.
  apply (spec_bind _ _ _ (λ i, fs_wf T ids [] [i])).
  - case_match.
    + eapply spec_bind; [apply spec_bigGet|]. intros i.
      apply (spec_bind _ _ _ (λ _, fs_wf T ids [] [i])); [|intros _; by apply spec_ret].
      apply spec_updRaw; [by intros ff; destruct compressed|].
      intros ff [] []. by destruct compressed; split; cbn; congruence.
    + eapply spec_bind; [apply spec_smallGet|]. intros i.
      apply (spec_bind _ _ _ (λ _, fs_wf T ids [] [i])); [|intros _; by apply spec_ret].
      apply spec_updRaw; [done|]. by intros ff [] _; split.
  - intros i. apply (spec_bind _ _ _ (λ _, fs_wf T ids [i] [])); [|intros _; by apply spec_ret].
    apply spec_fill; [by intros ff|]. intros ff []. by split.
Qed.

(** A small file made in one go. *)
Lemma spec_smallFile ids f E :
  keeps_size f → (∀ ff, unfilled ff → in_use 0 (f ff)) →
  spec (fs_wf T ids [] []) (i ← smallFsFilePool_Get; _ ← updFile i f; mret i) (λ i, fs_wf T ids [i] []) E.
Proof.
  intros Hk Hf. eapply spec_bind; [apply spec_smallGet|]. intros i.
  apply (spec_bind _ _ _ (λ _, fs_wf T ids [i] [])); [|intros _; by apply spec_ret].
  apply (spec_conseq (fs_wf T ids [] [i]) _ _ (λ _, fs_wf T ids [i] []) _ E); [by apply spec_fill|naive_solver|done|done].
Qed.

Abbreviation W ids := (fs_wf T ids [] []).
Abbreviation E ids := (λ _ : fs_error, fs_wf T ids [] []).

(** Programs that only look at the file system, or change it. *)
Lemma spec_OpenW ids path : spec (W ids) (Open path) (λ _, W ids) (E ids).
Proof. by apply spec_Open. Qed.

Lemma spec_modifyDisk ids f : spec (W ids) (modify (λ st, st <| st_disk := f st |>)) (λ _, W ids) (E ids).
Proof. apply spec_modify. intros st. apply wf_disk. Qed.

Lemma spec_newBuffer ids : spec (W ids) newBuffer (λ _, W ids) (E ids).
Proof. intros st Hwf. by apply wf_buffers. Qed.

Lemma spec_newCompressedFSFile ids path :
  spec (W ids) (newCompressedFSFile os path) (λ i, fs_wf T ids [i] []) (E ids).
Proof.
  eapply spec_bind; [apply spec_attemptOpen|].
  intros [n|e]; cbn; [|by apply spec_throw]. repeat (case_match; [by apply spec_throw|]).
  apply spec_newFSFile.
Qed.

Lemma spec_compressFileNoLock ids f n path k :
  spec (W ids) (compressFileNoLock h os f n path k) (λ i, fs_wf T ids [i] []) (E ids).
Proof.
  unfold compressFileNoLock. case_match; [case_match; by apply spec_throw|]. case_match; [apply spec_panic|].
  eapply spec_bind; [apply spec_modifyDisk|]. intros []. cbn beta. repeat (case_match; [by apply spec_throw|]).
  eapply spec_bind; [apply spec_modifyDisk|]. intros []. cbn beta. case_match; [by apply spec_throw|].
  eapply spec_bind; [apply spec_modifyDisk|]. intros []. apply spec_newCompressedFSFile.
Qed.

Lemma spec_compressAndOpenFSFile ids f n path inPlace k :
  spec (W ids) (compressAndOpenFSFile h os f n path inPlace k) (λ i, fs_wf T ids [i] []) (E ids).
Proof.
  unfold compressAndOpenFSFile. case_match.
  { eapply spec_bind; [apply spec_newBuffer|]. intros b. cbn beta zeta.
    destruct (h_pool h k && os_compressErr os); [by apply spec_throw|].
    apply spec_smallFile; [by intros ff|]. intros ff []. by split. }
  case_match; [by apply spec_throw|].
  apply (spec_bind _ _ _ (λ _, W ids)); [by apply spec_gets|]. intros d.
  repeat case_match; try apply spec_compressFileNoLock; [apply spec_newCompressedFSFile|..].
  all: apply (spec_bind _ _ _ (λ _, W ids)); [|intros _; apply spec_compressFileNoLock].
  all: first [apply spec_modifyDisk|by apply spec_ret].
Qed.

Lemma spec_createDirIndex ids dir req mc k :
  spec (W ids) (createDirIndex h os dir req mc k) (λ i, fs_wf T ids [i] []) (E ids).
Proof.
  apply (spec_bind _ _ _ (λ _, W ids)); [by apply spec_orPanicIn|]. intros parent.
  apply (spec_bind _ _ _ (λ _, W ids)).
  { apply (spec_bind _ _ _ (λ _, W ids)); [by apply spec_gets|]. intros d.
    repeat case_match; first [by apply spec_ret|by apply spec_throw]. }
  intros names. apply (spec_bind _ _ _ (λ _, W ids)); [by apply spec_orPanicIn|]. intros page.
  case_match; [apply spec_panic|]. case_match; [by apply spec_throw|].
  eapply spec_bind; [apply spec_newBuffer|]. intros b.
  apply spec_smallFile; [by intros ff|]. intros ff []. by split.
Qed.

Lemma spec_openIndex ids path names : spec (W ids) (openIndex path names) (λ _, W ids) (E ids).
Proof.
  induction names as [|name names IH]; cbn; [by apply spec_ret|].
  eapply spec_bind; [apply spec_attemptOpen|].
  intros [n|e]; cbn; [by apply spec_ret|]. case_match; first [apply IH|by apply spec_throw].
Qed.

Lemma spec_openTarget ids path endSlash : spec (W ids) (openTarget h path endSlash) (λ _, W ids) (E ids).
Proof.
  eapply spec_bind; [apply spec_OpenW|]. intros n. cbn beta.
  repeat (case_match; [first [by apply spec_throw|by apply spec_ret]|]).
  eapply spec_bind; [apply spec_openIndex|]. intros ix. cbn beta.
  repeat case_match; first [by apply spec_throw|by apply spec_ret].
Qed.

Lemma spec_makeFile ids path req target ct mc ip k :
  spec (W ids) (makeFile h os path req target ct mc ip k) (λ i, fs_wf T ids [i] []) (E ids).
Proof.
  unfold makeFile. case_match; [|apply spec_createDirIndex].
  apply (spec_bind _ _ _ (λ i, fs_wf T ids [i] [])).
  - apply (spec_bind _ _ _ (λ r st, match r with inl i => fs_wf T ids [i] [] st | inr _ => W ids st end)).
    + apply (spec_attempt _ _ (λ i, fs_wf T ids [i] []) (E ids)). case_match; [apply spec_compressAndOpenFSFile|apply spec_newFSFile].
    + intros []; [by apply spec_ret|apply spec_panic].
  - intros i. apply (spec_bind _ _ _ (λ _, fs_wf T ids [i] [])); [|intros _; by apply spec_ret].
    eapply spec_conseq; [apply (spec_updLive T ids [i] [] i _ (E ids))| |done|done].
    + done.
    + by intros n ff []; split.
    + intros st Hwf. split; [done|]. set_solver.
Qed.

(** A program that leaves the caches alone. *)
Definition keeps_caches {A} (m : F A) : Prop := ∀ st r st', m st = Some (r, st') → st_caches st' = st_caches st.

Lemma keepsMade_bind {A B} (m : F A) (f : A → F B) :
  keeps_caches m → (∀ a, keeps_caches (f a)) → keeps_caches (m ≫= f).
Proof.
  intros Hm Hf st r st'. unfold mbind, F_bind. destruct (m st) as [[[a|e] st1]|] eqn:E1; [|naive_solver..].
  intros E2. by rewrite (Hf _ _ _ _ E2), (Hm _ _ _ E1).
Qed.

Lemma keeps_attempt {A} (m : F A) : keeps_caches m → keeps_caches (attempt m).
Proof. intros Hm st r st'. unfold attempt. destruct (m st) as [[r1 st1]|] eqn:E1; naive_solver. Qed.

Ltac keeps :=
  repeat first
    [ apply keepsMade_bind; [|intros ?]
    | apply keeps_attempt
    | case_match
    | by intros ???; unfold mret, F_ret, throw, panic, gets, modify, updFile, modify, newBuffer, fileAt;
         intros; repeat case_match; simplify_eq/= ].

Lemma keeps_makeFile path req target ct mc ip k : keeps_caches (makeFile h os path req target ct mc ip k).
Proof.
  unfold makeFile, createDirIndex, ReadDir, orPanic, orPanicIn, compressAndOpenFSFile, newCompressedFSFileCache, compressFileNoLock,
    newCompressedFSFile, newFSFile, Open, smallFsFilePool_Get, bigFsFilePool_Get.
  keeps.
Qed.

Lemma spec_keeps {A} (m : F A) P Q Er c :
  spec P m Q Er → keeps_caches m →
  spec (λ st, P st ∧ st_caches st = c) m (λ a st, Q a st ∧ st_caches st = c) Er.
Proof.
  intros Hm Hk st [HP Hc]. specialize (Hm st HP). specialize (Hk st).
  destruct (m st) as [[[a|e] st']|]; [|done|done]. split; [done|]. rewrite <- Hc. by eapply Hk.
Qed.

Context (ids : list nat) (Hids : (Z.of_nat (length ids) + 1 < 2 ^ 31)%Z).

(** An opened file counts the request that opened it. *)
Lemma spec_openFSFile path req endSlash mc k d :
  h_cacheManager h = Some d →
  spec (W ids) (openFSFile h os path req endSlash mc k) (λ i, W (i :: ids)) (E ids).
Proof.
  intros Hd. eapply spec_bind; [apply spec_openTarget|]. intros [path' target]. cbn beta iota.
  apply (spec_bind _ _ _ (λ _, W ids)).
  { case_match; [|by apply spec_ret]. case_match; [by apply spec_throw|].
    apply (spec_bind _ _ _ (λ _, W ids)); [|intros ct; by apply spec_ret].
    unfold contentType. repeat case_match; first [by apply spec_throw|by apply spec_ret]. }
  intros [ct mc']. rewrite Hd. cbn zeta. set (p2 := if mc' then _ else path').
  eapply spec_bind; [by apply spec_getCached|]. intros [i|]; cbn beta iota; [by apply spec_ret|].
  intros st [Hwf Hc].
  refine (spec_bind (λ st', W ids st' ∧ st_caches st' = st_caches st) _ _ _ (λ i, W (i :: ids)) (E ids)
            (spec_keeps _ _ _ _ (st_caches st) (spec_makeFile ids _ _ _ _ _ _ _) (keeps_makeFile _ _ _ _ _ _ _)) _ st (conj Hwf eq_refl)).
  intros i. apply (spec_bind _ _ _ (λ _ st', fs_wf T ids [i] [] st' ∧ st_caches st' = st_caches st)).
  - case_match; [|by apply spec_ret].
    apply (spec_keeps (updFile i _)); [|by intros ??? [= <- <-]].
    eapply spec_conseq; [apply (spec_updLive T ids [i] [] i _ (E ids))| |done|done]; [done|by intros ? ff []; split|].
    intros st' Hwf'. split; [done|]. set_solver.
  - intros _. eapply spec_conseq; [by apply (spec_setCached T ids k req i (E ids))| |done|done].
    intros st' [Hwf' Hc']. by rewrite Hc'.
Qed.

(** * Requests *)

Definition readers_typed (rs : list fileReader) (st : fsState) : Prop :=
  ∀ r, r ∈ rs → fileIs (reader_file r) (λ ff, ff_bigfile ff = reader_big r) st.

Lemma spec_NewReader i :
  spec (W (i :: ids)) (NewReader i)
    (λ r st, W (i :: ids) st ∧ reader_file r = i ∧ fileIs i (λ ff, ff_bigfile ff = reader_big r) st) (E ids).
Proof.
  eapply spec_bind; [apply spec_fileAt; intros st ff HP Hff; exact (conj HP Hff)|]. intros ff. cbn beta.
  destruct (ff_bigfile ff) eqn:Hb; last first.
  { case_match; [apply spec_panic|]. apply spec_ret. intros st [Hwf Hff]. split_and!; [done..|]. by exists ff. }
  apply (spec_bind _ _ _ (λ r st, match r with
           | inl r => W (i :: ids) st ∧ reader_file r = i ∧ fileIs i (λ ff, ff_bigfile ff = reader_big r) st
           | inr _ => W (i :: ids) st end)).
  - apply (spec_attempt _ _ (λ r st, W (i :: ids) st ∧ reader_file r = i ∧ fileIs i (λ ff, ff_bigfile ff = reader_big r) st)
             (E (i :: ids))). unfold bigFileReader. case_match.
    + case_match; [apply spec_panic|].
      apply (spec_bind _ _ _ (λ _ st, W (i :: ids) st ∧ st_heap st !! i = Some ff)).
      * apply spec_attemptOpen.
      * intros [n|e]; cbn beta iota; [apply spec_ret|apply spec_throw; by intros ? []].
        intros st [Hwf Hff]. split_and!; [done..|]. by exists ff.
    + apply (spec_bind _ _ _ (λ _ st, W (i :: ids) st ∧ fileIs i (λ ff, ff_bigfile ff = true) st)).
      * apply spec_modify. intros st [Hwf Hff]. split.
        -- apply (wf_updFile T (i :: ids)); [done| |done|done|set_solver|].
           ++ apply (wf_ids _ _ _ _ _ Hwf). set_solver.
           ++ intros ff' Hff' [Hh Hc Hcp]. split; try done. intros Hs. cbn in Hs. congruence.
        -- eexists. cbn. rewrite list_lookup_alter, decide_True, Hff by done. by cbn.
      * intros _. apply spec_ret. naive_solver.
  - intros [r|e]; cbn beta iota; [by apply spec_ret|].
    eapply spec_bind; [apply (spec_dropReader T ids [] []); lia|]. intros []. by apply spec_throw.
Qed.

Lemma spec_closeReader r Er :
  spec (λ st, W (reader_file r :: ids) st ∧ fileIs (reader_file r) (λ ff, ff_bigfile ff = reader_big r) st)
    (closeReader r) (λ _, W ids) Er.
Proof.
  destruct r as [r|r]; cbn.
  - eapply spec_bind; [apply spec_fileAt; intros st ff HP Hff; exact HP|]. intros ff. cbn beta.
    case_match; [apply spec_panic|].
    eapply spec_conseq; [apply (spec_dropReader T ids [] [] _ Er); lia|by intros st []|done|done].
  - case_match; [apply spec_panic|].
    apply (spec_bind _ _ _ (λ _, W (bg_ff r :: ids))); [|intros []; apply (spec_dropReader T ids [] [] _ Er); lia].
    apply spec_modify. intros st [Hwf (ff0&Hff0&Hb)].
    apply (wf_updFile T (bg_ff r :: ids)); [done| |by intros ff; case_match|done|set_solver|].
    + apply (wf_ids _ _ _ _ _ Hwf). set_solver.
    + intros ff Hff [Hh Hc Hcp]. case_match; [|done]. split; try done. intros Hs. cbn in Hs. congruence.
Qed.

(** What a request leaves behind: the readers there were, and the one its response was given. *)
Definition after (o : outcome) (st : fsState) : Prop :=
  W ((reader_file <$> option_list (out_reader o)) ++ ids) st ∧ readers_typed (option_list (out_reader o)) st.

Lemma after_none e x st : W ids st → after (mkOut e x None) st.
Proof. intros Hwf. split; [done|]. intros r. set_solver. Qed.

Lemma spec_failed e x Er : spec (W ids) (failed e x) after Er.
Proof. apply spec_ret. intros st. apply after_none. Qed.

Abbreviation withReader r :=
  (λ st, W (reader_file r :: ids) st ∧ fileIs (reader_file r) (λ ff, ff_bigfile ff = reader_big r) st).

Lemma UpdateByteRange_file r a b r' :
  UpdateByteRange r a b = rangeSet r' → reader_file r' = reader_file r ∧ reader_big r' = reader_big r.
Proof. destruct r; cbn; [done|]. case_match; [done|]. by intros [= <-]. Qed.

Lemma spec_applyRange x r br n Er :
  spec (withReader r) (applyRange h x r br n)
    (λ res st, match res with inl (_, r', _, _) => withReader r' st | inr _ => W ids st end) Er.
Proof.
  unfold applyRange. case_match; [by apply spec_ret|]. case_match; [by apply spec_ret|].
  case_match; [|by eapply spec_bind; [apply spec_closeReader|]; intros []; apply spec_ret].
  case_match. case_match; [|by eapply spec_bind; [apply spec_closeReader|]; intros []; apply spec_ret|apply spec_panic].
  eapply spec_bind; [apply (spec_orPanicIn (withReader r) _ (λ _, withReader r)); auto|].
  intros hd. apply spec_ret. intros st. cbn.
  match goal with Hr : UpdateByteRange _ _ _ = rangeSet _ |- _ =>
    destruct (UpdateByteRange_file _ _ _ _ Hr) as [-> ->]; exact (λ h, h) end.
Qed.

Context `{ByteBufferOps} (limit : Z).

Lemma spec_serveReader x ff r enc br Er :
  spec (withReader r) (serveReader h x ff r enc br) after Er.
Proof.
  unfold serveReader. eapply spec_bind; [apply spec_applyRange|].
  intros [[[[x' r'] n] code]|e]; cbn beta iota; [|apply spec_failed].
  apply (spec_bind _ _ _ (λ _, withReader r')); [by apply spec_gets|]. intros heap.
  apply (spec_bind _ _ _ (λ xr st, ∀ e, after (mkOut e xr.1 xr.2) st)).
  - case_match.
    + apply spec_ret. intros st [Hwf Ht] e. split; [done|]. by intros r0 ->%list_elem_of_singleton.
    + eapply spec_bind; [apply spec_closeReader|]. intros []. apply spec_ret. intros st Hwf e. by apply after_none.
  - intros [x2 out]. cbn beta iota. apply spec_ret. intros st Ha. exact (Ha None).
Qed.

Lemma spec_serveFile x i enc br Er : spec (W (i :: ids)) (serveFile limit h x i enc br) after Er.
Proof.
  eapply spec_bind; [apply spec_fileAt; intros st ff HP Hff; exact HP|]. intros ff. cbn beta. case_match.
  - eapply spec_bind; [apply (spec_dropReader T ids [] []); lia|]. intros []. apply spec_ret. intros st. apply after_none.
  - eapply spec_bind; [eapply spec_attempt, spec_NewReader|].
    intros [r|e]; cbn beta iota; [|apply spec_failed].
    eapply spec_conseq; [apply (spec_serveReader _ _ _ _ _ Er)| |done|done].
    intros st (Hwf&<-&Ht). done.
Qed.

Lemma spec_handleRequestWithError x d Er :
  h_cacheManager h = Some d → spec (W ids) (handleRequestWithError limit h os x) after Er.
Proof.
  intros Hd. apply (spec_bind _ _ _ (λ _, W ids)); [by apply spec_orPanicIn|]. intros [path x']. cbn beta iota zeta.
  case_match; [apply spec_failed|]. case_match; [apply spec_failed|].
  rewrite Hd. eapply spec_bind; [by apply spec_getCached|]. intros cachedFile. cbn beta.
  apply (spec_bind _ _ _ (λ r st, match r with inl i => W (i :: ids) st | inr _ => W ids st end)).
  - destruct cachedFile as [i|]; [by apply spec_ret|].
    eapply spec_conseq; [eapply (spec_attempt _ _ (λ i, W (i :: ids)) (E ids) Er), spec_openFSFile, Hd|by intros st []|done|done].
  - intros [i|e]; cbn beta iota; [apply spec_serveFile|].
    destruct e; try apply spec_failed.
    apply (spec_bind _ _ _ (λ _, W ids)); [by apply spec_orPanicIn|]. intros x2. apply spec_ret. intros st. apply after_none.
Qed.

Lemma spec_handleRequest x d Er :
  h_cacheManager h = Some d → spec (W ids) (handleRequest limit h os x) after Er.
Proof.
  intros Hd. eapply spec_bind; [by eapply spec_handleRequestWithError|]. intros o. cbn beta.
  case_match; apply spec_ret; intros st Ha; exact Ha.
Qed.
End opening.

(** * Sequences of requests, reads, closings and ticks *)

(** A read through a reader, which moves it. *)
Definition readReader `{GoTime} (heap : list fsFile) (r : fileReader) (n : nat)
    : option (bytes * option body_error * fileReader) :=
  match r with
  | aSmallReader r =>
      ff ← heap !! sr_ff r;
      let '(b, e, (_, r)) := io_read (ff, r) n in Some (b, e, aSmallReader r)
  | aBigReader r => let '(b, e, r) := io_read r n in Some (b, e, aBigReader r)
  end.

Section steps.
Context `{GoClock} `{FsLib} `{ByteBufferOps} (limit : Z) (h : fsHandler) (duration : Z).

(** The state with the readers that responses hold. Other programs change the files. *)
Inductive fs_step : fsState * list fileReader → fsState * list fileReader → Prop :=
  | fs_request st rs os x o st' :
      (Z.of_nat (length rs) + 1 < 2 ^ 31)%Z → handleRequest limit h os x st = Some (inl o, st') →
      fs_step (st, rs) (st', option_list (out_reader o) ++ rs)
  | fs_read st rs r rs' n b e r' :
      rs ≡ₚ r :: rs' → readReader (st_heap st) r n = Some (b, e, r') → fs_step (st, rs) (st, r' :: rs')
  | fs_close st rs r rs' st' :
      rs ≡ₚ r :: rs' → closeReader r st = Some (inl (), st') → fs_step (st, rs) (st', rs')
  | fs_tick st rs now rounds res st' :
      cleanTick h duration now rounds st = Some (inl res, st') → fs_step (st, rs) (st', rs)
  | fs_files st rs disk : fs_step (st, rs) (st <| st_disk := disk |>, rs).

Definition fs_start (disk : gmap bytes fsNode) : fsState := mkFsState _ disk [] [] [] ∅ [] 0 [].

Definition reader_size (r : fileReader) : nat * bool := (reader_file r, reader_big r).

Definition fs_inv (s : fsState * list fileReader) : Prop :=
  (Z.of_nat (length s.2) < 2 ^ 31)%Z ∧ fs_wf (reader_size <$> s.2) (reader_file <$> s.2) [] [] s.1.

(** The invariant depends on which readers there are, not on their order. *)
Lemma wf_readers T T' ids ids' st :
  fs_wf T ids [] [] st → ids ≡ₚ ids' →
  (∀ i b, (i, b) ∈ T' → fileIs i (λ ff, ff_bigfile ff = b) st) → fs_wf T' ids' [] [] st.
Proof.
  intros [] Hp HT. split; try done.
  - intros i ff Hff Hi. rewrite <- (occ_perm i ids ids') by done. by eapply wf_live.
  - intros i Hi. apply wf_ids. by rewrite Hp.
Qed.

Lemma wf_typed T ids fresh raw st r :
  fs_wf T ids fresh raw st → reader_size r ∈ T → fileIs (reader_file r) (λ ff, ff_bigfile ff = reader_big r) st.
Proof. intros Hwf Hr. exact (wf_sizes _ _ _ _ _ Hwf _ _ Hr). Qed.

Lemma readReader_size heap r n b e r' :
  readReader heap r n = Some (b, e, r') → reader_size r' = reader_size r.
Proof.
  destruct r as [r|r]; cbn.
  - destruct (heap !! sr_ff r) as [ff|]; [|done]. cbn. unfold io_read, smallReader_Read.
    repeat case_match; intros ?; by simplify_eq/=.
  - unfold io_read, bigReader_Read, readFile. repeat case_match; intros ?; by simplify_eq/=.
Qed.

Lemma fs_inv_step d s s' : h_cacheManager h = Some d → fs_inv s → fs_step s s' → fs_inv s'.
Proof.
  intros Hd [Hl Hwf] Hs. destruct Hs as [st rs os x o st' Hn Hr|st rs r rs' n b e r' Hp Hr
    |st rs r rs' st' Hp Hc|st rs now rounds res st' Ht|st rs disk]; cbn [fst snd] in *.
  - pose proof (spec_handleRequest (reader_size <$> rs) h os (reader_file <$> rs)
                  ltac:(by rewrite length_fmap) limit x d (λ _ _, False) Hd st Hwf) as Ha.
    rewrite Hr in Ha. destruct Ha as [Hwf' Ht]. split.
    + cbn. rewrite length_app. destruct (out_reader o); cbn; lia.
    + cbn. eapply wf_readers; [exact Hwf'|by rewrite fmap_app|].
      intros i b. rewrite fmap_app, elem_of_app. intros [Hi|Hi]; [|exact (wf_sizes _ _ _ _ _ Hwf' _ _ Hi)].
      apply list_elem_of_fmap in Hi as (r&[= -> ->]&Hi). by apply Ht.
  - assert (reader_size <$> r' :: rs' ≡ₚ reader_size <$> rs) as Hsz.
    { rewrite Hp. cbn. by rewrite (readReader_size _ _ _ _ _ _ Hr). }
    split; [apply Permutation_length in Hp; cbn in *; lia|]. cbn -[fmap].
    eapply wf_readers; [exact Hwf| |].
    + apply (fmap_Permutation fst) in Hsz. by rewrite <- !list_fmap_compose in Hsz.
    + intros i bg. rewrite Hsz. apply Hwf.
  - assert (Z.of_nat (length rs') + 1 < 2 ^ 31)%Z as Hl' by (rewrite Hp in Hl; cbn in Hl; lia).
    pose proof (spec_closeReader (reader_size <$> rs') (reader_file <$> rs')
                  ltac:(by rewrite length_fmap) r (λ _ _, False) st) as Hs.
    rewrite Hc in Hs. split; [cbn; lia|]. apply Hs. split.
    + eapply wf_readers; [exact Hwf|by rewrite Hp|].
      intros i b Hi. apply (wf_sizes _ _ _ _ _ Hwf). rewrite Hp. by right.
    + eapply wf_typed; [exact Hwf|]. rewrite Hp. by left.
  - split; [done|]. pose proof (spec_cleanTick _ _ h duration now rounds (λ _ _, False) st Hwf) as Hs.
    by rewrite Ht in Hs.
  - split; [done|]. by apply wf_disk.
Qed.

Lemma fs_inv_start disk : fs_inv (fs_start disk, []).
Proof. split; [done|]. split; try done; set_solver. Qed.

(** A reader that can be closed: not one of a big file that cannot seek. *)
Definition closable (r : fileReader) : Prop :=
  match r with aSmallReader _ => True | aBigReader r => bg_seekable r = true end.

Lemma close_no_panic T ids st r :
  fs_wf T ids [] [] st → reader_file r ∈ ids → closable r → is_Some (closeReader r st).
Proof.
  intros Hwf Hi Hr. apply (wf_ids _ _ _ _ _ Hwf) in Hi.
  destruct (wf_lookup _ _ _ _ _ (reader_file r) Hwf) as (ff&Hff); [set_solver|].
  destruct (wf_live _ _ _ _ _ Hwf _ _ Hff Hi) as [Hh _ _].
  destruct r as [r|r]; cbn in *; unfold mbind, F_bind, fileAt.
  - rewrite Hff, Hh. by eexists.
  - rewrite Hr. by eexists.
Qed.
End steps.
