(* ===== verification/FsServe.v ===== *)
(** What the file server answers: byte ranges, the readers that deliver them, and the response
    to the request of a file. *)

From Stdlib Require Import ZArith Strings.Byte.
From stdpp Require Import prelude strings list gmap.
From S2P Require Import Prelude Tables Bufio Bytesconv BytesconvFacts Args ArgsFacts Uri Cookie Headers HeaderScan Body.
From S2P Require Import StreamFacts ReqHeader RespHeader Http HttpResp UserData PerIP RequestCtx Fs FsHandler FsFacts FsAccount.

(** * Byte ranges *)

Lemma parseUintBuf_loop_range b i v w j :
  (0 ≤ v < 2 ^ 63)%Z → parseUintBuf_loop b i v = (w, j, None) → (0 ≤ w < 2 ^ 63)%Z.
Proof.
  revert i v. induction b as [|c b IH]; intros i v Hv; cbn [parseUintBuf_loop]; [naive_solver|].
  case_match; [case_bool_decide; naive_solver|]. case_match eqn:Hlt; [done|].
  apply IH. apply Z.ltb_ge in Hlt. pose proof (int64_range (10 * v + wrapU 8 (bz c - bz "0"))). lia.
Qed.

Lemma ParseUint_range b v : ParseUint b = (v, None) → (0 ≤ v < 2 ^ 63)%Z.
Proof.
  unfold ParseUint, parseUintBuf. case_bool_decide as Hb; [by destruct (bool_decide _)|].
  destruct (parseUintBuf_loop b 0 0) as [[w j] e] eqn:Hl. case_bool_decide; [done|].
  intros [= -> ->]. by eapply parseUintBuf_loop_range in Hl.
Qed.

(** An accepted range lies in the file; "-0" is the empty one after its end. *)
Lemma ParseByteRange_bounds b n s e :
  (0 < n < 2 ^ 63)%Z → ParseByteRange b n = inl (s, e) → (0 ≤ s ≤ e + 1 ∧ 0 ≤ e < n)%Z.
Proof.
  intros Hn. unfold ParseByteRange. case_match; [done|]. case_match; [done|]. case_match; [done|].
  rewrite (int64_small (n - 1)) by lia.
  destruct (IndexByte _ _) as [[|i]|]; [| |done].
  - destruct (ParseUint _) as [v [err|]] eqn:Hv; [done|]. apply ParseUint_range in Hv.
    rewrite int64_small by lia. intros [= <- <-]. case_match eqn:Hlt; lia.
  - destruct (ParseUint _) as [v [err|]] eqn:Hv; [done|]. apply ParseUint_range in Hv.
    case_match eqn:Hle; [done|]. apply Z.leb_gt in Hle.
    case_match; [intros [= <- <-]; lia|].
    destruct (ParseUint (_ :: _)) as [w [err|]] eqn:Hw; [done|]. apply ParseUint_range in Hw.
    case_match eqn:Hgt; [done|]. apply Z.ltb_ge in Hgt. intros [= <- <-]. case_match eqn:Hc; lia.
Qed.

(** What [SetByteRange] writes is read as the range it means in a file of [n] bytes. *)
Definition range_meaning (startPos endPos n : Z) : (Z * Z) + range_error :=
  if (startPos <? 0)%Z then inl (Z.max 0 (n + startPos), n - 1)%Z
  else if (n <=? startPos)%Z then inr rangeStartTooLarge
  else if (endPos <? 0)%Z then inl (startPos, n - 1)%Z
  else if (Z.min endPos (n - 1) <? startPos)%Z then inr rangeStartAfterEnd
  else inl (startPos, Z.min endPos (n - 1))%Z.

Lemma digits_no_dash ds : Forall is_digit ds → "-"%byte ∉ ds.
Proof. intros Hds Hin. rewrite Forall_forall in Hds. by specialize (Hds _ Hin). Qed.

Definition range_text (s : bytes) (e : bytes) : bytes := strBytes ++ "="%byte :: s ++ "-"%byte :: e.

Lemma ParseByteRange_text s e n :
  Forall is_digit s →
  ParseByteRange (range_text s e) n =
    match s with
    | [] =>
        match ParseUint e with
        | (_, Some err) => inr (badRangeNumber err)
        | (v, None) => let p := int64 (n - v) in inl (if (p <? 0)%Z then 0%Z else p, int64 (n - 1))
        end
    | _ =>
        match ParseUint s with
        | (_, Some err) => inr (badRangeNumber err)
        | (p, None) =>
            if (n <=? p)%Z then inr rangeStartTooLarge
            else match e with
                 | [] => inl (p, int64 (n - 1))
                 | _ => match ParseUint e with
                        | (_, Some err) => inr (badRangeNumber err)
                        | (q, None) =>
                            let q := if (n <=? q)%Z then int64 (n - 1) else q in
                            if (q <? p)%Z then inr rangeStartAfterEnd else inl (p, q)
                        end
                 end
        end
    end.
Proof.
  intros Hs. unfold ParseByteRange, range_text.
  change (HasPrefix (strBytes ++ _) strBytes) with true.
  change (drop (length strBytes) (strBytes ++ _)) with ("="%byte :: s ++ "-"%byte :: e). cbn [negb].
  change (negb (Byte.eqb "=" "=")) with false. cbn match.
  rewrite IndexByte_app by by apply digits_no_dash. destruct s as [|c s]; [done|].
  cbn [length]. rewrite take_app_length' by done.
  replace (S (length s) + 1)%nat with (length (c :: s ++ ["-"%byte])) by (cbn; rewrite length_app; cbn; lia).
  change (c :: s) with ([c] ++ s). replace (([c] ++ s) ++ "-"%byte :: e) with ((c :: s ++ ["-"%byte]) ++ e)
    by (cbn; by rewrite <- app_assoc).
  rewrite drop_app_length' by done. by destruct e.
Qed.

Lemma peek_setRange h v : RequestHeader.peek (RequestHeader.setNonSpecial h strRange v) strRange = v.
Proof.
  unfold RequestHeader.peek. change (RequestHeader.peekSpecial _ strRange) with (@None bytes). cbn match.
  unfold peekArgBytes, RequestHeader.setNonSpecial. cbn. unfold setArgBytes. rewrite live_setArg.
  by rewrite peek_set_eq.
Qed.

(** The text that is written: digits, or nothing for what is negative. *)
Lemma SetByteRange_text h s e h' :
  (- 2 ^ 63 < s < 2 ^ 63)%Z → (e < 2 ^ 63)%Z → RequestHeader.SetByteRange h s e = Some h' →
  ∃ ds de, RequestHeader.peek h' strRange = range_text ds de ∧ Forall is_digit ds ∧ Forall is_digit de ∧
    (if (s <? 0)%Z then ds = [] ∧ de ≠ [] ∧ decval 0 de = (- s)%Z
     else ds ≠ [] ∧ decval 0 ds = s ∧ if (e <? 0)%Z then de = [] else de ≠ [] ∧ decval 0 de = e).
Proof.
  intros Hs He. unfold RequestHeader.SetByteRange.
  destruct (Z.leb_spec 0 s) as [Hs0|Hs0].
  - destruct (AppendUint_spec (strBytes ++ ["="%byte]) s) as (ds&->&Hds&Hne&Hv); [lia|]. cbn.
    destruct (Z.ltb_spec s 0); [lia|].
    destruct (Z.leb_spec 0 e); destruct (Z.ltb_spec e 0); try lia.
    + destruct (AppendUint_spec ((((strBytes ++ ["="%byte]) ++ ds) ++ ["-"%byte])) e) as (de&Hd&Hde&Hne'&Hv'); [lia|].
      cbn in Hd. rewrite Hd. cbn. intros [= <-]. exists ds, de. rewrite peek_setRange.
      split_and!; try done. unfold range_text. by rewrite <- !app_assoc.
    + cbn. intros [= <-]. exists ds, []. rewrite peek_setRange. done.
  - cbn. destruct (Z.ltb_spec s 0); [|lia]. rewrite int64_small by lia.
    destruct (Z.leb_spec 0 (- s)); [|lia].
    destruct (AppendUint_spec ((strBytes ++ ["="%byte]) ++ ["-"%byte]) (- s)) as (de&Hd&Hde&Hne'&Hv'); [lia|].
    cbn in Hd. rewrite Hd. cbn. intros [= <-]. exists [], de. by rewrite peek_setRange.
Qed.

Lemma SetByteRange_read h s e h' n :
  (- 2 ^ 63 < s < 2 ^ 63)%Z → (e < 2 ^ 63)%Z → (0 < n < 2 ^ 63)%Z →
  RequestHeader.SetByteRange h s e = Some h' →
  ParseByteRange (RequestHeader.peek h' strRange) n = range_meaning s e n.
Proof.
  intros Hs He Hn Hset. destruct (SetByteRange_text _ _ _ _ Hs He Hset) as (ds&de&->&Hds&Hde&Hv).
  rewrite ParseByteRange_text by done. unfold range_meaning. rewrite (int64_small (n - 1)) by lia.
  destruct (Z.ltb_spec s 0) as [Hs0|Hs0].
  - destruct Hv as (->&Hne&Hv). rewrite ParseUint_digits by (done || lia). rewrite Hv.
    rewrite int64_small by lia. cbn zeta. case_match eqn:Hlt; [apply Z.ltb_lt in Hlt|apply Z.ltb_ge in Hlt].
    all: do 2 f_equal; lia.
  - destruct Hv as (Hne&Hv&He'). destruct ds as [|c ds]; [done|]. rewrite ParseUint_digits by (done || lia).
    rewrite Hv. destruct (Z.leb_spec n s); [done|].
    destruct (Z.ltb_spec e 0); [by subst de|]. destruct He' as [Hne' Hv']. destruct de as [|c' de]; [done|].
    rewrite ParseUint_digits by (done || lia). rewrite Hv'. cbn zeta.
    assert ((if (n <=? e)%Z then n - 1 else e) = Z.min e (n - 1))%Z as -> by (case_match eqn:Hc; lia).
    done.
Qed.

(** * Readers *)

Section readers.
Context `{GoTime}.

(** A reader that stays inside its file. *)
Definition small_inside (s : fsFile * smallReader) : Prop :=
  let '(ff, r) := s in
  (0 ≤ sr_startPos r ≤ sr_endPos r)%Z ∧ (sr_endPos r ≤ Z.of_nat (length (content ff)) < 2 ^ 63)%Z ∧ ff_f ff ≠ Some hDir.

Definition small_left (s : fsFile * smallReader) : bytes :=
  take (Z.to_nat (sr_endPos s.2 - sr_startPos s.2)) (drop (Z.to_nat (sr_startPos s.2)) (content s.1)).

Lemma small_read ff r n :
  small_inside (ff, r) → (sr_startPos r < sr_endPos r)%Z →
  let m := Nat.min n (Z.to_nat (sr_endPos r - sr_startPos r)) in
  io_read (ff, r) n = (take m (drop (Z.to_nat (sr_startPos r)) (content ff)), None,
                       (ff, r <| sr_startPos := (sr_startPos r + Z.of_nat m)%Z |>)).
Proof.
  intros (Hs&He&Hd) Hlt m. unfold io_read, smallReader_Read. rewrite int64_small by lia.
  destruct (Z.leb_spec (sr_endPos r - sr_startPos r) 0); [lia|]. fold m.
  assert (length (take m (drop (Z.to_nat (sr_startPos r)) (content ff))) = m) as Hlen.
  { rewrite length_take, length_drop. unfold m. lia. }
  unfold content in *. destruct (ff_f ff) as [[data|]|]; [|done|]; cbn [ReadAt].
  - rewrite Hlen. by rewrite (proj2 (Nat.ltb_ge m m) (le_n m)).
  - by rewrite Hlen.
Qed.

Lemma small_delivers :
  delivers (λ s rem, small_inside s ∧ rem = small_left s) (λ _ : fsFile * smallReader, True).
Proof.
  split.
  - intros [ff r] n rem [Hin ->] Hne Hn. pose proof Hin as (Hs&He&Hd).
    assert (sr_startPos r < sr_endPos r)%Z as Hlt.
    { unfold small_left in Hne. cbn in Hne. destruct (Z.lt_ge_cases (sr_startPos r) (sr_endPos r)); [done|].
      by replace (Z.to_nat (sr_endPos r - sr_startPos r)) with 0%nat in Hne by lia. }
    set (m := Nat.min n (Z.to_nat (sr_endPos r - sr_startPos r))).
    exists (take m (drop (Z.to_nat (sr_startPos r)) (content ff))), (ff, r <| sr_startPos := (sr_startPos r + Z.of_nat m)%Z |>),
      (small_left (ff, r <| sr_startPos := (sr_startPos r + Z.of_nat m)%Z |>)).
    split; [by apply small_read|]. split; [|split; [|split; [|split; [split; cbn; [lia|done]|done]]]].
    + intros Hnil. apply (f_equal length) in Hnil. rewrite length_take, length_drop in Hnil. cbn in Hnil. lia.
    + rewrite length_take. lia.
    + unfold small_left. cbn. rewrite Z2Nat.inj_add, Nat2Z.id by lia. rewrite <- drop_drop.
      rewrite <- (take_drop m (take _ _)) at 1. rewrite take_take, skipn_firstn_comm.
      f_equal; [f_equal; lia|]. f_equal; lia.
  - intros [ff r] n [Hin Hnil] Hn. pose proof Hin as (Hs&He&Hd). eexists. split; [|done].
    unfold io_read, smallReader_Read. rewrite int64_small by lia.
    destruct (Z.leb_spec (sr_endPos r - sr_startPos r) 0); [done|].
    apply (f_equal length) in Hnil. unfold small_left in Hnil. rewrite length_take, length_drop in Hnil. cbn in Hnil. lia.
Qed.

Lemma smallWriteTo_loop_all rounds w data cur fin :
  (0 ≤ cur ≤ fin)%Z → (fin ≤ Z.of_nat (length data) < 2 ^ 63)%Z → w_room w = None → (fin - cur < Z.of_nat rounds)%Z →
  smallWriteTo_loop rounds w (hFile data) cur fin
    = (fin, None, mkWriter (w_out w ++ take (Z.to_nat (fin - cur)) (drop (Z.to_nat cur) data)) None).
Proof.
  revert w cur. induction rounds as [|rounds IH]; intros w cur Hc Hf Hw Hr; [lia|]. cbn [smallWriteTo_loop].
  rewrite int64_small by lia. destruct (Z.leb_spec (fin - cur) 0).
  { replace (Z.to_nat (fin - cur)) with 0%nat by lia. rewrite take_0, app_nil_r. replace cur with fin by lia. by destruct w; cbn in *; subst. }
  set (m := Nat.min (Z.to_nat 8192) (Z.to_nat (fin - cur))). set (d := drop (Z.to_nat cur) data).
  assert (0 < m ≤ Z.to_nat (fin - cur))%nat as Hm by (unfold m; lia).
  assert (length (take m d) = m) as Hl by (unfold d; rewrite length_take, length_drop; lia).
  cbn [ReadAt]. fold d. rewrite Hl, (proj2 (Nat.ltb_ge m m) (le_n m)), Write_room by done.
  cbn [w_out]. rewrite length_app, Hl. replace (length (w_out w) + m - length (w_out w))%nat with m by lia.
  rewrite IH by (done || lia). cbn [w_out]. rewrite <- app_assoc. do 3 f_equal.
  replace (Z.to_nat (cur + Z.of_nat m)) with (Z.to_nat cur + m)%nat by lia. rewrite <- drop_drop. fold d.
  rewrite <- (take_drop m (take (Z.to_nat (fin - cur)) d)). rewrite take_take, skipn_firstn_comm. do 2 f_equal; lia.
Qed.

Lemma smallWriteTo_all w ff r :
  small_inside (ff, r) → w_room w = None →
  smallWriteTo w ff r = Some (Z.of_nat (length (small_left (ff, r))), None, mkWriter (w_out w ++ small_left (ff, r)) None).
Proof.
  intros (Hs&He&Hd) Hw. unfold smallWriteTo, small_left. cbn [fst snd]. unfold content in *.
  destruct (ff_f ff) as [[data|]|]; [|done|].
  - rewrite smallWriteTo_loop_all by (done || lia). rewrite int64_small by lia.
    rewrite length_take, length_drop. do 3 f_equal. lia.
  - destruct (Z.leb_spec 0 (sr_startPos r)); [|lia]. destruct (Z.leb_spec (sr_startPos r) (sr_endPos r)); [|lia].
    destruct (Z.leb_spec (sr_endPos r) (Z.of_nat (length (ff_dirIndex ff)))); [|lia]. cbn [andb].
    rewrite Write_room by done. cbn [w_out]. rewrite length_app. do 3 f_equal. lia.
Qed.

Definition big_inside (r : bigReader) : Prop :=
  ∃ data, bg_file r = hFile data ∧
    match bg_limit r with None => True | Some N => (0 ≤ N ≤ Z.of_nat (length data - bg_pos r))%Z end.

Lemma big_delivers :
  delivers (λ r rem, big_inside r ∧ rem = left_of [] (aBigReader r)) (λ _ : bigReader, True).
Proof.
  split.
  - intros r n rem [(data&Hf&HN) ->] Hne Hn. cbn in *. rewrite Hf in *. unfold io_read, bigReader_Read, readFile.
    set (d := drop (bg_pos r) data) in *. rewrite Hf. destruct (bg_limit r) as [N|] eqn:HL.
    + assert (0 < N)%Z as HN0 by (destruct (Z.lt_ge_cases 0 N); [done|]; by replace (Z.to_nat N) with 0%nat in Hne by lia).
      destruct (Z.leb_spec N 0); [lia|]. set (m := Nat.min n (Z.to_nat N)). fold d.
      assert (length d = length data - bg_pos r) as Hd by apply length_drop.
      assert (length (take m d) = m) as Hm by (rewrite length_take; lia).
      destruct (take m d) as [|c b] eqn:Hb; [cbn in Hm; lia|]. rewrite <- Hb in *. rewrite Hm.
      eexists _, _, (take (Z.to_nat N - m) (drop m d)). split_and!; [done|by rewrite Hb|lia| |exists data|]; cbn; try done.
      * rewrite <- (take_drop m (take _ _)) at 1. rewrite take_take, skipn_firstn_comm. do 2 f_equal; lia.
      * split; [done|]. lia.
      * rewrite Hf. unfold d. rewrite drop_drop. f_equal. lia.
    + fold d. exists (take n d), (r <| bg_pos := (bg_pos r + length (take n d))%nat |>), (drop (length (take n d)) d).
      assert (take n d ≠ []) as Ht by (destruct d, n; [done|done|lia|done]).
      split_and!; [by destruct (take n d)|done|rewrite length_take; lia| |exists data; cbn; by rewrite HL|].
      * rewrite length_take. destruct (Nat.le_ge_cases n (length d)).
        -- by rewrite Nat.min_l, take_drop by lia.
        -- by rewrite Nat.min_r, drop_all, take_ge, app_nil_r by lia.
      * cbn. rewrite Hf, HL. unfold d. by rewrite drop_drop.
  - intros r n [(data&Hf&HN) Hnil] Hn. cbn in *. rewrite Hf in *.
    unfold io_read, bigReader_Read, readFile. rewrite Hf. destruct (bg_limit r) as [N|] eqn:HL.
    + destruct (Z.leb_spec N 0); [by eexists|]. apply (f_equal length) in Hnil.
      rewrite length_take, length_drop in Hnil. cbn in Hnil. lia.
    + rewrite <- Hnil, take_nil. by eexists.
Qed.
End readers.

(** * The response *)

Section serve.
Context `{GoClock} `{FsLib} `{ByteBufferOps} (limit : Z) (h : fsHandler) (os : osAnswers).

(** The open file [ff] has the content [data]: a small one in its open file or in memory, a big
    one in the copy its next reader takes, or in the file of its name. *)
Definition holds (data : bytes) (st : fsState) (ff : fsFile) : Prop :=
  ff_h ff = true ∧ ff_contentLength ff = Z.of_nat (length data) ∧ (Z.of_nat (length data) < 2 ^ 63)%Z ∧
  if ff_bigfile ff then
    data ≠ [] ∧
    match ff_copies ff with
    | f :: _ => f = hFile data
    | [] => ∃ n, st_disk st !! ff_filename ff = Some n ∧ nd_open n = None ∧ nd_data n = Some data ∧ nd_seekable n = true
    end
  else ff_f ff ≠ Some hDir ∧ content ff = data.

(** What a request with the header [byteRange] gets of [data], and the status. *)
Definition rangePart (byteRange data : bytes) : (Z * bytes) + range_error :=
  if negb (h_acceptByteRange h) then inl (StatusOK, data)
  else match byteRange with
       | [] => inl (StatusOK, data)
       | _ => match ParseByteRange byteRange (Z.of_nat (length data)) with
              | inr e => inr e
              | inl (s, e) => inl (StatusPartialContent, take (Z.to_nat (e - s + 1)) (drop (Z.to_nat s) data))
              end
       end.

Definition chunks (part : bytes) : list bytes := match part with [] => [] | b => [b] end.

Record answers (head : bool) (code : Z) (part modified : bytes) (x : RequestCtx) : Prop := {
  ans_status : p_statusCode (re_Header (cx_Response x)) = code;
  ans_length : p_contentLength (re_Header (cx_Response x)) = Z.of_nat (length part);
  ans_stream : re_bodyStream (cx_Response x) =
                 if head then None else Some (streamSource (mkSource (chunks part) EOF) None (Close None));
  ans_skip : head = true → re_SkipBody (cx_Response x) = true;
  ans_modified : peekArgBytes (p_h (re_Header (cx_Response x))) strLastModified = Some modified
}.

(** A reader at the start of its file. *)
Definition at_start (data : bytes) (big : bool) (st : fsState) (r : fileReader) : Prop :=
  match r with
  | aSmallReader r => big = false ∧ left_of (st_heap st) (aSmallReader r) = data ∧ end_of (st_heap st) (aSmallReader r) = EOF
                      ∧ fileIs (sr_ff r) (λ ff, ff_h ff = true) st
  | aBigReader r => big = true ∧ data ≠ [] ∧ bg_file r = hFile data ∧ bg_pos r = 0%nat ∧ bg_limit r = None ∧ bg_seekable r = true
  end.

Lemma Open_ok path n st :
  st_disk st !! path = Some n → nd_open n = None → Open path st = Some (inl n, st).
Proof. intros Hd Ho. unfold Open, mbind, F_bind, gets. by rewrite Hd, Ho. Qed.

Lemma NewReader_start i ff data st :
  st_heap st !! i = Some ff → holds data st ff →
  ∃ r st', NewReader i st = Some (inl r, st') ∧ at_start data (ff_bigfile ff) st' r.
Proof.
  intros Hff (Hh&Hl&Hlt&Hb). unfold NewReader, mbind, F_bind, fileAt. rewrite Hff. cbn.
  destruct (ff_bigfile ff) eqn:Hbig.
  - destruct Hb as [Hne Hb]. unfold attempt, bigFileReader. destruct (ff_copies ff) as [|f l].
    + destruct Hb as (n&Hd&Ho&Hdata&Hs). rewrite Hh. cbn [negb]. unfold mbind, F_bind, attempt.
      rewrite (Open_ok _ n) by done. eexists _, _. split; [done|]. cbn. unfold nd_handle. by rewrite Hdata.
    + cbn. eexists _, _. split; [done|]. by subst f.
  - rewrite Hh. cbn. eexists _, _. split; [done|]. destruct Hb as [Hd Hc]. cbn. rewrite Hff. cbn.
    split_and!; [done| | |by exists ff].
    + rewrite Hc, drop_0, Hl, Z.sub_0_r, Nat2Z.id. apply take_ge. lia.
    + unfold end_of. cbn. rewrite Hff. cbn. by destruct (ff_f ff) as [[]|].
Qed.

Lemma rangePart_accepted br data code part :
  (Z.of_nat (length data) < 2 ^ 63)%Z → data ≠ [] → rangePart br data = inl (code, part) → code = StatusPartialContent →
  ∃ s e, ParseByteRange br (Z.of_nat (length data)) = inl (s, e) ∧ h_acceptByteRange h = true ∧ br ≠ [] ∧
    part = take (Z.to_nat (e - s + 1)) (drop (Z.to_nat s) data) ∧ (0 ≤ s ≤ e + 1 ∧ 0 ≤ e < Z.of_nat (length data))%Z ∧
    Z.of_nat (length part) = (e - s + 1)%Z.
Proof.
  intros Hlt Hne Hp ->. unfold rangePart in Hp. destruct (h_acceptByteRange h); [|done]. cbn in Hp.
  destruct br as [|c br]; [done|]. destruct (ParseByteRange _ _) as [[s e]|err] eqn:Hr; [|done].
  assert (0 < Z.of_nat (length data))%Z as H0l by (destruct data; [done|cbn; lia]).
  pose proof (ParseByteRange_bounds _ _ _ _ (conj H0l Hlt) Hr) as Hb.
  exists s, e. simplify_eq. split_and!; try done; try lia. rewrite length_take, length_drop. lia.
Qed.

Lemma SetContentRange_ok hd s e n :
  (0 ≤ s < 2 ^ 63 ∧ 0 ≤ e < 2 ^ 63 ∧ 0 ≤ n < 2 ^ 63)%Z → is_Some (ResponseHeader.SetContentRange hd s e n).
Proof.
  intros (Hs&He&Hn). unfold ResponseHeader.SetContentRange.
  destruct (AppendUint_spec (strBytes ++ [" "%byte]) s Hs) as (?&->&_). cbn [mbind option_bind].
  edestruct AppendUint_spec as (?&->&_); [exact He|]. cbn [mbind option_bind].
  edestruct AppendUint_spec as (?&->&_); [exact Hn|]. by eexists.
Qed.

(** The reader after the range is applied: what it gives is the part asked for. *)
Lemma applyRange_ok x r br data big st code part :
  at_start data big st r → (Z.of_nat (length data) < 2 ^ 63)%Z → (br = [] ∨ big = true ∨ h_acceptByteRange h = false) →
  rangePart br data = inl (code, part) →
  ∃ x' r', applyRange h x r br (Z.of_nat (length data)) st
             = Some (inl (inl (x', r', Z.of_nat (length part), code)), st) ∧
    cx_Request x' = cx_Request x ∧ re_bodyStream (cx_Response x') = re_bodyStream (cx_Response x) ∧
    left_of (st_heap st) r' = part ∧ end_of (st_heap st) r' = EOF ∧ ∃ st2, closeReader r' st = Some (inl (), st2).
Proof.
  intros Hr Hlt Hbr Hp.
  assert (left_of (st_heap st) r = data ∧ end_of (st_heap st) r = EOF ∧ ∃ st2, closeReader r st = Some (inl (), st2)) as (Hleft&Hend&Hclose).
  { destruct r as [r|r]; cbn in Hr.
    - destruct Hr as (_&?&?&ff&Hff&Hh). split_and!; try done. cbn. unfold mbind, F_bind, fileAt. rewrite Hff, Hh. by eexists.
    - destruct Hr as (_&_&Hf&Hpos&HL&Hs). unfold left_of, end_of. rewrite Hf, Hpos, HL, drop_0. split_and!; try done.
      cbn. rewrite Hs. by eexists. }
  destruct (decide (code = StatusOK)) as [->|Hcode].
  { assert (part = data ∧ (h_acceptByteRange h = false ∨ br = [])) as [-> Hno].
    { unfold rangePart in Hp. destruct (h_acceptByteRange h); cbn in Hp; [|naive_solver].
      destruct br; [naive_solver|]. by destruct (ParseByteRange _ _) as [[]|]. }
    unfold applyRange. destruct (h_acceptByteRange h); cbn [negb].
    - destruct Hno as [?| ->]; [done|]. by eexists _, r.
    - by eexists _, r. }
  assert (code = StatusPartialContent) as ->.
  { unfold rangePart in Hp. repeat case_match; by simplify_eq. }
  destruct r as [r|r]; cbn in Hr.
  { exfalso. destruct Hr as (->&_). unfold rangePart in Hp. destruct Hbr as [->|[?|Hno]]; [|done|by rewrite Hno in Hp].
    by destruct (h_acceptByteRange h). }
  destruct Hr as (_&Hne&Hf&Hpos&HL&Hs).
  destruct (rangePart_accepted br data _ part Hlt Hne Hp eq_refl) as (s&e&Hparse&Ha&Hbr0&->&Hb&Hlen).
  unfold applyRange. rewrite Ha, Hparse. destruct br as [|c br]; [done|]. cbn [negb].
  unfold UpdateByteRange. rewrite Hs. cbn [negb orb]. destruct (Z.ltb_spec s 0); [lia|].
  destruct (SetContentRange_ok (re_Header (cx_Response (onHeader x (λ hd, ResponseHeader.setNonSpecial hd strAcceptRanges strBytes))))
              s e (Z.of_nat (length data))) as [hd Hhd]; [lia|].
  rewrite Hhd. unfold orPanicIn, mbind, F_bind, mret, F_ret. rewrite Hlen, int64_small by (rewrite int64_small; lia).
  rewrite int64_small by lia. eexists _, _. split; [done|]. split_and!; try done.
  cbn. rewrite Hf. unfold updateBig. cbn. rewrite int64_small by (rewrite int64_small; lia). rewrite int64_small by lia. done.
Qed.

Lemma ResetBody_stream p : re_bodyStream (Response.ResetBody p) = None.
Proof. unfold Response.ResetBody, Response.closeBodyStream. cbn. by destruct (re_bodyStream p) eqn:Hs. Qed.

Lemma ResetBody_header p : re_Header (Response.ResetBody p) = re_Header p.
Proof. unfold Response.ResetBody, Response.closeBodyStream. cbn. by destruct (re_bodyStream p). Qed.

#[local] Arguments Response.ResetBody : simpl never.
#[local] Arguments ResponseHeader.setNonSpecial : simpl never.

(** The last touches to a response leave its length and its stream alone. *)
Lemma finish_answers (head : bool) code part modified x ct :
  p_contentLength (re_Header (cx_Response x)) = Z.of_nat (length part) →
  re_bodyStream (cx_Response x) = (if head then None else Some (streamSource (mkSource (chunks part) EOF) None (Close None))) →
  (head = true → re_SkipBody (cx_Response x) = true) →
  peekArgBytes (p_h (re_Header (cx_Response x))) strLastModified = Some modified →
  let x := onHeader x (λ hd, hd <| p_noDefaultContentType := true |>) in
  answers head code part modified
    (RequestCtx.SetStatusCode
       (match ResponseHeader.ContentType (re_Header (cx_Response x)) with
        | [] => RequestCtx.SetContentType x ct | _ => x end) code).
Proof. intros Hl Hs Hk Hm x1. destruct (ResponseHeader.ContentType _); by split. Qed.

Lemma peek_setNonSpecial hd k v : peekArgBytes (p_h (ResponseHeader.setNonSpecial hd k v)) k = Some v.
Proof.
  unfold peekArgBytes, ResponseHeader.setNonSpecial. cbn. unfold setArgBytes. by rewrite live_setArg, peek_set_eq.
Qed.

(** The response from an open file with the content [data]. *)
Lemma serveFile_answers x i ff data br enc st code part :
  st_heap st !! i = Some ff → holds data st ff → IfModifiedSince x (ff_lastModified ff) = true →
  (br = [] ∨ ff_bigfile ff = true ∨ h_acceptByteRange h = false) → rangePart br data = inl (code, part) →
  ∃ o st', serveFile limit h x i enc br st = Some (inl o, st') ∧ out_err o = None ∧
    answers (RequestCtx.IsHead x) code part (ff_lastModifiedStr ff) (out_ctx o) ∧
    (RequestCtx.IsHead x = false → ∃ r, out_reader o = Some r ∧ left_of (st_heap st') r = part).
Proof.
  intros Hff Hh Him Hbr Hp. destruct (NewReader_start i ff data st Hff Hh) as (r&st1&Hr&Hstart).
  destruct Hh as (_&Hl&Hlt&_).
  unfold serveFile, mbind, F_bind, fileAt. rewrite Hff, Him. cbn [negb]. unfold attempt. rewrite Hr.
  unfold serveReader. cbn zeta. set (x0 := if ff_compressed ff then _ else x).
  assert (cx_Request x0 = cx_Request x ∧ True) as [Hx0 _] by by unfold x0; destruct (ff_compressed ff).
  destruct (applyRange_ok x0 r br data _ st1 code part Hstart Hlt Hbr Hp) as (x'&r'&Ha&Hq&Hbs&Hleft&Hend&Hclose).
  unfold mbind, F_bind. rewrite Hl, Ha. unfold gets.
  assert (RequestCtx.IsHead (onHeader x' (λ hd, ResponseHeader.setNonSpecial hd strLastModified (ff_lastModifiedStr ff)))
          = RequestCtx.IsHead x) as -> by (unfold RequestCtx.IsHead, onHeader; cbn; by rewrite Hq, Hx0).
  destruct (RequestCtx.IsHead x); cbn [negb].
  - destruct Hclose as [st2 Hc]. rewrite Hc. unfold mret, F_ret. eexists _, _. split; [done|]. split_and!; [done| |done].
    apply finish_answers; [done|apply ResetBody_stream|done|].
    cbn. rewrite ResetBody_header. apply peek_setNonSpecial.
  - unfold mret, F_ret. eexists _, _. split; [done|]. split_and!; [done| |by eexists].
    apply finish_answers; [done| |done|cbn; rewrite ResetBody_header; apply peek_setNonSpecial].
    cbn. unfold reader_stream. rewrite Hleft, Hend. by destruct part.
Qed.

(** ** A file that is opened for the request *)

(** Changes of a file that do not touch its content. *)
Definition keeps_content (f : fsFile → fsFile) : Prop := ∀ ff,
  ff_h (f ff) = ff_h ff ∧ ff_contentLength (f ff) = ff_contentLength ff ∧ ff_bigfile (f ff) = ff_bigfile ff ∧
  ff_copies (f ff) = ff_copies ff ∧ ff_filename (f ff) = ff_filename ff ∧ ff_f (f ff) = ff_f ff ∧
  ff_dirIndex (f ff) = ff_dirIndex ff ∧ ff_lastModified (f ff) = ff_lastModified ff ∧
  ff_lastModifiedStr (f ff) = ff_lastModifiedStr ff.

(** The file [i] was opened from [n]. *)
Definition opened (i : nat) (n : fsNode) (data : bytes) (st : fsState) : Prop :=
  fileIs i (λ ff, holds data st ff ∧ ff_bigfile ff = (MaxSmallFileSize <? nd_size n)%Z ∧ ff_lastModified ff = nd_mtime n ∧
    ff_lastModifiedStr ff = AppendHTTPDate [] (nd_mtime n)) st.

Lemma opened_upd i n data st f :
  keeps_content f → opened i n data st → opened i n data (st <| st_heap := alter f i (st_heap st) |>).
Proof.
  intros Hf (ff&Hff&(Hh&Hl&Hlt&Hb)&Hbig&Ht). destruct (Hf ff) as (E1&E2&E3&E4&E5&E6&E7&E8&E9).
  exists (f ff). cbn. rewrite list_lookup_alter, decide_True, Hff by done. split; [done|].
  unfold holds, content in *. rewrite E1, E2, E3, E4, E5, E6, E7, E8, E9. done.
Qed.

Lemma opened_caches i n data st c : opened i n data st → opened i n data (st <| st_caches := c |>).
Proof. done. Qed.

Lemma newFSFile_opened T ids n data path st :
  fs_wf T ids [] [] st → nd_data n = Some data → (Z.of_nat (length data) < 2 ^ 63)%Z →
  ∃ i st', newFSFile os (nd_handle n) n false path st = Some (inl i, st') ∧ opened i n data st' ∧
    st_caches st' = st_caches st.
Proof.
  intros Hwf Hd Hlt. assert (nd_size n = Z.of_nat (length data)) as Hsz by (unfold nd_size; by rewrite Hd).
  unfold newFSFile. unfold mbind at 1, F_bind. destruct (Z.ltb_spec MaxSmallFileSize (nd_size n)) as [Hb|Hb].
  - pose proof (spec_bigGet T ids (λ _ _, False) st Hwf) as Hg. unfold mbind, F_bind.
    destruct (bigFsFilePool_Get st) as [[[i|] st1]|] eqn:Eg; [|done|by unfold bigFsFilePool_Get in Eg; destruct (st_big st)].
    destruct Hg as [_ (ff&Hff&Hp)]. unfold updFile, modify, mret, F_ret. eexists _, _. split; [done|]. split.
    + eexists. cbn. rewrite !list_lookup_alter, !decide_True, Hff by done. cbn. split; [done|].
      unfold holds. cbn. rewrite (pooled_big _ _ Hp), (pooled_str _ _ Hp), Hsz. split_and!; try done.
      * rewrite Hsz in Hb. by destruct data.
      * unfold nd_handle. by rewrite Hd.
      * symmetry. apply Z.ltb_lt. lia.
    + cbn. unfold bigFsFilePool_Get in Eg. by destruct (st_big st); simplify_eq.
  - pose proof (spec_smallGet T ids (λ _ _, False) st Hwf) as Hg. unfold mbind, F_bind.
    destruct (smallFsFilePool_Get st) as [[[i|] st1]|] eqn:Eg; [|done|by unfold smallFsFilePool_Get in Eg; destruct (st_small st)].
    destruct Hg as [_ (ff&Hff&Hp)]. unfold updFile, modify, mret, F_ret. eexists _, _. split; [done|]. split.
    + eexists. cbn. rewrite !list_lookup_alter, !decide_True, Hff by done. cbn. split; [done|].
      unfold holds, content. cbn. rewrite (pooled_big _ _ Hp), (pooled_str _ _ Hp), Hsz. unfold nd_handle. rewrite Hd. split_and!; try done.
      symmetry. apply Z.ltb_ge. lia.
    + cbn. unfold smallFsFilePool_Get in Eg. by destruct (st_small st); simplify_eq.
Qed.

Lemma bind_ok {A B} (m : F A) (f : A → F B) a st st' :
  m st = Some (inl a, st') → (m ≫= f) st = f a st'.
Proof. intros Hm. unfold mbind, F_bind. by rewrite Hm. Qed.

Lemma contentType_file data name : ∀ st, ∃ ct, contentType (hFile data) name st = Some (inl ct, st).
Proof. intros st. unfold contentType. repeat case_match; by eexists. Qed.

(** A name that is a readable file. *)
Record servable (n : fsNode) (data : bytes) : Prop := {
  sv_open : nd_open n = None;
  sv_stat : nd_stat n = true;
  sv_data : nd_data n = Some data;
  sv_seek : nd_seekable n = true;
  sv_size : (Z.of_nat (length data) < 2 ^ 63)%Z
}.

Lemma openTarget_file n data path st :
  servable n data → st_disk st !! path = Some n → path ≠ [] →
  openTarget h path false st = Some (inl (path, Some n), st).
Proof.
  intros [Ho Hs Hd Hsk Hlt] Hpath Hne. destruct path as [|c path]; [done|]. unfold openTarget.
  rewrite (bind_ok _ _ n st st); [|by apply Open_ok]. rewrite Hs. unfold nd_isDir. by rewrite Hd, bool_decide_true.
Qed.

Lemma makeFile_file T ids n data path req ct k st :
  fs_wf T ids [] [] st → servable n data →
  ∃ i st', makeFile h os path req (Some n) ct false false k st = Some (inl i, st') ∧ opened i n data st' ∧
    st_caches st' = st_caches st.
Proof.
  intros Hwf [Ho Hs Hd Hsk Hlt]. destruct (newFSFile_opened T ids n data path st Hwf Hd Hlt) as (i&st1&Hn&Hop&Hcs).
  unfold makeFile. rewrite (bind_ok (orPanic _) _ i st st1).
  - eexists _, _. split; [done|]. split; [|done]. by apply opened_upd.
  - unfold orPanic. rewrite (bind_ok _ _ (inl i) st st1); [done|]. unfold attempt. by rewrite Hn.
Qed.

Lemma openFSFile_opened T ids n data path req k st :
  fs_wf T ids [] [] st → servable n data → st_disk st !! path = Some n → path ≠ [] →
  (h_cacheManager h ≠ None → st_caches st !! (k, req) = None) →
  ∃ i st', openFSFile h os path req false false k st = Some (inl i, st') ∧ opened i n data st'.
Proof.
  intros Hwf Hsv Hpath Hne Hc. pose proof Hsv as [Ho Hs Hd Hsk Hlt]. unfold openFSFile.
  rewrite (bind_ok _ _ (path, Some n) st st); [|by eapply openTarget_file]. cbn beta iota.
  destruct (contentType_file data (filepath_Base path) st) as [ct Hct].
  rewrite (bind_ok _ _ (ct, false) st st); last first.
  { rewrite Hsk. cbn [negb]. replace (nd_handle n) with (hFile data) by (unfold nd_handle; by rewrite Hd).
    by rewrite (bind_ok _ _ ct st st). }
  cbn beta iota zeta. cbn [andb]. destruct (makeFile_file T ids n data path req ct k st Hwf Hsv) as (i&st1&Hmk&Hop&Hcs).
  destruct (h_cacheManager h) as [d|]; [|by eexists _, _].
  specialize (Hc ltac:(done)).
  rewrite (bind_ok _ _ None st st); [|unfold GetFileFromCache, mbind, F_bind, gets; by rewrite Hc].
  cbn beta iota. rewrite (bind_ok _ _ i st st1); [|done].
  set (st2 := st1 <| st_heap := alter (λ ff, ff <| ff_originalFileName := path |>) i (st_heap st1) |>).
  rewrite (bind_ok _ _ () st1 st2) by done.
  unfold SetFileToCache, mbind, F_bind, gets. change (st_caches st2) with (st_caches st1). rewrite Hcs, Hc.
  unfold modify, addReaders, updFile, modify, mret, F_ret. eexists _, _. split; [done|].
  apply opened_upd; [done|]. apply opened_caches, opened_upd; done.
Qed.

(** ** Requests *)

(** A request for the file [n] at [path], which is not in the cache and is not compressed. *)
Record asks (x x' : RequestCtx) (path : bytes) (n : fsNode) (st : fsState) : Prop := {
  ask_os : h_os h = true;
  ask_rewrite : h_pathRewrite h = None;
  ask_compress : h_compress h = false;
  ask_path : RequestCtx.Path x = (path, x');
  ask_nonempty : path ≠ [];
  ask_nul : x00 ∉ path;
  ask_file : last path ≠ Some "/"%byte;
  ask_uncached : h_cacheManager h ≠ None → st_caches st !! (defaultCacheKind, path) = None;
  ask_disk : st_disk st !! (h_root h ++ path) = Some n
}.

Definition rangeOf (x : RequestCtx) : bytes := RequestHeader.peek (reqHeader x) strRange.

(** Such a request opens the file and is served from it. *)
Lemma handleRequest_opens T ids x x' path n data st :
  fs_wf T ids [] [] st → asks x x' path n st → servable n data →
  ∃ i st', opened i n data st' ∧
    handleRequestWithError limit h os x st = serveFile limit h x' i [] (rangeOf x') st'.
Proof.
  intros Hwf [Hos Hrw Hcomp Hpath Hne Hnul Hlast Hc Hdisk] Hsv.
  destruct (openFSFile_opened T ids n data (h_root h ++ path) path defaultCacheKind st Hwf Hsv Hdisk) as (i&st1&Hopen&Hop);
    [by destruct (h_root h)|done|].
  exists i, st1. split; [done|]. unfold handleRequestWithError. rewrite Hrw, Hpath.
  rewrite (bind_ok _ _ (path, x') st st) by done. cbn beta iota zeta.
  rewrite bool_decide_false by (intros [j Hj]; apply IndexByte_Some in Hj as (l&r&->&_); set_solver).
  rewrite (bool_decide_false (is_Some None)) by (by intros [? ?]). cbn [andb].
  rewrite (bool_decide_false (last path = _)) by done. rewrite Hcomp. cbn [andb].
  rewrite (bind_ok _ _ None st st); last first.
  { destruct (h_cacheManager h); [|done]. unfold GetFileFromCache, mbind, F_bind, gets. by rewrite Hc. }
  cbn beta iota. unfold pathToFilePath. rewrite Hos. cbn [negb].
  rewrite (bind_ok _ _ (inl i) st st1); [done|]. unfold attempt. by rewrite Hopen.
Qed.

Lemma handleRequest_file T ids x x' path n data st code part :
  fs_wf T ids [] [] st → asks x x' path n st → servable n data → IfModifiedSince x' (nd_mtime n) = true →
  (rangeOf x' = [] ∨ (MaxSmallFileSize < Z.of_nat (length data))%Z ∨ h_acceptByteRange h = false) →
  rangePart (rangeOf x') data = inl (code, part) →
  ∃ o st', handleRequest limit h os x st = Some (inl o, st') ∧ out_err o = None ∧
    answers (RequestCtx.IsHead x') code part (AppendHTTPDate [] (nd_mtime n)) (out_ctx o) ∧
    (RequestCtx.IsHead x' = false → ∃ r, out_reader o = Some r ∧ left_of (st_heap st') r = part).
Proof.
  intros Hwf Hask Hsv Him Hbr Hp.
  destruct (handleRequest_opens T ids x x' path n data st Hwf Hask Hsv) as (i&st1&(ff&Hff&Hh&Hbig&Ht&Hstr)&Hreq).
  destruct (serveFile_answers x' i ff data (rangeOf x') [] st1 code part Hff Hh) as (o&st2&Hserve&He&Ha&Hr).
  - by rewrite Ht.
  - destruct Hbr as [?|[Hb|?]]; [by left| |by right; right]. right; left. rewrite Hbig. unfold nd_size.
    rewrite (sv_data _ _ Hsv). by apply Z.ltb_lt.
  - done.
  - rewrite Hstr in Ha. exists o, st2. split; [|done]. unfold handleRequest.
    rewrite (bind_ok _ _ o st st2); [by rewrite He|]. by rewrite Hreq.
Qed.

(** A range of a small file. *)
Lemma handleRequest_small_range T ids x x' path n data st r :
  fs_wf T ids [] [] st → asks x x' path n st → servable n data → IfModifiedSince x' (nd_mtime n) = true →
  (Z.of_nat (length data) ≤ MaxSmallFileSize)%Z → h_acceptByteRange h = true → rangeOf x' ≠ [] →
  ParseByteRange (rangeOf x') (Z.of_nat (length data)) = inl r →
  handleRequest limit h os x st = None.
Proof.
  intros Hwf Hask Hsv Him Hsmall Hacc Hne Hparse.
  destruct (handleRequest_opens T ids x x' path n data st Hwf Hask Hsv) as (i&st1&(ff&Hff&Hh&Hbig&Ht&Hstr)&Hreq).
  destruct (NewReader_start i ff data st1 Hff Hh) as (rd&st2&Hr&Hstart).
  assert (ff_bigfile ff = false) as Hb.
  { rewrite Hbig. unfold nd_size. rewrite (sv_data _ _ Hsv). apply Z.ltb_ge. lia. }
  destruct rd as [rd|rd]; [|destruct Hstart as [Hx _]; congruence]. destruct Hh as (_&Hl&_).
  unfold handleRequest, mbind, F_bind. rewrite Hreq. unfold serveFile, mbind, F_bind, fileAt.
  rewrite Hff, Ht, Him. cbn [negb]. unfold attempt. rewrite Hr. unfold serveReader, applyRange, mbind, F_bind.
  rewrite Hacc, Hl. cbn [negb]. destruct (rangeOf x') as [|c b]; [done|]. rewrite Hparse. by destruct r.
Qed.

(** ** Compressed files with the empty suffix *)

Lemma newCompressed_raw T ids n data path st :
  fs_wf T ids [] [] st → servable n data → data ≠ [] → st_disk st !! path = Some n →
  ∃ i st', newCompressedFSFile os path st = Some (inl i, st') ∧
    fileIs i (λ ff, holds data st' ff ∧ ff_compressed ff = true) st'.
Proof.
  intros Hwf [Ho Hs Hd Hsk Hlt] Hne Hpath. assert (nd_size n = Z.of_nat (length data)) as Hsz by (unfold nd_size; by rewrite Hd).
  unfold newCompressedFSFile. rewrite (bind_ok _ _ (inl n) st st); [|unfold attempt; by rewrite (Open_ok _ n)].
  rewrite Hsk, Hs. cbn [negb]. unfold newFSFile. unfold mbind at 1, F_bind.
  destruct (Z.ltb_spec MaxSmallFileSize (nd_size n)) as [Hb|Hb].
  - pose proof (spec_bigGet T ids (λ _ _, False) st Hwf) as Hg. unfold mbind, F_bind.
    destruct (bigFsFilePool_Get st) as [[[i|] st1]|] eqn:Eg; [|done|by unfold bigFsFilePool_Get in Eg; destruct (st_big st)].
    assert (st_disk st1 = st_disk st) as Hdk by (unfold bigFsFilePool_Get in Eg; by destruct (st_big st); simplify_eq).
    destruct Hg as [_ (ff&Hff&Hp)]. unfold updFile, modify, mret, F_ret. eexists _, _. split; [done|].
    eexists. cbn. rewrite !list_lookup_alter, !decide_True, Hff by done. cbn. split; [done|].
    unfold holds. cbn. rewrite (pooled_big _ _ Hp), Hsz, (pooled_copies _ _ Hp), (pooled_filename _ _ Hp), Hdk.
    split_and!; try done. exists n. done.
  - pose proof (spec_smallGet T ids (λ _ _, False) st Hwf) as Hg. unfold mbind, F_bind.
    destruct (smallFsFilePool_Get st) as [[[i|] st1]|] eqn:Eg; [|done|by unfold smallFsFilePool_Get in Eg; destruct (st_small st)].
    destruct Hg as [_ (ff&Hff&Hp)]. unfold updFile, modify, mret, F_ret. eexists _, _. split; [done|].
    eexists. cbn. rewrite !list_lookup_alter, !decide_True, Hff by done. cbn. split; [done|].
    unfold holds, content. cbn. rewrite (pooled_big _ _ Hp), Hsz. unfold nd_handle. by rewrite Hd.
Qed.

Lemma compress_no_suffix T ids n data path k st :
  fs_wf T ids [] [] st → servable n data → data ≠ [] → st_disk st !! path = Some n →
  h_os h = true → h_compressedFileSuffixes h k = [] →
  ∃ i st', compressAndOpenFSFile h os (nd_handle n) n path true k st = Some (inl i, st') ∧
    fileIs i (λ ff, holds data st' ff ∧ ff_compressed ff = true) st'.
Proof.
  intros Hwf Hsv Hne Hpath Hos Hsuf. unfold compressAndOpenFSFile. rewrite Hos, Hsuf, app_nil_r. cbn [negb andb].
  rewrite (bind_ok _ _ (st_disk st) st st) by done. rewrite Hpath, (sv_stat _ _ Hsv), Z.sub_diag.
  change (true && (0 <? modifiedStale)%Z) with true. by eapply newCompressed_raw.
Qed.
End serve.

Lemma init_suffix fs wd k : suffix_of fs k ≠ [] → h_compressedFileSuffixes (initRequestHandler fs wd) k = [].
Proof.
  intros Hs. unfold initRequestHandler. destruct (if bool_decide _ then _ else _) as [[o1 o2] o3]. cbn.
  rewrite (bool_decide_false (suffix_of fs k = [])) by done. by rewrite andb_false_r.
Qed.

(** * The cleaner waits *)

Lemma pending_spins `{GoTime} head i rest st ff rounds :
  st_heap st !! i = Some ff → ff_readersCount ff ≠ 0%Z →
  pending_loop rounds head (i :: rest) st = Some (inl stillSpinning, st).
Proof.
  intros Hff Hc. induction rounds as [|rounds IH]; [done|]. cbn [pending_loop].
  unfold mbind, F_bind, fileAt. rewrite Hff, bool_decide_false by done. exact IH.
Qed.

Lemma handlePending_spins `{GoTime} head i rest st ff rounds :
  st_pending st = head :: i :: rest → st_heap st !! i = Some ff → ff_readersCount ff ≠ 0%Z →
  handlePendingCache rounds st = Some (inl stillSpinning, st).
Proof.
  intros Hp Hff Hc. unfold handlePendingCache, mbind, F_bind, gets. rewrite Hp.
  by rewrite (pending_spins head i rest st ff rounds).
Qed.
