(* ===== verification/FsConfine.v ===== *)
(** What a request can see of the file system: two file systems that agree on the names the
    handler may look at give the same answers. *)

From Stdlib Require Import ZArith Strings.Byte.
From stdpp Require Import prelude strings list gmap.
From S2P Require Import Prelude Tables Bufio Bytesconv Args Uri PathFacts Cookie Headers HeaderScan Body.
From S2P Require Import ReqHeader RespHeader Http HttpResp UserData PerIP RequestCtx Fs FsHandler.

(** * Programs that look at some names only *)

Section confined.
Context `{GoTime} (P : bytes → Prop).

Definition agree (d1 d2 : gmap bytes fsNode) : Prop := ∀ p, P p → d1 !! p = d2 !! p.

(** Two states that differ in names outside [P] only; the open files have names in [P]. *)
Definition twin (st1 st2 : fsState) : Prop :=
  agree (st_disk st1) (st_disk st2) ∧ st2 = st1 <| st_disk := st_disk st2 |> ∧
  Forall (λ ff, P (ff_filename ff)) (st_heap st1).

(** Two runs that cannot be told apart: both panic, or both give the same and leave twins. *)
Definition same_run {A} (run1 run2 : option (A * fsState)) : Prop :=
  match run1, run2 with
  | Some (r1, st1), Some (r2, st2) => r1 = r2 ∧ twin st1 st2
  | None, None => True
  | _, _ => False
  end.

Lemma same_run_result {A} (run1 run2 : option (A * fsState)) : same_run run1 run2 → fst <$> run1 = fst <$> run2.
Proof. destruct run1 as [[]|], run2 as [[]|]; try done. by intros [-> _]. Qed.

Definition confined {A} (m : F A) : Prop := ∀ st1 st2, twin st1 st2 → same_run (m st1) (m st2).

Lemma confined_ret {A} (a : A) : confined (mret a).
Proof. by intros st1 st2 Ht. Qed.

Lemma confined_throw {A} e : confined (throw (A := A) e).
Proof. by intros st1 st2 Ht. Qed.

Lemma confined_panic {A} : confined (panic (A := A)).
Proof. by intros st1 st2 Ht. Qed.

Lemma confined_bind {A B} (m : F A) (f : A → F B) :
  confined m → (∀ a, confined (f a)) → confined (m ≫= f).
Proof.
  intros Hm Hf st1 st2 Ht. specialize (Hm st1 st2 Ht). unfold mbind, F_bind.
  destruct (m st1) as [[[a|e] st1']|], (m st2) as [[[a'|e'] st2']|]; try done; destruct Hm as [Hr Ht']; try done.
  - injection Hr as <-. by apply Hf.
  - by injection Hr as <-.
Qed.

(** What the values of a program satisfy. *)
Definition yields {A} (Q : A → Prop) (m : F A) : Prop := ∀ st a st', m st = Some (inl a, st') → Q a.

Lemma confined_bind_yields {A B} (Q : A → Prop) (m : F A) (f : A → F B) :
  confined m → yields Q m → (∀ a, Q a → confined (f a)) → confined (m ≫= f).
Proof.
  intros Hm HQ Hf st1 st2 Ht. specialize (Hm st1 st2 Ht). pose proof (HQ st1) as Hq. unfold mbind, F_bind.
  destruct (m st1) as [[[a|e] st1']|], (m st2) as [[[a'|e'] st2']|]; try done; destruct Hm as [Hr Ht']; try done.
  - injection Hr as <-. apply Hf; [by eapply Hq|done].
  - by injection Hr as <-.
Qed.

Lemma yields_bind {A B} (R : A → Prop) (Q : B → Prop) (m : F A) (f : A → F B) :
  yields R m → (∀ a, R a → yields Q (f a)) → yields Q (m ≫= f).
Proof.
  intros Hm Hf st b st'. unfold mbind, F_bind. destruct (m st) as [[[a|e] st1]|] eqn:E; [|done|done].
  apply Hf. by eapply Hm.
Qed.

Lemma yields_ret {A} (Q : A → Prop) a : Q a → yields Q (mret a).
Proof. intros HQ st b st' [= <- <-]. done. Qed.

Lemma yields_throw {A} (Q : A → Prop) e : yields Q (throw e).
Proof. done. Qed.

Lemma yields_any {A} (m : F A) : yields (λ _, True) m.
Proof. done. Qed.

Lemma confined_attempt {A} (m : F A) : confined m → confined (attempt m).
Proof.
  intros Hm st1 st2 Ht. specialize (Hm st1 st2 Ht). unfold attempt.
  destruct (m st1) as [[r st1']|], (m st2) as [[r' st2']|]; try done. by destruct Hm as [-> ?].
Qed.

Lemma confined_orPanicIn {A} (r : option A) : confined (orPanicIn r).
Proof. destruct r; [apply confined_ret|apply confined_panic]. Qed.

(** What does not look at the files. *)
Lemma confined_gets {A} (f : fsState → A) : (∀ st d, f (st <| st_disk := d |>) = f st) → confined (gets f).
Proof.
  intros Hf st1 st2 Ht. pose proof Ht as (_&E&_). unfold gets.
  assert (f st2 = f st1) as -> by (rewrite E; apply Hf). done.
Qed.

Lemma confined_modify f :
  (∀ st d, f (st <| st_disk := d |>) = (f st) <| st_disk := d |>) →
  (∀ st, st_disk (f st) = st_disk st) →
  (∀ st, Forall (λ ff, P (ff_filename ff)) (st_heap st) → Forall (λ ff, P (ff_filename ff)) (st_heap (f st))) →
  confined (modify f).
Proof.
  intros Hf Hd Hn st1 st2 (Ha&E&Hh). unfold modify. split; [done|]. split_and!; [by rewrite !Hd| |by apply Hn].
  rewrite E at 1. by rewrite Hf, Hd.
Qed.

Lemma confined_modifyDisk f :
  (∀ d1 d2, agree d1 d2 → agree (f d1) (f d2)) → confined (modify (λ st, st <| st_disk := f (st_disk st) |>)).
Proof.
  intros Hf st1 st2 (Ha&E&Hh). unfold modify. split; [done|]. split_and!; [by apply Hf| |done].
  destruct st1, st2. cbn in *. injection E. by intros; subst.
Qed.

Lemma agree_insert d1 d2 p n : agree d1 d2 → agree (<[p := n]> d1) (<[p := n]> d2).
Proof.
  intros Ha q Hq. destruct (decide (p = q)) as [->|]; [by rewrite !lookup_insert_eq|].
  rewrite !lookup_insert_ne by done. by apply Ha.
Qed.

Lemma agree_delete d1 d2 p : agree d1 d2 → agree (delete p d1) (delete p d2).
Proof.
  intros Ha q Hq. destruct (decide (p = q)) as [->|]; [by rewrite !lookup_delete_eq|].
  rewrite !lookup_delete_ne by done. by apply Ha.
Qed.

Lemma confined_lookup {A} p (k : option fsNode → F A) :
  P p → (∀ n, confined (k n)) → confined (d ← gets st_disk; k (d !! p)).
Proof.
  intros Hp Hk st1 st2 Ht. pose proof Ht as (Ha&_&_). unfold mbind, F_bind, gets. rewrite (Ha p Hp). by apply Hk.
Qed.

Lemma confined_Open p : P p → confined (Open p).
Proof.
  intros Hp. apply (confined_lookup p (λ n, match n with None => throw FsFileNotFoundErr | Some n => _ end)); [done|].
  intros [n|]; [|apply confined_throw]. destruct (nd_open n) as [[]|]; [apply confined_throw..|apply confined_ret].
Qed.

(** ** Open files *)

Lemma confined_fileAt {A} i (k : fsFile → F A) :
  (∀ ff, P (ff_filename ff) → confined (k ff)) → confined (fileAt i ≫= k).
Proof.
  intros Hk st1 st2 Ht. pose proof Ht as (_&E&Hn). unfold mbind, F_bind, fileAt.
  assert (st_heap st2 = st_heap st1) as -> by by rewrite E.
  destruct (st_heap st1 !! i) as [ff|] eqn:Hff; [|done]. apply Hk; [|done]. by eapply Forall_lookup_1 in Hn.
Qed.

Lemma confined_updFile i f : (∀ ff, P (ff_filename ff) → P (ff_filename (f ff))) → confined (updFile i f).
Proof.
  intros Hf. apply confined_modify; [done..|]. intros st Hn. cbn. by apply Forall_alter; [|intros; apply Hf].
Qed.

Lemma confined_updKeep i f : (∀ ff, ff_filename (f ff) = ff_filename ff) → confined (updFile i f).
Proof. intros Hf. apply confined_updFile. intros ff. by rewrite Hf. Qed.

Lemma confined_addReaders i n : confined (addReaders i n).
Proof. by apply confined_updKeep. Qed.

Context (Pnil : P []).

Lemma confined_smallGet : confined smallFsFilePool_Get.
Proof.
  intros st1 st2 (Ha&->&Hn). unfold smallFsFilePool_Get. cbn. destruct (st_small st1); (split; [done|]); split_and!; try done.
  cbn. apply Forall_app. split; [done|]. by repeat constructor.
Qed.

Lemma confined_bigGet : confined bigFsFilePool_Get.
Proof.
  intros st1 st2 (Ha&->&Hn). unfold bigFsFilePool_Get. cbn. destruct (st_big st1); (split; [done|]); split_and!; try done.
  cbn. apply Forall_app. split; [done|]. by repeat constructor.
Qed.

Lemma confined_release i : confined (release i).
Proof.
  apply confined_fileAt. intros ff _. apply confined_bind.
  - destruct (ff_pb ff); [by apply confined_modify|apply confined_ret].
  - intros _. destruct (negb (ff_h ff)); [apply confined_panic|].
    apply confined_bind; [by apply confined_updFile|]. intros _.
    apply confined_modify; by intros; destruct (ff_bigfile ff).
Qed.

Lemma confined_getCached k path : confined (GetFileFromCache k path).
Proof.
  apply confined_bind; [by apply confined_gets|]. intros c. destruct (c !! _); [|apply confined_ret].
  apply confined_bind; [apply confined_addReaders|intros _; apply confined_ret].
Qed.

Lemma confined_setCached k path i : confined (SetFileToCache k path i).
Proof.
  apply confined_bind; [by apply confined_gets|]. intros c. destruct (c !! _).
  - apply confined_bind; [apply confined_release|]. intros _.
    apply confined_bind; [apply confined_addReaders|intros _; apply confined_ret].
  - apply confined_bind; [by apply confined_modify|]. intros _.
    apply confined_bind; [apply confined_addReaders|intros _; apply confined_ret].
Qed.

Lemma confined_NewReader i : confined (NewReader i).
Proof.
  apply confined_fileAt. intros ff Hp. destruct (ff_bigfile ff); last first.
  { destruct (negb (ff_h ff)); [apply confined_panic|apply confined_ret]. }
  apply confined_bind.
  - apply confined_attempt. unfold bigFileReader. destruct (ff_copies ff).
    + destruct (negb (ff_h ff)); [apply confined_panic|].
      apply confined_bind; [by apply confined_attempt, confined_Open|].
      intros []; [apply confined_ret|apply confined_throw].
    + apply confined_bind; [by apply confined_updKeep|intros _; apply confined_ret].
  - intros []; [apply confined_ret|]. apply confined_bind; [apply confined_addReaders|intros _; apply confined_throw].
Qed.

Lemma confined_closeReader r : confined (closeReader r).
Proof.
  destruct r as [r|r]; cbn.
  - apply confined_fileAt. intros ff _. destruct (negb (ff_h ff)); [apply confined_panic|apply confined_addReaders].
  - destruct (negb (bg_seekable r)); [apply confined_panic|]. apply confined_bind; [|intros _; apply confined_addReaders].
    apply confined_updKeep. intros ff. by case_match.
Qed.
End confined.

(** * Opening and serving *)

(** The names a handler makes of the path of a request: the files asked for are in [R], all that
    it looks at are in [P]. *)
Record names_closed (P R : bytes → Prop) (h : fsHandler) : Prop := {
  cl_asked p : R p → P p ∧ p ≠ [];
  cl_nil : P [];
  cl_app p q : P p → P q → P (p ++ q);
  cl_index p name : R p → name ∈ h_indexNames h → R (p ++ strSlash ++ name);
  cl_entry p name : P p → p ≠ [] → "/"%byte ∉ name → name ≠ bs ".." → P (p ++ strSlash ++ name);
  cl_suffix p k : P p → p ≠ [] → P (p ++ h_compressedFileSuffixes h k);
  cl_compressed p : R p → P (filePathToCompressed h p) ∧ filePathToCompressed h p ≠ [];
  cl_dot p : P p → p ≠ bs "."
}.

Section opening.
Context `{GoClock} `{FsLib} (P R : bytes → Prop) (h : fsHandler) (os : osAnswers) (Hcl : names_closed P R h).

Abbreviation confined := (confined P).

Lemma confined_newFSFile f n compressed path : P path → confined (newFSFile os f n compressed path).
Proof.
  intros Hp. apply confined_bind.
  - destruct (MaxSmallFileSize <? nd_size n)%Z.
    + apply confined_bind; [apply confined_bigGet, (cl_nil _ _ _ Hcl)|]. intros i. apply confined_bind; [|intros _; apply confined_ret].
      apply confined_updKeep. by intros ff; destruct compressed.
    + apply confined_bind; [apply confined_smallGet, (cl_nil _ _ _ Hcl)|]. intros i. apply confined_bind; [|intros _; apply confined_ret].
      by apply confined_updKeep.
  - intros i. apply confined_bind; [|intros _; apply confined_ret].
    apply confined_updFile. intros ff Hf. cbn. by apply (cl_app _ _ _ Hcl).
Qed.

Lemma confined_newBuffer : confined newBuffer.
Proof. intros st1 st2 (Ha&E&Hn). unfold newBuffer. rewrite E. cbn. done. Qed.

(** A small file made in one go. *)
Lemma confined_smallFile f :
  (∀ ff, ff_filename (f ff) = ff_filename ff) → confined (i ← smallFsFilePool_Get; _ ← updFile i f; mret i).
Proof.
  intros Hf. apply confined_bind; [apply confined_smallGet, (cl_nil _ _ _ Hcl)|]. intros i.
  apply confined_bind; [by apply confined_updKeep|intros _; apply confined_ret].
Qed.

Lemma confined_newCompressedFSFile path : P path → confined (newCompressedFSFile os path).
Proof.
  intros Hp. apply confined_bind; [by apply confined_attempt, confined_Open|].
  intros [n|e]; [|apply confined_throw]. repeat (case_match; [apply confined_throw|]). by apply confined_newFSFile.
Qed.

Lemma confined_compressFileNoLock f n path k : P path → confined (compressFileNoLock h os f n path k).
Proof.
  intros Hp. unfold compressFileNoLock. destruct (os_createErr os) as [[]|]; [apply confined_throw..|].
  destruct (negb (h_pool h k)); [apply confined_panic|].
  apply confined_bind; [apply confined_modifyDisk; intros; by apply agree_insert|]. intros _.
  destruct (os_compressErr os); [apply confined_throw|]. destruct (os_chtimesErr os); [apply confined_throw|].
  apply confined_bind; [apply confined_modifyDisk; intros; by apply agree_insert|]. intros _.
  destruct (os_renameErr os); [apply confined_throw|].
  apply confined_bind.
  { apply (confined_modifyDisk P (λ d, <[path := _]> (delete (path ++ bs ".tmp") d))).
    intros. by apply agree_insert, agree_delete. }
  intros _.
  by apply confined_newCompressedFSFile.
Qed.

Lemma confined_compressAndOpenFSFile f n path inPlace k :
  P path → path ≠ [] → confined (compressAndOpenFSFile h os f n path inPlace k).
Proof.
  intros Hp Hne. unfold compressAndOpenFSFile. destruct (negb (h_os h)).
  { apply confined_bind; [apply confined_newBuffer|]. intros b. cbn zeta.
    destruct (h_pool h k && os_compressErr os); [apply confined_throw|]. by apply confined_smallFile. }
  destruct (negb inPlace && os_mkdirErr os); [apply confined_throw|]. cbn zeta.
  assert (P (path ++ h_compressedFileSuffixes h k)) as Hs by by apply (cl_suffix _ _ _ Hcl).
  apply (confined_lookup P _ (λ c, match c with Some c => _ | None => _ end)); [done|].
  intros [c|]; [|by apply confined_compressFileNoLock].
  destruct (nd_stat c && _); [by apply confined_newCompressedFSFile|].
  apply confined_bind; [|intros _; by apply confined_compressFileNoLock].
  destruct (nd_stat c); [|apply confined_ret]. apply confined_modifyDisk. intros. by apply agree_delete.
Qed.

(** ** Index pages *)

Lemma HasPrefix_rest p pre : HasPrefix p pre = true → p = pre ++ drop (length pre) p.
Proof.
  revert p. induction pre as [|c pre IH]; intros p; [done|]. destruct p as [|x p]; [done|]. cbn.
  case_bool_decide as Hx; [|done]. intros Hp. subst. by rewrite <- IH.
Qed.

Lemma dirNames_agree d1 d2 dir : agree P d1 d2 → P dir → dir ≠ [] → dirNames d1 dir = dirNames d2 dir.
Proof.
  intros Ha Hd Hne. unfold dirNames. rewrite bool_decide_false by by apply (cl_dot _ _ _ Hcl). f_equal. f_equal.
  apply map_eq. intros p. apply option_eq. intros n. rewrite !map_lookup_filter_Some. cbn.
  assert (is_Some (entryName (dir ++ strSlash) p) → P p) as Hp.
  { unfold entryName. intros [name Hn]. case_match eqn:E; [|done]. injection Hn as Hn.
    apply andb_prop in E as [E Hs]. apply andb_prop in E as [E Hdots].
    apply HasPrefix_rest in E. rewrite E, Hn, <- app_assoc. apply (cl_entry _ _ _ Hcl); [done|done| |].
    - rewrite Hn in Hs. apply negb_true_iff, bool_decide_eq_false in Hs. intros Hin. apply Hs.
      destruct (IndexByte name "/") eqn:Ei; [by eexists|]. by apply IndexByte_None in Ei.
    - rewrite Hn in Hdots. apply negb_true_iff, bool_decide_eq_false in Hdots. set_solver. }
  split; intros [Hl Hi]; (split; [|done]); rewrite <- Hl; [symmetry|]; by apply Ha, Hp.
Qed.

Lemma confined_ReadDir dir : P dir → dir ≠ [] → confined (ReadDir dir).
Proof.
  intros Hd Hne st1 st2 Ht. pose proof Ht as (Ha&_&_). unfold ReadDir, mbind, F_bind, gets.
  rewrite (Ha dir Hd), (dirNames_agree _ _ _ Ha Hd Hne). destruct (st_disk st2 !! dir) as [n|]; [|done].
  by destruct (nd_isDir n && _).
Qed.

Lemma confined_createDirIndex dir req mc k : P dir → dir ≠ [] → confined (createDirIndex h os dir req mc k).
Proof.
  intros Hd Hne. destruct dir as [|c dir]; [done|]. apply confined_bind; [apply confined_orPanicIn|]. intros parent.
  apply confined_bind; [by apply confined_ReadDir|]. intros names.
  apply confined_bind; [apply confined_orPanicIn|]. intros page.
  destruct (mc && negb (h_pool h k)); [apply confined_panic|].
  destruct (mc && os_compressErr os); [apply confined_throw|].
  apply confined_bind; [apply confined_newBuffer|]. intros b. by apply confined_smallFile.
Qed.

(** ** Files *)

(** An index file that is found has a name in [R]. *)
Lemma openIndex_ok path names :
  R path → (∀ name, name ∈ names → name ∈ h_indexNames h) →
  confined (openIndex path names) ∧
  yields (λ r, match r with Some (p, _) => R p | None => True end) (openIndex path names).
Proof.
  intros Hp Hin. induction names as [|name names IH]; [split; [apply confined_ret|by apply yields_ret]|].
  assert (R (path ++ strSlash ++ name)) as Hq by (apply (cl_index _ _ _ Hcl); [done|apply Hin; by left]).
  destruct IH as [IHc IHy]; [intros nm Hnm; apply Hin; by right|]. cbn [openIndex]. split.
  - apply confined_bind; [by apply confined_attempt, confined_Open, (cl_asked _ _ _ Hcl)|].
    intros [n|e]; [apply confined_ret|]. destruct e; first [exact IHc|apply confined_throw].
  - eapply yields_bind; [apply yields_any|]. intros [n|e] _; [by apply yields_ret|].
    destruct e; first [exact IHy|apply yields_throw].
Qed.

Lemma openTarget_ok path endSlash :
  R path → confined (openTarget h path endSlash) ∧ yields (λ pt, R pt.1) (openTarget h path endSlash).
Proof.
  intros Hr. destruct (openIndex_ok path (h_indexNames h) Hr (λ _ Hn, Hn)) as [Hc Hy].
  destruct (cl_asked _ _ _ Hcl path Hr) as [Hp Hne].
  unfold openTarget. destruct path as [|c path]; [done|]. split.
  - apply confined_bind; [by apply confined_Open|]. intros n.
    repeat (case_match; [first [apply confined_throw|apply confined_ret]|]).
    apply confined_bind; [exact Hc|]. intros ix. repeat case_match; first [apply confined_throw|apply confined_ret].
  - eapply yields_bind; [apply yields_any|]. intros n _.
    repeat (case_match; [first [apply yields_throw|by apply yields_ret]|]).
    eapply yields_bind; [exact Hy|]. intros ix Hix. repeat case_match; first [apply yields_throw|by apply yields_ret].
Qed.

Lemma confined_makeFile path req target ct mc ip k :
  P path → path ≠ [] → confined (makeFile h os path req target ct mc ip k).
Proof.
  intros Hp Hne. unfold makeFile. destruct target as [n|]; [|by apply confined_createDirIndex].
  apply confined_bind.
  - apply confined_bind; [|intros []; [apply confined_ret|apply confined_panic]].
    apply confined_attempt. destruct mc; [by apply confined_compressAndOpenFSFile|by apply confined_newFSFile].
  - intros i. apply confined_bind; [by apply confined_updKeep|intros _; apply confined_ret].
Qed.

Lemma confined_openFSFile path req endSlash mc k :
  R path → confined (openFSFile h os path req endSlash mc k).
Proof.
  intros Hr. destruct (openTarget_ok path endSlash Hr) as [Hc Hy].
  apply (confined_bind_yields P (λ pt, R pt.1)); [done|done|]. intros [p t] Hr'. cbn in Hr'.
  apply confined_bind.
  { destruct t as [n|]; [|apply confined_ret]. destruct (negb (nd_seekable n)); [apply confined_throw|].
    apply confined_bind; [|intros ct; apply confined_ret].
    unfold contentType. repeat case_match; first [apply confined_throw|apply confined_ret]. }
  intros [ct mc']. cbn zeta. set (p2 := if mc' then filePathToCompressed h p else p).
  assert (P p2 ∧ p2 ≠ []) as [Hp2 Hne2] by (unfold p2; destruct mc'; [by apply (cl_compressed _ _ _ Hcl)|by apply (cl_asked _ _ _ Hcl)]).
  destruct (h_cacheManager h); [|by apply confined_makeFile].
  apply confined_bind; [apply confined_getCached|]. intros [i|]; [apply confined_ret|].
  apply confined_bind; [by apply confined_makeFile|]. intros i. apply confined_bind; [|intros _; apply confined_setCached, (cl_nil _ _ _ Hcl)].
  destruct t; [by apply confined_updKeep|apply confined_ret].
Qed.

(** ** Requests *)

Context `{ByteBufferOps} (limit : Z).

Lemma confined_serveFile x i enc br : confined (serveFile limit h x i enc br).
Proof.
  apply confined_fileAt. intros ff _. destruct (negb _).
  { apply confined_bind; [apply confined_addReaders|intros _; apply confined_ret]. }
  apply confined_bind; [apply confined_attempt, confined_NewReader|]. intros [r|e]; [|apply confined_ret].
  apply confined_bind.
  - unfold applyRange. repeat case_match;
      first [apply confined_ret | apply confined_panic
            | apply confined_bind; [first [apply confined_closeReader|apply confined_orPanicIn]|intros ?; apply confined_ret]].
  - intros [[[[x1 r1] n] code]|e]; [|apply confined_ret].
    apply confined_bind; [by apply confined_gets|]. intros heap. apply confined_bind; [|intros [x2 out]; apply confined_ret].
    destruct (negb _); [apply confined_ret|]. apply confined_bind; [apply confined_closeReader|intros _; apply confined_ret].
Qed.

(** A request whose path gives names in [P]. *)
Lemma confined_handleRequest x path x' :
  h_pathRewrite h = None → RequestCtx.Path x = (path, x') →
  R (pathToFilePath h (if bool_decide (last path = Some "/"%byte) then take (length path - 1) path else path)) →
  confined (handleRequest limit h os x).
Proof.
  intros Hrw Hpath Hr. apply confined_bind; [|intros o; destruct (out_err o); apply confined_ret].
  unfold handleRequestWithError. rewrite Hrw, Hpath. cbn [orPanicIn].
  apply (confined_bind_yields P (λ px, px = (path, x'))); [apply confined_ret|by apply yields_ret|].
  intros px ->. cbn beta iota zeta.
  destruct (bool_decide (is_Some (IndexByte _ _))); [apply confined_ret|].
  destruct (bool_decide _ && bool_decide _); [apply confined_ret|].
  apply confined_bind.
  { destruct (h_cacheManager h); [apply confined_getCached|apply confined_ret]. }
  intros cachedFile. apply confined_bind.
  { destruct cachedFile; [apply confined_ret|]. by apply confined_attempt, confined_openFSFile. }
  intros [i|e]; [apply confined_serveFile|]. destruct e; try apply confined_ret.
  apply confined_bind; [apply confined_orPanicIn|intros x2; apply confined_ret].
Qed.
End opening.

(** * The names under the roots *)

Lemma split_on_sep (a b : bytes) : split_on "/" (a ++ "/"%byte :: b) = split_on "/" a ++ split_on "/" b.
Proof.
  induction a as [|c a IH]; [done|]. cbn [app split_on]. rewrite IH. case_bool_decide; [done|].
  pose proof (split_on_nonempty "/" a). by destruct (split_on "/" a).
Qed.

Lemma split_on_suffix (a s : bytes) :
  "/"%byte ∉ s → ∃ I t, split_on "/" a = I ++ [t] ∧ split_on "/" (a ++ s) = I ++ [t ++ s].
Proof.
  intros Hs. induction a as [|c a (I&t&E1&E2)]; [exists [], []; split; [done|]; cbn [app]; by apply split_on_plain|].
  cbn [app split_on]. rewrite E1, E2. case_bool_decide; [by exists ([] :: I), t|].
  destruct I as [|u I]; [by exists [], (c :: t)|by exists ((c :: u) :: I), t].
Qed.

(** No element of the path is "..". *)
Definition dotdot_free (p : bytes) : Prop := bs ".." ∉ split_on "/" p.

Lemma dotdot_free_slash a b : dotdot_free (a ++ "/"%byte :: b) ↔ dotdot_free a ∧ dotdot_free b.
Proof. unfold dotdot_free. rewrite split_on_sep. set_solver. Qed.

Lemma dotdot_free_name name : "/"%byte ∉ name → name ≠ bs ".." → dotdot_free name.
Proof. intros Hn Hd. unfold dotdot_free. rewrite split_on_plain by done. set_solver. Qed.

Lemma dotdot_free_suffix a s : dotdot_free a → "/"%byte ∉ s → 3 ≤ length s → dotdot_free (a ++ s).
Proof.
  unfold dotdot_free. intros Ha Hs Hl. destruct (split_on_suffix a s Hs) as (I&t&E1&E2). rewrite E2.
  rewrite E1 in Ha. apply not_elem_of_app in Ha as [HI _]. apply not_elem_of_app. split; [done|].
  rewrite list_elem_of_singleton. intros E. apply (f_equal length) in E. rewrite length_app in E. cbn in E. lia.
Qed.

(** [q] continues the name of a directory: not at all, with a slash, or with a suffix. *)
Definition continues (q : bytes) : Prop := match q with [] => True | c :: _ => c = "/"%byte ∨ c = "."%byte end.

Lemma continues_app a b : continues a → continues b → continues (a ++ b).
Proof. by destruct a. Qed.

(** The files in the root, and what the handler looks at: names in the root or in the root of
    the compressed files, with their suffixes, none of which goes up. *)
Definition asked (h : fsHandler) (p : bytes) : Prop :=
  dotdot_free p ∧ ∃ q, p = h_root h ++ q ∧ match q with [] => True | c :: _ => c = "/"%byte end.
Definition visible (h : fsHandler) (p : bytes) : Prop :=
  p = [] ∨ dotdot_free p ∧ ∃ r q, (r = h_root h ∨ r = h_compressRoot h) ∧ p = r ++ q ∧ continues q.

(** Absolute roots that do not go up, plain names for index files, and suffixes as they are by
    default, or none. *)
Definition absolute (r : bytes) : Prop := ∃ r', r = "/"%byte :: r' ∧ dotdot_free r'.

Record sane (h : fsHandler) : Prop := {
  sane_root : absolute (h_root h);
  sane_croot : absolute (h_compressRoot h);
  sane_index name : name ∈ h_indexNames h → "/"%byte ∉ name ∧ name ≠ bs "..";
  sane_suffix k : h_compressedFileSuffixes h k = [] ∨
    continues (h_compressedFileSuffixes h k) ∧ "/"%byte ∉ h_compressedFileSuffixes h k ∧
    3 ≤ length (h_compressedFileSuffixes h k)
}.

Lemma dotdot_free_cons r : dotdot_free ("/"%byte :: r) ↔ dotdot_free r.
Proof.
  change ("/"%byte :: r) with ([] ++ "/"%byte :: r). rewrite dotdot_free_slash. split; [by intros []|].
  intros Hr. split; [|done]. apply dotdot_free_name; set_solver.
Qed.

Section visible.
Context (h : fsHandler) (Hs : sane h).

Lemma root_absolute r : r = h_root h ∨ r = h_compressRoot h → absolute r.
Proof. intros [->| ->]; apply Hs. Qed.

(** A visible name that is not empty starts with a slash. *)
Lemma visible_slash p : visible h p → p ≠ [] → ∃ p', p = "/"%byte :: p' ∧ dotdot_free p'.
Proof.
  intros [->|(Hf&r&q&Hr&->&Hq)] Hne; [done|]. destruct (root_absolute r Hr) as (r'&->&_).
  exists (r' ++ q). split; [done|]. by apply dotdot_free_cons.
Qed.

(** Appending to a visible name. *)
Lemma visible_app p q : visible h p → p ≠ [] → continues q → dotdot_free (p ++ q) → visible h (p ++ q).
Proof.
  intros [->|(Hf&r&q0&Hr&->&Hq0)] Hne Hq Hd; [done|]. right. split; [done|].
  exists r, (q0 ++ q). rewrite <- app_assoc. split_and!; [done|done|by apply continues_app].
Qed.

Lemma visible_entry p name :
  visible h p → p ≠ [] → "/"%byte ∉ name → name ≠ bs ".." → visible h (p ++ strSlash ++ name).
Proof.
  intros Hp Hne Hn Hd. apply visible_app; [done|done|by left|]. apply dotdot_free_slash.
  split; [|by apply dotdot_free_name]. destruct (visible_slash p Hp Hne) as (p'&->&?). by apply dotdot_free_cons.
Qed.

Lemma asked_visible p : asked h p → visible h p ∧ p ≠ [].
Proof.
  intros (Hf&q&->&Hq). split.
  - right. split; [done|]. exists (h_root h), q. split_and!; [by left|done|]. destruct q; [done|by left].
  - destruct (sane_root _ Hs) as (r'&->&_). done.
Qed.

Lemma asked_names : names_closed (visible h) (asked h) h.
Proof.
  split.
  - apply asked_visible.
  - by left.
  - intros p q Hp Hq. destruct p as [|c p]; [done|]. destruct q as [|d q]; [by rewrite app_nil_r|].
    destruct (visible_slash _ Hp) as (p'&E&Hf); [done|]. destruct (visible_slash _ Hq) as (q'&E'&Hf'); [done|].
    rewrite E'. apply visible_app; [done|done|by left|]. apply dotdot_free_slash. rewrite E. by rewrite dotdot_free_cons.
  - intros p name (Hf&q&->&Hq) Hn. destruct (sane_index _ Hs name Hn) as [Hn1 Hn2]. split.
    + apply dotdot_free_slash. split; [done|by apply dotdot_free_name].
    + exists (q ++ strSlash ++ name). split; [by rewrite <- app_assoc|]. by destruct q.
  - apply visible_entry.
  - intros p k Hp Hne. destruct (sane_suffix _ Hs k) as [->|(Hc&Hsl&Hl)]; [by rewrite app_nil_r|].
    apply visible_app; [done..|]. apply dotdot_free_suffix; [|done|done].
    destruct (visible_slash p Hp Hne) as (p'&->&?). by apply dotdot_free_cons.
  - intros p Hp. destruct (asked_visible p Hp) as [Hv Hne]. destruct Hp as (Hf&q&->&Hq).
    unfold filePathToCompressed. case_bool_decide; [done|].
    destruct (negb _); [done|]. rewrite drop_app_length.
    destruct (sane_croot _ Hs) as (r'&Er&Hr'). split; [|by rewrite Er].
    right. split.
    + destruct q as [|c q]; [by rewrite app_nil_r, Er, dotdot_free_cons|]. subst c.
      apply dotdot_free_slash in Hf as [_ Hf]. apply dotdot_free_slash. by rewrite Er, dotdot_free_cons.
    + exists (h_compressRoot h), q. split_and!; [by right|done|]. destruct q; [done|by left].
  - intros p Hp E. subst p. destruct (visible_slash _ Hp) as (p'&?&_); done.
Qed.
End visible.

(** ** The path of a request *)

Lemma normalizePath_free src : ∃ p, normalizePath src = "/"%byte :: p ∧ dotdot_free p.
Proof.
  destruct (normalizePath_segments src) as (I&t&E&Hs&Hc&Ht). exists (tail (normalizePath src)). split.
  - rewrite E. by destruct I.
  - unfold dotdot_free. rewrite Hs. intros [Hi|Hi]%elem_of_app.
    + rewrite Forall_forall in Hc. by destruct (Hc _ Hi) as (_&_&?).
    + apply list_elem_of_singleton in Hi. by subst.
Qed.

Lemma parsePath_path u b : ∃ p, path (URI.parsePath u b) = normalizePath p.
Proof. unfold URI.parsePath. repeat case_match; by eexists. Qed.

Lemma parseAuth_path u hst : path (URI.parseAuth u hst).1 = path u.
Proof. unfold URI.parseAuth. destruct (IndexByte hst "@"); [|done]. by destruct (IndexByte (take _ _) ":"). Qed.

Lemma parse_path u hst uri tls : path (URI.parse u hst uri tls).1 = [] ∨ ∃ p, path (URI.parse u hst uri tls).1 = normalizePath p.
Proof.
  unfold URI.parse. case_match; [by left|]. destruct (if _ || _ then _ else _) as [[u1 h1] uri1] eqn:E1.
  assert (path u1 = []) as Hu1.
  { case_match; [destruct (splitHostURI hst uri) as [[? ?] ?]|]; by simplify_eq. }
  destruct (URI.parseAuth (if tls then _ else u1) h1) as [u2 h2] eqn:E2.
  assert (path u2 = []) as Hu2.
  { apply (f_equal (path ∘ fst)) in E2. cbn in E2. rewrite <- E2, parseAuth_path. by destruct tls. }
  destruct (parseHost h2); [|by left]. right. apply parsePath_path.
Qed.

Lemma request_path_free x path x' :
  rq_parsedURI (cx_Request x) = false → RequestCtx.Path x = (path, x') → ∃ p, path = "/"%byte :: p ∧ dotdot_free p.
Proof.
  intros Hf. unfold RequestCtx.Path, RequestCtx.URI, Request.URI, Request.parseURI. rewrite Hf.
  destruct (URI.parse _ _ _ _) as [u e] eqn:Eu. cbn. intros [= <- _].
  pose proof (parse_path (rq_uri (cx_Request x)) (RequestHeader.Host (rq_Header (cx_Request x)))
    (RequestHeader.RequestURI (rq_Header (cx_Request x))) (rq_isTLS (cx_Request x))) as Hp.
  cbn in Eu. rewrite Eu in Hp. cbn in Hp. unfold URI.Path. destruct Hp as [->|[p ->]].
  - exists []. split; [done|]. apply dotdot_free_name; set_solver.
  - destruct (normalizePath_free p) as (q&->&Hq). by exists q.
Qed.

Lemma path_asked h path p :
  sane h → h_os h = true → path = "/"%byte :: p → dotdot_free p →
  asked h (pathToFilePath h (if bool_decide (last path = Some "/"%byte) then take (length path - 1) path else path)).
Proof.
  intros Hs Hos -> Hp. unfold pathToFilePath. rewrite Hos. cbn [negb].
  destruct (sane_root _ Hs) as (r'&Er&Hr').
  assert (dotdot_free (h_root h)) as Hr by by rewrite Er, dotdot_free_cons.
  case_bool_decide as Hl.
  - apply last_Some in Hl as [l El]. rewrite El, length_app, Nat.add_sub, take_app_length.
    destruct l as [|c l]; [rewrite app_nil_r; split; [done|]; exists []; by rewrite app_nil_r|].
    injection El as <- El. split; [|by exists ("/"%byte :: l)]. apply dotdot_free_slash. split; [done|].
    rewrite El in Hp. by apply dotdot_free_slash in Hp as [? _].
  - split; [by apply dotdot_free_slash|]. by exists ("/"%byte :: p).
Qed.

Section confinement.
Context `{GoClock} `{FsLib} `{ByteBufferOps} (limit : Z) (h : fsHandler) (os : osAnswers).

Lemma handleRequest_confined x :
  sane h → h_os h = true → h_pathRewrite h = None → rq_parsedURI (cx_Request x) = false →
  confined (visible h) (handleRequest limit h os x).
Proof.
  intros Hs Hos Hrw Hq. destruct (RequestCtx.Path x) as [path x'] eqn:Hp.
  destruct (request_path_free x path x' Hq Hp) as (p&Ep&Hf).
  eapply confined_handleRequest; [by apply asked_names|done|done|]. by eapply path_asked.
Qed.
End confinement.
