(* ===== verification/Theorems.v ===== *)
(** The properties of the components, each stated of the definitions that model the
    code and proved from the components' lemmas, with a witness that applies it to a
    concrete input where it has hypotheses. *)

From Stdlib Require Import ZArith Strings.Byte.
From stdpp Require Import prelude strings list.
From S2P Require Import Prelude Tables Bufio Bytesconv BytesconvFacts Args ArgsFacts Uri PathFacts.
From S2P Require Import Cookie GoTimeUTC CookieFacts Headers HeaderScan ReqHeader RespHeader.
From S2P Require Import HeaderFacts ReqFacts ReqRoundtrip HeaderLaws.

(** * Concrete inputs of the witnesses *)

Definition chunked_reader (cs : list bytes) : Reader := mkReader [] cs EOF 4096 None.

(** A chunked POST with a header, cookies and a trailer, built with the operations. *)
Definition sample_request : RequestHeader :=
  let h := RequestHeader.SetMethod RequestHeader_zero (bs "POST") in
  let h := RequestHeader.SetRequestURI h (bs "/a?b=c") in
  let h := RequestHeader.SetHost h (bs "example.com") in
  let h := RequestHeader.SetUserAgent h (bs "ua/1.0") in
  let h := RequestHeader.SetContentLength h (-1) in
  let h := RequestHeader.SetBytesKV h (bs "x-id") (bs "7") in
  let h := RequestHeader.SetCookie h (bs "k") (bs "v") in
  let h := RequestHeader.SetCookie h (bs "s") (bs "t=1") in
  (RequestHeader.SetTrailerBytes h (bs "x-sum, x-end")).1.

(** The side conditions of the properties are decidable. *)

#[global] Instance value_ok_dec v : Decision (value_ok v).
Proof.
  refine (and_dec _ (and_dec _ _)). destruct (last v) as [c|].
  - destruct (isSpTab c) eqn:E; [right|left].
    + intros Hc. specialize (Hc c eq_refl). congruence.
    + by intros ? [= <-].
  - left. done.
Defined.
#[global] Instance token_dec k : Decision (token k) := and_dec _ _.
#[global] Instance plain_dec v : Decision (plain v) := and_dec _ _.
#[global] Instance no_newline_dec v : Decision (no_newline v) := and_dec _ _.
#[global] Instance cookie_wf_dec p : Decision (cookie_wf p) := and_dec _ _.
#[global] Instance trailer_ok_dec k : Decision (trailer_ok k) := and_dec _ _.
#[global] Instance entry_ok_dec kv : Decision (entry_ok kv) := and_dec _ _.
#[global] Instance cookies_ok_dec h : Decision (cookies_ok h) := Forall_dec _ _.
#[global] Instance normal_dec h : Decision (normal h) := and_dec _ _.

Ltac computed := apply (bool_decide_unpack _); vm_compute; exact I.

Lemma sample_request_wf : req_wf sample_request.
Proof.
  constructor; try computed.
  - repeat split; try done; try computed. by exists "1"%byte, "1"%byte.
  - exists [bs "X-Sum"; bs "X-End"]. split; [done|computed].
  - exists [(bs "k", bs "v"); (bs "s", bs "t=1")]. split; [done|computed].
Qed.

(** * Request heads on the wire *)

(** C6: a request header that can be sent, printed with [AppendBytes] and read back
    with [Read] through a reader that delivers the bytes in any chunks, gives a
    header with the same method, URI, protocol, host, user agent, content type,
    content length, general headers, trailers and connection mode; the bytes of the
    body are left in the reader, and the cookies are those that were set. *)
Theorem request_wire_roundtrip h h0 r body :
  req_wf h → normal h0 → cookies_ok (q_cookies h0) →
  r_data r = RequestHeader.AppendBytes h [] ++ body →
  length (RequestHeader.AppendBytes h []) ≤ r_size r →
  ∃ a r', RequestHeader.Read h0 r = (a, r', None) ∧ r_data r' = body ∧ same_request h a ∧
    live (q_cookies (RequestHeader.collectCookies a)) = live (q_cookies h) ∧
    live (q_h (RequestHeader.collectCookies a)) = sent_headers h.
Proof.
  intros. destruct (Read_AppendBytes h h0 r body) as (a&r'&?&?&?&?&?&_); [done..|]. by exists a, r'.
Qed.

(** The chunks split the head inside the first line and inside a header name. *)
Lemma request_wire_roundtrip_witness :
  let head := RequestHeader.AppendBytes sample_request [] in
  ∃ a r', RequestHeader.Read RequestHeader_zero
            (chunked_reader [take 3 head; take 40 (drop 3 head); drop 43 head ++ bs "5"; bs "0"])
          = (a, r', None) ∧ r_data r' = bs "50" ∧ same_request sample_request a ∧
    live (q_cookies (RequestHeader.collectCookies a)) = live (q_cookies sample_request) ∧
    live (q_h (RequestHeader.collectCookies a)) = sent_headers sample_request.
Proof.
  apply request_wire_roundtrip; [apply sample_request_wf|done|computed| |].
  - vm_compute. reflexivity.
  - apply Nat.leb_le. vm_compute. reflexivity.
Defined.


Definition crlf (l : list bytes) : bytes := l ≫= λ x, x ++ strCRLF.


(** The line loop of [parseHeaders] ends by itself: on any buffer and any header
    the loop reaches its result within as many rounds as the buffer has bytes plus
    one, and further rounds change nothing. *)
Theorem request_parse_terminates fuel h buf :
  S (length buf) ≤ fuel →
  RequestHeader.parseHeaders_loop fuel h (newScanner buf (q_disableNormalizing h))
  = RequestHeader.parseHeaders_loop (S (length buf)) h (newScanner buf (q_disableNormalizing h)).
Proof.
  intros Hf. apply parseHeaders_loop_fuel; [apply settled_colon_inv, newScanner_settled|cbn; lia..].
Qed.

Lemma request_parse_terminates_witness :
  let buf := crlf (bs <$> ["A: b"; "C: d"; ""]) in
  RequestHeader.parseHeaders_loop 100 RequestHeader_zero (newScanner buf false)
  = RequestHeader.parseHeaders_loop (S (length buf)) RequestHeader_zero (newScanner buf false).
Proof.
  apply (request_parse_terminates 100 RequestHeader_zero (crlf (bs <$> ["A: b"; "C: d"; ""]))).
  apply Nat.leb_le. vm_compute. reflexivity.
Defined.



(** C31: [parse] never claims more bytes than the buffer holds, so that the [Discard]
    that follows stays inside the buffer, and editing the buffer in place keeps its
    length; on success and on every error. *)
Theorem request_parse_in_bounds h buf h' buf' res :
  q_firstLineLen h ≤ length buf → RequestHeader.parse h buf = (h', buf', res) →
  length buf' = length buf ∧ (∀ n, res = inl n → n ≤ length buf).
Proof. apply parse_len. Qed.

Lemma request_parse_in_bounds_witness :
  let buf := crlf (bs <$> ["GET / HTTP/1.1"; "a: b"; ""]) ++ bs "rest" in
  let '(h', buf', res) := RequestHeader.parse RequestHeader_zero buf in
  res = inl 24 ∧ length buf' = length buf ∧ 24 ≤ length buf.
Proof.
  cbv zeta. set (buf := _ ++ _).
  destruct (RequestHeader.parse RequestHeader_zero buf) as [[h' buf'] res] eqn:E.
  assert (res = inl 24) as ->.
  { transitivity (RequestHeader.parse RequestHeader_zero buf).2; [by rewrite E|].
    vm_compute. reflexivity. }
  destruct (request_parse_in_bounds RequestHeader_zero buf h' buf' (inl 24)) as [Hl Hn];
    [cbn; lia|done|]. split; [done|]. split; [done|by apply Hn].
Defined.

(** C32: whatever is read, and whether it is accepted or not, every general header the
    request then holds has a name made of token characters and a value without
    control characters other than tab: in particular no newline can be smuggled in. *)
Theorem request_headers_valid h r h' r' err :
  RequestHeader.Read h r = (h', r', err) → headers_valid h'.
Proof. intros E. eapply (readLoop_from_valid _ (RequestHeader.resetSkipNormalize h)); [constructor|exact E]. Qed.

Lemma request_headers_valid_witness :
  headers_valid (RequestHeader.Read RequestHeader_zero
    (chunked_reader [crlf (bs <$> ["GET / HTTP/1.1"; "x-a: b"; "C: d"; ""])])).1.1.
Proof.
  set (r := chunked_reader _).
  destruct (RequestHeader.Read RequestHeader_zero r) as [[h' r'] err] eqn:E.
  by apply (request_headers_valid RequestHeader_zero r h' r' err).
Defined.

(** * Paths *)

(** C25: [normalizePath], with its in-place passes over the decoded path, computes the
    reference resolution: percent-decode, split at slashes, drop empty and "."
    segments, let ".." pop a segment, and join behind a leading slash. *)
Theorem normalizePath_reference src : normalizePath src = path_resolve src.
Proof. apply normalizePath_resolve. Qed.

(** C24: a normalized path cannot leave the root: it starts with a slash, none of its
    inner segments is empty, "." or "..", and the last segment is not "..". *)
Theorem normalizePath_safe src :
  ∃ inner last, normalizePath src = path_of (inner ++ [last]) ∧
    split_on "/" (tail (normalizePath src)) = inner ++ [last] ∧
    Forall PathFacts.clean inner ∧ last ≠ bs "..".
Proof. apply normalizePath_segments. Qed.

(** Normalizing is idempotent on paths that decode to no further escape. *)
Theorem normalizePath_idempotent src :
  "%"%byte ∉ normalizePath src → normalizePath (normalizePath src) = normalizePath src.
Proof. apply normalizePath_fixpoint. Qed.

Lemma normalizePath_idempotent_witness :
  normalizePath (normalizePath (bs "a//b/./c/%2e%2e/d")) = normalizePath (bs "a//b/./c/%2e%2e/d").
Proof. apply normalizePath_idempotent. computed. Defined.

(** * Query arguments *)

(** The argument slices, which are edited in place and reuse their released
    elements, refine lists of key-value pairs: appending, setting, deleting, copying
    and resetting act on the live elements as the list operations do, whatever stale
    elements there are. *)
Theorem argument_slices_refine h dst k v nv :
  live (appendArg h k v nv) = assoc_add (live h) k v nv ∧
  live (setArg h k v nv) = assoc_set (live h) k v nv ∧
  live (delAllArgs h k) = assoc_del (live h) k ∧
  (kvs_wf h → live (copyArgs dst h) = live h) ∧
  live (kvs_reset h) = [].
Proof.
  split_and!; [apply live_appendArg|apply live_setArg|apply live_delAllArgs| |done].
  apply copyArgs_live.
Qed.

(** Lookup after an update: [Set] makes the key's value the one set and [Del]
    removes every occurrence, and neither changes what is found under another key. *)
Theorem args_lookup a k k' v :
  Args.Peek (Args.Set_ a k v) k = Some v ∧ Args.Peek (Args.Del a k) k = None ∧
  Args.Has (Args.Set_ a k v) k = true ∧ Args.Has (Args.Del a k) k = false ∧
  (k ≠ k' → Args.Peek (Args.Set_ a k v) k' = Args.Peek a k' ∧
            Args.Peek (Args.Del a k) k' = Args.Peek a k').
Proof.
  pose proof (live_setArg (args a) k v argsHasValue) as Eset.
  pose proof (live_delAllArgs (args a) k) as Edel.
  change (setArg _ _ _ _) with (args (Args.Set_ a k v)) in Eset.
  change (delAllArgs _ _) with (args (Args.Del a k)) in Edel.
  unfold Args.Has, Args.Peek. rewrite !hasArg_peek. unfold peekArgStr. rewrite Eset, Edel.
  rewrite peek_set_eq, peek_del_eq. split_and!; [done..|].
  intros Hk. by rewrite peek_set_ne, peek_del_ne.
Qed.

(** C27: parsing a query string computes the reference parser, which splits at '&',
    splits each part at its first '=', percent-decodes both sides and keeps the parts
    that are not empty; what the slices held before plays no role. *)
Theorem args_parse_reference a b : live (args (Args.ParseBytes a b)) = query_parse b.
Proof. apply live_parseArgs. Qed.

(** C26: printed arguments parse back to the same list, in order, with every byte of the
    keys and values, and with the difference between "k" and "k=". *)
Theorem args_roundtrip a a0 :
  Forall (λ kv, kv_wf kv ∧ kv_nonempty kv = true) (live (args a)) →
  live (args (Args.ParseBytes a0 (Args.AppendBytes a []))) = live (args a).
Proof.
  intros Ha. transitivity (query_parse (Args.AppendBytes a [])); [apply live_parseArgs|].
  unfold Args.AppendBytes. by destruct (AppendBytes_loop_parse [] _ Ha) as (s&->&?).
Qed.

Definition sample_args : Args :=
  Args.AddNoValue (Args.Add (Args.Add (mkArgs (mkKvs [] []) []) (bs "a b") (bs "&=+%")) (bs "e") [])
    (bs "flag").

Lemma args_roundtrip_witness :
  live (args (Args.ParseBytes sample_args (Args.AppendBytes sample_args []))) = live (args sample_args).
Proof. apply args_roundtrip. repeat constructor; by intros [=]. Defined.

(** * Cookies *)

(** C29: the Set-Cookie value that a response cookie prints to parses back, into any
    cookie object, to a cookie with the same key, value, expiry, maximal age, domain,
    path, flags and SameSite mode, when its date prints and parses back. *)
Theorem response_cookie_roundtrip `{GoTime} (c c0 c' : Cookie) b :
  resp_cookie_wf c → Cookie.AppendBytes c [] = Some (b, c') →
  ∃ c1, Cookie.ParseBytes c0 b = (c1, None) ∧ public c1 = public c.
Proof. apply Cookie_roundtrip. Qed.

Definition sample_cookie : Cookie :=
  let c := Cookie.SetKey Cookie_zero (bs "sid") in
  let c := Cookie.SetValue c (bs "31d4d96e407aad42") in
  let c := Cookie.SetDomain c (bs "example.com") in
  let c := Cookie.SetPath c (bs "/a/b") in
  let c := Cookie.SetMaxAge c 3600 in
  let c := Cookie.SetHTTPOnly c true in
  let c := Cookie.SetSameSite c CookieSameSiteNoneMode in
  Cookie.SetExpire c (date 2030 1 2 3 4 5).

Lemma response_cookie_roundtrip_witness :
  ∃ b c', Cookie.AppendBytes sample_cookie [] = Some (b, c') ∧
  ∃ c1, Cookie.ParseBytes Cookie_zero b = (c1, None) ∧ public c1 = public sample_cookie.
Proof.
  assert (bool_decide (is_Some (Cookie.AppendBytes sample_cookie [])) = true) as Hs
    by (vm_compute; reflexivity).
  destruct (Cookie.AppendBytes sample_cookie []) as [[b c']|] eqn:E.
  - exists b, c'. split; [done|].
    apply (response_cookie_roundtrip sample_cookie Cookie_zero c' b); [|done].
    assert (validCookieExpires (c_expire sample_cookie) = true) as Hv by (vm_compute; reflexivity).
    unfold resp_cookie_wf. rewrite Hv. unfold date_ok. do 4 (split; [computed|]). split; computed.
  - done.
Defined.

(** The Cookie header that a list of request cookies prints to parses back to the
    same cookies, appended to the ones already collected. *)
Theorem request_cookies_roundtrip l sp h0 :
  Forall cookie_wf l → cookies_ok h0 →
  live (parseRequestCookies h0 (appendRequestCookieBytes [] (mkKvs (has_value <$> l) sp)))
  = live h0 ++ (has_value <$> l).
Proof.
  intros Hl Hok. unfold appendRequestCookieBytes. cbn [live].
  destruct (appendRequestCookie_parse l [] Hl) as (s&->&E&_). cbn [app].
  destruct (parseRequestCookies_spec h0 s Hok) as [-> _]. by rewrite E.
Qed.

Lemma request_cookies_roundtrip_witness :
  let l := [(bs "a", bs "1"); (bs "b", bs "x=y"); ([], bs "bare")] in
  live (parseRequestCookies (mkKvs [] []) (appendRequestCookieBytes [] (mkKvs (has_value <$> l) [])))
  = has_value <$> l.
Proof. intros l. apply (request_cookies_roundtrip l [] (mkKvs [] [])); computed. Defined.

(** * Header names and values *)

(** Two header names have the same normal form exactly when they are equal without
    regard to the case of letters, and normalizing is idempotent. *)
Theorem header_names_case_insensitive a b :
  (normalizeHeaderKeyV2 a = normalizeHeaderKeyV2 b ↔ toLowerTable <$> a = toLowerTable <$> b) ∧
  normalizeHeaderKeyV2 (normalizeHeaderKeyV2 a) = normalizeHeaderKeyV2 a.
Proof. split; [apply normalize_eq|apply normalize_idemp]. Qed.

(** The value that a setter stores is the value given with every CR and LF replaced
    by a blank, and has neither: no setter can split a header line. *)
Theorem header_values_sanitized bufV raw :
  (initHeaderV bufV raw).1 = spaceNewLine <$> raw ∧ no_newline (initHeaderV bufV raw).1 ∧
  removeNewLines raw = (initHeaderV bufV raw).1.
Proof.
  rewrite initHeaderV_value, removeNewLines_spec. split_and!; [done|apply spaceNewLine_clean|done].
Qed.

(** Requests are a map from case-insensitive names to sanitized values, for every
    name without a slot of its own: what is found under a name after [Set] is the
    sanitized value when the name is the one set up to case, and what was there before
    otherwise. *)
Theorem request_header_map h k v k' :
  req_normal h → canonical k ∉ request_special →
  (RequestHeader.PeekBytes (RequestHeader.SetBytesKV h k v) k').1 =
    (if decide (toLowerTable <$> k = toLowerTable <$> k') then HeaderLaws.clean v
     else (RequestHeader.PeekBytes h k').1) ∧
  (RequestHeader.PeekBytes (RequestHeader.DelBytes h k) k').1 =
    (if decide (toLowerTable <$> k = toLowerTable <$> k') then []
     else (RequestHeader.PeekBytes h k').1).
Proof.
  intros Hn Hk. rewrite <- !(decide_ext _ _ _ _ (normalize_eq k k')).
  split; [exact (hs_peek_set h k v k' Hn Hk)|exact (hs_peek_del h k k' Hn Hk)].
Qed.

Lemma request_header_map_witness :
  (RequestHeader.PeekBytes (RequestHeader.SetBytesKV sample_request (bs "x-ID") (bs "a")) (bs "X-id")).1
  = bs "a".
Proof.
  destruct (request_header_map sample_request (bs "x-ID") (bs "a") (bs "X-id")) as [E _];
    [done|computed|]. rewrite E. by vm_compute.
Defined.

(** Responses are a map from case-insensitive names to sanitized values too, for
    every name without a slot of its own: what [PeekBytes] finds after [SetBytesKV] and
    after [DelBytes], under the same name up to case and under any other. *)
Theorem response_header_map h k v k' :
  resp_normal h → canonical k ∉ response_special →
  (ResponseHeader.PeekBytes (ResponseHeader.SetBytesKV h k v) k').1 =
    (if decide (toLowerTable <$> k = toLowerTable <$> k') then HeaderLaws.clean v
     else (ResponseHeader.PeekBytes h k').1) ∧
  (ResponseHeader.PeekBytes (ResponseHeader.DelBytes h k) k').1 =
    (if decide (toLowerTable <$> k = toLowerTable <$> k') then []
     else (ResponseHeader.PeekBytes h k').1).
Proof.
  intros Hn Hk. rewrite <- !(decide_ext _ _ _ _ (normalize_eq k k')).
  split; [exact (hs_peek_set h k v k' Hn Hk)|exact (hs_peek_del h k k' Hn Hk)].
Qed.

Lemma response_header_map_witness :
  (ResponseHeader.PeekBytes (ResponseHeader.SetBytesKV ResponseHeader_zero (bs "x-ID") (bs "a"))
     (bs "X-id")).1 = bs "a".
Proof.
  destruct (response_header_map ResponseHeader_zero (bs "x-ID") (bs "a") (bs "X-id")) as [E _];
    [done|computed|]. rewrite E. by vm_compute.
Defined.



(** Trailer names are checked: whatever is given to [SetTrailerBytes], accepted or
    refused, the trailers declared afterwards contain no field that frames, routes or
    authenticates a message. *)
Theorem request_trailers_allowed h t :
  q_disableNormalizing h = false →
  Forall (λ k, k ∉ key <$> live (q_trailer (RequestHeader.SetTrailerBytes h t).1))
    [[]; strAuthorization; strContentEncoding; strContentLength; strContentRange; strConnection;
     strExpect; strHost; strMaxForwards; strProxyAuthenticate; strProxyAuthorization; strRange;
     strTrailer; strTransferEncoding].
Proof.
  intros Hn. pose proof (SetTrailerBytes_allowed h t) as Ha. rewrite Hn in Ha.
  assert (Forall (λ k, isBadTrailer k false = true)
    [[]; strAuthorization; strContentEncoding; strContentLength; strContentRange; strConnection;
     strExpect; strHost; strMaxForwards; strProxyAuthenticate; strProxyAuthorization; strRange;
     strTrailer; strTransferEncoding]) as Hb by computed.
  eapply Forall_impl; [exact Hb|]. intros k Hk (kv&->&Hin)%list_elem_of_fmap.
  rewrite Forall_forall in Ha. specialize (Ha kv Hin). unfold trailer_allowed in Ha. congruence.
Qed.

Lemma request_trailers_allowed_witness :
  strHost ∉ key <$> live (q_trailer (RequestHeader.SetTrailerBytes RequestHeader_zero (bs "Foo,host, Bar")).1).
Proof.
  pose proof (request_trailers_allowed RequestHeader_zero (bs "Foo,host, Bar") eq_refl) as Hall.
  rewrite Forall_forall in Hall. apply Hall. computed.
Defined.

(** A copy prints like its original: after [CopyTo], the destination's head is the
    source's, whatever the destination held. *)
Theorem request_copy_prints_same h dst d :
  q_disableSpecialHeader h = false → kvs_wf (q_h h) → kvs_wf (q_cookies h) →
  RequestHeader.AppendBytes (RequestHeader.CopyTo h dst) d = RequestHeader.AppendBytes h d.
Proof.
  intros Hs Hh Hc. set (a := RequestHeader.CopyTo h dst).
  assert (live (q_h a) = live (q_h h)) as Eh by exact (copyArgs_live _ _ Hh).
  assert (live (q_cookies a) = live (q_cookies h)) as Ec by exact (copyArgs_live _ _ Hc).
  assert (live (q_trailer a) = live (q_trailer h)) as Et by done.
  unfold RequestHeader.AppendBytes, RequestHeader.appendHeaders, RequestHeader.isTrailerKey,
    appendArgsKeyBytes, appendRequestCookieBytes, RequestHeader.UserAgent, RequestHeader.Host,
    RequestHeader.ContentType.
  rewrite Eh, Ec, Et, Hs. done.
Qed.

Lemma request_copy_prints_same_witness :
  RequestHeader.AppendBytes (RequestHeader.CopyTo sample_request
    (RequestHeader.SetHost RequestHeader_zero (bs "old"))) []
  = RequestHeader.AppendBytes sample_request [].
Proof. apply request_copy_prints_same; [done|repeat constructor; by intros [=]..]. Defined.

(** No state survives [Reset]: a reset request or response behaves like a new one
    when it is printed and when anything is looked up in it. *)
Theorem reset_forgets h p d date k :
  RequestHeader.AppendBytes (RequestHeader.Reset h) d = RequestHeader.AppendBytes RequestHeader_zero d ∧
  (RequestHeader.PeekBytes (RequestHeader.Reset h) k).1 = (RequestHeader.PeekBytes RequestHeader_zero k).1 ∧
  (ResponseHeader.AppendBytes (ResponseHeader.Reset p) date d false).1
    = (ResponseHeader.AppendBytes ResponseHeader_zero date d false).1 ∧
  (ResponseHeader.PeekBytes (ResponseHeader.Reset p) k).1
    = (ResponseHeader.PeekBytes ResponseHeader_zero k).1.
Proof.
  split_and!; [done| | |].
  - rewrite !PeekBytes_value by done. done.
  - done.
  - rewrite !resp_PeekBytes_value by done. unfold ResponseHeader.peek, ResponseHeader.peekSpecial.
    destruct (canonical k); [done|]. repeat case_bool_decide; done.
Qed.

(** * Conversions *)

(** The decoder with its fast paths and start index computes the reference
    percent-decoding of the source, appended to the destination: with '+' as a blank for
    arguments and as itself for paths. *)
Theorem decode_reference dst src :
  decodeArgAppend dst src = dst ++ percent_decode true src ∧
  decodeArgAppendNoPlus dst src = dst ++ percent_decode false src.
Proof. split; [apply decodeArgAppend_ref|apply decodeArgAppendNoPlus_ref]. Qed.

(** Quoting and decoding are inverse on every byte string, for arguments and for
    paths, and a quoted argument has no '&' and no '=' that could end it. *)
Theorem quote_decode_roundtrip dst s :
  decodeArgAppend dst (AppendQuotedArg [] s) = dst ++ s ∧
  decodeArgAppendNoPlus dst (appendQuotedPath [] s) = dst ++ s ∧
  "&"%byte ∉ AppendQuotedArg [] s ∧ "="%byte ∉ AppendQuotedArg [] s.
Proof.
  rewrite AppendQuotedArg_bind at 2 3.
  split_and!; [apply decode_quoted_arg|apply decode_quoted_path|apply (quoteArg_clean s)..].
Qed.

(** Every int64 that is not negative prints as decimal digits with that value and
    parses back, with nothing left over. *)
Theorem uint_roundtrip dst n :
  (0 ≤ n < 2 ^ 63)%Z →
  ∃ ds, AppendUint dst n = Some (dst ++ ds) ∧ Forall is_digit ds ∧ ds ≠ [] ∧ decval 0 ds = n ∧
        ParseUint ds = (n, None).
Proof.
  intros Hn. destruct (AppendUint_spec dst n Hn) as (ds&E&Hd&Hne&Hv). exists ds.
  split_and!; try done. rewrite <- Hv. apply ParseUint_digits; [done..|]. lia.
Qed.

Lemma uint_roundtrip_witness :
  ∃ ds, AppendUint (bs "n=") 9223372036854775807 = Some (bs "n=" ++ ds) ∧ Forall is_digit ds ∧ ds ≠ [] ∧
        decval 0 ds = 9223372036854775807%Z ∧ ParseUint ds = (9223372036854775807%Z, None).
Proof. apply (uint_roundtrip (bs "n=") 9223372036854775807). lia. Defined.

(** What [parseUintBuf] accepts is the longest run of digits at the start of the
    input, and what it returns is the value of the digits as an int64, never negative:
    exact when it is below 2^63. *)
Theorem parseUintBuf_sound b v n :
  parseUintBuf b = (v, n, None) →
  ∃ ds rest, b = ds ++ rest ∧ n = length ds ∧ Forall is_digit ds ∧ ds ≠ [] ∧ stops rest ∧
    v = int64 (decval 0 ds) ∧ (0 ≤ v < 2 ^ 63)%Z ∧ (decval 0 ds < 2 ^ 63 → v = decval 0 ds)%Z.
Proof.
  intros (ds&rest&->&->&Hd&Hne&Hs&->&Hr)%parseUintBuf_inv. exists ds, rest.
  split_and!; try done; try lia. intros Hlt. apply int64_small.
  pose proof (decval_le 0 ds ltac:(lia) Hd). lia.
Qed.

Lemma parseUintBuf_sound_witness :
  ∃ ds rest, bs "123abc" = ds ++ rest ∧ 3 = length ds ∧ Forall is_digit ds ∧ ds ≠ [] ∧ stops rest ∧
    123%Z = int64 (decval 0 ds) ∧ (0 ≤ 123 < 2 ^ 63)%Z ∧ (decval 0 ds < 2 ^ 63 → 123 = decval 0 ds)%Z.
Proof. apply (parseUintBuf_sound (bs "123abc") 123 3). vm_compute. reflexivity. Defined.

(** The size line of a chunk: every size below 16^15 that is written in hexadecimal
    is read back, through a reader in any state, up to the byte that follows it. *)
Theorem hex_roundtrip n r rest :
  (0 ≤ n < 16 ^ 15)%Z → reader_ok r → hex_stops r rest →
  ∃ s, writeHexInt n = Some s ∧
    (r_data r = s ++ rest → ∃ r', readHexInt r = ((n, None), r') ∧ r_data r' = rest).
Proof.
  intros Hn Hr Hs. destruct (writeHexInt_spec n 15) as (ds&E&Hd&Hne&Hl&Hv); [done|lia|].
  exists ds. split; [done|]. intros Hdata. rewrite <- Hv.
  destruct (readHexInt_digits r ds rest) as (r'&?&?&_); eauto.
Qed.

Lemma hex_roundtrip_witness :
  ∃ s, writeHexInt 48879 = Some s ∧
    (r_data (chunked_reader [bs "be"; bs "ef"; strCRLF]) = s ++ strCRLF →
     ∃ r', readHexInt (chunked_reader [bs "be"; bs "ef"; strCRLF]) = ((48879%Z, None), r') ∧
           r_data r' = strCRLF).
Proof. apply hex_roundtrip; [lia|apply Nat.leb_le; reflexivity|by vm_compute]. Defined.

(** HTML escaping replaces every byte on its own, and the result contains no angle
    bracket and no quote. *)
Theorem html_escape_correct dst s :
  AppendHTMLEscape dst s = dst ++ (s ≫= html_escape) ∧
  Forall (λ c, c ∉ AppendHTMLEscape [] s) ["<"%byte; ">"%byte; x22; "'"%byte].
Proof.
  split; [apply AppendHTMLEscape_ref|]. apply Forall_forall. intros c Hc.
  rewrite AppendHTMLEscape_ref. by apply html_escape_safe.
Qed.

(** Every IPv4 address prints to a text that parses back to it. *)
Theorem ipv4_roundtrip dst a b c d :
  ∃ s, AppendIPv4 [] [a; b; c; d] = Some s ∧ ParseIPv4 dst s = ([a; b; c; d], None).
Proof. apply ParseIPv4_AppendIPv4. Qed.

(** * Where the code departs from what it means to do *)

(** The overflow test of [parseUintBuf] compares the wrapped sum with the previous
    value, which some multiples of 2^64 pass: the 20-digit Content-Length below is
    accepted with another value, where [errTooLongInt] is meant. *)
Theorem parseUint_overflow_missed :
  let ds := bs "25000000000000000000" in
  (decval 0 ds > maxInt64)%Z ∧ parseContentLength ds = (6553255926290448384%Z, None).
Proof. split; [by vm_compute|]. vm_compute. reflexivity. Qed.

(** [parseFirstLine] hands the header's previous method to [isValidMethod], not the
    one on the line, so that a reset header accepts a method that is no token. *)
Theorem request_method_unchecked :
  isValidMethod (bs "G@T") = false ∧
  let '(h, _, err) := RequestHeader.Read RequestHeader_zero
    (chunked_reader [crlf (bs <$> ["G@T / HTTP/1.1"; ""])]) in
  err = None ∧ RequestHeader.Method h = bs "G@T".
Proof. vm_compute. done. Qed.

(** A value folded over two lines is joined in place, which shortens the head in the
    buffer; the bytes dropped reappear, stale, behind the data of a request, and a
    response takes them off the front of its body. *)
Theorem folded_header_corrupts_body :
  let head first := crlf [first; bs "A: b"; bs " c"; []] in
  let '(_, r, err) := RequestHeader.Read RequestHeader_zero
    (chunked_reader [head (bs "POST / HTTP/1.1") ++ bs "hello"]) in
  let '(_, r', err') := ResponseHeader.Read ResponseHeader_zero
    (chunked_reader [head (bs "HTTP/1.1 200 OK") ++ bs "hello"]) in
  err = None ∧ r_data r = bs "hellolo" ∧ err' = None ∧ r_data r' = bs "llolo".
Proof. vm_compute. done. Qed.

(** [ResponseHeader.Read] resets the header once and parses from the start after
    every refill: a head that arrives in two chunks has the headers of the first chunk
    twice, where one chunk gives each once. *)
Theorem response_reread_duplicates :
  let head := crlf (bs <$> ["HTTP/1.1 200 OK"; "X: 1"; "Content-Length: 0"; ""]) in
  let '(h1, _, err1) := ResponseHeader.Read ResponseHeader_zero (chunked_reader [head]) in
  let '(h2, _, err2) := ResponseHeader.Read ResponseHeader_zero
    (chunked_reader [take 25 head; drop 25 head]) in
  err1 = None ∧ err2 = None ∧
  ((value <$> live (p_h h1)) = [bs "1"]) ∧ ((value <$> live (p_h h2)) = [bs "1"; bs "1"]).
Proof. vm_compute. done. Qed.
