(* ===== verification/HttpTheorems.v ===== *)
(** The properties of messages with their bodies: requests that cross a connection, the
    readers of chunked, fixed-size and identity bodies, body streams, the operations on
    bodies, and the timer heap that cleans idle clients. *)

From Stdlib Require Import ZArith Strings.Byte.
From stdpp Require Import prelude strings list.
From S2P Require Import Prelude Tables Bufio Bytesconv BytesconvFacts Args ArgsFacts Uri Headers HeaderScan CookieFacts Body BodyFacts StreamFacts.
From S2P Require Import ReqHeader RespHeader HeaderFacts ReqFacts ReqRoundtrip Http HttpFacts HttpStreamFacts.
From S2P Require Import Cleaner CleanerFacts Theorems.

(** * Concrete inputs of the witnesses *)

(** Buffers that grow to what they hold, and a form package that reads no forms. *)
Definition grown (s : slice) (b : bytes) : slice := mkSlice b (Z.max (sl_cap s) (Z.of_nat (length b))).

#[local] Instance sample_buffers : ByteBufferOps := {|
  bb_Get := mkSlice [] 0;
  bb_Write s p := grown s (sl_b s ++ p);
  bb_Set s p := grown s p;
  bb_Reset s := mkSlice [] (sl_cap s)
|}.

#[local] Instance sample_buffers_laws : ByteBufferLaws.
Proof. split; intros; cbn; split; try done; lia. Defined.

#[local] Instance sample_forms : MultipartOps := {|
  mp_ReadForm _ _ _ r := (inr (errMultipart (bs "no form")), r);
  mp_Write _ _ := inr (errMultipart (bs "no form"))
|}.

Definition sample_head : RequestHeader :=
  let h := RequestHeader.SetMethod RequestHeader_zero (bs "POST") in
  let h := RequestHeader.SetRequestURI h (bs "/upload") in
  let h := RequestHeader.SetHost h (bs "example.com") in
  RequestHeader.SetBytesKV h (bs "x-id") (bs "7").

Definition sample_post : Request :=
  (Request.SetBody (Request_zero <| rq_Header := sample_head |>) (chunked_reader []) (bs "hello")).1.

Lemma sample_head_wf : req_wf sample_head.
Proof.
  constructor; try computed.
  - repeat split; try done; try computed. by exists "1"%byte, "1"%byte.
  - exists []. split; [done|computed].
  - exists []. split; [done|computed].
Qed.

(** * Messages on the wire *)

Section messages.
Context `{ByteBufferLaws} `{MultipartOps}.

(** C1: a request with its body in memory that can be sent, written with [Write] and read
    with [ReadLimit] from a connection that delivers the bytes in any pieces, arrives:
    the reader gets the header that was sent and exactly the payload (the body, or the
    POST arguments where there is none), and what follows on the connection is left. *)
Theorem request_message_roundtrip q q0 r0 r rest maxBodySize :
  sendable q → plain (sent_header q) →
  normal (rq_Header q0) → cookies_ok (q_cookies (rq_Header q0)) →
  rq_bodyStream q0 = None → rq_StreamBody q0 = false → lively r →
  ∃ wire q', Request.Write (mkWriter [] None) q r0 = (None, mkWriter wire None, q', r0) ∧
  (r_data r = wire ++ rest → length (RequestHeader.AppendBytes (sent_header q) []) ≤ r_size r →
   (maxBodySize ≤ 0 ∨ Z.of_nat (length (payload q)) ≤ maxBodySize)%Z →
   ∃ q1 r1, Request.ReadLimit q0 r maxBodySize = (None, q1, r1) ∧
     same_request (sent_header q) (rq_Header q1) ∧ Request.bodyBytes q1 = payload q ∧
     r_data r1 = rest).
Proof.
  intros Hs Hp Hn Hc Hst Hsb Hl. destruct (Write_sent q r0 Hs) as [q' E].
  eexists _, q'. split; [exact E|]. rewrite <- app_assoc. intros Hd Hsz Hm.
  apply (ReadLimit_sent q q0 r rest maxBodySize); done.
Qed.

(** C4: a request whose body is a stream of unknown length, written with [Write] and read
    with [ReadLimit], arrives: the wire is the header with a chunked transfer encoding,
    chunks and an empty trailer section, and the reader gets everything the stream
    delivered, whatever pieces the stream and the connection cut it into. *)
Theorem request_stream_roundtrip q src q0 r0 r rest maxBodySize :
  streamable q src → strExpect ∉ keys_of (live (q_h (chunked_header q))) →
  normal (rq_Header q0) → cookies_ok (q_cookies (rq_Header q0)) →
  rq_bodyStream q0 = None → rq_StreamBody q0 = false → lively r →
  ∃ wire q', Request.Write (mkWriter [] None) q r0 = (None, mkWriter wire None, q', r0) ∧
  (r_data r = wire ++ rest → length (RequestHeader.AppendBytes (chunked_header q) []) ≤ r_size r →
   (maxBodySize ≤ 0 ∨ Z.of_nat (length (concat (src_reads src))) ≤ maxBodySize)%Z →
   ∃ a q1 r1, Request.ReadLimit q0 r maxBodySize = (None, q1, r1) ∧
     same_request (chunked_header q) a ∧
     rq_Header q1 = (if decide (concat (src_reads src) = [])
                     then RequestHeader.SetContentLength a 0 else a) ∧
     Request.bodyBytes q1 = concat (src_reads src) ∧ r_data r1 = rest).
Proof.
  intros Hs He Hn Hc Hst Hsb Hl. destruct (Write_streamed q src r0 Hs) as (w&q'&E&Hch).
  eexists _, q'. split; [exact E|]. rewrite <- !app_assoc. intros Hd Hsz Hm.
  apply (ReadLimit_streamed q src q0 r w rest maxBodySize); done.
Qed.
End messages.

Lemma sample_post_sendable : sendable sample_post.
Proof. split; [apply sample_head_wf|computed|done|done|done|done|]. vm_compute. reflexivity. Qed.

(** A request followed by the start of the next, cut inside its head and inside its body. *)
Lemma request_message_roundtrip_witness :
  let wire := (Request.Write (mkWriter [] None) sample_post (chunked_reader [])).1.1.2 in
  let data := w_out wire ++ bs "GET / HTTP/1.1" in
  ∃ q1 r1, Request.ReadLimit Request_zero
             (chunked_reader [take 20 data; take 70 (drop 20 data); drop 90 data]) 100 = (None, q1, r1) ∧
    same_request (sent_header sample_post) (rq_Header q1) ∧ Request.bodyBytes q1 = bs "hello" ∧
    r_data r1 = bs "GET / HTTP/1.1".
Proof.
  cbv zeta. set (r := chunked_reader _).
  destruct (request_message_roundtrip sample_post Request_zero (chunked_reader []) r
    (bs "GET / HTTP/1.1") 100 sample_post_sendable) as (wire&q'&E&Hread);
    [split; [computed|vm_compute; reflexivity]|done|computed|done|done|computed|].
  apply Hread.
  - replace wire with (w_out (Request.Write (mkWriter [] None) sample_post (chunked_reader [])).1.1.2)
      by (by rewrite E). vm_compute. reflexivity.
  - apply Nat.leb_le. vm_compute. reflexivity.
  - right. vm_compute. discriminate.
Defined.

Definition sample_source : Source := mkSource [bs "hello "; bs "wor"; bs "ld"] EOF.

Definition sample_stream : Request :=
  (Request.SetBodyStream (Request_zero <| rq_Header := sample_head |>) (chunked_reader [])
     (Some (streamSource sample_source None noCloser)) (-1)).1.

Lemma sample_stream_streamable : streamable sample_stream sample_source.
Proof.
  split; [|computed|computed|done|done|split; [computed|done]|vm_compute; reflexivity].
  apply req_wf_chunks; [apply sample_head_wf|computed].
Qed.

Lemma request_stream_roundtrip_witness :
  let wire := (Request.Write (mkWriter [] None) sample_stream (chunked_reader [])).1.1.2 in
  let data := w_out wire ++ bs "GET / HTTP/1.1" in
  ∃ q1 r1, Request.ReadLimit Request_zero (chunked_reader [take 120 data; drop 120 data]) 11
           = (None, q1, r1) ∧
    Request.bodyBytes q1 = bs "hello world" ∧ r_data r1 = bs "GET / HTTP/1.1".
Proof.
  cbv zeta. set (r := chunked_reader _).
  destruct (request_stream_roundtrip sample_stream sample_source Request_zero (chunked_reader []) r
    (bs "GET / HTTP/1.1") 11 sample_stream_streamable) as (wire&q'&E&Hread);
    [computed|done|computed|done|done|computed|].
  destruct Hread as (a&q1&r1&?&_&_&?&?); [| |right; vm_compute; discriminate|by eauto].
  - replace wire with (w_out (Request.Write (mkWriter [] None) sample_stream (chunked_reader [])).1.1.2)
      by (by rewrite E). vm_compute. reflexivity.
  - apply Nat.leb_le. vm_compute. reflexivity.
Defined.

(** * Bodies on the wire *)

(** C8: [readBodyChunked] accepts exactly the grammar of chunked bodies within the limit:
    it succeeds with a body and leaves a rest of the connection if and only if the
    connection holds chunks that carry that body followed by that rest, and the body is
    no longer than the limit where there is one. *)
Theorem chunked_body_exact r maxBodySize dst body rest :
  reader_ok r → lively r → sl_b dst = [] →
  (∃ c r', readBodyChunked r maxBodySize dst = (mkSlice body c, None, r') ∧ r_data r' = rest) ↔
  (∃ wire, chunked wire body ∧ r_data r = wire ++ rest) ∧
  (maxBodySize ≤ 0 ∨ Z.of_nat (length body) ≤ maxBodySize)%Z.
Proof.
  intros Hok Hl Hdst. split.
  - intros (c&r'&E&<-). unfold readBodyChunked in E. rewrite Hdst in E.
    change (0 <? length []) with false in E. cbv iota in E.
    apply readBodyChunked_loop_inv in E as (wire&b&Hch&Hd&Hb&Hm); [|done..].
    rewrite Hdst in Hb. cbn in Hb. subst b. split; [by eauto|]. cbn in Hm.
    destruct Hm as [?|[->|?]]; [by left| |by right]. cbn. lia.
  - intros [(wire&Hch&Hd) Hm].
    destruct (readBodyChunked_ok r maxBodySize dst wire body rest) as (c&r'&E&?&_); by eauto.
Qed.

(** Two chunks, the first with an extension, and the start of what follows. *)
Lemma chunked_body_exact_witness :
  let r := chunked_reader [bs "5;x"; [x0d; x0a] ++ bs "hel"; bs "lo" ++ [x0d; x0a] ++ bs "1" ++ [x0d; x0a];
             bs "!" ++ [x0d; x0a] ++ bs "0" ++ [x0d; x0a] ++ bs "GET"] in
  (∃ wire, chunked wire (bs "hello!") ∧ r_data r = wire ++ bs "GET") ∧
  (6 ≤ 0 ∨ Z.of_nat (length (bs "hello!")) ≤ 6)%Z.
Proof.
  cbv zeta. set (r := chunked_reader _).
  apply (chunked_body_exact r 6 (mkSlice [] 0) (bs "hello!") (bs "GET"));
    [unfold reader_ok; cbn; lia|computed|done|].
  eexists _, _. split; [vm_compute; reflexivity|reflexivity].
Defined.

(** A body of which the end is the end of the connection is read whole within the
    limit; a longer one is refused with [ErrBodyTooLarge], after more than the limit and
    nothing but the start of the body was read. *)
Theorem identity_body_limit r maxBodySize dst :
  reader_ok r → lively r → r_err r = EOF → (0 ≤ sl_cap dst)%Z →
  ∃ b c err r', readBodyIdentity r maxBodySize dst = (mkSlice b c, err, r') ∧
    if decide (maxBodySize ≤ 0 ∨ Z.of_nat (length (r_data r)) ≤ maxBodySize)%Z
    then b = r_data r ∧ err = None ∧ r_data r' = []
    else r_data r = b ++ r_data r' ∧ err = Some ErrBodyTooLarge ∧
         (maxBodySize < Z.of_nat (length b))%Z.
Proof. apply readBodyIdentity_ok. Qed.

Lemma identity_body_limit_witness :
  ∃ c r', readBodyIdentity (chunked_reader [bs "ab"; bs "c"]) 3 (mkSlice [] 1)
          = (mkSlice (bs "abc") c, None, r') ∧ r_data r' = [].
Proof.
  destruct (identity_body_limit (chunked_reader [bs "ab"; bs "c"]) 3 (mkSlice [] 1))
    as (b&c&err&r'&E&Hb); [unfold reader_ok; cbn; lia|computed|done|done|].
  rewrite decide_True in Hb by (right; vm_compute; discriminate). destruct Hb as (->&->&?). by eauto.
Defined.

(** [roundUpForSliceCap], by its five shifts, is the least power of two that is not
    smaller, for every size up to 100 MB; and no size is rounded down. *)
Theorem slice_cap_power_of_two n :
  (n ≤ roundUpForSliceCap n)%Z ∧
  ((0 < n ≤ 100 * 1024 * 1024)%Z →
   roundUpForSliceCap n = (2 ^ Z.log2_up n)%Z ∧
   ∀ k, (0 ≤ k)%Z → (n ≤ 2 ^ k)%Z → (roundUpForSliceCap n ≤ 2 ^ k)%Z).
Proof.
  split; [apply roundUpForSliceCap_ge|]. intros Hn. rewrite roundUpForSliceCap_pow2 by done.
  split; [done|]. intros k Hk Hle. apply Z.pow_le_mono_r; [lia|]. by apply Z.log2_up_le_pow2; [lia|].
Qed.

(** * Body streams *)

Section streams.
Context `{ByteBufferLaws} `{MultipartOps} (errorText : body_error → bytes).

(** C21: reading a body as a stream gives the body that reading it into the buffer gives:
    for a body framed by its length or by chunks, [ReadBodyStream] and then
    [BodyWithError] deliver exactly what [ReadBody] stores, without an error, and both
    leave the connection where the next message starts. *)
Theorem stream_equals_buffer q r maxBodySize wire body rest :
  framed (RequestHeader.ContentLength (rq_Header q)) wire body →
  2 ≤ r_size r → lively r → r_data r = wire ++ rest →
  (0 ≤ maxBodySize)%Z → (maxBodySize = 0 ∨ Z.of_nat (length body) ≤ maxBodySize)%Z →
  RequestHeader.MultipartFormBoundary (rq_Header q) = None →
  rq_maxBodySize q = 0%Z → rq_DiscardUnReadBodyStream q = false → Request.bodyBytes q = [] →
  (∃ q1 r1 q2 r2, Request.ReadBodyStream q r maxBodySize true = (None, q1, r1) ∧
     Request.BodyWithError errorText q1 r1 = (body, None, q2, r2) ∧ r_data r2 = rest) ∧
  (∃ q1 r1, Request.ReadBody q r maxBodySize true = (None, q1, r1) ∧
     Request.bodyBytes q1 = body ∧ r_data r1 = rest).
Proof.
  intros Hf Hsz Hl Hd Hm0 Hm Hmp Hmax Hdis Hb. split; [by eapply ReadBodyStream_framed|].
  destruct Hf as [[Hcl (w&Hch&->)]|[Hcl ->]].
  - rewrite <- app_assoc in Hd.
    destruct (ReadBody_chunks q r maxBodySize true w body rest) as (q1&r1&?&?&_&?);
      [done..|by destruct Hm; [left; lia|right]|]. by eauto.
  - destruct (ReadBody_fixed q r maxBodySize true body rest) as (q1&r1&?&?&_&?&_);
      [unfold reader_ok; lia|done..|by destruct Hm; [left; lia|right]|done|done|]. by eauto.
Qed.

(** A body stream of a fixed length that the connection cuts short ends like a whole
    one: [BodyWithError] returns the bytes that did arrive and no error, although they
    are fewer than the content length announced. *)
Theorem truncated_stream_unnoticed q r rs rem :
  rq_bodyStream q = Some (streamRequest rs) → rq_maxBodySize q = 0%Z →
  rq_DiscardUnReadBodyStream q = false →
  at_fixed [] true (rs, rq_Header q, r) rem →
  (rs_totalBytesRead rs + Z.of_nat (length rem) < RequestHeader.ContentLength (rq_Header q))%Z ∧
  ∃ q' r', Request.BodyWithError errorText q r = (rem, None, q', r') ∧ r_data r' = [].
Proof.
  intros Hst Hmax Hdis Hat. split; [apply Hat|].
  destruct (BodyWithError_delivers errorText _ _ q r (streamRequest rs) rem Hst Hmax Hdis
    (lift_request _ _ (requestStream_fixed_delivers [] true))) as (s'&h'&q'&r'&E&rs'&_&Hq).
  - by exists rs.
  - destruct Hat as (_&_&_&_&p&d&->&Hd&Hp). cbn [stream_size]. rewrite Hd, !length_app. cbn [length].
    destruct Hp as [(_&_&->)|[-> _]]; cbn [length]; lia.
  - intros st (rs'&E&_) src l c Hc. congruence.
  - by eauto.
Qed.
End streams.

Lemma stream_equals_buffer_witness :
  let q := Request_zero <| rq_Header := RequestHeader.SetContentLength sample_head 5 |> in
  let r := chunked_reader [bs "he"; bs "lloGET"] in
  (∃ q1 r1 q2 r2, Request.ReadBodyStream q r 10 true = (None, q1, r1) ∧
     Request.BodyWithError (λ _, []) q1 r1 = (bs "hello", None, q2, r2) ∧ r_data r2 = bs "GET") ∧
  (∃ q1 r1, Request.ReadBody q r 10 true = (None, q1, r1) ∧
     Request.bodyBytes q1 = bs "hello" ∧ r_data r1 = bs "GET").
Proof.
  cbv zeta. apply (stream_equals_buffer (λ _, []) _ _ 10 (bs "hello") (bs "hello") (bs "GET"));
    try done; [by right|cbn; lia|computed|right; vm_compute; discriminate].
Defined.

(** Ten bytes were announced and three arrive. *)
Lemma truncated_stream_unnoticed_witness :
  let q := Request_zero <| rq_Header := RequestHeader.SetContentLength sample_head 10 |>
             <| rq_bodyStream := Some (streamRequest (acquireRequestStream [])) |> in
  ∃ q' r', Request.BodyWithError (λ _, []) q (chunked_reader [bs "abc"]) = (bs "abc", None, q', r') ∧
           r_data r' = [].
Proof.
  cbv zeta. apply (truncated_stream_unnoticed (λ _, []) _ (chunked_reader [bs "abc"])
    (acquireRequestStream []) (bs "abc")); try done.
  split_and!; [unfold reader_ok; cbn; lia|computed|done|done|done|done|].
  exists [], (bs "abc"). split_and!; [done|done|]. right. done.
Defined.

Section streams_end.
Context `{ByteBufferLaws} `{MultipartOps} (errorText : body_error → bytes).

(** With [DiscardUnReadBodyStream], reading a chunked body stream to its end and
    closing it reads past the end: of what follows the message on the connection the
    first byte is gone, unless it is a hexadecimal digit, and the body comes with an
    error although it arrived whole. *)
Theorem discarded_stream_eats_next q r rem c d :
  rq_bodyStream q = Some (streamRequest (acquireRequestStream [])) → rq_maxBodySize q = 0%Z →
  rq_DiscardUnReadBodyStream q = true →
  at_chunks (c :: d) (acquireRequestStream [], rq_Header q, r) rem → ¬ is_hex c →
  ∃ q' r', Request.BodyWithError errorText q r
           = (rem, Some (bodyConv errEmptyHexNum), q', r') ∧ r_data r' = d.
Proof. apply BodyWithError_discard. Qed.

(** What the operations on bodies leave is what they were given: [SetBody] replaces
    the body, [AppendBody] extends the buffered one, [SetBodyRaw] makes the slice the
    body, [ResetBody] empties it, and each of them ends a body stream; appending twice
    is appending once. *)
Theorem body_operations q r b p p' :
  let body s := Request.bodyBytes s in
  body (Request.SetBody q r b).1 = b ∧ rq_bodyStream (Request.SetBody q r b).1 = None ∧
  body (Request.AppendBody q r p).1 = default [] (sl_b <$> rq_body q) ++ p ∧
  rq_bodyStream (Request.AppendBody q r p).1 = None ∧
  body (Request.SetBodyRaw q r (Some b)).1 = b ∧ rq_bodyStream (Request.SetBodyRaw q r (Some b)).1 = None ∧
  body (Request.ResetBody q r).1 = [] ∧ rq_bodyStream (Request.ResetBody q r).1 = None ∧
  (let '(q1, r1) := Request.AppendBody q r p in body (Request.AppendBody q1 r1 p').1)
  = body (Request.AppendBody q r (p ++ p')).1.
Proof.
  cbv zeta. destruct (SetBody_bytes q r b) as [-> ->].
  destruct (AppendBody_bytes q r (p ++ p')) as [-> _].
  destruct (AppendBody_bytes q r p) as [Ha Hs].
  assert (rq_bodyRaw (Request.AppendBody q r p).1 = None) as Hraw.
  { unfold Request.AppendBody. by destruct (Request.dropOtherBodies q r). }
  pose proof (ResetBody_bytes q r) as (Hr1&Hr2&Hr3&_). unfold Request.SetBodyRaw.
  destruct (Request.ResetBody q r) as [q2 r2], (Request.AppendBody q r p) as [q1 r1]. cbn [fst] in *.
  rewrite (proj1 (AppendBody_bytes q1 r1 p')), app_assoc, <- Ha. split_and!; try done. f_equal.
  unfold Request.bodyBytes. rewrite Hraw. by destruct (rq_body q1).
Qed.

(** [CopyTo] gives the copy the body of the original as far as it is in the buffer;
    a raw body survives only where the original has no buffer, and neither the body
    stream nor the timeouts, attempts and retry function of the client are copied. *)
Theorem request_copy_body limit q dst r :
  ∃ d r', Request.CopyTo limit q dst r = Some (d, r') ∧
    Request.bodyBytes d = match rq_body q with Some b => sl_b b | None => Request.bodyBytes q end ∧
    rq_bodyStream d = None ∧ rq_cliInfo d = None.
Proof. apply CopyTo_bytes. Qed.
End streams_end.

Lemma discarded_stream_eats_next_witness :
  let q := Request_zero <| rq_Header := RequestHeader.SetContentLength sample_head (-1) |>
             <| rq_bodyStream := Some (streamRequest (acquireRequestStream [])) |>
             <| rq_DiscardUnReadBodyStream := true |> in
  ∃ q' r', Request.BodyWithError (λ _, []) q
             (chunked_reader [bs "2" ++ strCRLF ++ bs "hi" ++ strCRLF ++ bs "0" ++ strCRLF ++ strCRLF ++ bs "GET"])
           = (bs "hi", Some (bodyConv errEmptyHexNum), q', r') ∧ r_data r' = bs "ET".
Proof.
  cbv zeta. apply (discarded_stream_eats_next (λ _, []) _ _ (bs "hi") "G"%byte); try done; [|computed].
  split_and!; [done|cbn; lia|computed|]. left. split; [done|].
  exists (bs "2" ++ strCRLF ++ bs "hi" ++ strCRLF ++ (bs "0" ++ strCRLF)). split; [|done].
  change (bs "hi") with (bs "hi" ++ []) at 2.
  rewrite (app_assoc (bs "2") strCRLF). apply (chunked_chunk (bs "2" ++ strCRLF) (bs "hi")); [|done|].
  - exists (bs "2"), []. split_and!; try done; [computed|cbn; lia|apply not_elem_of_nil].
  - apply chunked_end. exists (bs "0"), []. split_and!; try done; [computed|cbn; lia|apply not_elem_of_nil].
Defined.

(** * The timer heap *)

Section timer.
Context (NanoTime : nat → Z) (Clean : nat → nat → Z * bool) (minDuration : Z).
Context (Hworld : sane_world NanoTime Clean minDuration).

(** Whatever clients were registered and timers fired before, every item of the heap
    is due no earlier than its parent and so no earlier than the first one, due times
    stay positive and within 64 bits, the counter is the number of items, and the time
    kept for the first item is not later than it. *)
Theorem timer_heap_order cc x :
  rtc (cleaner_step NanoTime Clean) (cleaner_init minDuration) cc → x ∈ cc_items cc →
  heap (cc_items cc) ∧ (at_ (cc_items cc) 0 ≤ when_ x < 2 ^ 63)%Z ∧ (0 < when_ x)%Z ∧
  cc_numItems cc = uint32 (Z.of_nat (length (cc_items cc))) ∧
  (cc_zeroWhen cc ≤ at_ (cc_items cc) 0)%Z.
Proof.
  intros Hr Hx. destruct (cleaner_reachable_ok _ _ _ Hworld cc Hr) as [Hh Hw Hn Hz _ _].
  apply (proj1 (Forall_forall _ _) Hw) in Hx as Hb. pose proof (heap_elem_min _ _ Hh Hx).
  split_and!; try done; [lia..|]. apply Hz. intros E. rewrite E in Hx. by apply not_elem_of_nil in Hx.
Qed.

(** C34: in every reachable state the timer's round ends without a panic; it cleans every
    client that is due, each exactly once, and leaves only items due later; when items
    are left the timer is set again, to fire no later than the first of them is due. *)
Theorem timer_cleans_due cc :
  rtc (cleaner_step NanoTime Clean) (cleaner_init minDuration) cc →
  let now := NanoTime (cc_ticks cc) in
  ∃ cc' cleaned, onTimer NanoTime Clean cc = Some (inl cc') ∧
    Forall (λ x, now < when_ x)%Z (cc_items cc') ∧ cc_log cc' = cc_log cc ++ cleaned ∧
    cleaned ≡ₚ client <$> filter (due now) (cc_items cc) ∧
    (cc_items cc' ≠ [] → ∃ d, cc_timer cc' = Some d ∧ (0 < d ∧ now + d ≤ at_ (cc_items cc') 0)%Z).
Proof.
  intros Hr now. destruct (onTimer_ok _ _ _ Hworld cc) as (cc'&cleaned&?&_&?); [|by exists cc', cleaned].
  by apply (cleaner_reachable_ok _ _ _ Hworld).
Qed.
End timer.

(** A clock that stops at its thousandth reading, and clients that want to be cleaned
    every 10 ticks, the second of them only once. *)
Definition sample_clock (i : nat) : Z := Z.min (Z.of_nat (S i)) 1000.
Definition sample_clean (c _ : nat) : Z * bool := (10%Z, bool_decide (c = 2)).

Lemma sample_world : sane_world sample_clock sample_clean 5.
Proof. split; intros; unfold pause, sample_clock, sample_clean; cbn [fst]; lia. Qed.

(** Two clients registered, due at 3 and 4. *)
Definition sample_cleaner : DurationCleaner :=
  mkCleaner [mkItem 2 3; mkItem 1 4] 3 2 5 4 (Some 0%Z) [].

Lemma sample_cleaner_reachable :
  rtc (cleaner_step sample_clock sample_clean) (cleaner_init 5) sample_cleaner.
Proof.
  eapply rtc_l; [|eapply rtc_once].
  - apply (step_register _ _ _ 1 3); [done|]. vm_compute. reflexivity.
  - apply (step_register _ _ _ 2 0); [done|]. vm_compute. reflexivity.
Qed.

Lemma timer_heap_order_witness :
  heap (cc_items sample_cleaner) ∧ (3 ≤ 4 < 2 ^ 63)%Z.
Proof.
  destruct (timer_heap_order sample_clock sample_clean 5 sample_world sample_cleaner (mkItem 1 4))
    as (?&?&_); [apply sample_cleaner_reachable|by right; left|]. by split.
Defined.

Lemma timer_cleans_due_witness :
  ∃ cc' cleaned, onTimer sample_clock sample_clean sample_cleaner = Some (inl cc') ∧
    Forall (λ x, 5 < when_ x)%Z (cc_items cc') ∧ cc_log cc' = cleaned ∧ cleaned ≡ₚ [2; 1].
Proof.
  destruct (timer_cleans_due sample_clock sample_clean 5 sample_world sample_cleaner
    sample_cleaner_reachable) as (cc'&cleaned&?&?&?&?&_). by exists cc', cleaned.
Defined.

(** A raw body next to an empty buffer is lost, and so is the limit on attempts. *)
Lemma request_copy_body_witness :
  let q := (Request.SetMaxAttempts sample_post 3) <| rq_bodyRaw := Some (bs "raw") |>
             <| rq_body := Some (mkSlice [] 8) |> in
  ∃ d r', Request.CopyTo 0 q Request_zero (chunked_reader []) = Some (d, r') ∧
    Request.bodyBytes q = bs "raw" ∧ Request.bodyBytes d = [] ∧ rq_cliInfo d = None.
Proof.
  cbv zeta. set (q := upd rq_body _ _).
  destruct (request_copy_body 0 q Request_zero (chunked_reader [])) as (d&r'&E&Hb&_&Hc).
  exists d, r'. by split_and!.
Defined.
