(* ===== verification/ClientTheorems.v ===== *)
(** The properties of the clients: the connection pool, its waiters and its cleaner, the
    attempts and redirects of a request, and the hosts of a client. *)

From Stdlib Require Import ZArith Strings.Byte.
From stdpp Require Import prelude strings list gmap.
From S2P Require Import Prelude Tables Bufio Bytesconv Args Uri Headers HeaderScan Body ReqHeader RespHeader Http HttpResp.
From S2P Require Import CookieFacts HeaderFacts ReqFacts ReqRoundtrip HttpFacts HostClient HostClientFacts Client ClientFacts.
From S2P Require Import Theorems HttpTheorems.

(** * The pool *)

Section pool.
Context (maxConns maxIdle wait : Z) (strategy : ConnPoolStrategyType) (addrs : list bytes).

(** C9: whatever the callers, dialers, timeouts and cleaners of a pool do, in any order,
    [connsCount] is the number of connections that are idle, in use, on their way to a
    caller or being closed plus those being dialed; no connection is in two of these
    places or comes back after it was closed; and with a limit on connections there are
    never more than that. *)
Theorem pool_accounting p :
  rtc pool_step (pool_init maxConns maxIdle wait strategy addrs) p →
  hc_connsCount (po_c p) = Z.of_nat (length (all_conns p) + po_dials p + length (hc_dialing (po_c p))) ∧
  NoDup (hc_closed (po_c p) ++ (cc_c <$> all_conns p)) ∧
  ((0 ≤ maxConns)%Z → (hc_connsCount (po_c p) ≤ maxConns)%Z).
Proof.
  intros Hr. destruct (pool_reachable_ok _ _ _ _ _ _ Hr) as [Hc Hu _ _ _ _ Hm].
  assert (hc_maxConns (po_c p) = maxConns) as E by (by apply (reachable_maxConns _ _ _ _ _ _ Hr)).
  split_and!; [done..|]. rewrite <- E. lia.
Qed.

(** C23: none of the pool's operations panics in a state that can be reached: the queue is
    never popped when it is empty, no channel is closed twice, and every operation on a
    connection or a waiter that its caller may use gives a result. *)
Theorem pool_never_panics p :
  rtc pool_step (pool_init maxConns maxIdle wait strategy addrs) p →
  (∀ cc now, is_Some (HostClient.releaseConn (po_c p) cc now)) ∧
  (∀ cc, is_Some (HostClient.closeConn (po_c p) cc)) ∧
  (∀ w, hc_wants (po_c p) !! w = None → is_Some (HostClient.queueForIdle (po_c p) w)) ∧
  (∀ w err, w ∈ procs p → is_Some (HostClient.cancel (po_c p) w err)) ∧
  (procs p ≠ [] → is_Some (HostClient.countTimeout (po_c p))) ∧
  (∀ w ws res now, hc_dialing (po_c p) ≡ₚ w :: ws →
     is_Some (HostClient.dialConnFor ((po_c p) <| hc_dialing := ws |>) w res now)).
Proof. intros Hr. by apply pool_ok_progress, (pool_reachable_ok _ _ _ _ _ _ Hr). Qed.
End pool.

(** A pool of one connection, and the connection. *)
Definition small_pool : Pool := pool_init 1 10 5 FIFO [].
Definition conn1 : clientConn := mkConn 1 0 0.

(** Two callers wait; the timer of the first fires, it is still given the connection that
    is released, cancels and releases it again. *)
Definition starved_pool : Pool :=
  mkPool
    (mkHostClient [mkConn 1 0 8] 1 (Some (mkQueue [None; Some 1] [] 1 1)) true 1 10 5 FIFO [] 0
       {[0 := mkWant (Some ErrNoFreeConns) true None; 1 := newWantConn]} [] [] 1)
    [] 0 0 [1] [] [] [].

Ltac by_computation := vm_compute; reflexivity.

Lemma starved_pool_reachable : rtc pool_step small_pool starved_pool.
Proof.
  eapply rtc_l; [eapply (acquire_create _ false); by_computation|].
  eapply rtc_l; [eapply (dial_ok _ 0 conn1); [done|apply not_elem_of_nil]|].
  eapply rtc_l; [eapply (acquire_none _ false); [by_computation|done]|].
  eapply rtc_l; [eapply (queue_up _ 0 0); [done|by_computation|by_computation]|].
  eapply rtc_l; [eapply (acquire_none _ false); [by_computation|done]|].
  eapply rtc_l; [eapply (queue_up _ 0 1); [done|by_computation|by_computation]|].
  eapply rtc_l; [eapply (timer_fires _ 0 [1]); [apply perm_swap|done|by_computation]|].
  eapply rtc_l; [eapply (release _ conn1 [] 7); [done|by_computation]|].
  eapply rtc_l; [eapply (cancel_waiter _ 0 []); [done|by_computation]|].
  eapply rtc_l; [eapply (release_held _ (mkConn 1 0 7) [] 8); [done|by_computation]|].
  apply rtc_refl.
Qed.

Lemma pool_accounting_witness :
  hc_connsCount (po_c starved_pool) = 1%Z ∧ (0 ≤ 1 → hc_connsCount (po_c starved_pool) ≤ 1)%Z.
Proof.
  destruct (pool_accounting 1 10 5 FIFO [] starved_pool starved_pool_reachable) as (H1&_&H3). by split.
Defined.

Lemma pool_never_panics_witness : is_Some (HostClient.releaseConn (po_c starved_pool) conn1 9).
Proof. apply (pool_never_panics 1 10 5 FIFO [] starved_pool starved_pool_reachable). Defined.

(** C37: a waiter can starve next to an idle connection: there is a reachable state in which
    one caller waits, the pool's only connection is idle, nothing else is under way, and
    the queue, which holds that caller, counts as empty; another release would not
    wake the caller either. *)
Theorem waiter_starves :
  ∃ p w want q, rtc pool_step (pool_init 1 10 5 FIFO []) p ∧
    po_waiters p = [w] ∧ hc_wants (po_c p) !! w = Some want ∧ waiting want = true ∧
    hc_connsWait (po_c p) = Some q ∧ queue_is q [w] ∧ (wantConnQueue.len q ≤ 0)%Z ∧
    length (hc_conns (po_c p)) = 1 ∧ po_inUse p = [] ∧ po_dials p = 0 ∧ hc_dialing (po_c p) = [] ∧
    po_wanting p = 0 ∧ po_timedOut p = [] ∧ po_held p = [] ∧ po_closing p = [] ∧
    ∀ cc now c, HostClient.releaseConn (po_c p) cc now = Some c → hc_wants c !! w = Some want.
Proof.
  exists starved_pool, 1, newWantConn, (mkQueue [None; Some 1] [] 1 1).
  split; [apply starved_pool_reachable|]. split_and!; try done; [by exists [1]; cbn; auto with lia|].
  intros cc now c Hr. cbv in Hr. by injection Hr as <-.
Qed.

(** The queue of waiters, two slices of which the first is consumed from the front, is
    a first-in first-out list: it starts empty, [pushBack] appends, [popFront] takes the
    first or reports that there is none, [peekFront] shows it, and [len] is the length of
    the list less the waiters counted as gone. *)
Theorem queue_refines_list q l w :
  queue_is wantConnQueue.zero [] ∧
  (queue_is q l →
   queue_is (wantConnQueue.pushBack q w) (l ++ [w]) ∧
   wantConnQueue.peekFront q = l !! 0 ∧
   wantConnQueue.len q = (Z.of_nat (length l) - q_failedWaiters q)%Z ∧
   match l with
   | [] => wantConnQueue.popFront q = (None, q)
   | x :: l' => ∃ q', wantConnQueue.popFront q = (Some x, q') ∧ queue_is q' l'
   end).
Proof.
  split; [apply zero_is|]. intros Hq. split_and!.
  - by apply pushBack_is.
  - rewrite (peekFront_is q l Hq). by destruct l.
  - by apply len_is.
  - destruct l as [|x l]; [by apply popFront_nil|].
    destruct (popFront_cons q x l Hq) as (q'&?&?&_). by exists q'.
Qed.

(** As long as the waiters that are gone are counted exactly, a released connection
    goes to the oldest caller that still waits: those before it that are gone are dropped
    and the idle connections stay as they are. *)
Theorem release_serves_oldest c cc now q dead w l :
  map_Forall (λ _, want_ok) (hc_wants c) →
  hc_waitFreeConnTimeout c ≠ 0%Z → hc_connsWait c = Some q → queue_is q (dead ++ w :: l) →
  stored (hc_wants c) (dead ++ w :: l) → Forall (gone (hc_wants c)) dead → ¬ gone (hc_wants c) w →
  q_failedWaiters q = Z.of_nat (length (filter (gone (hc_wants c)) (dead ++ w :: l))) →
  ∃ c' q', HostClient.releaseConn c cc now = Some c' ∧ hc_conns c' = hc_conns c ∧
    hc_wants c' !! w = Some (mkWant None true (Some (used cc now))) ∧
    hc_connsWait c' = Some q' ∧ queue_is q' l.
Proof. apply releaseConn_oldest. Qed.

(** Three callers queued, the first of them gone. *)
Definition queued_client : HostClient :=
  mkHostClient [] 1 (Some (mkQueue [] [0; 1; 2] 0 1)) true 1 10 5 FIFO [] 0
    {[0 := mkWant (Some ErrNoFreeConns) true None; 1 := newWantConn; 2 := newWantConn]} [] [] 1.

Lemma release_serves_oldest_witness :
  ∃ c' q', HostClient.releaseConn queued_client conn1 3 = Some c' ∧ hc_conns c' = [] ∧
    hc_wants c' !! 1 = Some (mkWant None true (Some (used conn1 3))) ∧
    hc_connsWait c' = Some q' ∧ queue_is q' [2].
Proof.
  apply (release_serves_oldest queued_client conn1 3 (mkQueue [] [0; 1; 2] 0 1) [0] 1 [2]); try done.
  - intros w want Hw. cbn [hc_wants queued_client] in Hw. apply lookup_insert_Some in Hw as [[_ <-]|[_ Hw]]; [split; cbn; [done|by intros []]|].
    apply lookup_insert_Some in Hw as [[_ <-]|[_ Hw]]; [by split|].
    apply lookup_singleton_Some in Hw as [_ <-]. by split.
  - by exists [].
  - repeat constructor; by eexists.
  - repeat constructor.
Defined.

(** The cleaner of a pool whose idle connections are in the order of their last use
    closes exactly those that were idle for longer than the limit, found by binary
    search, and leaves the others in their order; but the pause it asks for when it
    leaves connections open is never positive. *)
Theorem clean_closes_expired c now now2 procs timedOut :
  waiting_ok c procs timedOut → oldest_first (hc_conns c) → in_range now (hc_conns c) →
  let maxIdle := hc_maxIdleConnDuration c in
  ∃ sleep stop c', HostClient.Clean c now now2 = Some (sleep, stop, c') ∧
    hc_conns c' = filter (λ cc, ¬ expired now maxIdle cc) (hc_conns c) ∧
    hc_closed c' = hc_closed c ++ (cc_c <$> filter (expired now maxIdle) (hc_conns c)) ∧
    ((now ≤ now2)%Z → in_range now2 (hc_conns c) → (0 ≤ maxIdle < 2 ^ 63)%Z →
     hc_conns c' ≠ [] → (sleep ≤ 0)%Z).
Proof. apply Clean_ok. Qed.

Lemma clean_closes_expired_witness :
  let c := mkHostClient [mkConn 1 0 2; mkConn 2 0 3; mkConn 3 0 9] 3 None true 5 5 0 FIFO [] 0 ∅ [] [] 1 in
  ∃ sleep stop c', HostClient.Clean c 10 10 = Some (sleep, stop, c') ∧
    hc_conns c' = [mkConn 3 0 9] ∧ hc_closed c' = [1; 2].
Proof.
  cbv zeta. destruct (clean_closes_expired
    (mkHostClient [mkConn 1 0 2; mkConn 2 0 3; mkConn 3 0 9] 3 None true 5 5 0 FIFO [] 0 ∅ [] [] 1)
    10 10 [] []) as (sleep&stop&c'&?&?&?&_).
  - split; [done|]. exists []. split_and!; [apply zero_is|constructor|by intros ? ?%not_elem_of_nil|done].
  - intros [|[|[|i]]] [|[|[|j]]] x y Hx Hy Hij; simplify_eq/=; lia.
  - repeat constructor; cbn; lia.
  - by exists sleep, stop, c'.
Defined.

Lemma queue_refines_list_witness :
  ∃ q', wantConnQueue.popFront (mkQueue [None; Some 4] [6] 1 0) = (Some 4, q') ∧ queue_is q' [6].
Proof.
  assert (queue_is (mkQueue [None; Some 4] [6] 1 0) [4; 6]) as Hq by (exists [4]; cbn; auto with lia).
  apply (proj2 (queue_refines_list (mkQueue [None; Some 4] [6] 1 0) [4; 6] 5) Hq).
Defined.

(** * Attempts *)

Section attempts.
Context {W : Type} (now : W → Z * W) (sleep : W → Z → W).

(** C35: [Do] always returns, whatever the transport answers, the clock shows and the retry
    function decides: after at most as many attempts as the request, or else the client,
    allows, and at most one when the body is a stream; it returns the timeout error when
    it did not come to an attempt, never a bare end of file, and the request has its
    timeout back. *)
Theorem do_attempts_bounded do_ hc w req resp :
  ∃ err n w' req' resp',
    Do (counted_now now) (counted_sleep sleep) (counted do_) hc (0, w) req resp = Some (err, (n, w'), req', resp') ∧
    (Z.of_nat n ≤ Z.max 1 (max_attempts hc req))%Z ∧ (Request.IsBodyStream req = true → n ≤ 1) ∧
    (n = 0 → err = Some (bodyClient ErrTimeout)) ∧ rq_timeout req' = rq_timeout req ∧ err ≠ Some (bodyIO EOF).
Proof. apply Do_bound. Qed.

(** Without a retry function in the client's configuration, whether a failed request is
    sent again depends on its method alone: neither the retry function of the request nor
    what the transport says about retrying (which is not to, after a body that is too
    large) has a say. A GET, HEAD or PUT is repeated to the limit, anything else is not. *)
Theorem retry_decisions_ignored (b : bool) (e : body_error) hc w req resp :
  cf_RetryIf hc = None → (rq_timeout req ≤ 0)%Z → Request.IsBodyStream req = false → e ≠ bodyIO EOF →
  let n := if isIdempotent req then Z.to_nat (Z.max 1 (max_attempts hc req)) else 1 in
  Do (counted_now now) (counted_sleep sleep) (counted (failing b e)) hc (0, w) req resp
  = Some (Some e, (n, w), req, resp).
Proof.
  intros Hr Ht Hs He n. unfold Do. fold (max_attempts hc req).
  destruct (Z.gtb_spec (rq_timeout req) 0); [lia|]. rewrite Hs.
  rewrite (Do_loop_failing now sleep b e) by (done || unfold attempts_left; lia).
  cbn [mbind option_bind]. rewrite bool_decide_false by congruence.
  unfold attempts_left, n. rewrite Z.sub_0_r. by destruct req.
Qed.
End attempts.

Definition sample_config : Config :=
  mkConfig 0 0 0 0 0 0 0 3 None 0 0 0 [] (Some FIFO) [] false false false false false false false.

(** A POST with a retry function that always wants another attempt is sent once, and a GET
    of which the response is too large three times. *)
Lemma retry_decisions_ignored_witness :
  let now (_ : unit) := (0%Z, tt) in
  let sleep (_ : unit) (_ : Z) := tt in
  let post := Request.SetRetryIf (Request_zero <| rq_Header := RequestHeader.SetMethod RequestHeader_zero (bs "POST") |>)
                (Some (λ _ _, (0%Z, false, true))) in
  Do (counted_now now) (counted_sleep sleep) (counted (failing true ErrNoProgress)) sample_config (0, tt) post Response_zero
  = Some (Some ErrNoProgress, (1, tt), post, Response_zero) ∧
  Do (counted_now now) (counted_sleep sleep) (counted (failing false ErrBodyTooLarge)) sample_config (0, tt)
    Request_zero Response_zero
  = Some (Some ErrBodyTooLarge, (3, tt), Request_zero, Response_zero).
Proof.
  cbv zeta. split.
  - by apply (retry_decisions_ignored _ _ true ErrNoProgress sample_config tt).
  - by apply (retry_decisions_ignored _ _ false ErrBodyTooLarge sample_config tt).
Defined.

(** * Redirects *)

(** Following redirects ends: whatever the servers answer, a client that does not check
    hosts makes at most one request more than the limit on redirects, and returns. *)
Theorem redirects_bounded {W} (do_ : W → Request → Response → option body_error * W * Request * Response)
    w req resp url maxRedirects :
  ∃ code err n w' req' resp',
    doRequestFollowRedirects (counted_Do do_) false (0, w) req resp url maxRedirects
    = Some (code, err, (n, w'), req', resp') ∧
    (Z.of_nat n ≤ Z.max 0 maxRedirects + 1)%Z.
Proof.
  destruct (follow_loop_bound do_ (S (S (Z.to_nat maxRedirects))) maxRedirects 0 url 0 (0, w) req resp)
    as (code&err&n'&w'&req'&resp'&E&Hn); [unfold redirects_left; lia|].
  exists code, err, n', w', req', resp'. split; [exact E|]. unfold redirects_left in Hn. cbn in Hn. lia.
Qed.

(** The check that a redirect of a host client stays on its host is weaker than that:
    it accepts another host whose name is a prefix of the old one, and another scheme of
    the same length, since the old scheme is read from the buffer the new one was written
    to. A longer scheme and a host that is no prefix are refused. *)
Theorem redirect_check_too_weak :
  getRedirectURL (bs "http://example.com/a") (bs "http://example.co/b") false true
  = Some (inl (bs "http://example.co/b")) ∧
  getRedirectURL (bs "http://example.com/a") (bs "ldap://example.com/b") false true
  = Some (inl (bs "ldap://example.com/b")) ∧
  getRedirectURL (bs "http://example.com/a") (bs "https://example.com/b") false true
  = Some (inr ErrHostClientRedirectToDifferentScheme) ∧
  getRedirectURL (bs "http://example.com/a") (bs "http://example.org/b") false true
  = Some (inr ErrHostClientRedirectToDifferentHost).
Proof. by vm_compute. Qed.

(** * Exchanges *)

Section exchange.
Context `{ByteBufferLaws} `{MultipartOps}.


(** C20: the bytes an exchange puts on its connection are the request: a server that reads
    them with [ReadLimit], in whatever pieces they arrive, gets the header that was sent
    and exactly the payload. *)
Theorem exchange_delivers_request hc env cc req resp q0 rs maxBodySize :
  sendable req → plain (sent_header req) →
  ev_acquired env = inl cc → ev_room env = None → ev_setWriteDeadline env = None →
  (cf_MaxConnDuration hc ≤ 0)%Z →
  normal (rq_Header q0) → cookies_ok (q_cookies (rq_Header q0)) →
  rq_bodyStream q0 = None → rq_StreamBody q0 = false → lively rs →
  r_data rs = w_out (RoundTrip hc env req resp).1.1.2 →
  length (RequestHeader.AppendBytes (sent_header req) []) ≤ r_size rs →
  (maxBodySize ≤ 0 ∨ Z.of_nat (length (payload req)) ≤ maxBodySize)%Z →
  ∃ q1 r1, Request.ReadLimit q0 rs maxBodySize = (None, q1, r1) ∧
    same_request (sent_header req) (rq_Header q1) ∧ Request.bodyBytes q1 = payload req ∧ r_data r1 = [].
Proof.
  intros Hs Hp Ha Hroom Hswd Hdur Hn Hc Hst Hsb Hl Hd Hsz Hm.
  assert (w_out (RoundTrip hc env req resp).1.1.2
    = RequestHeader.AppendBytes (sent_header req) [] ++ payload req) as Hw.
  { unfold RoundTrip. rewrite Ha, Hswd, Hroom.
    destruct (Z.gtb_spec (cf_MaxConnDuration hc) 0); [lia|]. cbn [andb].
    destruct (Write_sent req (ev_reader env) Hs) as [q' ->].
    match goal with |- context [if ?b then @None body_error else None] => replace (if b then @None body_error else None)
      with (@None body_error) by (by destruct b) end.
    destruct (ev_flush env) as [e|]; [done|].
    match goal with |- context [if ?b then ev_setReadDeadline env else None] =>
      destruct (if b then ev_setReadDeadline env else None); [done|] end.
    destruct (Response.ReadLimitIfClose _ _ _) as [[[close [e|]] resp4] r4]; [done|].
    by destruct (re_StreamBody resp && _). }
  apply (ReadLimit_sent req q0 rs [] maxBodySize); try done. by rewrite app_nil_r, Hd, Hw.
Qed.
End exchange.

#[local] Existing Instance sample_buffers.
#[local] Existing Instance sample_buffers_laws.
#[local] Existing Instance sample_forms.

(** The server answers with two bytes and keeps the connection. *)
Definition sample_env : exchange_env :=
  mkEnv (inl conn1) (bs "1.2.3.4:80") (bs "5.6.7.8:1234") None None None None None
    (chunked_reader [crlf (bs <$> ["HTTP/1.1 200 OK"; "Content-Length: 2"; ""]) ++ bs "ok"]) 0 (λ _, false).


Lemma exchange_delivers_request_witness :
  let wire := w_out (RoundTrip sample_config sample_env sample_post Response_zero).1.1.2 in
  ∃ q1 r1, Request.ReadLimit Request_zero (chunked_reader [take 30 wire; drop 30 wire]) 0 = (None, q1, r1) ∧
    same_request (sent_header sample_post) (rq_Header q1) ∧ Request.bodyBytes q1 = bs "hello" ∧ r_data r1 = [].
Proof.
  cbv zeta. set (rs := chunked_reader _).
  apply (exchange_delivers_request sample_config sample_env conn1 sample_post Response_zero Request_zero rs 0);
    try done.
  - apply sample_post_sendable.
  - split; [computed|by_computation].
  - computed.
  - computed.
  - apply Nat.leb_le. by_computation.
  - by left.
Defined.

(** * The hosts of a client *)

(** Cleaning a client drops exactly the hosts without connections and requests, of both
    schemes, and asks to stop when there is no host left; the client's own period is at
    least a second. *)
Theorem client_clean_drops_idle c du stop c' host isTLS hc :
  Client.Clean c = (du, stop, c') →
  (second ≤ du)%Z ∧
  (Client.HostClient c' host isTLS = Some hc ↔
   Client.HostClient c host isTLS = Some hc ∧ Client.idleHost hc = false) ∧
  (stop = true ↔ Client.hosts c' false = ∅ ∧ Client.hosts c' true = ∅).
Proof.
  intros E. unfold Client.Clean in E. injection E as <- <- <-. split_and!.
  - repeat case_match; unfold DefaultMaxIdleConnDuration, second in *; lia.
  - unfold Client.HostClient, Client.hosts, Client.cleanMap.
    destruct isTLS; cbn; [destruct (cl_ms c)|destruct (cl_m c)]; cbn; rewrite ?map_lookup_filter_Some, ?lookup_empty;
      naive_solver.
  - rewrite andb_true_iff, !bool_decide_eq_true. done.
Qed.

(** A client is given to the cleaner again although it is there already: when cleaning
    leaves a host, so that the cleaner keeps the client, the next new host registers the
    client once more. *)
Theorem client_registered_again c du c' host isTLS :
  Client.Clean c = (du, false, c') → Client.HostClient c' host isTLS = None →
  (0 ≤ cf_MaxIdleConnDuration (cl_config c))%Z → is_Some (cf_ConnPoolStrategy (cl_config c)) →
  cl_registered (Client.createHostClient None c' host isTLS).2 = S (cl_registered c).
Proof.
  intros E Hnone Hdur [strat Hstrat]. unfold Client.Clean in E. injection E as _ _ <-. set (c' := mkClient _ _ _ _ _) in *.
  unfold Client.createHostClient.
  assert (Client.hosts (Client.init c') isTLS !! host = None) as ->.
  { rewrite <- Hnone. unfold Client.HostClient, Client.hosts, Client.init. by destruct isTLS. }
  set (c1 := upd cl_config _ _). destruct (NewHostClient (cl_config c1)) as [hc err] eqn:En.
  assert (err = None) as ->.
  { apply (f_equal snd) in En. cbn [snd] in En. rewrite <- En. apply NewHostClient_ok.
    change (cf_ConnPoolStrategy (cl_config c1)) with (cf_ConnPoolStrategy (cl_config c)). by rewrite Hstrat. }
  cbn [snd]. unfold Client.startCleaner. change (cl_cleanStart c1) with false.
  change (cf_MaxIdleConnDuration (cl_config c1)) with (cf_MaxIdleConnDuration (cl_config c)).
  destruct (Z.leb_spec 0 (cf_MaxIdleConnDuration (cl_config c))); [|lia]. cbn [negb andb]. by destruct isTLS.
Qed.

(** One host with a connection and one without. *)
Definition sample_host (conns : Z) : HostSettings :=
  mkSettings sample_config 4096 0 (mkHostClient [] conns None true 512 10 0 FIFO [] 0 ∅ [] [] 1) 0 0.

Definition sample_client : Client :=
  mkClient sample_config (Some {[bs "a" := sample_host 1; bs "b" := sample_host 0]}) (Some ∅) true 1.

Lemma client_clean_drops_idle_witness :
  let '(du, stop, c') := Client.Clean sample_client in
  Client.HostClient c' (bs "a") false = Some (sample_host 1) ∧
  Client.HostClient c' (bs "b") false ≠ Some (sample_host 0).
Proof.
  destruct (Client.Clean sample_client) as [[du stop] c'] eqn:E. split.
  - by apply (client_clean_drops_idle sample_client du stop c' (bs "a") false (sample_host 1) E).
  - rewrite (proj1 (proj2 (client_clean_drops_idle sample_client du stop c' (bs "b") false (sample_host 0) E))).
    by intros [_ ?].
Defined.

Lemma client_registered_again_witness :
  let '(_, _, c') := Client.Clean sample_client in
  cl_registered (Client.createHostClient None c' (bs "c") false).2 = 2.
Proof.
  destruct (Client.Clean sample_client) as [[du stop] c'] eqn:E.
  assert (stop = false) as ->.
  { trans (Client.Clean sample_client).1.2; [by rewrite E|]. by_computation. }
  apply (client_registered_again sample_client du c' (bs "c") false E); [|done|by eexists].
  trans (Client.HostClient (Client.Clean sample_client).2 (bs "c") false); [by rewrite E|]. by_computation.
Defined.
