(* ===== verification/ServerTheorems.v ===== *)
(** The properties of the server: the life of a connection, the limits and counters around
    it, the pool of workers, the values attached to a request, and the load balancer. *)

From Stdlib Require Import ZArith Strings.Byte.
From stdpp Require Import prelude strings list gmap numbers fin_maps.
From S2P Require Import Prelude Tables Bufio Bytesconv UserData PerIP WorkerPool WorkerPoolFacts LbClient.
From S2P Require Import Args Uri Headers HeaderScan Body ReqHeader RespHeader HeaderFacts ReqFacts ReqRoundtrip Http HttpFacts HttpResp.
From S2P Require Import RequestCtx Server ServerFacts ServerClose ServerPipeline Serving ServingFacts Theorems HttpTheorems.

(** * A connection *)

Section connection.
Context `{ByteBufferLaws} `{MultipartOps} (requestLimit responseLimit : Z) (serverDate : bytes).
Context (s : Server) (env : serve_env).

(** C2: on a connection that carries any number of well-formed requests one after the other,
    cut into pieces in any way, a server with a handler that answers from memory calls the
    handler once for every request, in their order and numbered from 1, each time with the
    header and the payload that were sent; the peer gets the responses of the handler, in the
    same order and nothing else; and the end of the connection is not an error. *)
Theorem pipeline_served c qs rounds :
  plain_server s env → in_memory env → Forall (deliverable s) qs → qs ≠ [] → carries c qs →
  length qs < rounds →
  ∃ c' keep, serveConn requestLimit responseLimit serverDate s env rounds c = servedConn None c' keep ∧
    (handled (cn_log c')).*1 = seqZ 1 (Z.of_nat (length qs)) ∧
    Forall3 (λ q nz resp,
        same_request (sent_header q) (rq_Header (cx_Request nz.2)) ∧
        Request.bodyBytes (cx_Request nz.2) = payload q ∧
        ∃ y r, se_handler env nz.1 nz.2 r = (y, r) ∧ resp = printed serverDate s env nz.1 y)
      qs (handled (cn_log c')) (responses (cn_log c')) ∧
    wire (cn_log c') = concat (responses (cn_log c')).
Proof.
  intros Hs Hh Hqs Hne Hc Hr.
  destruct (serveConn_pipeline requestLimit responseLimit serverDate s env Hs c qs rounds Hr Hh Hqs Hne Hc)
    as (c'&keep&E&Hf&Hn&Hw).
  exists c', keep. split_and!; [done|done| |done]. eapply Forall3_impl; [done|].
  intros q nz resp (?&?&_&?). done.
Qed.


(** C18: no request is handled on a connection after one that asked for it to be closed, or when
    keep-alive is disabled after any other. *)
Theorem closing_request_last rounds c zs z :
  cn_log c = [] →
  handled (trace (serveConn requestLimit responseLimit serverDate s env rounds c)) = zs ++ [z] →
  Forall (λ nz, sv_DisableKeepalive s || RequestHeader.ConnectionClose (rq_Header (cx_Request nz.2)) = false) zs.
Proof. apply serveConn_close. Qed.
End connection.

#[local] Existing Instance sample_buffers.
#[local] Existing Instance sample_buffers_laws.
#[local] Existing Instance sample_forms.

Definition sample_server : Server :=
  mkServer false None None [] 0 0 0 0 0 0 0 0 false false false false false false false false false false false
    false false.

(** A handler that sends the body of the request back. *)
Definition echo (n : Z) (x : RequestCtx) (r : Reader) : RequestCtx * Reader :=
  (x <| cx_Response := (cx_Response x) <| re_bodyRaw := Some (Request.bodyBytes (cx_Request x)) |> |>, r).

Definition sample_serving : serve_env :=
  mkServeEnv echo (λ _, None) (λ _, quickNothing) (λ _, false) (λ n, n) 1 (None, None) None (λ _, None).

Lemma sample_plain : plain_server sample_server sample_serving.
Proof. by constructor. Qed.

Lemma echo_in_memory : in_memory sample_serving.
Proof. intros n x r []. eexists. split; [reflexivity|]. by constructor. Qed.

Lemma sample_deliverable : deliverable sample_server sample_post.
Proof.
  constructor; try (vm_compute; reflexivity); [apply sample_post_sendable|..].
  - split; [computed|vm_compute; reflexivity].
  - apply Nat.leb_le. vm_compute. reflexivity.
  - vm_compute. discriminate.
Qed.

(** Three requests, cut in the middle of the second. *)
Definition sample_conn : Conn :=
  let data := concat (request_wire <$> [sample_post; sample_post; sample_post]) in
  mkConn (mkReader [] [take 100 data; drop 100 data] EOF 16 None) false [] [] [].

Lemma sample_carries : carries sample_conn [sample_post; sample_post; sample_post].
Proof. constructor; first [computed | vm_compute; reflexivity]. Qed.

Lemma pipeline_served_witness :
  ∃ c' keep, serveConn 0 0 (bs "now") sample_server sample_serving 4 sample_conn = servedConn None c' keep ∧
    (handled (cn_log c')).*1 = [1; 2; 3]%Z.
Proof.
  destruct (pipeline_served 0 0 (bs "now") sample_server sample_serving sample_conn
    [sample_post; sample_post; sample_post] 4 sample_plain echo_in_memory) as (c'&keep&E&Hn&_).
  - do 3 (apply Forall_cons_2; [exact sample_deliverable|]). apply Forall_nil_2.
  - done.
  - apply sample_carries.
  - cbn. lia.
  - exists c', keep. split; [exact E|]. rewrite Hn. reflexivity.
Defined.


Definition closing_post : Request :=
  sample_post <| rq_Header := RequestHeader.SetConnectionClose (rq_Header sample_post) |>.

(** The second of three requests asks for the connection to be closed. *)
Definition closing_conn : Conn :=
  mkConn (mkReader [] [concat (request_wire <$> [sample_post; closing_post; sample_post])] EOF 16 None) false [] [] [].

Lemma length_two {A} (l : list A) : length l = 2 → ∃ x y, l = [x; y].
Proof. destruct l as [|x [|y [|]]]; try done. eauto. Qed.

Lemma closing_request_last_witness :
  ∃ z1 z2, handled (trace (serveConn 0 0 (bs "now") sample_server sample_serving 4 closing_conn)) = [z1; z2] ∧
    Forall (λ nz, sv_DisableKeepalive sample_server
                  || RequestHeader.ConnectionClose (rq_Header (cx_Request nz.2)) = false) [z1].
Proof.
  assert (length (handled (trace (serveConn 0 0 (bs "now") sample_server sample_serving 4 closing_conn))) = 2) as Hl
    by (vm_compute; reflexivity).
  apply length_two in Hl as (z1&z2&E). exists z1, z2. split; [exact E|].
  apply (closing_request_last 0 0 (bs "now") sample_server sample_serving 4 closing_conn [z1] z2 eq_refl E).
Defined.

(** * Serving connections *)

(** C16: a call of [ServeConn] gives a result whenever the connection loop ends, and leaves the
    counters of open and concurrent connections and the table of connections as it found
    them, whether the connection was refused for its address or for the concurrency limit,
    was served to its end, or was hijacked. Unless it was hijacked it is closed exactly once,
    and its address is not counted any more. *)
Theorem serve_conn_balanced `{ByteBufferOps} `{MultipartOps} requestLimit responseLimit serverDate s rle env
    st c addr tls w now errc rounds conn err conn' keep :
  counted st → in_width st → sc_conns st !! bareConn c = None → sc_conns st !! ipConn w = None →
  serveConn requestLimit responseLimit serverDate s env rounds conn = servedConn err conn' keep →
  ∃ err' st' oc,
    ServeConn requestLimit responseLimit serverDate s rle env st c addr tls w now errc rounds conn
    = Some (err', st', oc) ∧
    sc_open st' = sc_open st ∧ sc_concurrency st' = sc_concurrency st ∧ sc_conns st' = sc_conns st ∧
    (oc = None ∨ err ≠ Some errHijacked →
       (∀ ip, perIP_count (sc_counter st') ip = perIP_count (sc_counter st) ip) ∧
       closed (sc_calls st') = closed (sc_calls st) ++ [c]) ∧
    (oc ≠ None ∧ err = Some errHijacked → err' = None ∧ closed (sc_calls st') = closed (sc_calls st)).
Proof.
  intros Hc Hw Hb Hi E.
  destruct (ServeConn_balanced s rle requestLimit responseLimit serverDate env st c addr tls w now errc rounds conn
    err conn' keep Hc Hw Hb Hi E) as (err'&st'&oc&?&[= ? ?]&?). by exists err', st', oc.
Qed.


(** A shutdown closes the idle connections whose time is over, and only these. *)
Theorem shutdown_closes_idle st now st' :
  closeIdleConns st now = Some st' →
  sc_conns st' = filter (λ ccs, ¬ expired now ccs.2) (sc_conns st) ∧
  closed (sc_calls st') = closed (sc_calls st) ++ idle_ids st now (map_to_list (sc_conns st)) ∧
  sc_open st' = sc_open st.
Proof. intros E. by destruct (closeIdleConns_spec _ _ _ E) as ([= ? _]&?&?). Qed.

(** C40: a connection counted for its address that a shutdown closed is closed again when its
    service ends, and that panics: the wrapper is nil after the first close. *)
Theorem shutdown_closes_twice s st now st' w cs err errc now' :
  closeIdleConns st now = Some st' → sc_conns st !! ipConn w = Some cs → expired now cs = true →
  err ≠ Some errHijacked → endServe s st' (ipConn w) err errc now' = None.
Proof.
  intros E Hc He Hne. unfold endServe. rewrite bool_decide_false by done.
  rewrite closeNetConn_nil; [done|]. exact (closeIdleConns_gone _ _ _ _ _ E Hc He).
Qed.

(** A limit of one connection per address. *)
Definition limited_server : Server := sample_server <| sv_MaxConnsPerIP := 1%Z |>.

Definition localhost : netAddr := TCPAddr [x7f; x00; x00; x01].

Lemma serve_conn_balanced_witness :
  ∃ err' st' oc, ServeConn 0 0 (bs "now") limited_server None sample_serving connServer_init 7 localhost false 3
      (0, 9)%Z None 4 sample_conn = Some (err', st', oc) ∧ sc_open st' = 0%Z ∧ sc_conns st' = ∅.
Proof.
  assert (match serveConn 0 0 (bs "now") limited_server sample_serving 4 sample_conn with
          | servedConn _ _ _ => True | _ => False end) as Hs by (vm_compute; exact I).
  destruct (serveConn 0 0 (bs "now") limited_server sample_serving 4 sample_conn) as [err c' keep| |] eqn:E;
    [|destruct Hs|destruct Hs].
  destruct (serve_conn_balanced 0 0 (bs "now") limited_server None sample_serving connServer_init 7 localhost
    false 3 (0, 9)%Z None 4 sample_conn err c' keep) as (err'&st'&oc&E'&Ho&_&Hc&_).
  - intros ip. unfold perIP_count. cbn. by rewrite lookup_empty.
  - split; vm_compute; reflexivity.
  - apply lookup_empty.
  - apply lookup_empty.
  - exact E.
  - exists err', st', oc. split; [exact E'|]. split; [exact Ho|exact Hc].
Defined.

(** One connection of an address is let in, a second one is refused. *)
Definition one_served : connServer :=
  match beginServe limited_server None connServer_init 7 localhost false 3 0 with
  | Some (_, st) => st
  | None => connServer_init
  end.



(** Ten seconds later it is still idle. *)
Definition shut : connServer := default one_served (closeIdleConns one_served 10000000000).

Lemma shutdown_closes_idle_witness :
  sc_conns shut = filter (λ ccs, ¬ expired 10000000000 ccs.2) (sc_conns one_served) ∧ closed (sc_calls shut) = [7].
Proof.
  destruct (shutdown_closes_idle one_served 10000000000 shut) as (E1&E2&_); [vm_compute; reflexivity|].
  split; [exact E1|]. rewrite E2. vm_compute. reflexivity.
Defined.

Lemma shutdown_closes_twice_witness : endServe limited_server shut (ipConn 3) None None 11000000000 = None.
Proof.
  apply (shutdown_closes_twice limited_server one_served 10000000000 shut 3
    (mkConnStatus StateIdle 5000000000 0)); [vm_compute; reflexivity|vm_compute; reflexivity|done|done].
Defined.

(** * The pool of workers *)

Section workers.
Context (threshold : Z → CleanThresholdFunc) (chanCap : nat) (maxWorkers maxIdle : Z) (logAll : bool).


(** C14: a worker pool cannot get stuck: in every reachable state some worker can take a step
    unless all of them wait for work; without new connections this is reached after a number
    of steps bounded by the work left; and then every accepted connection was closed or
    handed over, as often as it was accepted. No send to a worker blocks. *)
Theorem worker_pool_progress s :
  rtc (workers_step threshold chanCap) (workers_init maxWorkers maxIdle logAll) s →
  (quiescent s ∨ ∃ s', worker_step chanCap s s') ∧
  (∀ n s', nsteps (worker_step chanCap) n s s' → n + work s' ≤ work s) ∧
  (quiescent s → ∀ c, ended s c = total (is_id c) (ws_accepted s)) ∧
  (∀ id m, (id, m) ∈ ws_sending s →
     ∃ l1 w l2, ws_workers s = l1 ++ w :: l2 ∧ wk_id w = id ∧ wk_ch w = [] ∧ wk_pc w = Waiting).
Proof.
  intros Hok%workers_reachable_ok. split_and!.
  - by apply quiescent_step.
  - intros n s'. apply worker_steps_bound.
  - intros Hq c. rewrite (wo_conns _ Hok), quiescent_pending by done. done.
  - intros id m. by apply sending_ready.
Qed.
End workers.

(** With the default threshold and idle workers in the order of their last use, cleaning does
    not panic, stops at most half of them, the longest idle ones, and only workers that were
    idle for longer than the limit. *)
Theorem clean_stops_idle now wp :
  by_age (wp_ready wp) →
  ∃ k, workerPool.clean (DefaultCleanThresholdFunc now) wp
       = Some (take k (wp_ready wp), wp <| wp_ready := drop k (wp_ready wp) |>) ∧
    2 * k ≤ length (wp_ready wp) ∧
    Forall (λ ch, wp_MaxIdleWorkerDuration wp < now - wc_lastUseTime ch)%Z (take k (wp_ready wp)).
Proof. apply clean_default. Qed.

Definition sample_workers : workers := accept (accept (workers_init 1 5 false) false 7) false 8.

Lemma sample_workers_reachable threshold :
  rtc (workers_step threshold 1) (workers_init 1 5 false) sample_workers.
Proof. eapply rtc_l; [apply (step_accept _ _ _ false 7)|]. eapply rtc_once, (step_accept _ _ _ false 8). Qed.


Lemma worker_pool_progress_witness : ∃ s', worker_step 1 sample_workers s'.
Proof.
  destruct (worker_pool_progress DefaultCleanThresholdFunc 1 1 5 false sample_workers
    (sample_workers_reachable _)) as ([[Hq _]|Hs]&_); [done|exact Hs].
Defined.

Lemma clean_stops_idle_witness :
  ∃ k, workerPool.clean (DefaultCleanThresholdFunc 100)
         (mkWorkerPool 2 false false 5 4 [mkChan 0 1; mkChan 1 1; mkChan 2 3; mkChan 3 99] true)
       = Some (take k [mkChan 0 1; mkChan 1 1; mkChan 2 3; mkChan 3 99],
               mkWorkerPool 2 false false 5 4 (drop k [mkChan 0 1; mkChan 1 1; mkChan 2 3; mkChan 3 99]) true) ∧
       2 * k ≤ 4.
Proof.
  destruct (clean_stops_idle 100
    (mkWorkerPool 2 false false 5 4 [mkChan 0 1; mkChan 1 1; mkChan 2 3; mkChan 3 99] true)) as (k&E&Hk&_).
  - intros i j x y Hij. do 4 (destruct i as [|i]; [do 4 (destruct j as [|j]; [cbn; intros; simplify_eq; cbn; lia|]);
      cbn; intros; by destruct j|destruct j as [|j]; [lia|]]); cbn; intros; by destruct i.
  - exists k. by split.
Defined.

(** * Connections of an address *)

(** C36: however connections of addresses are let in, refused and closed at once, every counter is
    the number of its connections, and no address has more of them served than allowed. *)
Theorem per_ip_accounting max s :
  rtc (perIP_step max) perIP_init s →
  (∀ ip, perIP_count (ps_counter s) ip = of_ip ip (ps_live s) + of_ip ip (ps_refused s))%Z ∧
  (∀ ip, of_ip ip (ps_live s) ≤ Z.max 0 max)%Z.
Proof. by intros (?&?&_)%perIP_reachable_ok. Qed.

Lemma per_ip_accounting_witness :
  ∃ s, rtc (perIP_step 1) perIP_init s ∧ perIP_count (ps_counter s) 5 = 2%Z ∧ (of_ip 5 (ps_live s) ≤ 1)%Z.
Proof.
  assert (∃ s, rtc (perIP_step 1) perIP_init s ∧ ps_live s = [5%Z] ∧ ps_refused s = [5%Z]) as (s&Hr&E1&E2).
  { eexists. split.
    - eapply rtc_l; [eapply (perIP_admit 1 perIP_init 5); [reflexivity|vm_compute; discriminate]|].
      eapply rtc_once. eapply (perIP_refuse 1 _ 5); [reflexivity|vm_compute; reflexivity].
    - done. }
  destruct (per_ip_accounting 1 s Hr) as [Hc Hl]. exists s. split; [done|].
  split; [rewrite Hc, E1, E2; vm_compute; reflexivity|]. apply Hl.
Defined.

(** * Values of a request *)

(** The slice of user values is a map: with keys that can be compared no operation panics,
    [Get] finds what was set last, a byte slice and the string of its bytes are one key,
    [Remove] forgets a key and no other, whatever the order the elements are moved into, and
    [Reset] forgets all. *)
Theorem user_data_refines_map d key v :
  userData_ok d → comparable key →
  userData.Get d key = Some (value_of d key) ∧
  (∃ d', userData.Set_ d key v = Some d' ∧ userData_ok d' ∧
     ∀ k, value_of d' k = if decide (stringKey k = stringKey key) then v else value_of d k) ∧
  (∃ d', userData.Remove d key = Some d' ∧ userData_ok d' ∧
     ∀ k, value_of d' k = if decide (stringKey k = stringKey key) then None else value_of d k) ∧
  userData_ok (userData.Reset d).2 ∧ (∀ k, value_of (userData.Reset d).2 k = None).
Proof.
  intros Hd Hk. split; [by apply Get_value_of|]. split; [by apply Set_value_of|].
  split; [by apply Remove_value_of|]. apply Reset_value_of.
Qed.

Lemma user_data_refines_map_witness :
  let d := mkUserData [UserData.mkKV (Some (keyString (bs "a"))) None] [] in
  ∃ d', userData.Set_ d (Some (keyBytes (bs "b"))) (Some (mkValue 1 false)) = Some d' ∧
    value_of d' (Some (keyString (bs "b"))) = Some (mkValue 1 false).
Proof.
  cbv zeta. destruct (user_data_refines_map (mkUserData [UserData.mkKV (Some (keyString (bs "a"))) None] [])
    (Some (keyBytes (bs "b"))) (Some (mkValue 1 false))) as (_&(d'&E&_&Hv)&_).
  - split; [by apply NoDup_singleton|by apply Forall_singleton].
  - done.
  - exists d'. split; [exact E|]. by rewrite Hv.
Defined.

(** * The load balancer *)

(** The balancer chooses a client of the least load, counting the pending requests and the
    penalty, and among these of the fewest requests so far; after the last client was removed
    it panics. *)
Theorem balancer_least_loaded pending cc :
  lc_once cc = true →
  match LBClient.get pending cc with
  | (Some c, cc') => c ∈ lc_cs cc ∧ Forall (lighter_eq pending c) (lc_cs cc) ∧ cc' = cc
  | (None, _) => lc_cs cc = []
  end.
Proof.
  intros Ho. unfold LBClient.get, LBClient.once. rewrite Ho. destruct (lc_cs cc) as [|m cs]; [done|].
  destruct (get_loop_least pending m cs) as (Hin&Hm&Hall). split; [|split; [by constructor|done]].
  apply elem_of_cons. destruct Hin; auto.
Qed.

Lemma balancer_least_loaded_witness :
  Forall (lighter_eq (λ _, 3%Z) (mkLb 3 1 4)) [mkLb 1 2 0; mkLb 2 1 9; mkLb 3 1 4].
Proof.
  apply (balancer_least_loaded (λ _, 3%Z) (mkLBClient [1; 2] 0 [mkLb 1 2 0; mkLb 2 1 9; mkLb 3 1 4] true) eq_refl).
Defined.

(** Whatever requests fail and timers fire at once, a client's penalty is the number of
    penalties not yet taken back, at most the maximum of them counted by timers, and it never
    wraps around. *)
Theorem penalties_bounded c s :
  lb_penalty c = 0%Z → rtc penalty_step (mkPenalties c 0 0) s →
  lb_penalty (pn_client s) = Z.of_nat (pn_timers s + pn_excess s) ∧ (Z.of_nat (pn_timers s) ≤ maxPenalty)%Z.
Proof. intros Hc Hr. by destruct (penalty_reachable_ok c s Hc Hr) as (?&?&_). Qed.

Lemma penalties_bounded_witness :
  ∃ s, rtc penalty_step (mkPenalties (mkLb 1 0 0) 0 0) s ∧ lb_penalty (pn_client s) = 1%Z.
Proof.
  eexists. split.
  - eapply rtc_once, (penalty_add (mkPenalties (mkLb 1 0 0) 0 0) 1); [reflexivity|vm_compute; discriminate].
  - destruct (penalties_bounded (mkLb 1 0 0) (mkPenalties (mkLb 1 1 0) 1 0)) as [E _]; [done| |exact E].
    eapply rtc_once, (penalty_add (mkPenalties (mkLb 1 0 0) 0 0) 1); [reflexivity|vm_compute; discriminate].
Defined.
