(* ===== verification/FsTheorems.v ===== *)
(** The properties of the file server: the accounting of its open files, what a request for a
    file is answered, byte ranges, and where the code does not do what it means to. *)

From Stdlib Require Import ZArith Strings.Byte.
From stdpp Require Import prelude strings list gmap.
From S2P Require Import Prelude Tables Bufio Bytesconv BytesconvFacts Args Uri Cookie GoTimeUTC Headers HeaderScan Body StreamFacts.
From S2P Require Import ReqHeader RespHeader Http HttpResp UserData PerIP RequestCtx.
From S2P Require Import Fs FsHandler FsFacts FsAccount FsServe FsConfine HttpTheorems.

(** * Open files *)

Section files.
Context `{GoClock} `{FsLib} `{ByteBufferOps} (limit : Z) (h : fsHandler) (duration : Z).


(** A tick of the cleaner's second half ends after as many looks as there are files in its list,
    and releases all of them, when none is being read; but when the second file of the list is
    being read it ends after no number of looks: it waits, without a pause, for that reader. *)
Theorem pending_files_released T ids st :
  fs_wf T ids [] [] st →
  ((∀ i, i ∈ st_pending st → i ∉ ids) →
     ∃ st', handlePendingCache (length (st_pending st)) st = Some (inl pendingDone, st') ∧ st_pending st' = []) ∧
  (∀ head i rest rounds, st_pending st = head :: i :: rest → i ∈ ids →
     handlePendingCache rounds st = Some (inl stillSpinning, st)).
Proof.
  intros Hwf. split.
  - intros Hn. destruct (handlePending_done T ids st Hwf Hn) as (st'&?&_&?). by exists st'.
  - intros head i rest rounds Hp Hi.
    destruct (wf_lookup _ _ _ _ _ i Hwf) as (ff&Hff); [rewrite Hp; set_solver|].
    eapply handlePending_spins; [done|done|].
    rewrite (in_use_count _ _ (wf_live _ _ _ _ _ Hwf i ff Hff ltac:(rewrite Hp; set_solver))).
    intros Hz. apply (occ_zero i ids); [lia|done].
Qed.
End files.

(** * Requests *)

Section requests.
Context `{GoClock} `{FsLib} `{ByteBufferOps} (limit : Z) (h : fsHandler) (os : osAnswers).


(** C5: a request cannot look outside of the root: with absolute roots and without a function that
    rewrites paths, two file systems that agree on the names in the root and in the root of the
    compressed files, none with an element "..", cannot be told apart by a request that is read
    from a connection: it has the same outcome and leaves the same state, with file systems that
    agree as before and only such names open. *)
Theorem requests_confined x st disk :
  sane h → h_os h = true → h_pathRewrite h = None → rq_parsedURI (cx_Request x) = false →
  Forall (λ ff, visible h (ff_filename ff)) (st_heap st) → agree (visible h) (st_disk st) disk →
  same_run (visible h) (handleRequest limit h os x st) (handleRequest limit h os x (st <| st_disk := disk |>)).
Proof.
  intros Hs Hos Hrw Hq Hn Ha.
  exact (handleRequest_confined limit h os x Hs Hos Hrw Hq st (st <| st_disk := disk |>) (conj Ha (conj eq_refl Hn))).
Qed.

(** A range of a small file that can be satisfied makes the handler panic: the reader of small
    files does not have the method the handler asserts. *)
Theorem small_file_range_panics T ids x x' path n data st r :
  fs_wf T ids [] [] st → asks h x x' path n st → servable n data → IfModifiedSince x' (nd_mtime n) = true →
  (Z.of_nat (length data) ≤ MaxSmallFileSize)%Z → h_acceptByteRange h = true → rangeOf x' ≠ [] →
  ParseByteRange (rangeOf x') (Z.of_nat (length data)) = inl r →
  handleRequest limit h os x st = None.
Proof. apply handleRequest_small_range. Qed.

(** With a suffix of the user's own for compressed files the handler has the empty suffix: it
    takes the file itself for its compressed copy, and serves its plain bytes as compressed. *)
Theorem custom_suffix_serves_plain T ids fs wd n data path k st :
  suffix_of fs k ≠ [] → FS_FS fs = false →
  fs_wf T ids [] [] st → servable n data → data ≠ [] → st_disk st !! path = Some n →
  ∃ i st', compressAndOpenFSFile (initRequestHandler fs wd) os (nd_handle n) n path true k st = Some (inl i, st') ∧
    fileIs i (λ ff, holds data st' ff ∧ ff_compressed ff = true) st'.
Proof.
  intros Hs Hf Hwf Hsv Hne Hp. eapply compress_no_suffix; [done..| |by apply init_suffix].
  unfold initRequestHandler. destruct (if bool_decide _ then _ else _) as [[o1 o2] o3]. cbn. by rewrite Hf.
Qed.
End requests.

(** * Byte ranges *)


(** C22: copying from a reader, with a buffer of any size, writes exactly the bytes of its range and
    ends: for a small file, read at the reader's own position through the shared open file or
    written with [WriteTo], and for a big one, read through the reader's own copy and a limit. *)
Theorem file_readers_deliver `{GoTime} fuel buflen w :
  0 < buflen → w_room w = None →
  (∀ ff r, small_inside (ff, r) → length (small_left (ff, r)) < fuel →
     ∃ s', copyZeroAlloc fuel buflen 0 w (ff, r) 0
           = Some (Z.of_nat (length (small_left (ff, r))), None, mkWriter (w_out w ++ small_left (ff, r)) None, s')) ∧
  (∀ ff r, small_inside (ff, r) →
     smallWriteTo w ff r
       = Some (Z.of_nat (length (small_left (ff, r))), None, mkWriter (w_out w ++ small_left (ff, r)) None)) ∧
  (∀ r, big_inside r → length (left_of [] (aBigReader r)) < fuel →
     ∃ s', copyZeroAlloc fuel buflen 0 w r 0
           = Some (Z.of_nat (length (left_of [] (aBigReader r))), None,
                   mkWriter (w_out w ++ left_of [] (aBigReader r)) None, s')).
Proof.
  intros Hb Hw. split_and!; [|intros ff r Hin; by apply smallWriteTo_all|].
  - intros ff r Hin Hf.
    edestruct (copyZeroAlloc_delivers _ _ small_delivers fuel buflen 0 w (ff, r) 0) as (s'&->&_); [done..|]. by exists s'.
  - intros r Hin Hf.
    edestruct (copyZeroAlloc_delivers _ _ big_delivers fuel buflen 0 w r 0) as (s'&->&_); [done..|]. by exists s'.
Qed.

(** * Witnesses *)

(** Times in whole seconds, and a compression package that marks what it compressed. *)
#[local] Instance sample_clock : @GoClock GoTimeUTC :=
  Build_GoClock GoTimeUTC (λ t : Z, (t * 10 ^ 9)%Z) format_rfc1123.

#[local] Instance sample_lib : FsLib := {|
  orderName o := match o with emptyOrder => [] | Br => bs "br" | Gzip => bs "gzip" | Zstd => bs "zstd" | Dump => bs "dump" end;
  compressTo k b := zb (Z.of_nat (kind_index k)) :: b;
  typeByExtension e := if bool_decide (e = bs ".txt") then bs "text/plain" else [];
  detectContentType _ := bs "application/octet-stream";
  checkMimeOk ct := HasPrefix ct (bs "text/")
|}.

#[local] Existing Instance sample_buffers.

Definition sample_small : fsNode := mkNode _ (Some (bs "hello")) 0 1000%Z None true true.
Definition sample_bytes : bytes := bs "0123456789" ++ repeat "x"%byte (Z.to_nat 9000).
Definition sample_big : fsNode := mkNode _ (Some sample_bytes) 0 1000%Z None true true.
Definition sample_disk : gmap bytes fsNode :=
  <[bs "/srv/a.txt" := sample_small]> (<[bs "/srv/big" := sample_big]> ∅).

Definition sample_fs : FS :=
  mkFS false (bs "/srv/") [bs "index.html"] [] None None false (emptyOrder, emptyOrder, emptyOrder)
    true false true false 0 ([], bs ".gz", []) None 0.
Definition sample_handler : fsHandler := initRequestHandler sample_fs None.
Definition sample_os : osAnswers := mkOs _ 2000%Z false None false false false.

Definition sample_get (path range : bytes) : RequestCtx :=
  let q := Request.SetRequestURI Request_zero path in
  RequestCtx_zero <| cx_Request := q <| rq_Header := RequestHeader.setNonSpecial (rq_Header q) strRange range |> |>.

Lemma sample_wf : fs_wf [] [] [] [] (fs_start sample_disk).
Proof. apply (fs_inv_start sample_disk). Qed.

(** The path of a request for a name of the sample directory. *)
Definition sample_parsed (path range : bytes) : RequestCtx := (RequestCtx.Path (sample_get path range)).2.

Lemma sample_ask path range n :
  (RequestCtx.Path (sample_get path range)).1 = path → path ≠ [] → x00 ∉ path → last path ≠ Some "/"%byte →
  sample_disk !! (bs "/srv" ++ path) = Some n →
  asks sample_handler (sample_get path range) (sample_parsed path range) path n (fs_start sample_disk).
Proof.
  intros Hp Hne Hnul Hl Hd. split; try done.
  unfold sample_parsed. rewrite (surjective_pairing (RequestCtx.Path _)) at 1. by rewrite Hp.
Qed.


Lemma sample_small_at : sample_disk !! (bs "/srv" ++ bs "/a.txt") = Some sample_small.
Proof. apply lookup_insert_eq. Qed.


Lemma sample_small_servable : servable sample_small (bs "hello").
Proof. split; try done. Qed.


Lemma small_file_range_panics_witness :
  handleRequest 0 sample_handler sample_os (sample_get (bs "/a.txt") (bs "bytes=0-1")) (fs_start sample_disk) = None.
Proof.
  refine (small_file_range_panics 0 sample_handler sample_os [] [] (sample_get (bs "/a.txt") (bs "bytes=0-1"))
            (sample_parsed (bs "/a.txt") (bs "bytes=0-1")) (bs "/a.txt") sample_small (bs "hello") (fs_start sample_disk)
            (0, 1)%Z sample_wf _ sample_small_servable _ _ _ _ _).
  - refine (sample_ask (bs "/a.txt") (bs "bytes=0-1") sample_small _ _ _ _ sample_small_at).
    + vm_compute. reflexivity.
    + discriminate.
    + apply (bool_decide_unpack _). vm_compute. exact I.
    + discriminate.
  - vm_compute. reflexivity.
  - vm_compute. discriminate.
  - reflexivity.
  - vm_compute. discriminate.
  - vm_compute. reflexivity.
Defined.


(** Two files the cleaner took from the cache; the second is being read. *)
Definition sample_used (readers : Z) : fsFile :=
  newSmallFsFile <| ff_h := true |> <| ff_readersCount := readers |>.
Definition sample_pending : fsState := mkFsState _ ∅ [sample_used 0; sample_used 1] [] [] ∅ [0; 1] 0 [].

Lemma sample_pending_wf : fs_wf [] [1] [] [] sample_pending.
Proof.
  split; try done; try set_solver.
  intros [|[|i]] ff Hff _; [..|done]; injection Hff as <-; by split.
Qed.

Lemma pending_files_released_witness :
  handlePendingCache 100 sample_pending = Some (inl stillSpinning, sample_pending).
Proof.
  apply (proj2 (pending_files_released [] [1] sample_pending sample_pending_wf) 0 1 [] 100); [reflexivity|by left].
Defined.

Lemma custom_suffix_serves_plain_witness :
  ∃ i st', compressAndOpenFSFile (initRequestHandler sample_fs None) sample_os (nd_handle sample_small) sample_small
             (bs "/srv/a.txt") true gzipCacheKind (fs_start sample_disk) = Some (inl i, st') ∧
    fileIs i (λ ff, holds (bs "hello") st' ff ∧ ff_compressed ff = true) st'.
Proof.
  apply (custom_suffix_serves_plain sample_os [] [] sample_fs None sample_small (bs "hello") (bs "/srv/a.txt") gzipCacheKind).
  - discriminate.
  - reflexivity.
  - exact sample_wf.
  - exact sample_small_servable.
  - discriminate.
  - exact sample_small_at.
Defined.


Lemma file_readers_deliver_witness :
  ∃ s', copyZeroAlloc 10 2 0 (mkWriter [] None) (mkBig 0 (hFile (bs "0123456789")) true 2 (Some 3%Z)) 0
        = Some (3%Z, None, mkWriter (bs "234") None, s').
Proof.
  apply (proj2 (proj2 (file_readers_deliver 10 2 (mkWriter [] None) ltac:(lia) eq_refl))
           (mkBig 0 (hFile (bs "0123456789")) true 2 (Some 3%Z))).
  - exists (bs "0123456789"). split; [reflexivity|]. cbn. lia.
  - apply Nat.ltb_lt. reflexivity.
Defined.

Lemma sample_sane : sane sample_handler.
Proof.
  split.
  - exists (bs "srv"). split; [reflexivity|]. by apply (bool_decide_unpack _).
  - exists (bs "srv"). split; [reflexivity|]. by apply (bool_decide_unpack _).
  - intros name ->%list_elem_of_singleton. by split; apply (bool_decide_unpack _).
  - intros [| | |]; [by left| |by left|]; right;
      (split; [by right|split; [by apply (bool_decide_unpack _)|apply Nat.leb_le; reflexivity]]).
Qed.

Lemma requests_confined_witness :
  agree (visible sample_handler) sample_disk (<[bs "/etc/passwd" := sample_small]> sample_disk) ∧
  fst <$> handleRequest 0 sample_handler sample_os (sample_get (bs "/../etc/passwd") []) (fs_start sample_disk)
  = fst <$> handleRequest 0 sample_handler sample_os (sample_get (bs "/../etc/passwd") [])
              (fs_start (<[bs "/etc/passwd" := sample_small]> sample_disk)).
Proof.
  assert (agree (visible sample_handler) sample_disk (<[bs "/etc/passwd" := sample_small]> sample_disk)) as Ha.
  { intros p Hp. symmetry. apply lookup_insert_ne. intros <-.
    destruct Hp as [Hp|(_&r&q&[-> | ->]&Hp&_)]; vm_compute in Hp; discriminate. }
  split; [exact Ha|].
  pose proof (requests_confined 0 sample_handler sample_os (sample_get (bs "/../etc/passwd") []) (fs_start sample_disk)
    (<[bs "/etc/passwd" := sample_small]> sample_disk) sample_sane eq_refl eq_refl eq_refl (Forall_nil_2 _) Ha) as Hc.
  exact (same_run_result _ _ _ Hc).
Defined.
