(* ===== verification/PipelineTheorems.v ===== *)
(** The properties of the pipelining client: where its works are, that responses are matched
    with requests, and two ways in which the code fails. *)

From Stdlib Require Import ZArith ZifyNat Strings.Byte.
From stdpp Require Import prelude strings list.
From S2P Require Import Prelude Tables Bufio Bytesconv Args Uri Headers HeaderScan Body.
From S2P Require Import ReqHeader RespHeader Http HttpResp HttpFacts HostClient Client Pipeline PipelineFacts PipelineOrder.
From S2P Require Import Theorems HttpTheorems.
Import pipelineConnClient.

(** * Lists by their counts *)

Lemma is_in_concat x (l : list (list nat)) : is_in x (concat l) = total (is_in x) l.
Proof. induction l as [|q l IH]; [done|]. cbn. by rewrite is_in_app, IH. Qed.

Lemma is_in_bind {A} x (f : A → list nat) l : is_in x (l ≫= f) = total (λ a, is_in x (f a)) l.
Proof. induction l as [|a l IH]; [done|]. cbn. by rewrite is_in_app, IH. Qed.

Lemma is_in_le_NoDup l : (∀ x, is_in x l ≤ 1) → NoDup l.
Proof.
  induction l as [|y l IH]; intros Hl; [apply NoDup_nil_2|]. apply NoDup_cons. split.
  - apply is_in_0. specialize (Hl y). rewrite is_in_cons in Hl. unfold is_id in Hl. rewrite decide_True in Hl by done. lia.
  - apply IH. intros x. specialize (Hl x). rewrite is_in_cons in Hl. lia.
Qed.

Lemma perm_counts l n : (∀ x, is_in x l = known x n) → l ≡ₚ seq 0 n.
Proof.
  intros Hl. apply NoDup_Permutation.
  - apply is_in_le_NoDup. intros x. rewrite Hl. unfold known. destruct (x <? n); lia.
  - apply NoDup_seq.
  - intros x. rewrite elem_of_seq. specialize (Hl x). unfold known in Hl. pose proof (is_in_0 x l) as H0.
    destruct (Nat.ltb_spec x n); split; try lia; intros Hx; [destruct (decide (x ∈ l)); [done|]; apply H0 in n0; lia|].
    exfalso. by apply H0 in Hl.
Qed.

(** * Works *)

Definition signalled_works (st : pipelineConnClient) : list nat :=
  filter (λ w, signals w (pl_works st) ≠ 0) (seq 0 (length (pl_works st))).

Section pipeline.
Context `{ByteBufferOps} `{MultipartOps} (requestLimit responseLimit : Z) (cfg : PipelineConfig) (elsewhere : Reader).
Abbreviation run := (run requestLimit responseLimit cfg elsewhere).

Lemma signalled_count st x : pipe_ok st → is_in x (signalled_works st) = signals x (pl_works st).
Proof.
  intros Hok. pose proof (po_places _ Hok x) as Hp. unfold places, known in Hp.
  assert (signals x (pl_works st) ≤ 1) as Hle by (destruct (x <? _); lia).
  destruct (decide (x ∈ signalled_works st)) as [Hin|Hin].
  - assert (is_in x (signalled_works st) ≤ 1).
    { assert (NoDup (signalled_works st)) as Hnd by (apply NoDup_filter, NoDup_seq). clear -Hnd.
      induction Hnd as [|y l Hy _ IH]; [rewrite is_in_nil; lia|]. rewrite is_in_cons. unfold is_id. case_decide; [subst|lia].
      apply is_in_0 in Hy. lia. }
    assert (is_in x (signalled_works st) ≠ 0) by (rewrite is_in_0; auto).
    apply list_elem_of_filter in Hin as [Hs _]. lia.
  - rewrite (proj2 (is_in_0 x _) Hin). destruct (decide (signals x (pl_works st) = 0)) as [|Hs]; [done|]. exfalso. apply Hin.
    apply list_elem_of_filter. split; [done|]. rewrite elem_of_seq. unfold signals in Hs.
    destruct (pl_works st !! x) eqn:Hx; [|done]. apply lookup_lt_Some in Hx. lia.
Qed.

(** C11: however calls, timeouts, the writers, the readers and the workers of a pipelining client
    take turns, and however often its connections fail, every work is in exactly one place: in
    the pool, with a call, in a channel, with a goroutine, or signalled. A signal to the caller
    of a work never blocks, and a call that waits has a work of its own. *)
Theorem pipeline_work_accounting l st :
  run pipe_start l = Some st →
  pl_pool st ++ (pl_callers st ≫= λ c, caller_hands (ca_pc c)) ++ concat (pl_chans st) ++ (pl_workers st ≫= worker_hands)
    ++ signalled_works st ≡ₚ seq 0 (length (pl_works st)) ∧
  (∀ w e, w ∈ (pl_callers st ≫= λ c, caller_hands (ca_pc c)) ++ (pl_workers st ≫= worker_hands) → is_Some (signal st w e)) ∧
  (∀ i c w, pl_callers st !! i = Some c → ca_pc c = cWait w → w ∉ pl_pool st ∧ callOf (pl_works st) w = i).
Proof.
  intros Hok%run_ok. split_and!.
  - apply perm_counts. intros x. rewrite <- (po_places _ Hok), !is_in_app, signalled_count, is_in_concat, !is_in_bind by done.
    unfold places. lia.
  - intros w e Hw. unfold signal.
    assert (1 ≤ total (λ c, is_in w (caller_hands (ca_pc c))) (pl_callers st) + total (λ k, is_in w (worker_hands k)) (pl_workers st))
      as Hc.
    { rewrite <- !is_in_bind, <- is_in_app.
      pose proof (is_in_0 w ((pl_callers st ≫= λ c, caller_hands (ca_pc c))
        ++ (pl_workers st ≫= worker_hands))) as Hz. destruct (is_in w _); [|lia]. by apply Hz in Hw. }
    destruct (counted_live st w Hok ltac:(lia)) as [Hlt _]. destruct (lookup_lt_is_Some_2 _ _ Hlt) as [x Hx].
    pose proof (one_place st w x Hok Hx). rewrite Hx. cbn. replace (pw_done x) with 0 by lia. by eexists.
  - intros i c w Hc Hpc. destruct (po_calls _ Hok i c w Hc ltac:(by rewrite Hpc)) as (?&_&?). done.
Qed.

(** * Answers *)

(** C10: as long as the client has not dropped its channels, the responses read from a connection
    are those to the first requests written to it, in the order of the requests, no request is
    written twice, and a call that returns without an error returns the response that was read
    for it. *)
Theorem pipeline_answers_in_order l st :
  run pipe_start l = Some st → pl_resets st = 0 →
  (∀ c, reads c (pl_trace st) `prefix_of` writes c (pl_trace st)) ∧ NoDup (written (pl_trace st)) ∧
  (∀ i resp, evReturn i None resp ∈ pl_trace st →
     ∃ c p, evRead c i p ∈ pl_trace st ∧ i ∈ writes c (pl_trace st) ∧ given responseLimit p resp).
Proof.
  intros Hr Hz. pose proof (run_order _ _ _ _ _ _ Hr Hz) as Ho. destruct (run_answered _ _ _ _ _ _ Hr) as [_ Ha].
  split_and!; [apply Ho|apply Ho|]. intros i resp (p&[c Hc]&Hg)%(an_return _ _ Ha). exists c, p. split_and!; [done| |done].
  eapply elem_of_prefix; [|apply (or_prefix _ Ho)]. unfold reads. apply list_elem_of_omap.
  exists (evRead c i p). cbn. by rewrite Nat.eqb_refl.
Qed.

Lemma read_on_written st c i p : in_order st → evRead c i p ∈ pl_trace st → i < length (pl_callers st).
Proof.
  intros Ho Hc. apply (nu_written _ (or_numbered _ Ho)).
  assert (i ∈ writes c (pl_trace st)) as Hw.
  { eapply elem_of_prefix; [|apply (or_prefix _ Ho)]. unfold reads. apply list_elem_of_omap.
    exists (evRead c i p). cbn. by rewrite Nat.eqb_refl. }
  unfold writes in Hw. apply list_elem_of_omap in Hw as (e&He&Hi). unfold written. apply list_elem_of_omap. exists e.
  split; [done|]. destruct e; try done. cbn in Hi. by destruct (_ =? c).
Qed.

(** C38: once the goroutine of a client has stopped, because the connection was idle, the client
    never answers a call again: the channels are still there, so that no goroutine is started
    for them, and every later call ends with an error or not at all. *)
Theorem idle_pipeline_dies l st l' st' :
  run pipe_start l = Some st → pl_resets st = 0 → pl_workers st ≠ [] → (∀ k, k ∈ pl_workers st → wk_pc k = kGone) →
  run st l' = Some st' →
  ∀ i resp, evReturn i None resp ∈ pl_trace st' → i < length (pl_callers st).
Proof.
  intros Hr Hz Hne Hg Hr'. pose proof (run_order _ _ _ _ _ _ Hr Hz) as Ho.
  destruct (run_answered _ _ _ _ _ _ Hr) as [Hok Ha].
  assert (dead_since (length (pl_callers st)) st) as Hd.
  { split.
    - split; [|done]. destruct (or_shape _ Ho) as [(E&_)|(k&cr&cw&_&E&_)]; [done|]. by rewrite E.
    - intros w x Hx Hdn He. destruct (an_work _ _ Ha w x Hx Hdn He) as [c Hc]. by eapply read_on_written.
    - intros c i p. by apply read_on_written.
    - intros i resp (p&[c Hc]&_)%(an_return _ _ Ha). by eapply read_on_written. }
  assert (pipe_ok st' ∧ dead_since (length (pl_callers st)) st') as [_ Hd'].
  { revert Hr'. apply (run_ind _ _ _ _ (λ s, pipe_ok s ∧ dead_since (length (pl_callers st)) s)); [|done].
    intros s a s' [Hs1 Hs2] E. split; [by eapply act_ok|by eapply act_dead]. }
  intros i resp. apply (de_return _ _ Hd').
Qed.
End pipeline.

(** * The connections *)

Definition pending (cc : pipelineConnClient) : nat := (pipelineConnClient.PendingRequests cc).1.

Lemma init_twice st : init (init st) = init st.
Proof. unfold init at 2 3. destruct (pl_chR st) eqn:E; [unfold init; by rewrite E|]. cbn. by destruct (pl_chW st). Qed.

Lemma pending_counted cc n cc1 : pipelineConnClient.PendingRequests cc = (n, cc1) → pending cc1 = n.
Proof. unfold pending, pipelineConnClient.PendingRequests. cbv zeta. intros E. injection E as <- <-. by rewrite init_twice. Qed.

Lemma leastPending_spec ccs i best res ccs' :
  PipelineClient.leastPending ccs i best = (res, ccs') →
  length ccs' = length ccs ∧
  match res with
  | inl j => i ≤ j ∧ ∃ cc, ccs' !! (j - i) = Some cc ∧ pending cc = 0
  | inr None => best = None ∧ ccs = []
  | inr (Some (j, n)) =>
      (best = Some (j, n) ∨ i ≤ j ∧ ∃ cc, ccs' !! (j - i) = Some cc ∧ pending cc = n) ∧
      (∀ m, best = Some m → n ≤ m.2) ∧ ∀ cc, cc ∈ ccs' → n ≤ pending cc
  end.
Proof.
  revert i best res ccs'. induction ccs as [|cc ccs IH]; intros i best res ccs'; cbn [PipelineClient.leastPending].
  { intros E; injection E as <- <-. split; [done|]. destruct best as [[j n]|]; [|done]. split_and!; [by left| |set_solver]. by intros m [= <-]. }
  destruct (pipelineConnClient.PendingRequests cc) as [reqs cc1] eqn:Ep. apply pending_counted in Ep.
  destruct (Nat.eqb_spec reqs 0) as [->|Hn].
  { intros E. injection E as <- <-. split; [done|]. split; [done|]. rewrite Nat.sub_diag. by exists cc1. }
  set (best' := match best with Some (j, n) => if reqs <? n then Some (i, reqs) else Some (j, n) | None => Some (i, reqs) end).
  destruct (PipelineClient.leastPending ccs (S i) best') as [res1 ccs1] eqn:El. intros E; injection E as <- <-.
  destruct (IH _ _ _ _ El) as [Hlen Hres]. split; [cbn; by rewrite Hlen|].
  assert (∀ j cc, S i ≤ j → ccs1 !! (j - S i) = Some cc → (cc1 :: ccs1) !! (j - i) = Some cc) as Hshift.
  { intros j c Hj Hc. by replace (j - i) with (S (j - S i)) by lia. }
  destruct res1 as [j|[[j n]|]].
  - destruct Hres as (Hj&c&Hc&Hp). split; [lia|]. eauto.
  - destruct Hres as (Hb&Hle&Hall). assert (n ≤ reqs) as Hr.
    { unfold best' in Hle. destruct best as [[j' n']|]; [|by apply (Hle (i, reqs))].
      destruct (Nat.ltb_spec reqs n'); [by apply (Hle (i, reqs))|]. specialize (Hle _ eq_refl). cbn in Hle. lia. }
    split_and!.
    + destruct Hb as [Hb|(Hj&c&Hc&Hp)]; [|right; split; [lia|eauto]]. unfold best' in Hb.
      destruct best as [[j' n']|]; [destruct (reqs <? n')|]; simplify_eq; [|by left|];
        right; (split; [done|]); exists cc1; by rewrite Nat.sub_diag.
    + intros [j' n'] ->. cbn. unfold best' in Hle. destruct (Nat.ltb_spec reqs n').
      * specialize (Hle _ eq_refl). cbn in Hle. lia.
      * by apply (Hle (j', n')).
    + intros c [->|Hc]%elem_of_cons; [lia|by apply Hall].
  - destruct Hres as [Hb _]. unfold best' in Hb. destruct best as [[j' n']|]; [by destruct (reqs <? n')|done].
Qed.

(** A request goes to a connection without requests, a new one if need be, and only when all
    the allowed connections have requests to one with the fewest; there are never more
    connections than allowed. *)
Theorem pipeline_least_pending cfg ccs i ccs' :
  PipelineClient.getConnClientUnlocked cfg ccs = (i, ccs') →
  (∃ cc, ccs' !! i = Some cc ∧
     (pending cc = 0 ∨
      (PipelineClient.MaxConns cfg ≤ Z.of_nat (length ccs'))%Z ∧ ∀ cc', cc' ∈ ccs' → pending cc ≤ pending cc')) ∧
  ((Z.of_nat (length ccs) ≤ PipelineClient.MaxConns cfg)%Z → (Z.of_nat (length ccs') ≤ PipelineClient.MaxConns cfg)%Z).
Proof.
  unfold PipelineClient.getConnClientUnlocked.
  assert (1 ≤ PipelineClient.MaxConns cfg)%Z by (unfold PipelineClient.MaxConns; case_match; lia).
  destruct (PipelineClient.leastPending ccs 0 None) as [[j|[[j n]|]] ccs1] eqn:El; apply leastPending_spec in El as [Hlen Hl].
  - intros E; injection E as <- <-. destruct Hl as (_&cc&Hc&Hp). rewrite Nat.sub_0_r in Hc. split; [eauto|lia].
  - destruct Hl as ([?|(_&cc&Hc&Hp)]&_&Hall); [done|]. rewrite Nat.sub_0_r in Hc.
    destruct (Z.ltb_spec (Z.of_nat (length ccs1)) (PipelineClient.MaxConns cfg)); intros E; injection E as <- <-.
    + split; [|rewrite length_app; cbn; lia]. exists pipe_start. rewrite list_lookup_middle by done. by auto.
    + split; [|lia]. exists cc. split; [done|]. right. split; [done|]. by rewrite Hp.
  - intros E; injection E as <- <-. destruct Hl as [_ ->]. destruct ccs1; [|done]. split; [|cbn; lia]. exists pipe_start. by auto.
Qed.

(** * Concrete runs *)

#[local] Existing Instance sample_buffers.
#[local] Existing Instance sample_forms.

Definition sample_pipeline : PipelineConfig := mkPipelineConfig [] 1 2 0 0 0 false false false.
Definition reply (b : bytes) : Reader :=
  mkReader [] [crlf (bs <$> ["HTTP/1.1 200 OK"; "Content-Length: 2"; ""]) ++ b] EOF 4096 None.
Abbreviation sample_run := (run 0 0 sample_pipeline (reply [])).
Definition dial_to (j : nat) (b : bytes) : action := aDial j [] [] (mkWriter [] None) (reply b).

(** A call that is answered, and the goroutines when nothing follows it. *)
Definition served_call : list action :=
  [aDo sample_post (Some Response_zero); aPut 0; dial_to 0 (bs "ok"); aWriterStart 0; aReaderStart 0; aWriterSelect 0;
   aWrite 0 0 None; aWriterPut 0; aReaderSelect 0; aRead 0 None; aReturn 0].
Definition idle_steps : list action :=
  [aWriterSelect 0; aWriterIdle 0; aReaderSelect 0; aJoin 0; aReaderStop 0; aJoin 0; aDrain 0; aLoop 0].

(** The timer of the idle writer and a new work at the same time, after which two goroutines
    share the new channels. *)
Definition mixing_steps : list action :=
  [aDo sample_post (Some Response_zero); dial_to 0 []; aWriterStart 0; aReaderStart 0; aWriterSelect 0; aReaderSelect 0;
   aPut 0; aWriterIdle 0; aJoin 0; aReaderStop 0; aJoin 0; aDrain 0; aLoop 0;
   aDo sample_post (Some Response_zero); aDo sample_post (Some Response_zero); aPut 1; aPut 2;
   dial_to 0 (bs "r1"); aWriterStart 0; dial_to 1 (bs "r2"); aWriterStart 1; aReaderStart 1;
   aWriterSelect 0; aWrite 0 0 None; aWriterPut 0; aWriterSelect 1; aWrite 1 0 None; aWriterPut 1;
   aReaderSelect 1; aRead 1 None; aReturn 1].

(** C39: when the idle timer fires while a request is queued, the client drops its channels with the
    request and goes on, and the next call starts a second goroutine: both serve the same
    channels, and a call can return without an error with the response to another call, read
    from a connection its own request was never written to. *)
Theorem pipeline_mixes_responses :
  ∃ st p, sample_run pipe_start mixing_steps = Some st ∧ evReturn 1 None (Some p) ∈ pl_trace st ∧
    evRead 2 1 p ∈ pl_trace st ∧ Response.bodyBytes p = bs "r2" ∧
    writes 1 (pl_trace st) = [1] ∧ writes 2 (pl_trace st) = [2].
Proof.
  destruct (sample_run pipe_start mixing_steps) as [st|] eqn:E; [|vm_compute in E; discriminate].
  vm_compute in E. injection E as <-. eexists _, _. split; [reflexivity|]. split_and!.
  - do 6 apply list_elem_of_further. apply list_elem_of_here.
  - do 5 apply list_elem_of_further. apply list_elem_of_here.
  - vm_compute. reflexivity.
  - vm_compute. reflexivity.
  - vm_compute. reflexivity.
Qed.

Lemma pipeline_work_accounting_witness :
  ∃ st, sample_run pipe_start served_call = Some st ∧
    pl_pool st ++ (pl_callers st ≫= λ c, caller_hands (ca_pc c)) ++ concat (pl_chans st) ++ (pl_workers st ≫= worker_hands)
      ++ signalled_works st ≡ₚ [0].
Proof.
  destruct (sample_run pipe_start served_call) as [st|] eqn:E; [|vm_compute in E; discriminate].
  exists st. split; [reflexivity|]. rewrite (proj1 (pipeline_work_accounting 0 0 sample_pipeline (reply []) served_call st E)).
  vm_compute in E. injection E as <-. vm_compute. reflexivity.
Defined.

Lemma pipeline_answers_in_order_witness :
  ∃ st resp, sample_run pipe_start served_call = Some st ∧ evReturn 0 None resp ∈ pl_trace st ∧
    ∃ c p, evRead c 0 p ∈ pl_trace st ∧ 0 ∈ writes c (pl_trace st) ∧ given 0 p resp.
Proof.
  destruct (sample_run pipe_start served_call) as [st|] eqn:E; [|vm_compute in E; discriminate].
  pose proof (pipeline_answers_in_order 0 0 sample_pipeline (reply []) served_call st E) as Hp.
  vm_compute in E. injection E as <-. destruct (Hp eq_refl) as (_&_&Hret).
  eexists _, _. split; [reflexivity|]. assert (∀ P Q : Prop, P → (P → Q) → P ∧ Q) as Hand by (intros; split; auto).
  apply Hand; [|apply Hret]. do 3 apply list_elem_of_further. apply list_elem_of_here.
Defined.

(** The next call is queued, and not answered. *)
Lemma idle_pipeline_dies_witness :
  ∃ st st', sample_run pipe_start (served_call ++ idle_steps) = Some st ∧
    sample_run st [aDo sample_post (Some Response_zero); aPut 1] = Some st' ∧
    ca_pc <$> pl_callers st' = [cReturned; cWait 0] ∧ ∀ resp, evReturn 1 None resp ∉ pl_trace st'.
Proof.
  destruct (sample_run pipe_start (served_call ++ idle_steps)) as [st|] eqn:E; [|vm_compute in E; discriminate].
  destruct (sample_run st [aDo sample_post (Some Response_zero); aPut 1]) as [st'|] eqn:E'.
  2: { vm_compute in E. injection E as <-. vm_compute in E'. discriminate. }
  exists st, st'. split; [reflexivity|]. split; [exact E'|].
  pose proof (idle_pipeline_dies 0 0 sample_pipeline (reply []) _ st [aDo sample_post (Some Response_zero); aPut 1] st' E) as Hd.
  vm_compute in E. injection E as <-. split; [vm_compute in E'; injection E' as <-; reflexivity|].
  intros resp Hin. assert (1 < 1); [|lia]. refine (Hd eq_refl _ _ E' 1 resp Hin).
  - discriminate.
  - intros k ->%list_elem_of_singleton. reflexivity.
Defined.
